(* ===== verification/_CoqProject ===== *)
-Q . S2P
Prelude.v
CString.v
Floats.v
FloatExact.v
Sorting.v
Effects.v
Streams.v
Strtod.v
Calendar.v
Merkle.v
Hash.v
Address.v
Amount.v
Timestamp.v
CoreText.v
Transaction.v
Block.v
Mempool.v
MempoolInv.v
MempoolProps.v
MempoolSpec.v
Consensus.v
Storage.v
PeerAddress.v
PeerDiscovery.v
TcpConnection.v
TcpServer.v
TcpClient.v
UdpTransport.v
DiscoveryNode.v
Lifetimes.v
ErrorHandling.v
ErrorRecovery.v
Serialization.v
Validator.v
Pipeline.v
Crypto.v
Curve.v
Signature.v
Json.v
HttpServer.v
HttpProps.v
JsonTable.v
CoreJson.v
RpcServer.v
RpcProps.v
RpcMethods.v
LogConfig.v
LogFormat.v
Logger.v
LogManager.v
PerfLogger.v
Metrics.v
MetricsRegistry.v
ChainForgeMetrics.v
MetricsCatalogue.v
MetricWrappers.v
MetricsThreads.v
Threads.v
RegistryThreads.v
PoolThreads.v
PeerThreads.v
Programs.v
ErrorExamples.v
LoggingExample.v
MetricsExample.v
