(* ===== verification/Prelude.v ===== *)
(** * ChainForge: verification library

    ChainForge is a blockchain node in C++ (src/modules).  Its core module holds
    the value types (hash, address, amount, timestamp), transactions, blocks and
    the error-handling utilities.  The mempool keeps pending transactions by hash,
    by sender and nonce and by priority, and hands them to block assembly.  The
    consensus module mines and validates blocks by proof of work.  The storage
    module is a key-value store with iterators and write batches.  The p2p module
    keeps a table of peers fed by UDP datagrams, DNS seeds and peer exchange, and
    has TCP and UDP transports on boost::asio.  The rpc module is an HTTP server
    that hands requests to a JSON-RPC dispatcher with a table of methods.  The
    metrics module counts and exports measurements, and the logging module reads a
    configuration and hands out loggers over spdlog.
    Transactions are built on addresses and amounts, blocks on transactions; the
    mempool stores transactions under their hash, and consensus hashes and
    validates blocks.  The serialization module converts these values to protobuf
    messages and back and validates received data; the crypto module wraps digest
    and key libraries.  Storage, p2p, rpc, metrics and logging use none of these
    types.  The TCP server and client own TCP connections and are called back by
    them; peer discovery drives a UDP transport and a timer.  Small programs use the
    modules: a test program and examples of error handling, logging and metrics.

    ** How the code is modelled

    - Unsigned integers are [Z] with the reduction modulo 2^w written out
      ([u8], [u16], [u32], [u64], the scope [u64_scope]); conversions between
      signed and unsigned counts are explicit.  Byte arrays and vectors are lists
      of [Z], with the array's size in a well-formedness predicate.
    - [double] is IEEE 754 binary64, computed by the Standard Library's
      [SpecFloat] (file [Floats]).
    - [std::string] is [list ascii]; number printing and the [std::stoul] family
      are in [CString].
    - A function that can throw returns an [outcome] (below): a value, an
      exception with its message, or [Undefined] where C++ gives no meaning.
    - A method of a class that locks a mutex, reads the clock or calls a callback
      is a computation of the monad [eff] (file [Effects]) on a [world]: object,
      lock modes held, clock readings made, events.  [Env] supplies the clock and
      the rule for locking a mutex the thread already owns: [relock_undefined] is
      the C++ standard's, [relock_nested] that of a mutex its owner may take
      again.  Theorems that do not name a rule hold under both.
    - A const method that fills a mutable cache returns the object it leaves.
    - [std::unordered_map] is a [gmap]; where the code iterates over it the order
      is the parameter [IterOrder], known only to be a permutation.
      [std::priority_queue] and [std::set] are lists in delivery order.
    - Code outside the repository is a parameter, with its documented behaviour
      as laws where a theorem needs them: the address parser of boost::asio
      ([AddressLib]), DNS resolution, [std::shuffle], [rand()], the protobuf
      runtime ([Message], [MessageLaws]), the digests of OpenSSL ([Digests],
      [DigestLaws]), the key and signature libraries ([CurveLib], [CurveLaws],
      [SigLib], [SigLaws]), the JSON library ([JsonLib], [JsonLaws]), spdlog
      ([SpdLog], [SpdLaws]), fmt, prometheus-cpp ([PromLib], and its gauges with
      [PromGauge], [PromGaugeLaws]) and the size of an allocation that succeeds
      ([Memory]).  [JsonTable] and [mini] (file
      [Logger]) are implementations that satisfy the laws.
    - Where the state after an exception matters a computation is an [act] (file
      [Logger]), a function from a state to an outcome and a state.
    - An asynchronous operation of boost::asio is a count of what is pending, and
      its completion a step that takes the library's answer (error code, data) as
      an argument; the theorems quantify over the answers and their order.  A
      callback that erases the element its caller still uses is [Undefined], as
      is a mutex locked twice.
    - A thread is a program counter in the state of its object, and the steps it
      may take are an inductive type of events; several threads on one object are
      a list of such states and a step relation ([MetricsThreads], [Threads]): one
      memory operation per step.
    - A program is an [act] on all it touches: the text it writes, the objects, the
      numbers of random draws and clock readings made so far.
    - An asynchronous write is the request it hands to boost::asio, the socket and the
      address of the caller's vector ([TcpConnection]); a handler that uses an object
      after its destructor is [Undefined] ([Lifetimes]).
    - Callbacks of the user are events, except where what they may do matters: the
      discovery callback and the RPC handlers are computations on the object (theorems
      that need them to leave it alone say so), and the receive callback of a
      connection may make any calls on it.
      The repository's own digest functions are placeholders and are modelled as
      written; the hashing functions of blocks and of the miner take the digest
      as an argument, so that the theorems on caches and mining hold for any.

    ** Files

    - [Prelude] (this file): outcomes, machine integers, byte strings, the
      tactics and the hint database.
    - [CString], [Floats], [Sorting], [Effects]: strings, doubles, sorting by a
      comparison, and the monad with its weakest-precondition rules ([wp]).
      [FloatExact]: doubles that are whole numbers up to 2^53, and bounds on the
      rounding of a product (80% of a [size_t] is one).
      [Strtod]: [std::stod] and [std::stoll].  [Calendar]: [std::gmtime],
      [std::mktime] and [std::put_time].  [Json], [JsonTable]: the JSON library.
    - [Merkle], [Hash], [Address], [Amount], [Timestamp], [Transaction], [Block]:
      core/src/hash.cpp, address.cpp, amount.cpp, timestamp.cpp, transaction.cpp,
      block.cpp and their headers; one definition per method, with its name.
      [CoreText] has the ISO 8601 texts and the stream operators, [CoreJson] the
      JSON texts.
    - [Mempool]: mempool/src/mempool_impl.cpp.  The record [Mempool] is the
      private state of [MempoolImpl].  [MempoolInv] has the invariant ([pool_core]
      of every reachable pool, with [index_sound] of one without clashing
      replacements), the calls as data ([pool_op], [run_op]) and reachability
      ([pool_reach]);
      [MempoolProps] the theorems.  [MempoolSpec] has the contract of mempool.hpp
      as an abstract book of transactions ([spec_step]) and the refinement;
      [Pipeline] the contract as a class ([TxPool], [TxPoolLaws]), its instance,
      and the way from the pool to a block.
    - [Consensus]: consensus/src/consensus_impl.cpp.
    - [Storage]: storage/src/rocksdb_database.cpp; the class [KVStore] states
      what a database promises and [MemoryDatabase_store] discharges it.
    - [PeerAddress], [PeerDiscovery], [DiscoveryNode]: p2p/src/peer_address.cpp
      and peer_discovery.cpp, the last one the node with its socket and timer.
    - [TcpConnection], [TcpServer], [TcpClient], [UdpTransport]: the transports,
      p2p/src/tcp_connection.cpp, tcp_server.cpp, tcp_client.cpp and
      udp_transport.cpp.  [Lifetimes]: the destructors, and the handlers that run after
      them; also the end of the protobuf library (serializer.cpp).
    - [ErrorHandling], [ErrorRecovery]: core's expected.hpp, error.hpp, error.cpp,
      error_utils.hpp.
    - [Serialization], [Validator]: serialization/src/serializer.cpp with the
      messages of proto/*.proto, and validator.cpp.
    - [Crypto]: crypto/src/hash.cpp, keccak.cpp, random.cpp, keypair.cpp and the
      hex and BLS parts of signature.cpp; [Signature]: the rest of signature.cpp
      and the random integers; [Curve]: curve.cpp.
    - [Streams]: [std::istringstream] and [std::getline] as the parsers use them.
    - [HttpServer]: rpc/src/http_server.cpp (types, parser, printer, connection
      handler, accepting thread); [HttpProps] has its theorems.
    - [RpcServer]: rpc/src/rpc_server_impl.cpp with the types of rpc_server.hpp;
      [RpcProps] has its theorems, with the composition with the HTTP server;
      [RpcMethods]: blockchain_rpc_methods.cpp.
    - [Metrics], [MetricsRegistry]: metrics/src/simple_metrics.cpp;
      [ChainForgeMetrics]: metrics_registry.cpp, chainforge_metrics.cpp,
      logging_metrics.cpp and metrics_server.cpp; [MetricsCatalogue]: the members
      and getters of chainforge_metrics.hpp, and [MetricsLogger];
      [MetricWrappers]: gauge.cpp, histogram.cpp and counter.cpp.
      [MetricsThreads]: the atomic operations of a histogram under several threads;
      [Threads]: calls of several threads under a lock, exclusive or shared;
      [RegistryThreads], [PoolThreads], [PeerThreads]: those of the registry, of the
      pool and of the peer table.
    - [LogConfig]: logging/src/config_loader.cpp; [LogFormat]: json_formatter.cpp;
      [Logger]: logger.cpp, with the interface of spdlog; [LogManager]:
      log_manager.cpp and the initialisation from a file; [PerfLogger]:
      performance_logger.cpp.
    - [Programs]: core/src/main.cpp, core/examples/simple_error_example.cpp and the
      database service of core/examples/error_integration_guide.cpp.
      [ErrorExamples]: the functions of core/examples/error_handling_example.cpp and
      three operations of the guide.  [LoggingExample], [MetricsExample]:
      logging/examples/logging_example.cpp and metrics/examples/metrics_example.cpp,
      with the macros of the logging and metrics headers.

    ** What is proved

    - Transaction pool: the invariant over all call sequences; which calls return and
      which lock the mutex twice, under both locking rules; the outcome of every branch
      of adding and removing, block selection, both evictions and the statistics; and
      what goes wrong: under the standard's rule no transaction is ever added, a
      replacement can lose the old transaction or, when its hash is that of a third
      one, corrupt the index, a block can have a duplicate, the eviction count
      underflows.  The pool refines an abstract book of transactions by sender and
      nonce with the nonces its accounts claim; what it selects makes a block that
      passes the checks, but for its size; and a second payment to the same
      recipient is refused, since the digest does not tell the two apart.  Calls of
      several threads that take the lock once all return under every schedule and are
      linearizable (they take effect one after the other, each between its call and
      its return), so that a block selection never mixes two states of the pool.
    - Core: hex and decimal round trips, exact arithmetic or the documented
      exception, cache coherence of transactions, the Merkle loop against a
      recursive reference, the header's Merkle root as an invariant, the exact
      meaning of validity; and what the placeholder digests imply (colliding
      hashes, a Merkle root made of two leaves).  Dates are printed and read back
      exactly in UTC, shifted by the zone elsewhere; the JSON of a block lists its
      fields and transactions.
    - Consensus: mining ends, with which nonce and statistics; the difficulty
      test as an exact integer inequality; clamping; the interleavings of a miner
      with [stop_mining].
    - Storage: reads return the last write, for every history; batches against
      the interface; complete ordered scans; what an iterator sees of later
      writes.
    - Peers: the peer-exchange parser is memory-safe on any input and inverts the
      serialiser; the table stays a bounded set of valid addresses whatever
      datagrams arrive, and is linearizable under threads, with answers that
      balance what is in it.  The discovery node: its life cycle over all sequences of
      calls and completions, silence after a stop, and two nodes that find each
      other, from the broadcast to the table.
    - Transports: one read at a time and a bounded number of callbacks after the
      end of a receive loop, unless the receive callback restarts it; when stopping a server is defined; that a client
      that disconnects stays disconnected; the life of a UDP socket, with the
      failed bind that makes it unusable; which writes a broadcast starts, all over
      the caller's vector; under which conditions the destructors of client and
      discovery leave no handler that uses the object.
    - RPC: the HTTP parser is total on 7-bit input and inverts a writer that uses
      LF; responses are framed; JSON-RPC requests are answered as dispatch says,
      with their id; numbers round-trip; and that requests with CRLF line ends
      lose their body, end to end.
    - Metrics: exact bucket counts, handles that stay valid, the catalogue and its
      getters, balanced gauge trackers; exactness of the doubles up to 2^53;
      observations by several threads and their torn snapshots; linearizability of
      the registry; what a metered logger counts.
    - Logging: flat YAML documents are read as meant and nested ones lose their
      later sections; structured messages survive the JSON formatter; levels are
      thresholds; the outcome of initialisation and the level it sets; no sequence of calls makes
      [get_logger] return; duration statistics are those of the list.
    - Errors: retry, circuit breaker (for functions that throw too), rate limiter and tracker, the laws of
      [expected], injectivity of the error codes; the recovery helpers, whose
      nested results hide failures, and the permits of the bulkhead; a service
      behind a breaker fails fast.
    - Programs: the test program always exits with code 0; the logging example always
      with code 1, in its first demonstration; the metrics example with 1 when the
      logging system can be initialised and with 0 when it cannot, and what it prints
      from there on to either stream, whatever it draws; the loop behind a breaker calls its service until
      it has failed three times in a row.
    - Serialisation: what survives the wire and what does not, for transactions,
      blocks and the value types; safety on arbitrary bytes; what validation
      accepts.
    - Crypto: the Merkle reduction with failing digests, hex parsing, the
      streaming hasher; and that wide Keccak outputs, secp256k1 key pairs and
      signature checks do not work, and when a signature fits its array.

    ** Fuel

    [merkle_loop] and [hash_loop] take the number of hashes as fuel, and every
    level halves the list, rounding up; [merkle_loop_reference] and
    [hash_many_reference] show that this is enough.
    [mining_loop] takes [MINING_FUEL] = 43, the number of nonces from 0 to 42;
    [mining_ends_by_nonce_42] shows that the loop ends within it.  The loop of the
    peer-exchange parser takes the length of the input plus one, and each round
    consumes at least seven bytes; [pex_parser_safe] shows that it never runs out.
    Printing a number takes one unit per binary digit
    ([digits_value_to_digits]).  Splitting a stream into lines takes its length
    plus one ([getlines_fuel]).  [remove_connection] calls itself back through
    the close callback at most once: two units ([remove_connection_fuel]).  All other recursion is structural.

    ** What is not modelled

    Socket options and other settings that are only handed to a library, and
    functions that forward to one modelled here (the outer class of the Keccak
    stream hasher, [instance] and [create_...] functions).  Singletons are the state
    the operations are given.  Declarations in headers have no behaviour of their own.
    Of core/examples/error_handling_example.cpp [fallback_example] and [main], and of
    error_integration_guide.cpp [get_new], [validate_block_new] and
    [BlockchainService], do not type-check (types declared nowhere, results of
    another type than declared), so they have no behaviour to model; elsewhere, where
    code does not compile for a reason that leaves its meaning plain, it is modelled
    and the manifest has a finding.  Of concurrency, locking by one thread is modelled
    for every class; the interleaving of threads for the miner's stop flag, the HTTP
    server's accepting thread, the removal of an RPC method during a call, the
    histograms and the registry of metrics, the peer table, and the calls of the pool
    that lock its mutex once (the others lock it twice, which is undefined); and the
    order of completions for the transports and peer discovery.  How boost::asio
    transfers the bytes of an asynchronous write is not modelled.  Lifetimes are
    modelled for the objects whose handlers hold their bare pointer.

    ** Extensions

    [Threads] applies to any class whose methods take one lock in their first line:
    an instance needs the points of the bodies and the proof that an uninterrupted
    body is the method.  The RPC method table and the error tracker have that shape. *)

From stdpp Require Import base list gmap strings numbers.
From Stdlib Require Import ZArith Lia Ascii.

#[global] Open Scope Z_scope.

(** ** Exceptions and undefined behaviour

    A C++ function that can throw returns an [outcome]: a value, an exception
    carrying its message, or [Undefined] when the standard gives the evaluation
    no meaning (a read past the end of an array, a mutex locked again by the
    thread that owns it, a conversion of an out-of-range double).
    [library_error] stands for the exceptions of third-party libraries that derive
    from [std::exception]. *)
Inductive exn : Type :=
  | invalid_argument (what : string)
  | out_of_range (what : string)
  | overflow_error (what : string)
  | underflow_error (what : string)
  | domain_error (what : string)
  | length_error (what : string)
  | runtime_error (what : string)
  | bad_alloc
  | bad_function_call
  | library_error (what : string)
  | bad_variant_access.

Inductive outcome (A : Type) : Type :=
  | Ret (a : A)
  | Throw (e : exn)
  | Undefined.
Arguments Ret {A} a.
Arguments Throw {A} e.
Arguments Undefined {A}.

#[export] Instance exn_eq_dec : EqDecision exn.
Proof. solve_decision. Defined.
#[export] Instance outcome_eq_dec `{EqDecision A} : EqDecision (outcome A).
Proof. solve_decision. Defined.

#[export] Instance outcome_ret : MRet outcome := @Ret.
#[export] Instance outcome_bind : MBind outcome := fun A B f m =>
  match m with Ret a => f a | Throw e => Throw e | Undefined => Undefined end.
#[export] Instance outcome_fmap : FMap outcome := fun A B f m =>
  match m with Ret a => Ret (f a) | Throw e => Throw e | Undefined => Undefined end.

(** A sequence returns only if its first part does. *)
Lemma outcome_bind_inv {A B} (m : outcome A) (f : A -> outcome B) b :
  m ≫= f = Ret b -> exists a, m = Ret a /\ f a = Ret b.
Proof. destruct m; [by eauto|done|done]. Qed.

(** [try_catch m h]: the code's [try { m } catch (const std::exception&) { h }];
    undefined behaviour is not caught. *)
Definition try_catch {A} (m : outcome A) (h : exn -> outcome A) : outcome A :=
  match m with Throw e => h e | _ => m end.

(** Whether an outcome is a returned value. *)
Definition returns {A} (m : outcome A) : bool :=
  match m with Ret _ => true | _ => false end.

(** ** Machine integers: uintN_t as [Z] reduced modulo 2^N *)

Abbreviation U8_MOD := 256%Z (only parsing).
Abbreviation U16_MOD := 65536%Z (only parsing).
Abbreviation U32_MOD := 4294967296%Z (only parsing).
Abbreviation U64_MOD := 18446744073709551616%Z (only parsing).
Abbreviation U64_MAX := 18446744073709551615%Z (only parsing).
Abbreviation S64_MOD := 9223372036854775808%Z (only parsing).

Definition is_u8 (z : Z) : Prop := 0 <= z < U8_MOD.
Definition is_u16 (z : Z) : Prop := 0 <= z < U16_MOD.
Definition is_u32 (z : Z) : Prop := 0 <= z < U32_MOD.
Definition is_u64 (z : Z) : Prop := 0 <= z < U64_MOD.

#[export] Instance is_u8_dec z : Decision (is_u8 z).
Proof. unfold is_u8. apply _. Defined.
#[export] Instance is_u16_dec z : Decision (is_u16 z).
Proof. unfold is_u16. apply _. Defined.
#[export] Instance is_u32_dec z : Decision (is_u32 z).
Proof. unfold is_u32. apply _. Defined.
#[export] Instance is_u64_dec z : Decision (is_u64 z).
Proof. unfold is_u64. apply _. Defined.

Definition u8 (z : Z) : Z := z mod U8_MOD.
Definition u16 (z : Z) : Z := z mod U16_MOD.
Definition u32 (z : Z) : Z := z mod U32_MOD.
Definition u64 (z : Z) : Z := z mod U64_MOD.
(** The signed 64-bit value of a 64-bit pattern (two's complement). *)
Definition s64 (z : Z) : Z := (z + S64_MOD) mod U64_MOD - S64_MOD.
(** [static_cast<int>], with a 32-bit [int]. *)
Definition s32 (z : Z) : Z := (z + 2147483648) mod U32_MOD - 2147483648.

Declare Scope u64_scope.
Delimit Scope u64_scope with u64.
Definition u64_add (a b : Z) : Z := u64 (a + b).
Definition u64_sub (a b : Z) : Z := u64 (a - b).
Definition u64_mul (a b : Z) : Z := u64 (a * b).
Arguments u64_add (a b)%_u64_scope.
Arguments u64_sub (a b)%_u64_scope.
Arguments u64_mul (a b)%_u64_scope.
Notation "a + b" := (u64_add a b) : u64_scope.
Notation "a - b" := (u64_sub a b) : u64_scope.
Notation "a * b" := (u64_mul a b) : u64_scope.

Create HintDb chain discriminated.
Create Rewrite HintDb chain_len.
#[export] Hint Constants Transparent : chain.

(** Unfold the machine-integer layer and finish with linear arithmetic. *)
Ltac mint :=
  unfold is_u8, is_u16, is_u32, is_u64, u64_add, u64_sub, u64_mul, u8, u16, u32, u64, s64 in *;
  Z.div_mod_to_equations; lia.

(** Prove a closed decidable proposition by evaluating its decision. *)
Ltac decide_now :=
  lazymatch goal with |- ?P => refine (@bool_decide_unpack P _ _); vm_compute; exact I end.

Lemma u64_small z : is_u64 z -> u64 z = z.
Proof. unfold is_u64, u64. intros. by apply Z.mod_small. Qed.
Lemma s32_small z : -2147483648 <= z < 2147483648 -> s32 z = z.
Proof. intros. unfold s32. rewrite Z.mod_small by lia. lia. Qed.
Lemma u64_range z : is_u64 (u64 z).
Proof. mint. Qed.
Lemma u32_range z : is_u32 (u32 z).
Proof. mint. Qed.
Lemma u16_range z : is_u16 (u16 z).
Proof. mint. Qed.
Lemma u8_range z : is_u8 (u8 z).
Proof. mint. Qed.
Lemma u8_small z : is_u8 z -> u8 z = z.
Proof. unfold is_u8, u8. intros. by apply Z.mod_small. Qed.
Lemma u16_small z : is_u16 z -> u16 z = z.
Proof. unfold is_u16, u16. intros. by apply Z.mod_small. Qed.
Lemma u32_small z : is_u32 z -> u32 z = z.
Proof. unfold is_u32, u32. intros. by apply Z.mod_small. Qed.
#[export] Hint Resolve u64_range u32_range u16_range u8_range : chain.

(** ** Byte sequences

    [std::vector<uint8_t>] and [std::array<uint8_t, N>] are lists of bytes. *)
Definition bytes_ok (l : list Z) : Prop := Forall is_u8 l.

#[export] Instance bytes_ok_dec l : Decision (bytes_ok l).
Proof. unfold bytes_ok. apply _. Defined.

(** [for (int i = n - 1; i >= 0; --i) out.push_back((x >> (i * 8)) & 0xFF)]: the
    big-endian encoding loop the code repeats for every integer it hashes. *)
Fixpoint be_bytes (n : nat) (x : Z) : list Z :=
  match n with
  | O => []
  | S i => u8 (Z.land (Z.shiftr x (Z.of_nat i * 8)) 255) :: be_bytes i x
  end.

(** [for (b : bytes) acc = (acc << 8) | b] on a [uint64_t] accumulator. *)
Definition be_acc (acc : Z) (l : list Z) : Z :=
  fold_left (fun a b => Z.lor (u64 (Z.shiftl a 8)) b) l acc.

(** Big-endian value of a byte sequence: the specification of [be_acc]. *)
Definition be_value (l : list Z) : Z := fold_left (fun a b => a * 256 + b) l 0.

(** [std::array<uint8_t, n> out{}; std::copy] of the first [min(size, n)] bytes:
    truncate to [n] bytes, pad with zero bytes. *)
Definition copy_into (n : nat) (l : list Z) : list Z :=
  take n l ++ replicate (n - length l) 0.

(** [std::all_of(begin, end, b == 0)]. *)
Definition all_zero (l : list Z) : bool := forallb (fun b => b =? 0) l.

(** Lexicographic [operator<] of arrays, vectors and strings of bytes. *)
Fixpoint bytes_ltb (a b : list Z) : bool :=
  match a, b with
  | [], [] => false
  | [], _ :: _ => true
  | _ :: _, [] => false
  | x :: a', y :: b' => if x <? y then true else if y <? x then false else bytes_ltb a' b'
  end.

Definition bytes_eqb (a b : list Z) : bool := bool_decide (a = b).

(** ** Lemmas on bytes *)

Lemma land_255 x : Z.land x 255 = x mod 256.
Proof. change 255 with (Z.ones 8). by rewrite Z.land_ones. Qed.

Lemma be_byte_eq (i : nat) x : u8 (Z.land (Z.shiftr x (Z.of_nat i * 8)) 255) = (x / 2 ^ (Z.of_nat i * 8)) mod 256.
Proof.
  rewrite land_255, Z.shiftr_div_pow2 by lia. unfold u8. apply Z.mod_mod. lia.
Qed.

Lemma length_be_bytes n x : length (be_bytes n x) = n.
Proof. induction n; simpl; congruence. Qed.

Lemma be_bytes_ok n x : bytes_ok (be_bytes n x).
Proof. induction n; constructor; auto using u8_range. Qed.

Lemma be_value_snoc_gen l acc :
  fold_left (fun a b => a * 256 + b) l acc = acc * 256 ^ Z.of_nat (length l) + be_value l.
Proof.
  unfold be_value. revert acc. induction l as [|b l IH]; intros acc;
    cbn [fold_left length]; [simpl; lia|].
  rewrite IH, (IH (0 * 256 + b)). rewrite Nat2Z.inj_succ, Z.pow_succ_r by lia. lia.
Qed.

Lemma be_value_cons b l : be_value (b :: l) = b * 256 ^ Z.of_nat (length l) + be_value l.
Proof. unfold be_value at 1. cbn [fold_left]. by rewrite be_value_snoc_gen. Qed.

Lemma be_value_range l : bytes_ok l -> 0 <= be_value l < 256 ^ Z.of_nat (length l).
Proof.
  induction 1 as [|b l Hb Hl IH]; [unfold be_value; simpl; lia|].
  rewrite be_value_cons. simpl length. rewrite Nat2Z.inj_succ, Z.pow_succ_r by lia.
  unfold is_u8 in Hb. nia.
Qed.

(** The encoding loop writes the value modulo 256^n. *)
Lemma be_value_be_bytes n x : be_value (be_bytes n x) = x mod 256 ^ Z.of_nat n.
Proof.
  induction n as [|n IH]; [unfold be_value; simpl; by rewrite Z.mod_1_r|].
  simpl be_bytes. rewrite be_value_cons, IH, length_be_bytes, be_byte_eq.
  rewrite Nat2Z.inj_succ, Z.pow_succ_r by lia.
  replace (2 ^ (Z.of_nat n * 8)) with (256 ^ Z.of_nat n)
    by (change 256 with (2 ^ 8); rewrite <- Z.pow_mul_r by lia; f_equal; lia).
  assert (0 < 256 ^ Z.of_nat n) by (apply Z.pow_pos_nonneg; lia).
  rewrite (Z.mul_comm 256), Z.rem_mul_r by lia. lia.
Qed.

Lemma be_bytes_inj n x y :
  0 <= x < 256 ^ Z.of_nat n -> 0 <= y < 256 ^ Z.of_nat n ->
  be_bytes n x = be_bytes n y -> x = y.
Proof.
  intros Hx Hy E. apply (f_equal be_value) in E.
  rewrite !be_value_be_bytes, !Z.mod_small in E; done.
Qed.

(** Decoding then encoding gives the bytes back. *)
Lemma be_bytes_be_value l : bytes_ok l -> be_bytes (length l) (be_value l) = l.
Proof.
  intros Hl.
  assert (Hgen : forall k, be_bytes (length l) (be_value l + k * 256 ^ Z.of_nat (length l)) = l).
  { induction Hl as [|b l Hb Hl IH]; intros k; [done|].
    pose proof (be_value_range l Hl) as Hr.
    assert (0 < 256 ^ Z.of_nat (length l)) by (apply Z.pow_pos_nonneg; lia).
    simpl be_bytes. rewrite be_byte_eq, be_value_cons. simpl length.
    replace (2 ^ (Z.of_nat (length l) * 8)) with (256 ^ Z.of_nat (length l))
      by (change 256 with (2 ^ 8); rewrite <- Z.pow_mul_r by lia; f_equal; lia).
    rewrite Nat2Z.inj_succ, Z.pow_succ_r by lia. f_equal.
    - replace (b * 256 ^ Z.of_nat (length l) + be_value l + k * (256 * 256 ^ Z.of_nat (length l)))
        with ((b + k * 256) * 256 ^ Z.of_nat (length l) + be_value l) by lia.
      rewrite Z.div_add_l, Z.div_small, Z.add_0_r, Z.mod_add by lia.
      by apply Z.mod_small.
    - replace (b * 256 ^ Z.of_nat (length l) + be_value l + k * (256 * 256 ^ Z.of_nat (length l)))
        with (be_value l + (b + k * 256) * 256 ^ Z.of_nat (length l)) by lia.
      apply IH. }
  specialize (Hgen 0). by rewrite Z.mul_0_l, Z.add_0_r in Hgen.
Qed.

Lemma lor_shift_byte a b : 0 <= a -> is_u8 b -> Z.lor (Z.shiftl a 8) b = a * 256 + b.
Proof.
  intros Ha Hb. rewrite <- Z.lxor_lor, <- Z.add_nocarry_lxor.
  1: rewrite Z.shiftl_mul_pow2 by lia; lia.
  all: apply Z.bits_inj'; intros i Hi; rewrite Z.land_spec, Z.bits_0.
  all: destruct (decide (i < 8)) as [Hlt|Hge];
    [by rewrite Z.shiftl_spec_low|].
  all: rewrite andb_comm, <- (Z.mod_small b (2 ^ 8)) by (unfold is_u8 in Hb; lia);
    rewrite Z.mod_pow2_bits_high by lia; done.
Qed.

(** On at most eight bytes the shifting loop never loses a bit. *)
Lemma be_acc_spec l acc :
  0 <= acc -> bytes_ok l -> acc * 256 ^ Z.of_nat (length l) + be_value l < U64_MOD ->
  be_acc acc l = acc * 256 ^ Z.of_nat (length l) + be_value l.
Proof.
  intros Hacc Hl. revert acc Hacc. induction Hl as [|b l Hb Hl IH]; intros acc Hacc Hlt.
  - unfold be_acc, be_value; simpl. lia.
  - rewrite be_value_cons in *. simpl length in *.
    rewrite Nat2Z.inj_succ, Z.pow_succ_r in * by lia.
    pose proof (be_value_range l Hl).
    assert (1 <= 256 ^ Z.of_nat (length l)) by (pose proof (Z.pow_pos_nonneg 256 (Z.of_nat (length l))); lia).
    unfold is_u8 in Hb.
    change (be_acc acc (b :: l)) with (be_acc (Z.lor (u64 (Z.shiftl acc 8)) b) l).
    rewrite u64_small, lor_shift_byte, IH; [lia|lia|nia|lia|done|].
    rewrite Z.shiftl_mul_pow2 by lia. split; nia.
Qed.

Lemma be_acc_value l : (length l <= 8)%nat -> bytes_ok l -> be_acc 0 l = be_value l.
Proof.
  intros Hlen Hl. pose proof (be_value_range l Hl) as Hr.
  assert (256 ^ Z.of_nat (length l) <= 256 ^ 8) by (apply Z.pow_le_mono_r; lia).
  rewrite be_acc_spec; first [done | lia].
Qed.

Lemma length_copy_into n l : length (copy_into n l) = n.
Proof. unfold copy_into. rewrite length_app, length_take, length_replicate. lia. Qed.

Lemma replicate_0_ok n : bytes_ok (replicate n 0).
Proof. apply Forall_replicate. unfold is_u8. lia. Qed.

Lemma copy_into_ok n l : bytes_ok l -> bytes_ok (copy_into n l).
Proof. intros. apply Forall_app_2; [by apply Forall_take | apply replicate_0_ok]. Qed.

Lemma copy_into_id n l : length l = n -> copy_into n l = l.
Proof.
  intros <-. unfold copy_into. rewrite firstn_all, Nat.sub_diag. apply app_nil_r.
Qed.

Lemma copy_into_prefix n l1 l2 : (n <= length l1)%nat -> copy_into n (l1 ++ l2) = take n l1.
Proof.
  intros Hn. unfold copy_into. rewrite take_app_le, length_app by lia.
  replace (n - (length l1 + length l2))%nat with 0%nat by lia. apply app_nil_r.
Qed.

Lemma all_zero_spec l : all_zero l = true <-> l = replicate (length l) 0.
Proof.
  unfold all_zero. induction l as [|b l IH]; simpl; [done|].
  rewrite andb_true_iff, IH, Z.eqb_eq. split; [intros [-> ->]; simpl; f_equal; by rewrite length_replicate|].
  intros [= -> E]. done.
Qed.

Lemma be_value_replicate_0 n : be_value (replicate n 0) = 0.
Proof. induction n; [done|]. simpl. rewrite be_value_cons. lia. Qed.

(** Case analysis on a small range, decided by evaluation. *)
Lemma forallb_seqZ (P : Z -> bool) n :
  forallb P (seqZ 0 n) = true -> forall z, 0 <= z < n -> P z = true.
Proof.
  intros H z Hz. rewrite forallb_forall in H. apply H, list_elem_of_In, elem_of_seqZ. lia.
Qed.

(** *** Lexicographic order: a strict total order *)

Lemma bytes_ltb_irrefl a : bytes_ltb a a = false.
Proof. induction a; simpl; [done|]. by rewrite Z.ltb_irrefl. Qed.

Lemma bytes_ltb_trans a b c : bytes_ltb a b = true -> bytes_ltb b c = true -> bytes_ltb a c = true.
Proof.
  revert b c. induction a as [|x a IH]; intros [|y b] [|z c]; simpl; try done.
  destruct (Z.ltb_spec x y), (Z.ltb_spec y x), (Z.ltb_spec y z), (Z.ltb_spec z y),
    (Z.ltb_spec x z), (Z.ltb_spec z x); try done; try lia; eauto.
Qed.

Lemma bytes_ltb_total a b : bytes_ltb a b = false -> bytes_ltb b a = false -> a = b.
Proof.
  revert b. induction a as [|x a IH]; intros [|y b]; simpl; try done.
  destruct (Z.ltb_spec x y), (Z.ltb_spec y x); try done; try lia.
  intros. f_equal; [lia | eauto].
Qed.

Lemma bytes_ltb_asym a b : bytes_ltb a b = true -> bytes_ltb b a = false.
Proof.
  intros H. destruct (bytes_ltb b a) eqn:E; [|done].
  pose proof (bytes_ltb_trans _ _ _ H E) as F. by rewrite bytes_ltb_irrefl in F.
Qed.

(** On byte strings of one length the order is the order of their values. *)
Lemma bytes_ltb_value a b :
  bytes_ok a -> bytes_ok b -> length a = length b ->
  bytes_ltb a b = (be_value a <? be_value b).
Proof.
  intros Ha. revert b. induction Ha as [|x a Hx Ha IH]; intros [|y b] Hb Hlen; try done.
  apply Forall_cons_1 in Hb as [Hy Hb]. injection Hlen as Hlen.
  cbn [bytes_ltb]. rewrite !be_value_cons, Hlen, (IH b Hb Hlen).
  pose proof (be_value_range a Ha) as Ra. pose proof (be_value_range b Hb) as Rb.
  rewrite Hlen in Ra. unfold is_u8 in *.
  destruct (Z.ltb_spec x y); [symmetry; apply Z.ltb_lt; nia|].
  destruct (Z.ltb_spec y x); [symmetry; apply Z.ltb_ge; nia|].
  assert (x = y) as -> by lia.
  destruct (Z.ltb_spec (be_value a) (be_value b)); symmetry; [apply Z.ltb_lt | apply Z.ltb_ge]; lia.
Qed.

#[export] Hint Resolve be_bytes_ok copy_into_ok replicate_0_ok : chain.
#[export] Hint Rewrite length_be_bytes length_copy_into : chain_len.
