(* ===== verification/CString.v ===== *)
(** * Strings: std::string, number printing and parsing

    A [std::string] is a list of characters.  This file models what the code
    uses of the standard library on strings: [substr], [find], decimal and
    hexadecimal printing ([std::to_string], stream insertion with [std::hex],
    [std::setw] and [std::setfill]) and the [std::stoi] / [std::stoul] /
    [std::stoull] family, with the C rules they inherit (leading white space, a
    sign, a [0x] prefix in base 16, trailing characters ignored, range errors). *)

From stdpp Require Import base list numbers strings.
From Stdlib Require Import ZArith Lia Ascii.
From S2P Require Import Prelude.

Abbreviation cstr := (list ascii) (only parsing).
Abbreviation CR := "013"%char (only parsing).
Abbreviation NL := "010"%char (only parsing).
Abbreviation NUL := "000"%char (only parsing).

(** A string literal of the source. *)
Notation "$ s" := (String.list_ascii_of_string s%string) (at level 1, s at level 0, format "$ s").

Definition char_code (c : ascii) : Z := Z.of_N (N_of_ascii c).
Definition char_of (z : Z) : ascii := ascii_of_N (Z.to_N z).

(** [std::string(data.begin(), data.end())] and back: bytes and chars. *)
Definition cstr_of_bytes (l : list Z) : cstr := map char_of l.
Definition bytes_of_cstr (s : cstr) : list Z := map char_code s.

(** ** Digits *)

Definition digit_char (d : Z) : ascii := char_of (if d <? 10 then 48 + d else 87 + d).

(** The value of a digit character: 0-9, then a-z and A-Z from 10. *)
Definition digit_of (c : ascii) : option Z :=
  let z := char_code c in
  if (48 <=? z) && (z <=? 57) then Some (z - 48)
  else if (97 <=? z) && (z <=? 122) then Some (z - 87)
  else if (65 <=? z) && (z <=? 90) then Some (z - 55)
  else None.

Definition is_digit_in (base : Z) (c : ascii) : option Z :=
  match digit_of c with
  | Some d => if d <? base then Some d else None
  | None => None
  end.

(** The maximal leading run of digits of the base. *)
Fixpoint lead_digits (base : Z) (s : cstr) : list Z :=
  match s with
  | [] => []
  | c :: s' => match is_digit_in base c with Some d => d :: lead_digits base s' | None => [] end
  end.

Definition digits_value (base : Z) (ds : list Z) : Z :=
  fold_left (fun a d => a * base + d) ds 0.

Fixpoint to_digits_aux (base : Z) (fuel : nat) (n : Z) (acc : list Z) : list Z :=
  match fuel with
  | O => acc
  | S f =>
      if n <? base then n :: acc else to_digits_aux base f (n / base) (n mod base :: acc)
  end.

(** Digits of a non-negative number, most significant first. One unit of fuel
    per binary digit is enough for every base of at least two
    ([digits_value_to_digits]). *)
Definition to_digits (base n : Z) : list Z := to_digits_aux base (S (Z.to_nat (Z.log2 n))) n [].

(** ** Printing *)

(** [std::to_string(n)], [os << n]. *)
Definition print_dec (n : Z) : cstr := map digit_char (to_digits 10 n).
(** [os << std::hex << n]. *)
Definition print_hex (n : Z) : cstr := map digit_char (to_digits 16 n).
(** [os << std::setfill('0') << std::setw(2) << std::hex << int(b)]. *)
Definition print_hex2 (b : Z) : cstr :=
  let s := print_hex b in replicate (2 - length s) "0"%char ++ s.
(** The loop over a byte array that prints each byte on two digits. *)
Definition bytes_to_hex (l : list Z) : cstr := concat (map print_hex2 l).

(** ** Parsing *)

Definition is_space (c : ascii) : bool :=
  let z := char_code c in (z =? 32) || ((9 <=? z) && (z <=? 13)).

Fixpoint skip_space (s : cstr) : cstr :=
  match s with c :: s' => if is_space c then skip_space s' else s | [] => [] end.

Definition take_sign (s : cstr) : bool * cstr :=
  match s with
  | "-"%char :: s' => (true, s')
  | "+"%char :: s' => (false, s')
  | _ => (false, s)
  end.

(** In base 16 a [0x] that is followed by a digit is skipped. *)
Definition skip_prefix (base : Z) (s : cstr) : cstr :=
  match s with
  | z :: x :: c :: s' =>
      if (base =? 16) && Ascii.eqb z "0" && ((char_code x =? 120) || (char_code x =? 88))
         && match is_digit_in base c with Some _ => true | None => false end
      then c :: s' else s
  | _ => s
  end.

(** [strtol]/[strtoull]: sign and magnitude, [None] when there is no digit. *)
Definition strto (base : Z) (s : cstr) : option (bool * Z) :=
  let '(neg, s1) := take_sign (skip_space s) in
  match lead_digits base (skip_prefix base s1) with
  | [] => None
  | ds => Some (neg, digits_value base ds)
  end.

Definition stoull (base : Z) (s : cstr) : outcome Z :=
  match strto base s with
  | None => Throw (invalid_argument "stoull")
  | Some (neg, v) =>
      if v <=? U64_MAX then Ret (if neg then u64 (- v) else v) else Throw (out_of_range "stoull")
  end.

(** [unsigned long] is 64 bits wide on the LP64 targets of the build. *)
Definition stoul (base : Z) (s : cstr) : outcome Z :=
  match strto base s with
  | None => Throw (invalid_argument "stoul")
  | Some (neg, v) =>
      if v <=? U64_MAX then Ret (if neg then u64 (- v) else v) else Throw (out_of_range "stoul")
  end.

Definition stoi (base : Z) (s : cstr) : outcome Z :=
  match strto base s with
  | None => Throw (invalid_argument "stoi")
  | Some (neg, v) =>
      let r := if neg then - v else v in
      if (-2147483648 <=? r) && (r <=? 2147483647) then Ret r else Throw (out_of_range "stoi")
  end.

(** [s.substr(pos, n)] for [pos <= s.size()]. *)
Definition substr (pos n : nat) (s : cstr) : cstr := take n (drop pos s).

(** [s.find(c)]: the position of the first [c], [None] for [npos]. *)
Fixpoint find_char (c : ascii) (s : cstr) : option nat :=
  match s with
  | [] => None
  | d :: s' => if Ascii.eqb c d then Some O else S <$> find_char c s'
  end.

(** [s.find(p) == 0]. *)
Fixpoint starts_with (p s : cstr) : bool :=
  match p, s with
  | [], _ => true
  | c :: p', d :: s' => Ascii.eqb c d && starts_with p' s'
  | _ :: _, [] => false
  end.

(** ** Lemmas *)

Lemma digits_value_snoc base ds d : digits_value base (ds ++ [d]) = digits_value base ds * base + d.
Proof. unfold digits_value. by rewrite fold_left_app. Qed.

Lemma digits_value_acc base ds acc :
  fold_left (fun a d => a * base + d) ds acc = acc * base ^ Z.of_nat (length ds) + digits_value base ds.
Proof.
  unfold digits_value. revert acc. induction ds as [|d ds IH]; intros acc;
    cbn [fold_left length]; [simpl; lia|].
  rewrite IH, (IH (0 * base + d)), Nat2Z.inj_succ, Z.pow_succ_r by lia. lia.
Qed.

Lemma digits_value_cons base d ds :
  digits_value base (d :: ds) = d * base ^ Z.of_nat (length ds) + digits_value base ds.
Proof. unfold digits_value at 1. cbn [fold_left]. rewrite digits_value_acc. lia. Qed.

Lemma div_fuel base f n :
  2 <= base -> 0 <= n < 2 * 2 ^ Z.of_nat f -> 0 <= n / base < 2 ^ Z.of_nat f.
Proof.
  intros Hb Hn. assert (0 < 2 ^ Z.of_nat f) by (apply Z.pow_pos_nonneg; lia).
  assert (2 * 2 ^ Z.of_nat f <= base * 2 ^ Z.of_nat f) by (apply Z.mul_le_mono_nonneg_r; lia).
  split; [apply Z.div_pos; lia|]. apply Z.div_lt_upper_bound; lia.
Qed.

Lemma to_digits_aux_value base fuel n acc :
  2 <= base -> 0 <= n < 2 ^ Z.of_nat fuel ->
  digits_value base (to_digits_aux base fuel n acc)
  = n * base ^ Z.of_nat (length acc) + digits_value base acc.
Proof.
  intros Hb. revert n acc. induction fuel as [|f IH]; intros n acc Hn.
  - simpl in *. assert (n = 0) as -> by lia. lia.
  - rewrite Nat2Z.inj_succ, Z.pow_succ_r in Hn by lia. cbn [to_digits_aux].
    destruct (Z.ltb_spec n base); [by rewrite digits_value_cons|].
    rewrite IH.
    + rewrite digits_value_cons. cbn [length]. rewrite Nat2Z.inj_succ, Z.pow_succ_r by lia.
      pose proof (Z.div_mod n base). nia.
    + by apply div_fuel.
Qed.

(** The printed digits denote the number: the fuel of [to_digits] is enough. *)
Lemma digits_value_to_digits base n : 2 <= base -> 0 <= n -> digits_value base (to_digits base n) = n.
Proof.
  intros Hb Hn. unfold to_digits. rewrite to_digits_aux_value; [unfold digits_value; simpl; lia|done|].
  rewrite Nat2Z.inj_succ, Z2Nat.id by apply Z.log2_nonneg. split; [done|].
  destruct (decide (n = 0)) as [->|]; [done|]. apply Z.log2_spec. lia.
Qed.

Lemma to_digits_aux_range base fuel n acc :
  2 <= base -> 0 <= n < 2 ^ Z.of_nat fuel -> Forall (fun d => 0 <= d < base) acc ->
  Forall (fun d => 0 <= d < base) (to_digits_aux base fuel n acc).
Proof.
  intros Hb. revert n acc. induction fuel as [|f IH]; intros n acc Hn Hacc; [done|].
  rewrite Nat2Z.inj_succ, Z.pow_succ_r in Hn by lia. cbn [to_digits_aux].
  destruct (Z.ltb_spec n base); [constructor; [lia|done]|].
  apply IH.
  - by apply div_fuel.
  - constructor; [apply Z.mod_pos_bound; lia|done].
Qed.

Lemma to_digits_range base n : 2 <= base -> 0 <= n -> Forall (fun d => 0 <= d < base) (to_digits base n).
Proof.
  intros Hb Hn. apply to_digits_aux_range; [done| |constructor].
  rewrite Nat2Z.inj_succ, Z2Nat.id by apply Z.log2_nonneg. split; [done|].
  destruct (decide (n = 0)) as [->|]; [done|]. apply Z.log2_spec. lia.
Qed.

Lemma to_digits_aux_length base fuel n acc : (length acc <= length (to_digits_aux base fuel n acc))%nat.
Proof.
  revert n acc. induction fuel as [|f IH]; intros n acc; cbn [to_digits_aux]; [done|].
  destruct (n <? base); [simpl; lia|]. etrans; [|apply IH]. simpl; lia.
Qed.

Lemma to_digits_nonempty base n : to_digits base n <> [].
Proof.
  unfold to_digits. cbn [to_digits_aux]. destruct (n <? base); [done|].
  pose proof (to_digits_aux_length base (Z.to_nat (Z.log2 n)) (n / base) [n mod base]) as H.
  intros E. rewrite E in H. simpl in H. lia.
Qed.

(** Digit characters: all sixteen are checked by evaluation. *)
Definition digit_char_ok (d : Z) : bool :=
  bool_decide (digit_of (digit_char d) = Some d) && negb (is_space (digit_char d))
  && negb (bool_decide (digit_char d = "-"%char)) && negb (bool_decide (digit_char d = "+"%char))
  && negb (char_code (digit_char d) =? 120) && negb (char_code (digit_char d) =? 88).

Lemma digit_char_facts d : 0 <= d < 16 -> digit_char_ok d = true.
Proof. revert d. apply forallb_seqZ. vm_compute. reflexivity. Qed.

Lemma digit_of_char d : 0 <= d < 16 -> digit_of (digit_char d) = Some d.
Proof.
  intros H%digit_char_facts. unfold digit_char_ok in H.
  rewrite !andb_true_iff in H. destruct H as [[[[[H _] _] _] _] _]. by apply bool_decide_eq_true in H.
Qed.

Lemma skip_space_digit d s : 0 <= d < 16 -> skip_space (digit_char d :: s) = digit_char d :: s.
Proof.
  intros H%digit_char_facts. unfold digit_char_ok in H. rewrite !andb_true_iff in H.
  destruct H as [[[[[_ H] _] _] _] _]. simpl. by destruct (is_space _).
Qed.

Lemma take_sign_other c s : c <> "-"%char -> c <> "+"%char -> take_sign (c :: s) = (false, c :: s).
Proof. intros H1 H2. unfold take_sign. repeat case_match; congruence. Qed.

Lemma take_sign_digit d s : 0 <= d < 16 -> take_sign (digit_char d :: s) = (false, digit_char d :: s).
Proof.
  intros H%digit_char_facts. unfold digit_char_ok in H. rewrite !andb_true_iff, !negb_true_iff in H.
  destruct H as [[[[[_ _] H1] H2] _] _]. apply bool_decide_eq_false in H1, H2.
  by apply take_sign_other.
Qed.

(** Reading back a run of printed digits that is followed by no digit. *)
Lemma lead_digits_printed base ds rest :
  base <= 16 -> Forall (fun d => 0 <= d < base) ds -> lead_digits base rest = [] ->
  lead_digits base (map digit_char ds ++ rest) = ds.
Proof.
  intros Hb Hds Hrest. induction Hds as [|d ds Hd Hds IH]; [done|]. simpl.
  unfold is_digit_in. rewrite digit_of_char by lia.
  destruct (Z.ltb_spec d base); [by rewrite IH | lia].
Qed.

(** A printed number never starts a [0x] prefix. *)
Lemma skip_prefix_printed base ds :
  base <= 16 -> Forall (fun d => 0 <= d < base) ds ->
  skip_prefix base (map digit_char ds) = map digit_char ds.
Proof.
  intros Hb Hds. destruct Hds as [|d0 ? H0 [|d1 ? H1 [|d2 ds ? _]]]; try done; cbn [map].
  unfold skip_prefix.
  pose proof (digit_char_facts d1 ltac:(lia)) as F. unfold digit_char_ok in F.
  rewrite !andb_true_iff, !negb_true_iff in F. destruct F as [[_ ->] ->].
  by rewrite andb_false_r.
Qed.

(** Parsing a non-empty run of printed digits returns its value. *)
Lemma strto_digits base ds :
  base <= 16 -> ds <> [] -> Forall (fun d => 0 <= d < base) ds ->
  strto base (map digit_char ds) = Some (false, digits_value base ds).
Proof.
  intros Hb Hne Hr. unfold strto. destruct ds as [|d ds]; [done|].
  pose proof (Forall_inv Hr) as Hd. cbn in Hd. simpl map.
  rewrite skip_space_digit, take_sign_digit by lia.
  change (digit_char d :: map digit_char ds) with (map digit_char (d :: ds)).
  rewrite skip_prefix_printed by done.
  by rewrite <- (app_nil_r (map digit_char _)), lead_digits_printed.
Qed.

(** Parsing a printed number returns it, in base 10 and in base 16. *)
Lemma strto_print base n :
  base = 10 \/ base = 16 -> 0 <= n ->
  strto base (map digit_char (to_digits base n)) = Some (false, n).
Proof.
  intros Hb Hn. rewrite strto_digits, digits_value_to_digits;
    eauto using to_digits_nonempty, to_digits_range with lia; lia.
Qed.

Lemma stoull_print_dec n : is_u64 n -> stoull 10 (print_dec n) = Ret n.
Proof.
  intros Hn. unfold stoull, print_dec. rewrite strto_print by (unfold is_u64 in *; lia).
  unfold is_u64 in Hn. by destruct (Z.leb_spec n U64_MAX); [|lia].
Qed.

Lemma stoull_print_hex n : is_u64 n -> stoull 16 (print_hex n) = Ret n.
Proof.
  intros Hn. unfold stoull, print_hex. rewrite strto_print by (unfold is_u64 in *; lia).
  unfold is_u64 in Hn. by destruct (Z.leb_spec n U64_MAX); [|lia].
Qed.

(** Two-digit hexadecimal: all 256 bytes are checked by evaluation. *)
Lemma print_hex2_facts b : is_u8 b -> length (print_hex2 b) = 2%nat /\ stoi 16 (print_hex2 b) = Ret b.
Proof.
  intros Hb.
  assert (H : bool_decide (length (print_hex2 b) = 2%nat /\ stoi 16 (print_hex2 b) = Ret b) = true).
  { revert b Hb. apply forallb_seqZ. vm_compute. reflexivity. }
  by apply bool_decide_eq_true in H.
Qed.

Lemma length_bytes_to_hex l : bytes_ok l -> length (bytes_to_hex l) = (2 * length l)%nat.
Proof.
  unfold bytes_to_hex. induction 1 as [|b l Hb Hl IH]; [done|]. simpl.
  rewrite length_app, IH. destruct (print_hex2_facts b Hb) as [-> _]. lia.
Qed.

Lemma substr_bytes_to_hex l i b :
  bytes_ok l -> l !! i = Some b -> substr (i * 2) 2 (bytes_to_hex l) = print_hex2 b.
Proof.
  unfold bytes_to_hex, substr. intros Hl. revert i. induction Hl as [|x l Hx Hl IH]; intros i Hi; [done|].
  destruct (print_hex2_facts x Hx) as [Hlen _]. destruct i as [|i]; simpl in Hi |- *.
  - injection Hi as ->. rewrite drop_0, take_app_le by lia. by rewrite <- Hlen, firstn_all.
  - rewrite drop_app_ge, Hlen by lia. replace (S (S (i * 2)) - 2)%nat with (i * 2)%nat by lia. by apply IH.
Qed.

(** ** The byte-pair loop shared by the fixed-size types

    [for (size_t i = 0; i < n; ++i) data_[i] =
       static_cast<uint8_t>(std::stoi(hex_string.substr(i * 2, 2), nullptr, 16))]. *)
Fixpoint hex_pairs (i k : nat) (s : cstr) : outcome (list Z) :=
  match k with
  | O => Ret []
  | S k' =>
      b ← stoi 16 (substr (i * 2) 2 s);
      rest ← hex_pairs (S i) k' s;
      Ret (u8 b :: rest)
  end.

Lemma hex_pairs_wf i k s l : hex_pairs i k s = Ret l -> length l = k /\ bytes_ok l.
Proof.
  revert i l. induction k as [|k IH]; intros i l H; simpl in H;
    [injection H as <-; split; [done|constructor]|].
  destruct (stoi 16 _) as [b| |]; simpl in H; try done.
  destruct (hex_pairs (S i) k s) as [r| |] eqn:E; simpl in H; try done.
  injection H as <-. destruct (IH _ _ E) as [<- ?]. split; [done|]. constructor; auto using u8_range.
Qed.

(** Printing a byte array and reading it back, from any offset. *)
Lemma hex_pairs_to_hex i k l :
  bytes_ok l -> (i + k <= length l)%nat ->
  hex_pairs i k (bytes_to_hex l) = Ret (take k (drop i l)).
Proof.
  intros Hl. revert i. induction k as [|k IH]; intros i Hk; [by rewrite take_0|].
  destruct (lookup_lt_is_Some_2 l i) as [b Hb]; [lia|].
  assert (Hb8 : is_u8 b) by (eapply Forall_lookup_1; eauto).
  simpl. rewrite (substr_bytes_to_hex l i b Hl Hb).
  destruct (print_hex2_facts b Hb8) as [_ ->]. simpl.
  rewrite IH by lia. simpl. rewrite u8_small by done.
  by rewrite (drop_S l b i Hb).
Qed.

(** ** Characters and bytes *)

Lemma char_code_range c : is_u8 (char_code c).
Proof. unfold char_code, is_u8. pose proof (N_ascii_bounded c). lia. Qed.

Lemma char_of_code c : char_of (char_code c) = c.
Proof. unfold char_of, char_code. by rewrite N2Z.id, ascii_N_embedding. Qed.

Lemma cstr_of_bytes_of_cstr s : cstr_of_bytes (bytes_of_cstr s) = s.
Proof. unfold cstr_of_bytes, bytes_of_cstr. rewrite map_map. rewrite (map_ext _ id); [apply map_id|]. intros c. apply char_of_code. Qed.

Lemma bytes_of_cstr_ok s : bytes_ok (bytes_of_cstr s).
Proof. unfold bytes_of_cstr. induction s; constructor; auto using char_code_range. Qed.

Lemma bytes_of_cstr_inj s t : bytes_of_cstr s = bytes_of_cstr t -> s = t.
Proof. intros E. by rewrite <- (cstr_of_bytes_of_cstr s), E, cstr_of_bytes_of_cstr. Qed.

Lemma stoi_print_dec n : 0 <= n < 2147483648 -> stoi 10 (print_dec n) = Ret n.
Proof.
  intros Hn. unfold stoi, print_dec. rewrite strto_print by lia.
  destruct (Z.leb_spec (-2147483648) n), (Z.leb_spec n 2147483647); done || lia.
Qed.

Lemma starts_with_app p s : starts_with p (p ++ s) = true.
Proof. induction p; simpl; [done|]. by rewrite Ascii.eqb_refl. Qed.

Lemma lead_digits_range base s : Forall (fun d => 0 <= d) (lead_digits base s).
Proof.
  induction s as [|c s IH]; cbn; [constructor|]. destruct (is_digit_in base c) as [d|] eqn:E; [|constructor].
  constructor; [|done]. unfold is_digit_in, digit_of in E. repeat case_match; simplify_eq;
    rewrite ?andb_true_iff, ?Z.leb_le in *; lia.
Qed.

Lemma digits_value_nonneg base ds : 0 <= base -> Forall (fun d => 0 <= d) ds -> 0 <= digits_value base ds.
Proof.
  intros Hb. induction 1 as [|d ds Hd Hds IH]; [done|]. rewrite digits_value_cons.
  pose proof (Z.pow_nonneg base (Z.of_nat (length ds)) Hb). nia.
Qed.

(** The magnitude [strto] reads is not negative. *)
Lemma strto_nonneg base s neg v : 0 <= base -> strto base s = Some (neg, v) -> 0 <= v.
Proof.
  intros Hb. unfold strto. destruct (take_sign _) as [n s1].
  destruct (lead_digits base (skip_prefix base s1)) as [|d ds] eqn:E; [done|]. intros [= _ <-].
  apply digits_value_nonneg; [done|]. rewrite <- E. apply lead_digits_range.
Qed.
