(* ===== verification/Floats.v ===== *)
(** * Doubles: IEEE 754 binary64 as the Standard Library's [spec_float]

    The code computes priorities, fee ratios and difficulty ratios in [double].
    [SpecFloat] gives binary64 with round to nearest even as executable functions
    on integers, so no real number and no axiom is involved. *)

From stdpp Require Import base list numbers strings.
From Stdlib Require Import ZArith Lia.
From Stdlib Require Export SpecFloat.
From S2P Require Import Prelude.

Abbreviation double := spec_float (only parsing).

(** [static_cast<double>(n)] of an integer. *)
Definition d_of_Z (n : Z) : double := binary_normalize 53 1024 n 0 false.
Definition dadd (a b : double) : double := SFadd 53 1024 a b.
Definition dmul (a b : double) : double := SFmul 53 1024 a b.
Definition ddiv (a b : double) : double := SFdiv 53 1024 a b.
Definition dltb (a b : double) : bool := SFltb a b.
Definition dleb (a b : double) : bool := SFleb a b.

(** A decimal literal [n/d] with [n] and [d] exact in binary64: the correctly
    rounded quotient is what the compiler stores. *)
Definition dlit (n d : Z) : double := ddiv (d_of_Z n) (d_of_Z d).

Definition is_nan (d : double) : bool := match d with S754_nan => true | _ => false end.
Definition is_finite (d : double) : bool :=
  match d with S754_zero _ | S754_finite _ _ _ => true | _ => false end.

(** Truncation toward zero; [None] for an infinity or a NaN. *)
Definition d_trunc (d : double) : option Z :=
  match d with
  | S754_zero _ => Some 0
  | S754_finite s m e =>
      let a := if 0 <=? e then Zpos m * 2 ^ e else Zpos m / 2 ^ (- e) in
      Some (if s then - a else a)
  | _ => None
  end.

(** [static_cast<uint64_t>(d)]: undefined unless the truncated value fits. *)
Definition d_to_u64 (d : double) : outcome Z :=
  match d_trunc d with
  | Some z => if (0 <=? z) && (z <=? U64_MAX) then Ret z else Undefined
  | None => Undefined
  end.

(** [std::max(a, b)] and [std::clamp(v, lo, hi)] on doubles; [clamp] requires
    [!(hi < lo)]. *)
Definition dmax (a b : double) : double := if dltb a b then b else a.
Definition dclamp (v lo hi : double) : outcome double :=
  if dltb hi lo then Undefined
  else Ret (if dltb v lo then lo else if dltb hi v then hi else v).

(** ** The order of doubles *)

Lemma dltb_irrefl a : dltb a a = false.
Proof.
  unfold dltb, SFltb. destruct a as [| [] | | [] m e]; simpl; try done;
    rewrite Z.compare_refl, Pos.compare_cont_refl; done.
Qed.

Lemma dltb_trans a b c : dltb a b = true -> dltb b c = true -> dltb a c = true.
Proof.
  unfold dltb, SFltb.
  destruct a as [[] | [] | | [] m e], b as [[] | [] | | [] m' e'], c as [[] | [] | | [] m'' e''];
    simpl; try done; change (Pos.compare_cont Eq) with Pos.compare in *.
  all: destruct (Z.compare_spec e e'), (Z.compare_spec e' e''), (Z.compare_spec e e'');
    simpl; try done; try lia.
  all: destruct (Pos.compare_spec m m'), (Pos.compare_spec m' m''), (Pos.compare_spec m m'');
    simpl; try done; try lia.
Qed.

Lemma dltb_asym a b : dltb a b = true -> dltb b a = false.
Proof.
  intros H. destruct (dltb b a) eqn:E; [|done].
  pose proof (dltb_trans _ _ _ H E) as F. by rewrite dltb_irrefl in F.
Qed.

(** Two doubles neither of which is below the other, both of which are numbers,
    compare the same way with everything: "equivalent" under the order. *)
Lemma dltb_equiv_l a b c :
  is_nan a = false -> is_nan b = false -> dltb a b = false -> dltb b a = false ->
  dltb a c = dltb b c.
Proof.
  unfold dltb, SFltb.
  destruct a as [[] | [] | | [] m e], b as [[] | [] | | [] m' e'], c as [[] | [] | | [] m'' e''];
    simpl; try done; change (Pos.compare_cont Eq) with Pos.compare in *.
  all: destruct (Z.compare_spec e e'), (Z.compare_spec e' e); simpl; try done; try lia; subst.
  all: destruct (Pos.compare_spec m m'), (Pos.compare_spec m' m); simpl; try done; try lia; subst; done.
Qed.

Lemma dltb_equiv_r a b c :
  is_nan a = false -> is_nan b = false -> dltb a b = false -> dltb b a = false ->
  dltb c a = dltb c b.
Proof.
  unfold dltb, SFltb.
  destruct a as [[] | [] | | [] m e], b as [[] | [] | | [] m' e'], c as [[] | [] | | [] m'' e''];
    simpl; try done; change (Pos.compare_cont Eq) with Pos.compare in *.
  all: destruct (Z.compare_spec e e'), (Z.compare_spec e' e); simpl; try done; try lia; subst.
  all: destruct (Pos.compare_spec m m'), (Pos.compare_spec m' m); simpl; try done; try lia; subst; done.
Qed.

(** The strict order of numbers is a weak order: incomparability is transitive. *)
Lemma dltb_cotrans a b c :
  is_nan b = false -> dltb a c = true -> dltb a b = true \/ dltb b c = true.
Proof.
  unfold dltb, SFltb.
  destruct a as [[] | [] | | [] m e], b as [[] | [] | | [] m' e'], c as [[] | [] | | [] m'' e''];
    simpl; try (by auto); change (Pos.compare_cont Eq) with Pos.compare in *.
  all: destruct (Z.compare_spec e e'), (Z.compare_spec e' e''), (Z.compare_spec e e'');
    simpl; try (by auto); try lia.
  all: destruct (Pos.compare_spec m m'), (Pos.compare_spec m' m''), (Pos.compare_spec m m'');
    simpl; try (by auto); try lia.
Qed.

Lemma d_to_u64_range d z : d_to_u64 d = Ret z -> is_u64 z.
Proof.
  unfold d_to_u64. destruct (d_trunc d) as [x|]; [|done].
  destruct ((0 <=? x) && (x <=? U64_MAX)) eqn:E; [|done]. intros [= <-].
  apply andb_true_iff in E as [?%Z.leb_le ?%Z.leb_le]. unfold is_u64. lia.
Qed.
