(* ===== verification/FloatExact.v ===== *)
(** * Exact doubles: the integers up to 2^53

    A counter, a gauge and the sum of a histogram are [std::atomic<double>]s that
    code adds whole numbers to.  This file shows when that is exact: conversion,
    addition, subtraction and comparison of doubles agree with the integers as long
    as every value is at most 2^53 in magnitude.  The last part bounds what rounding
    adds to any value, which the eviction target of the pool needs. *)

From stdpp Require Import base list numbers strings.
From Stdlib Require Import ZArith Lia.
From S2P Require Import Prelude Floats.

(** ** Digits and shifts *)

Lemma digits_bounds (p : positive) :
  2 ^ (Z.pos (digits2_pos p) - 1) <= Z.pos p < 2 ^ Z.pos (digits2_pos p).
Proof.
  assert (H : digits2_pos p = Pos.size p) by (by induction p as [p IH|p IH|]; cbn; rewrite ?IH).
  rewrite H. pose proof (Pos.size_gt p) as Hg. pose proof (Pos.size_le p) as Hl.
  assert (E : Z.pos (2 ^ Pos.size p) = 2 ^ Z.pos (Pos.size p)) by apply Pos2Z.inj_pow.
  assert (E' : 2 ^ Z.pos (Pos.size p) = 2 * 2 ^ (Z.pos (Pos.size p) - 1)).
  { rewrite <- Z.pow_succ_r by lia. f_equal. lia. }
  lia.
Qed.

Lemma digits_unique (p : positive) (d : Z) : 1 <= d -> 2 ^ (d - 1) <= Z.pos p < 2 ^ d -> Z.pos (digits2_pos p) = d.
Proof.
  intros Hd [Hl Hu]. destruct (digits_bounds p) as [Hl' Hu'].
  pose proof (proj2 (Z.pow_lt_mono_r_iff 2 (d - 1) (Z.pos (digits2_pos p)) ltac:(lia) ltac:(lia))).
  assert (d - 1 < Z.pos (digits2_pos p)) by (apply (Z.pow_lt_mono_r_iff 2); lia).
  assert (Z.pos (digits2_pos p) - 1 < d) by (apply (Z.pow_lt_mono_r_iff 2); lia). lia.
Qed.

Lemma digits_scale (p : positive) (k : Z) (q : positive) :
  0 <= k -> Z.pos q = Z.pos p * 2 ^ k -> Z.pos (digits2_pos q) = Z.pos (digits2_pos p) + k.
Proof.
  intros Hk Hq. destruct (digits_bounds p) as [Hl Hu]. apply digits_unique; [lia|].
  replace (Z.pos (digits2_pos p) + k - 1) with ((Z.pos (digits2_pos p) - 1) + k) by lia.
  rewrite !Z.pow_add_r, Hq by lia. pose proof (Z.pow_pos_nonneg 2 k ltac:(lia) ltac:(lia)). nia.
Qed.

Lemma iter_pos_nat {A} (f : A -> A) n x : iter_pos f n x = Nat.iter (Pos.to_nat n) f x.
Proof.
  revert x. induction n as [n IH|n IH|]; intros x; cbn [iter_pos]; [| |done].
  - rewrite !IH. rewrite Pos2Nat.inj_xI. rewrite <- Nat.iter_add.
    replace (S (2 * Pos.to_nat n)) with ((Pos.to_nat n + Pos.to_nat n) + 1)%nat by lia.
    by rewrite (Nat.iter_add _ 1).
  - rewrite !IH, <- Nat.iter_add. rewrite Pos2Nat.inj_xO. f_equal. lia.
Qed.

Lemma shr_exact (m : positive) (n : nat) :
  Nat.iter n shr_1 (Build_shr_record (Z.pos m * 2 ^ Z.of_nat n) false false) = Build_shr_record (Z.pos m) false false.
Proof.
  induction n as [|n IH]; [cbn; by rewrite Z.mul_1_r|].
  rewrite Nat.iter_succ_r.
  replace (Z.pos m * 2 ^ Z.of_nat (S n)) with (2 * (Z.pos m * 2 ^ Z.of_nat n))
    by (rewrite Nat2Z.inj_succ, Z.pow_succ_r by lia; lia).
  assert (E : exists q, Z.pos m * 2 ^ Z.of_nat n = Z.pos q).
  { pose proof (Z.pow_pos_nonneg 2 (Z.of_nat n) ltac:(lia) ltac:(lia)). exists (Z.to_pos (Z.pos m * 2 ^ Z.of_nat n)). rewrite Z2Pos.id; lia. }
  destruct E as [q E]. rewrite E in *. exact IH.
Qed.

Lemma shl_pow (m n : positive) : Z.pos (Pos.iter xO m n) = Z.pos m * 2 ^ Z.pos n.
Proof.
  induction n as [|n IH] using Pos.peano_ind; [cbn; lia|].
  rewrite Pos.iter_succ, Pos2Z.inj_succ, Z.pow_succ_r by lia. rewrite Pos2Z.inj_xO, IH. lia.
Qed.

(** ** Rounding a representable value is exact *)

(** A significand of 53 digits is left as it is. *)
Lemma round_aux_fits s (M : positive) E :
  Z.pos (digits2_pos M) = 53 -> -1074 <= E <= 971 -> binary_round_aux 53 1024 s (Z.pos M) E loc_Exact = S754_finite s M E.
Proof.
  intros Hd HE. unfold binary_round_aux, shr_fexp, Zdigits2. rewrite Hd.
  assert (F : fexp 53 1024 (53 + E) - E = 0) by (unfold fexp, emin; lia).
  cbn [shr_record_of_loc]. rewrite F. cbn [shr shr_m loc_of_shr_record round_nearest_even]. rewrite Hd, F. cbn [shr shr_m].
  by destruct (Z.leb_spec E (1024 - 53)); [|lia].
Qed.

(** A significand that ends in zeros loses only zeros. *)
Lemma round_aux_shift s (M q : positive) (n : positive) e :
  Z.pos (digits2_pos M) = 53 -> -1074 <= e + Z.pos n <= 971 -> Z.pos q = Z.pos M * 2 ^ Z.pos n ->
  binary_round_aux 53 1024 s (Z.pos q) e loc_Exact = S754_finite s M (e + Z.pos n).
Proof.
  intros Hd HE Hq. pose proof (digits_scale M (Z.pos n) q ltac:(lia) Hq) as Hdq.
  unfold binary_round_aux, shr_fexp at 1, Zdigits2. rewrite Hdq, Hd.
  assert (F : fexp 53 1024 (53 + Z.pos n + e) - e = Z.pos n) by (unfold fexp, emin; lia).
  assert (I : iter_pos shr_1 n (Build_shr_record (Z.pos q) false false) = Build_shr_record (Z.pos M) false false).
  { rewrite iter_pos_nat, Hq, <- (shr_exact M (Pos.to_nat n)). do 4 f_equal. lia. }
  rewrite F. cbn [shr_record_of_loc shr]. rewrite I.
  cbn [shr_m loc_of_shr_record round_nearest_even].
  unfold shr_fexp, Zdigits2. rewrite Hd.
  assert (G : fexp 53 1024 (53 + (e + Z.pos n)) - (e + Z.pos n) = 0) by (unfold fexp, emin; lia).
  rewrite G. cbn [shr_record_of_loc shr shr_m]. by destruct (Z.leb_spec (e + Z.pos n) (1024 - 53)); [|lia].
Qed.

(** A number [q * 2^e] that a 53-digit significand [M * 2^E] represents rounds to it. *)
Lemma round_canonical s (q M : positive) e E :
  Z.pos (digits2_pos M) = 53 -> -1074 <= E <= 971 ->
  (exists k, 0 <= k /\ (e = E + k /\ Z.pos M = Z.pos q * 2 ^ k \/ E = e + k /\ Z.pos q = Z.pos M * 2 ^ k)) ->
  binary_round 53 1024 s q e = S754_finite s M E.
Proof.
  intros Hd HE (k & Hk & [[-> HM]|[-> Hq]]); unfold binary_round.
  - pose proof (digits_scale q k M Hk HM) as Hdq. rewrite Hd in Hdq.
    replace (fexp 53 1024 (Z.pos (digits2_pos q) + (E + k))) with E by (unfold fexp, emin; lia).
    unfold shl_align. destruct (E - (E + k)) as [|n|n] eqn:En; [|lia|].
    + assert (k = 0) as -> by lia. rewrite Z.mul_1_r in HM. injection HM as <-. rewrite Z.add_0_r. by apply round_aux_fits.
    + assert (Hn : Pos.iter xO q n = M).
      { apply Pos2Z.inj. rewrite shl_pow, HM. do 2 f_equal. lia. }
      rewrite Hn. by apply round_aux_fits.
  - pose proof (digits_scale M k q Hk Hq) as Hdq.
    replace (fexp 53 1024 (Z.pos (digits2_pos q) + e)) with (e + k) by (unfold fexp, emin; lia).
    unfold shl_align. destruct (e + k - e) as [|n|n] eqn:En; [| |lia].
    + assert (k = 0) as -> by lia. rewrite Z.mul_1_r in Hq. injection Hq as ->. rewrite Z.add_0_r. by apply round_aux_fits; lia.
    + assert (k = Z.pos n) as -> by lia. by apply round_aux_shift.
Qed.

(** ** Conversion, addition, subtraction and comparison *)

Definition EXACT_MAX : Z := 2 ^ 53.
Definition exact_int (a : Z) : Prop := Z.abs a <= EXACT_MAX.
#[export] Instance exact_int_dec a : Decision (exact_int a).
Proof. unfold exact_int. apply _. Defined.

(** The significand and the exponent that represent the integer [v]. *)
Definition sig_of (v : positive) : positive :=
  if (Z.pos (digits2_pos v) <=? 53) then Z.to_pos (Z.pos v * 2 ^ (53 - Z.pos (digits2_pos v))) else Z.to_pos (Z.pos v / 2).
Definition exp_of (v : positive) : Z := Z.pos (digits2_pos v) - 53.

Lemma exact_digits v : Z.pos v <= EXACT_MAX -> Z.pos (digits2_pos v) <= 53 \/ Z.pos v = 2 ^ 53 /\ Z.pos (digits2_pos v) = 54.
Proof.
  unfold EXACT_MAX. intros H. destruct (digits_bounds v) as [Hl Hu].
  destruct (Z.le_gt_cases (Z.pos (digits2_pos v)) 53) as [|Hd]; [by left|right].
  assert (2 ^ 53 <= 2 ^ (Z.pos (digits2_pos v) - 1)) by (apply Z.pow_le_mono_r; lia).
  assert (E : Z.pos v = 2 ^ 53) by lia. split; [done|]. apply digits_unique; [lia|]. rewrite E. lia.
Qed.

Lemma sig_of_spec v :
  Z.pos v <= EXACT_MAX ->
  Z.pos (digits2_pos (sig_of v)) = 53 /\ -52 <= exp_of v <= 1
  /\ Z.pos (sig_of v) * 2 ^ (exp_of v + 52) = Z.pos v * 2 ^ 52.
Proof.
  intros H. unfold sig_of, exp_of. destruct (exact_digits v H) as [Hd|[Hv Hd]].
  - rewrite (proj2 (Z.leb_le _ _) Hd).
    assert (P : 0 < 2 ^ (53 - Z.pos (digits2_pos v))) by (apply Z.pow_pos_nonneg; lia).
    assert (Q : Z.pos (Z.to_pos (Z.pos v * 2 ^ (53 - Z.pos (digits2_pos v)))) = Z.pos v * 2 ^ (53 - Z.pos (digits2_pos v)))
      by (apply Z2Pos.id; lia).
    split; [|split; [lia|]].
    + rewrite (digits_scale v (53 - Z.pos (digits2_pos v)) _ ltac:(lia) Q). lia.
    + rewrite Q, <- Z.mul_assoc, <- Z.pow_add_r by lia. do 2 f_equal. lia.
  - rewrite (proj2 (Z.leb_gt _ _)) by lia. rewrite Hd, Hv. done.
Qed.

(** A significand that stands for [v] rounds to the representation of [v]. *)
Lemma round_int s (q v : positive) e :
  Z.pos v <= EXACT_MAX -> -52 <= e -> Z.pos q * 2 ^ (e + 52) = Z.pos v * 2 ^ 52 ->
  binary_round 53 1024 s q e = S754_finite s (sig_of v) (exp_of v).
Proof.
  intros Hv He Hq. destruct (sig_of_spec v Hv) as (Hd & HE & HM). rewrite <- HM in Hq.
  apply round_canonical; [done|lia|]. destruct (Z.le_gt_cases (exp_of v) e) as [Hle|Hgt].
  - exists (e - exp_of v). split; [lia|left]. split; [lia|].
    apply (Z.mul_reg_r _ _ (2 ^ (exp_of v + 52))); [pose proof (Z.pow_pos_nonneg 2 (exp_of v + 52) ltac:(lia) ltac:(lia)); lia|].
    rewrite <- Hq, <- Z.mul_assoc, <- Z.pow_add_r by lia. do 2 f_equal. lia.
  - exists (exp_of v - e). split; [lia|right]. split; [lia|].
    apply (Z.mul_reg_r _ _ (2 ^ (e + 52))); [pose proof (Z.pow_pos_nonneg 2 (e + 52) ltac:(lia) ltac:(lia)); lia|].
    rewrite Hq, <- Z.mul_assoc, <- Z.pow_add_r by lia. do 2 f_equal. lia.
Qed.

(** The double of an integer. *)
Definition exact_double (a : Z) : double :=
  match a with
  | Z0 => S754_zero false
  | Zpos v => S754_finite false (sig_of v) (exp_of v)
  | Zneg v => S754_finite true (sig_of v) (exp_of v)
  end.

Lemma normalize_int (S a e : Z) :
  exact_int a -> -52 <= e -> S * 2 ^ (e + 52) = a * 2 ^ 52 -> binary_normalize 53 1024 S e false = exact_double a.
Proof.
  unfold exact_int. intros Ha He HS. pose proof (Z.pow_pos_nonneg 2 (e + 52) ltac:(lia) ltac:(lia)) as P.
  destruct S as [|q|q], a as [|v|v]; try nia; cbn [binary_normalize exact_double]; [done| |]; apply round_int; lia.
Qed.

Lemma d_of_Z_exact a : exact_int a -> d_of_Z a = exact_double a.
Proof. intros Ha. by apply normalize_int; [|lia|]. Qed.

(** Aligning to a smaller exponent keeps the value. *)
Lemma shl_align_int (v : positive) e :
  Z.pos v <= EXACT_MAX -> -52 <= e <= exp_of v ->
  Z.pos (fst (shl_align (sig_of v) (exp_of v) e)) * 2 ^ (e + 52) = Z.pos v * 2 ^ 52.
Proof.
  intros Hv He. destruct (sig_of_spec v Hv) as (_ & _ & HM). rewrite <- HM. unfold shl_align.
  destruct (e - exp_of v) as [|n|n] eqn:E; cbn [fst]; [do 2 f_equal; lia|lia|].
  rewrite shl_pow, <- Z.mul_assoc, <- Z.pow_add_r by lia. do 2 f_equal. lia.
Qed.

Lemma aligned (v w : positive) :
  Z.pos v <= EXACT_MAX -> Z.pos w <= EXACT_MAX ->
  let ez := Z.min (exp_of v) (exp_of w) in
  -52 <= ez
  /\ Z.pos (fst (shl_align (sig_of v) (exp_of v) ez)) * 2 ^ (ez + 52) = Z.pos v * 2 ^ 52
  /\ Z.pos (fst (shl_align (sig_of w) (exp_of w) ez)) * 2 ^ (ez + 52) = Z.pos w * 2 ^ 52.
Proof.
  intros Hv Hw ez. destruct (sig_of_spec v Hv) as (_ & E1 & _), (sig_of_spec w Hw) as (_ & E2 & _).
  split_and!; [lia| |]; apply shl_align_int; unfold ez; lia.
Qed.

Lemma dadd_exact a b : exact_int a -> exact_int b -> exact_int (a + b) -> dadd (d_of_Z a) (d_of_Z b) = d_of_Z (a + b).
Proof.
  intros Ha Hb Hab. rewrite !d_of_Z_exact by done. unfold dadd. unfold exact_int in *.
  destruct a as [|v|v], b as [|w|w]; cbn [exact_double SFadd]; rewrite ?Z.add_0_r, ?Z.add_0_l; try done;
    destruct (aligned v w ltac:(lia) ltac:(lia)) as (He & H1 & H2); (apply normalize_int; [done|exact He|]);
    cbn [cond_Zopp]; rewrite Z.mul_add_distr_r, ?Z.mul_opp_l, H1, H2; lia.
Qed.

Lemma dsub_exact a b :
  exact_int a -> exact_int b -> exact_int (a - b) -> SFsub 53 1024 (d_of_Z a) (d_of_Z b) = d_of_Z (a - b).
Proof.
  intros Ha Hb Hab. rewrite !d_of_Z_exact by done. unfold exact_int in *.
  destruct a as [|v|v], b as [|w|w]; cbn [exact_double SFsub]; rewrite ?Z.sub_0_r, ?Z.sub_0_l; try done;
    destruct (aligned v w ltac:(lia) ltac:(lia)) as (He & H1 & H2); (apply normalize_int; [done|exact He|]);
    cbn [cond_Zopp]; rewrite Z.mul_sub_distr_r, ?Z.mul_opp_l, H1, H2; lia.
Qed.

(** The representations of integers are ordered as the integers are. *)
Lemma sig_compare (v w : positive) :
  Z.pos v <= EXACT_MAX -> Z.pos w <= EXACT_MAX ->
  match exp_of v ?= exp_of w with Eq => (sig_of v ?= sig_of w)%positive | c => c end = (v ?= w)%positive.
Proof.
  intros Hv Hw. destruct (sig_of_spec v Hv) as (D1 & E1 & M1), (sig_of_spec w Hw) as (D2 & E2 & M2).
  destruct (digits_bounds (sig_of v)) as [L1 U1], (digits_bounds (sig_of w)) as [L2 U2]. rewrite D1 in *. rewrite D2 in *.
  assert (P1 := Z.pow_pos_nonneg 2 (exp_of v + 52) ltac:(lia) ltac:(lia)).
  assert (P2 := Z.pow_pos_nonneg 2 (exp_of w + 52) ltac:(lia) ltac:(lia)).
  assert (Step : forall x y, x < y -> -52 <= x -> 2 * 2 ^ (x + 52) <= 2 ^ (y + 52)).
  { intros x y Hxy Hx. rewrite <- Z.pow_succ_r by lia. apply Z.pow_le_mono_r; lia. }
  symmetry. destruct (Z.compare_spec (exp_of v) (exp_of w)) as [Ee|Hlt|Hgt].
  - rewrite Ee in *. destruct (Pos.compare_spec (sig_of v) (sig_of w)) as [Es|Hs|Hs].
    + rewrite Es in *. apply Pos.compare_eq_iff. lia.
    + apply Pos.compare_lt_iff. nia.
    + apply Pos.compare_gt_iff. nia.
  - specialize (Step _ _ Hlt ltac:(lia)). apply Pos.compare_lt_iff. nia.
  - specialize (Step _ _ Hgt ltac:(lia)). apply Pos.compare_gt_iff. nia.
Qed.

Lemma dcompare_exact a b : exact_int a -> exact_int b -> SFcompare (d_of_Z a) (d_of_Z b) = Some (a ?= b).
Proof.
  intros Ha Hb. rewrite !d_of_Z_exact by done. unfold exact_int in *.
  destruct a as [|v|v], b as [|w|w]; cbn [exact_double SFcompare]; try done;
    change (Pos.compare_cont Eq) with Pos.compare; f_equal; cbn [Z.compare];
    rewrite <- (sig_compare v w) by lia; by destruct (exp_of v ?= exp_of w).
Qed.

Lemma dltb_exact a b : exact_int a -> exact_int b -> dltb (d_of_Z a) (d_of_Z b) = (a <? b).
Proof. intros Ha Hb. unfold dltb, SFltb. rewrite dcompare_exact by done. unfold Z.ltb. by destruct (a ?= b). Qed.
Lemma dleb_exact a b : exact_int a -> exact_int b -> dleb (d_of_Z a) (d_of_Z b) = (a <=? b).
Proof. intros Ha Hb. unfold dleb, SFleb. rewrite dcompare_exact by done. unfold Z.leb. by destruct (a ?= b). Qed.

(** Beyond 2^53 one is lost: the double no longer moves. *)
Lemma dadd_saturates : dadd (d_of_Z EXACT_MAX) (d_of_Z 1) = d_of_Z EXACT_MAX.
Proof. reflexivity. Qed.

(** ** How far rounding goes *)

(** [m * 2^e], scaled so that every exponent of a double is a natural number. *)
Definition scaled (m e : Z) : Z := m * 2 ^ (e + 1100).

Lemma shr_div (m : Z) r s n : 0 <= m -> shr_m (Nat.iter n shr_1 (Build_shr_record m r s)) = m / 2 ^ Z.of_nat n.
Proof.
  intros Hm. induction n as [|n IH]; [cbn; by rewrite Z.div_1_r|].
  rewrite Nat2Z.inj_succ, Z.pow_succ_r, Z.mul_comm, <- Z.div_div, <- IH by (lia || apply Z.pow_nonzero; lia).
  assert (H0 : 0 <= shr_m (Nat.iter n shr_1 (Build_shr_record m r s))) by (rewrite IH; apply Z.div_pos; [done|apply Z.pow_pos_nonneg; lia]).
  rewrite Nat.iter_succ. destruct (Nat.iter n shr_1 _) as [[|[p|p|]|p] r' s']; cbn in *; try done; try lia.
  - rewrite Pos2Z.inj_xI. by rewrite Z.mul_comm, Z.div_add_l by lia; rewrite Z.add_0_r.
  - rewrite Pos2Z.inj_xO. by rewrite Z.mul_comm, Z.div_mul by lia.
Qed.

Lemma shr_le m r s e n mrs' e' :
  0 <= m -> -1100 <= e -> shr (Build_shr_record m r s) e n = (mrs', e') ->
  e' = Z.max e (e + n) /\ 0 <= shr_m mrs' /\ scaled (shr_m mrs') e' <= scaled m e.
Proof.
  intros Hm He Hs. unfold scaled. destruct n as [|n|n]; cbn [shr] in Hs; injection Hs as <- <-; [split_and!; cbn; lia| |split_and!; cbn; lia].
  rewrite iter_pos_nat, shr_div, positive_nat_Z by done. pose proof (Z.pow_pos_nonneg 2 (Z.pos n) ltac:(lia) ltac:(lia)) as Hp.
  split_and!; [lia|by apply Z.div_pos|].
  replace (e + Z.pos n + 1100) with (Z.pos n + (e + 1100)) by lia. rewrite Z.pow_add_r, Z.mul_assoc by lia.
  apply Z.mul_le_mono_nonneg_r; [apply Z.pow_nonneg; lia|]. rewrite Z.mul_comm. by apply Z.mul_div_le.
Qed.

Lemma rne_le m l : m <= round_nearest_even m l <= m + 1.
Proof. destruct l as [|[]]; cbn; try lia. destruct (Z.even m); lia. Qed.

Lemma scaled_digits (p : positive) e : -1100 <= e -> 2 ^ (Z.pos (digits2_pos p) - 1 + e + 1100) <= scaled (Z.pos p) e.
Proof.
  intros He. destruct (digits_bounds p) as [H _]. unfold scaled. replace (Z.pos (digits2_pos p) - 1 + e + 1100) with ((Z.pos (digits2_pos p) - 1) + (e + 1100)) by lia.
  rewrite Z.pow_add_r by lia. apply Z.mul_le_mono_nonneg_r; [apply Z.pow_nonneg; lia|done].
Qed.

(** Rounding adds at most a unit in the last place, and overflows only beyond 2^1000. *)
Lemma round_aux_le (M : positive) E u :
  -1074 <= E -> u = Z.max E (fexp 53 1024 (Z.pos (digits2_pos M) + E)) -> u <= 900 ->
  scaled (Z.pos M) E + 2 ^ (u + 1100) < 2 ^ 2000 ->
  binary_round_aux 53 1024 false (Z.pos M) E loc_Exact = S754_zero false
  \/ exists m e, binary_round_aux 53 1024 false (Z.pos M) E loc_Exact = S754_finite false m e
     /\ u <= e /\ scaled (Z.pos m) e <= scaled (Z.pos M) E + 2 ^ (u + 1100).
Proof.
  intros HE Hu Hu9 Hb. unfold binary_round_aux.
  destruct (shr_fexp 53 1024 (Z.pos M) E loc_Exact) as [mrs e1] eqn:E1. unfold shr_fexp in E1. cbn [Zdigits2 shr_record_of_loc] in E1.
  apply shr_le in E1 as (He1 & Hm1 & Hv1); [|lia..]. assert (e1 = u) as -> by lia. clear He1.
  set (m2 := round_nearest_even _ _). pose proof (rne_le (shr_m mrs) (loc_of_shr_record mrs)) as Hr. fold m2 in Hr.
  assert (Hv2 : scaled m2 u <= scaled (Z.pos M) E + 2 ^ (u + 1100)).
  { unfold scaled in *. assert (0 < 2 ^ (u + 1100)) by (apply Z.pow_pos_nonneg; lia). nia. }
  destruct (shr_fexp 53 1024 m2 u loc_Exact) as [mrs2 e2] eqn:E2. unfold shr_fexp in E2. cbn [shr_record_of_loc] in E2.
  apply shr_le in E2 as (He2 & Hm2 & Hv3); [|lia..].
  destruct (shr_m mrs2) as [|m|m]; [by left| |lia]. right. exists m, e2.
  assert (Hd : Z.pos (digits2_pos m) - 1 + e2 + 1100 < 2000).
  { apply (Z.pow_lt_mono_r_iff 2); [lia..|]. pose proof (scaled_digits m e2 ltac:(lia)). lia. }
  destruct (Z.leb_spec e2 (1024 - 53)); [|lia]. split_and!; [done|lia|lia].
Qed.

Lemma round_le (M : positive) E u :
  -1074 <= E -> u = Z.max E (fexp 53 1024 (Z.pos (digits2_pos M) + E)) -> u <= 900 ->
  scaled (Z.pos M) E + 2 ^ (u + 1100) < 2 ^ 2000 ->
  binary_round 53 1024 false M E = S754_zero false
  \/ exists m e, binary_round 53 1024 false M E = S754_finite false m e
     /\ fexp 53 1024 (Z.pos (digits2_pos M) + E) <= e /\ scaled (Z.pos m) e <= scaled (Z.pos M) E + 2 ^ (u + 1100).
Proof.
  intros HE Hu Hu9 Hb. unfold binary_round, shl_align. set (f := fexp 53 1024 (Z.pos (digits2_pos M) + E)) in *.
  assert (Hf : -1074 <= f) by (unfold f, fexp, emin; lia).
  assert (Hgo : forall M' E', -1074 <= E' -> scaled (Z.pos M') E' = scaled (Z.pos M) E -> Z.pos (digits2_pos M') + E' = Z.pos (digits2_pos M) + E ->
    Z.max E' f <= u -> binary_round_aux 53 1024 false (Z.pos M') E' loc_Exact = S754_zero false
     \/ exists m e, binary_round_aux 53 1024 false (Z.pos M') E' loc_Exact = S754_finite false m e /\ f <= e
        /\ scaled (Z.pos m) e <= scaled (Z.pos M) E + 2 ^ (u + 1100)).
  { intros M' E' HE' Hv Hd Hu'. assert (Hp : 2 ^ (Z.max E' f + 1100) <= 2 ^ (u + 1100)) by (apply Z.pow_le_mono_r; lia).
    destruct (round_aux_le M' E' (Z.max E' f)) as [?|(m & e & ? & ? & ?)]; [done|by rewrite Hd|lia|rewrite Hv; lia|by left|].
    right. exists m, e. split_and!; [done|lia|lia]. }
  destruct (f - E) as [|d|d] eqn:Ed; [apply Hgo; lia|apply Hgo; lia|].
  assert (Hs : scaled (Z.pos (Pos.iter xO M d)) f = scaled (Z.pos M) E).
  { unfold scaled. rewrite shl_pow. replace (E + 1100) with (Z.pos d + (f + 1100)) by lia. rewrite (Z.pow_add_r 2 (Z.pos d)) by lia. lia. }
  apply Hgo; [lia|done| |lia]. rewrite (digits_scale M (Z.pos d)); [lia|lia|apply shl_pow].
Qed.

Lemma scaled_bound_digits (p : positive) e b : -1074 <= e -> scaled (Z.pos p) e < 2 ^ (b + 1100) -> 0 <= b + 1100 -> Z.pos (digits2_pos p) + e <= b.
Proof.
  intros He H Hb. assert (Z.pos (digits2_pos p) - 1 + e + 1100 < b + 1100); [|lia].
  apply (Z.pow_lt_mono_r_iff 2); [lia..|]. pose proof (scaled_digits p e ltac:(lia)). lia.
Qed.

(** The conversion of a 64-bit integer to [double] is off by at most 2^11. *)
Lemma d_of_u64 n : 0 < n < 2 ^ 64 ->
  d_of_Z n = S754_zero false \/ exists m e, d_of_Z n = S754_finite false m e /\ -52 <= e /\ scaled (Z.pos m) e <= scaled (n + 2 ^ 11) 0.
Proof.
  intros Hn. destruct n as [|n|n]; [lia| |lia]. unfold d_of_Z, binary_normalize.
  assert (Hd : Z.pos (digits2_pos n) + 0 <= 64).
  { apply scaled_bound_digits; [lia| |lia]. unfold scaled. rewrite !Z.pow_add_r, Z.pow_0_r by lia. nia. }
  destruct (round_le n 0 (Z.max 0 (fexp 53 1024 (Z.pos (digits2_pos n) + 0)))) as [?|(m & e & H1 & H2 & H3)]; [lia|done| | |by left|].
  - unfold fexp, emin. lia.
  - assert (Hp : 2 ^ (Z.max 0 (fexp 53 1024 (Z.pos (digits2_pos n) + 0)) + 1100) <= 2 ^ (11 + 1100)) by (apply Z.pow_le_mono_r; unfold fexp, emin; lia).
    unfold scaled. change (2 ^ (0 + 1100)) with (2 ^ 1100) in *. assert (Z.pos n * 2 ^ 1100 < 2 ^ 64 * 2 ^ 1100) by (apply Z.mul_lt_mono_pos_r; [lia|lia]).
    rewrite <- Z.pow_add_r in H by lia. eapply Z.lt_trans with (2 ^ 1164 + 2 ^ 1112); [lia|]. vm_compute. reflexivity.
  - right. exists m, e. split_and!; [done|unfold fexp, emin in H2; lia|]. assert (Hp : 2 ^ (Z.max 0 (fexp 53 1024 (Z.pos (digits2_pos n) + 0)) + 1100) <= 2 ^ (11 + 1100)) by (apply Z.pow_le_mono_r; unfold fexp, emin; lia).
    unfold scaled in *. rewrite Z.mul_add_distr_r. rewrite <- (Z.pow_add_r 2 11) by lia. change (11 + (0 + 1100)) with (11 + 1100). lia.
Qed.

(** Four fifths of a [size_t], computed in doubles, is a [size_t] again. *)
Lemma four_fifths n : is_u64 n -> exists t, d_to_u64 (dmul (d_of_Z n) (dlit 8 10)) = Ret t.
Proof.
  intros Hn. assert (Hz : forall s, exists t, d_to_u64 (dmul (S754_zero s) (dlit 8 10)) = Ret t) by (intros []; vm_compute; by eexists).
  destruct (decide (n = 0)) as [->|Hne]; [apply (Hz false)|].
  destruct (d_of_u64 n) as [->|(m & e & -> & He & Hv)]; [unfold is_u64 in Hn; lia|apply Hz|].
  replace (dlit 8 10) with (S754_finite false 7205759403792794 (-53)) by (by vm_compute). unfold dmul. cbn [SFmul xorb].
  assert (Hval : scaled (Z.pos (m * 7205759403792794)) (e + -53) <= scaled (2 ^ 64 + 2 ^ 11) 0 * 7205759403792794 / 2 ^ 53).
  { apply Z.div_le_lower_bound; [lia|]. unfold scaled in *. rewrite Pos2Z.inj_mul.
    replace (e + 1100) with (53 + (e + -53 + 1100)) in Hv by lia. rewrite (Z.pow_add_r 2 53) in Hv by lia.
    assert (n + 2 ^ 11 <= 2 ^ 64 + 2 ^ 11) by (unfold is_u64 in Hn; lia). change (2 ^ (0 + 1100)) with (2 ^ 1100) in *. nia. }
  set (M := (m * 7205759403792794)%positive) in *. set (E := e + -53) in *.
  assert (Hb : scaled (2 ^ 64 + 2 ^ 11) 0 * 7205759403792794 / 2 ^ 53 < 2 ^ (64 + 1100) - 2 ^ (12 + 1100)) by (vm_compute; reflexivity).
  assert (Hd : Z.pos (digits2_pos M) + E <= 64) by (apply scaled_bound_digits; lia).
  set (u := Z.max E (fexp 53 1024 (Z.pos (digits2_pos M) + E))). assert (HE : E <= 11).
  { assert (Z.pos (digits2_pos m) + e <= 65); [|lia]. apply scaled_bound_digits; [lia| |lia]. eapply Z.le_lt_trans; [exact Hv|].
    unfold scaled. apply Z.lt_le_trans with (2 ^ 65 * 2 ^ (0 + 1100)); [|vm_compute; discriminate]. apply Z.mul_lt_mono_pos_r; [vm_compute; reflexivity|].
    unfold is_u64 in Hn. lia. }
  assert (Hu : 2 ^ (u + 1100) <= 2 ^ (11 + 1100)) by (apply Z.pow_le_mono_r; unfold u, fexp, emin; lia).
  assert (Hlim : 2 ^ (64 + 1100) < 2 ^ 2000) by (vm_compute; reflexivity). assert (H12 : 2 ^ (12 + 1100) = 2 * 2 ^ (11 + 1100)) by (vm_compute; reflexivity).
  destruct (round_aux_le M E u) as [->|(m' & e' & -> & He' & Hv')]; [lia|done|unfold u, fexp, emin; lia|lia|vm_compute; by eexists|].
  unfold d_to_u64, d_trunc. eexists. rewrite (proj2 (andb_true_iff _ _)); [reflexivity|]. rewrite !Z.leb_le.
  assert (Hlt : scaled (Z.pos m') e' < scaled (2 ^ 64) 0) by (unfold scaled at 2; rewrite <- Z.pow_add_r by lia; change (64 + (0 + 1100)) with (64 + 1100); lia).
  unfold scaled in Hlt. destruct (Z.leb_spec 0 e') as [H0|H0].
  - replace (e' + 1100) with (e' + (0 + 1100)) in Hlt by lia. rewrite Z.pow_add_r, Z.mul_assoc in Hlt by lia.
    apply Z.mul_lt_mono_pos_r in Hlt; [|apply Z.pow_pos_nonneg; lia]. pose proof (Z.pow_pos_nonneg 2 e' ltac:(lia) H0). split; [lia|]. change (2 ^ 64) with U64_MOD in Hlt. lia.
  - split; [apply Z.div_pos; [lia|apply Z.pow_pos_nonneg; lia]|]. cut (Z.pos m' / 2 ^ (- e') < U64_MOD); [lia|].
    apply Z.div_lt_upper_bound; [apply Z.pow_pos_nonneg; lia|]. replace (0 + 1100) with (- e' + (e' + 1100)) in Hlt by lia.
    rewrite (Z.pow_add_r 2 (- e')) in Hlt by lia. change (2 ^ 64) with U64_MOD in Hlt.
    apply (Z.mul_lt_mono_pos_r (2 ^ (e' + 1100))); [apply Z.pow_pos_nonneg; lia|]. lia.
Qed.
