(* ===== verification/Sorting.v ===== *)
(** * Sorting by a comparison

    [std::sort], [std::priority_queue] and the iteration order of [std::map] are
    insertion into a list ordered by a boolean comparison: with a strict weak
    order whose incomparable elements are equal the result does not depend on the
    algorithm. *)

From stdpp Require Import base list numbers sorting.
From Stdlib Require Import Lia.
From S2P Require Import Prelude.

Section Sorting.
Context {A : Type} (lt : A -> A -> bool).

(** Insert in front of the first element that is not below [x]. *)
Fixpoint insert_by (x : A) (l : list A) : list A :=
  match l with
  | [] => [x]
  | y :: l' => if lt y x then y :: insert_by x l' else x :: l
  end.
Definition sort_by (l : list A) : list A := fold_right insert_by [] l.

(** Nothing later is below something earlier. *)
Definition ordered (l : list A) : Prop := StronglySorted (fun a b => lt b a = false) l.

Lemma insert_by_perm x l : insert_by x l ≡ₚ x :: l.
Proof.
  induction l as [|y l IH]; simpl; [done|]. case_match; [|done].
  rewrite IH. constructor.
Qed.

Lemma sort_by_perm l : sort_by l ≡ₚ l.
Proof. induction l as [|x l IH]; simpl; [done|]. by rewrite insert_by_perm, IH. Qed.

Lemma length_sort_by l : length (sort_by l) = length l.
Proof. by rewrite sort_by_perm. Qed.

Lemma elem_of_insert_by x y l : y ∈ insert_by x l <-> y = x \/ y ∈ l.
Proof. rewrite insert_by_perm. apply elem_of_cons. Qed.

Lemma elem_of_sort_by y l : y ∈ sort_by l <-> y ∈ l.
Proof. by rewrite sort_by_perm. Qed.

(** The laws a comparison must satisfy on the elements compared: asymmetry, and
    transitivity of "not below" (a strict weak order). *)
Definition weak_order_on (P : A -> Prop) : Prop :=
  (forall a b, P a -> P b -> lt a b = true -> lt b a = false)
  /\ (forall a b c, P a -> P b -> P c -> lt b a = false -> lt c b = false -> lt c a = false).

Lemma insert_by_ordered P x l :
  weak_order_on P -> P x -> Forall P l -> ordered l -> ordered (insert_by x l).
Proof.
  intros [Hasym Htr] Hx Hp Ho. induction Ho as [|y l Ho IH Hf]; [by repeat constructor|].
  apply Forall_cons_1 in Hp as [Hy Hp]. simpl. destruct (lt y x) eqn:E.
  - constructor; [by apply IH|]. rewrite insert_by_perm. constructor; [by apply Hasym|done].
  - constructor; [by constructor|]. constructor; [done|].
    rewrite Forall_forall in Hf, Hp |- *. intros z Hz. apply (Htr x y z); auto.
Qed.

Lemma sort_by_ordered P l : weak_order_on P -> Forall P l -> ordered (sort_by l).
Proof.
  intros Hw. induction 1 as [|x l Hx Hl IH]; simpl; [constructor|].
  apply (insert_by_ordered P); [done|done| |done]. by rewrite sort_by_perm.
Qed.

Lemma ordered_lookup l i j a b :
  ordered l -> (i < j)%nat -> l !! i = Some a -> l !! j = Some b -> lt b a = false.
Proof.
  intros Ho. revert i j. induction Ho as [|x l Ho IH Hf]; intros i j Hij Hi Hj; [done|].
  destruct j as [|j]; [lia|]. simpl in Hj. destruct i as [|i]; simpl in Hi.
  - injection Hi as ->. rewrite Forall_forall in Hf. apply Hf. by eapply list_elem_of_lookup_2.
  - eapply IH, Hj; [|done]. lia.
Qed.

(** An ordered list splits into elements none of which is above the rest. *)
Lemma ordered_app l1 l2 a b : ordered (l1 ++ l2) -> a ∈ l1 -> b ∈ l2 -> lt b a = false.
Proof.
  intros Ho [i Hi]%list_elem_of_lookup_1 [j Hj]%list_elem_of_lookup_1.
  apply (ordered_lookup (l1 ++ l2) i (length l1 + j)); [done| | |].
  - apply lookup_lt_Some in Hi. lia.
  - by apply lookup_app_l_Some.
  - rewrite lookup_app_r by lia. by replace (length l1 + j - length l1)%nat with j by lia.
Qed.

(** Ordered permutations of each other are equal when the order is strict total. *)
Lemma ordered_perm_eq P l1 l2 :
  (forall a b, P a -> P b -> lt a b = false -> lt b a = false -> a = b) ->
  Forall P l1 -> ordered l1 -> ordered l2 -> l1 ≡ₚ l2 -> l1 = l2.
Proof.
  intros Ht Hp H1. revert l2. induction H1 as [|x l1 H1 IH Hf]; intros l2 H2 Hperm.
  - by apply Permutation_nil_l in Hperm.
  - apply Forall_cons_1 in Hp as [Hx Hp].
    destruct H2 as [|y l2 H2 Hg]; [by apply Permutation_nil_r in Hperm|].
    assert (x = y) as ->.
    { assert (Hy : y ∈ x :: l1) by (rewrite Hperm; by left).
      assert (Hx' : x ∈ y :: l2) by (rewrite <- Hperm; by left).
      rewrite elem_of_cons in Hy, Hx'. rewrite Forall_forall in Hf, Hg, Hp.
      destruct Hy as [->|Hy]; [done|]. destruct Hx' as [->|Hx']; [done|]. apply Ht; auto. }
    f_equal. apply IH; [done|done|]. by apply Permutation_cons_inv in Hperm.
Qed.
End Sorting.
