(* ===== verification/Effects.v ===== *)
(** * Effects: locks, the clock and callbacks

    The stateful classes of the code guard an object with a mutex, read the
    system clock and call user callbacks.  [eff S E A] is a computation on a
    [world]: the object [S], the lock modes the calling thread holds, the number
    of clock readings made so far, and the log of callback invocations [E].

    The clock is a parameter ([clock n] is the n-th reading).  Locking a
    [std::mutex] or [std::shared_mutex] that the calling thread already owns is
    undefined behaviour; [on_relock] says what a run does there, so that the same
    definition can be studied under the standard's rule ([relock_undefined]) and
    under a mutex its owner may take again ([relock_nested]). *)

From stdpp Require Import base list gmap numbers.
From Stdlib Require Import ZArith Lia.
From S2P Require Import Prelude.

Inductive lock_mode : Type := Shared | Exclusive.
Inductive relock_policy : Type := relock_undefined | relock_nested.

Class Env : Type := { on_relock : relock_policy; clock : nat -> Z }.

#[export] Instance lock_mode_eq_dec : EqDecision lock_mode.
Proof. solve_decision. Defined.
#[export] Instance relock_policy_eq_dec : EqDecision relock_policy.
Proof. solve_decision. Defined.

Record world (S E : Type) : Type := mkWorld {
  obj : S;
  held : list lock_mode;
  ticks : nat;
  log : list E
}.
Arguments mkWorld {S E}.
Arguments obj {S E}.
Arguments held {S E}.
Arguments ticks {S E}.
Arguments log {S E}.

Definition eff (S E A : Type) : Type := world S E -> outcome (A * world S E).

(** An object between two calls: no lock is held. *)
Definition idle {S E} (o : S) : world S E := mkWorld o [] 0 [].

#[export] Instance eff_ret {S E} : MRet (eff S E) := fun A a w => Ret (a, w).
#[export] Instance eff_bind {S E} : MBind (eff S E) := fun A B f m w =>
  match m w with Ret (a, w') => f a w' | Throw e => Throw e | Undefined => Undefined end.

(** Running the first of two computations. *)
Lemma eff_bind_run {S E A B} (m : eff S E A) (f : A -> eff S E B) w a w' :
  m w = Ret (a, w') -> (m ≫= f) w = f a w'.
Proof. intros H. unfold mbind, eff_bind. by rewrite H. Qed.

Lemma eff_bind_undef {S E A B} (m : eff S E A) (f : A -> eff S E B) w :
  m w = Undefined -> (m ≫= f) w = Undefined.
Proof. intros H. unfold mbind, eff_bind. by rewrite H. Qed.

Section Operations.
Context {S E : Type} {env : Env}.

Definition get : eff S E S := fun w => Ret (obj w, w).
Definition modify (f : S -> S) : eff S E () := fun w =>
  Ret (tt, mkWorld (f (obj w)) (held w) (ticks w) (log w)).

(** [std::unique_lock lock(mutex_); body] and its shared form: the destructor
    releases what the constructor took. *)
Definition with_lock {A} (m : lock_mode) (body : eff S E A) : eff S E A := fun w =>
  match held w, on_relock with
  | _ :: _, relock_undefined => Undefined
  | hs, _ =>
      match body (mkWorld (obj w) (m :: hs) (ticks w) (log w)) with
      | Ret (a, w') => Ret (a, mkWorld (obj w') hs (ticks w') (log w'))
      | Throw e => Throw e
      | Undefined => Undefined
      end
  end.

(** One reading of the system clock, in the unit the caller asks for. *)
Definition read_clock : eff S E Z := fun w =>
  Ret (clock (ticks w), mkWorld (obj w) (held w) (Datatypes.S (ticks w)) (log w)).

(** Invoke a callback: the event is recorded at the end of the log. *)
Definition emit (e : E) : eff S E () := fun w =>
  Ret (tt, mkWorld (obj w) (held w) (ticks w) (log w ++ [e])).

Definition lift {A} (m : outcome A) : eff S E A := fun w =>
  match m with Ret a => Ret (a, w) | Throw e => Throw e | Undefined => Undefined end.

(** [for (x : l) body(x)]. *)
Fixpoint for_each {X} (body : X -> eff S E ()) (l : list X) : eff S E () :=
  match l with
  | [] => mret tt
  | x :: l' => body x;; for_each body l'
  end.

(** ** Weakest precondition

    [wp m Q w]: run from [w], [m] returns and establishes [Q]; an undefined run
    is excused only where relocking a mutex is undefined.  A theorem about [wp]
    therefore speaks of every policy at once, and under [relock_nested] it is
    total correctness. *)
Definition wp {A} (m : eff S E A) (Q : A -> world S E -> Prop) (w : world S E) : Prop :=
  match m w with
  | Ret (a, w') => Q a w'
  | Throw _ => False
  | Undefined => on_relock = relock_undefined
  end.

Lemma wp_mono {A} (m : eff S E A) (Q R : A -> world S E -> Prop) w :
  wp m Q w -> (forall a w', Q a w' -> R a w') -> wp m R w.
Proof. unfold wp. destruct (m w) as [[a w']| |]; eauto. Qed.

Lemma wp_ret {A} (a : A) (Q : A -> world S E -> Prop) w : Q a w -> wp (mret a) Q w.
Proof. done. Qed.

Lemma wp_bind {A B} (m : eff S E A) (f : A -> eff S E B) Q w :
  wp m (fun a => wp (f a) Q) w -> wp (m ≫= f) Q w.
Proof. unfold wp, mbind, eff_bind. by destruct (m w) as [[a w']| |]. Qed.

Lemma wp_get (Q : S -> world S E -> Prop) w : Q (obj w) w -> wp get Q w.
Proof. done. Qed.

Lemma wp_modify f (Q : () -> world S E -> Prop) w :
  Q tt (mkWorld (f (obj w)) (held w) (ticks w) (log w)) -> wp (modify f) Q w.
Proof. done. Qed.

Lemma wp_clock (Q : Z -> world S E -> Prop) w :
  Q (clock (ticks w)) (mkWorld (obj w) (held w) (Datatypes.S (ticks w)) (log w)) -> wp read_clock Q w.
Proof. done. Qed.

Lemma wp_emit e (Q : () -> world S E -> Prop) w :
  Q tt (mkWorld (obj w) (held w) (ticks w) (log w ++ [e])) -> wp (emit e) Q w.
Proof. done. Qed.

Lemma wp_lift {A} (m : outcome A) a (Q : A -> world S E -> Prop) w : m = Ret a -> Q a w -> wp (lift m) Q w.
Proof. by intros ->. Qed.

Lemma wp_lock {A} m (body : eff S E A) Q w :
  wp body (fun a w' => Q a (mkWorld (obj w') (held w) (ticks w') (log w')))
    (mkWorld (obj w) (m :: held w) (ticks w) (log w)) ->
  wp (with_lock m body) Q w.
Proof.
  unfold wp, with_lock. intros H.
  destruct (held w), on_relock; try done; by destruct (body _) as [[a w']| |].
Qed.

(** A loop keeps what its body keeps. *)
Lemma wp_for_each {X} (body : X -> eff S E ()) (I : world S E -> Prop) l w :
  (forall x w, x ∈ l -> I w -> wp (body x) (fun _ => I) w) -> I w ->
  wp (for_each body l) (fun _ => I) w.
Proof.
  revert w. induction l as [|x l IH]; intros w Hb Hi; [by apply wp_ret|].
  apply wp_bind. eapply wp_mono; [apply Hb; [by left|done]|].
  intros ? w' Hw'. apply IH; [|done]. intros y v Hy. apply Hb. by right.
Qed.

(** A computation with a [wp] returns whenever relocking is allowed. *)
Lemma wp_returns {A} (m : eff S E A) Q w :
  on_relock = relock_nested -> wp m Q w -> exists a w', m w = Ret (a, w') /\ Q a w'.
Proof. intros Hp. unfold wp. destruct (m w) as [[a w']| |]; [eauto|done|congruence]. Qed.

Lemma wp_ret_inv {A} (m : eff S E A) Q w a w' : wp m Q w -> m w = Ret (a, w') -> Q a w'.
Proof. unfold wp. intros H Hm; by rewrite Hm in H. Qed.

(** ** Total correctness under every locking rule

    [twp m Q w]: [m] returns and establishes [Q], whatever relocking does; the
    lock rule asks that the mutex be free. *)
Definition twp {A} (m : eff S E A) (Q : A -> world S E -> Prop) (w : world S E) : Prop :=
  exists a w', m w = Ret (a, w') /\ Q a w'.

Lemma twp_mono {A} (m : eff S E A) (Q R : A -> world S E -> Prop) w :
  twp m Q w -> (forall a w', Q a w' -> R a w') -> twp m R w.
Proof. intros (a & w' & H & HQ) HR. exists a, w'. auto. Qed.
Lemma twp_ret {A} (a : A) (Q : A -> world S E -> Prop) w : Q a w -> twp (mret a) Q w.
Proof. intros. by exists a, w. Qed.
Lemma twp_bind {A B} (m : eff S E A) (f : A -> eff S E B) Q w :
  twp m (fun a => twp (f a) Q) w -> twp (m ≫= f) Q w.
Proof. intros (a & w' & H & b & w'' & Hb & HQ). exists b, w''. unfold mbind, eff_bind. by rewrite H. Qed.
Lemma twp_get (Q : S -> world S E -> Prop) w : Q (obj w) w -> twp get Q w.
Proof. intros. by exists (obj w), w. Qed.
Lemma twp_modify f (Q : () -> world S E -> Prop) w :
  Q tt (mkWorld (f (obj w)) (held w) (ticks w) (log w)) -> twp (modify f) Q w.
Proof. intros. by do 2 eexists. Qed.
Lemma twp_clock (Q : Z -> world S E -> Prop) w :
  Q (clock (ticks w)) (mkWorld (obj w) (held w) (Datatypes.S (ticks w)) (log w)) -> twp read_clock Q w.
Proof. intros. by do 2 eexists. Qed.
Lemma twp_emit e (Q : () -> world S E -> Prop) w :
  Q tt (mkWorld (obj w) (held w) (ticks w) (log w ++ [e])) -> twp (emit e) Q w.
Proof. intros. by do 2 eexists. Qed.
Lemma twp_lift {A} (m : outcome A) a (Q : A -> world S E -> Prop) w : m = Ret a -> Q a w -> twp (lift m) Q w.
Proof. intros -> ?. by do 2 eexists. Qed.
Lemma twp_lock {A} m (body : eff S E A) Q w :
  held w = [] ->
  twp body (fun a w' => Q a (mkWorld (obj w') [] (ticks w') (log w'))) (mkWorld (obj w) [m] (ticks w) (log w)) ->
  twp (with_lock m body) Q w.
Proof.
  intros Hh (a & w' & H & HQ). exists a, (mkWorld (obj w') [] (ticks w') (log w')). split; [|done].
  unfold with_lock. rewrite Hh. destruct on_relock; by rewrite H.
Qed.
Lemma twp_for_each {X} (body : X -> eff S E ()) (I : world S E -> Prop) l w :
  (forall x w, x ∈ l -> I w -> twp (body x) (fun _ => I) w) -> I w ->
  twp (for_each body l) (fun _ => I) w.
Proof.
  revert w. induction l as [|x l IH]; intros w Hb Hi; [by apply twp_ret|].
  apply twp_bind. eapply twp_mono; [apply Hb; [by left|done]|].
  intros ? w' Hw'. apply IH; [|done]. intros y v Hy. apply Hb. by right.
Qed.
End Operations.

(** ** Unordered containers

    The order in which a range-for visits an [std::unordered_map] is unspecified:
    a parameter of which only the contents are known. *)
Class IterOrder : Type := {
  iter : forall (K : Type) (eqd : EqDecision K) (cnt : Countable K) (V : Type), gmap K V -> list (K * V);
  iter_perm : forall K eqd cnt V (m : gmap K V), iter K eqd cnt V m ≡ₚ map_to_list m
}.
Arguments iter {_ K _ _ V} m.

(** One admissible order, for evaluation. *)
Definition map_order : IterOrder :=
  {| iter := fun K eqd cnt V m => map_to_list m; iter_perm := fun K eqd cnt V m => reflexivity _ |}.

(** The policy the C++ standard prescribes, and a recursive one. *)
Definition std_env (c : nat -> Z) : Env := {| on_relock := relock_undefined; clock := c |}.
Definition recursive_env (c : nat -> Z) : Env := {| on_relock := relock_nested; clock := c |}.

(** Walk through a computation, one primitive at a time. *)
Ltac wp_step :=
  lazymatch goal with
  | |- wp (mbind _ _) _ _ => apply wp_bind
  | |- wp (mret _) _ _ => apply wp_ret
  | |- wp get _ _ => apply wp_get
  | |- wp (modify _) _ _ => apply wp_modify
  | |- wp read_clock _ _ => apply wp_clock
  | |- wp (emit _) _ _ => apply wp_emit
  | |- wp (with_lock _ _) _ _ => apply wp_lock
  end; cbn [obj held ticks log].
Ltac wp_go := repeat wp_step.
Ltac twp_step :=
  lazymatch goal with
  | |- twp (mbind _ _) _ _ => apply twp_bind
  | |- twp (mret _) _ _ => apply twp_ret
  | |- twp get _ _ => apply twp_get
  | |- twp (modify _) _ _ => apply twp_modify
  | |- twp read_clock _ _ => apply twp_clock
  | |- twp (emit _) _ _ => apply twp_emit
  | |- twp (with_lock _ _) _ _ => apply twp_lock; [by simpl|]
  end; cbn [obj held ticks log].
Ltac twp_go := repeat twp_step.
