(* ===== verification/Streams.v ===== *)
(** * Input streams: std::istringstream

    The text parsers of the code read a [std::istringstream] with [std::getline],
    the extraction operator for strings and [read].  A stream is the text not yet
    read and its [eofbit] and [failbit]; an operation on a stream that is not good
    fails and reads nothing. *)

From stdpp Require Import base list numbers strings.
From Stdlib Require Import ZArith Lia Ascii.
From S2P Require Import Prelude CString.

Record istream : Type := mkStream { rest : cstr; eofbit : bool; failbit : bool }.

Definition istringstream (s : cstr) : istream := mkStream s false false.
Definition good (st : istream) : bool := negb (eofbit st || failbit st).

(** The longest prefix without a character that satisfies [p], and what follows. *)
Fixpoint break_at (p : ascii -> bool) (s : cstr) : cstr * cstr :=
  match s with
  | [] => ([], [])
  | c :: s' => if p c then ([], s) else let '(l, r) := break_at p s' in (c :: l, r)
  end.

(** [std::getline(stream, line, delim)]: the delimiter is consumed and not stored;
    reaching the end sets [eofbit], and [failbit] too when nothing was read. *)
Definition getline (delim : ascii) (st : istream) : option cstr * istream :=
  if good st then
    match break_at (Ascii.eqb delim) (rest st) with
    | (l, _ :: r) => (Some l, mkStream r false false)
    | ([], []) => (None, mkStream [] true true)
    | (l, []) => (Some l, mkStream [] true false)
    end
  else (None, mkStream (rest st) (eofbit st) true).

(** [stream >> word] for a [std::string]. *)
Definition extract_word (st : istream) : option cstr * istream :=
  if good st then
    match skip_space (rest st) with
    | [] => (None, mkStream [] true true)
    | s => let '(w, r) := break_at is_space s in
           (Some w, mkStream r (bool_decide (r = [])) false)
    end
  else (None, mkStream (rest st) (eofbit st) true).

(** [stream.read(buffer, n)]: the characters stored and the stream left. *)
Definition read (n : nat) (st : istream) : cstr * istream :=
  if good st then
    let short := Nat.ltb (length (rest st)) n in
    (take n (rest st), mkStream (drop n (rest st)) short short)
  else ([], mkStream (rest st) (eofbit st) true).

(** [while (std::getline(stream, line, delim) && keep(line)) lines.push_back(line)]:
    the lines collected and the stream left.  Every round consumes at least one
    character, so the length of the text plus one rounds are enough
    ([getlines_fuel]). *)
Fixpoint getlines_loop (fuel : nat) (delim : ascii) (keep : cstr -> bool) (st : istream)
    : list cstr * istream :=
  match fuel with
  | O => ([], st)
  | S f =>
      match getline delim st with
      | (None, st') => ([], st')
      | (Some l, st') =>
          if keep l then let '(ls, st'') := getlines_loop f delim keep st' in (l :: ls, st'')
          else ([], st')
      end
  end.
Definition getlines (delim : ascii) (keep : cstr -> bool) (st : istream) : list cstr * istream :=
  getlines_loop (S (length (rest st))) delim keep st.

(** [s.find(p) != npos]. *)
Fixpoint contains_sub (p s : cstr) : bool :=
  starts_with p s || match s with [] => false | _ :: s' => contains_sub p s' end.

(** ** Lemmas *)

Lemma break_at_spec p s l r :
  break_at p s = (l, r) ->
  s = l ++ r /\ Forall (fun c => p c = false) l /\ match r with [] => True | c :: _ => p c = true end.
Proof.
  revert l r. induction s as [|c s IH]; intros l r H; cbn in H; [by simplify_eq|].
  destruct (p c) eqn:E; [by simplify_eq|].
  destruct (break_at p s) as [l' r'] eqn:E'. simplify_eq. destruct (IH l' r eq_refl) as (-> & ? & ?).
  split_and!; [done| |done]. by constructor.
Qed.

Lemma break_at_app p l s :
  Forall (fun c => p c = false) l -> match s with [] => True | c :: _ => p c = true end ->
  break_at p (l ++ s) = (l, s).
Proof.
  intros Hl Hs. induction Hl as [|c l Hc Hl IH]; cbn.
  - destruct s as [|c s]; cbn; [done|]. by rewrite Hs.
  - by rewrite Hc, IH.
Qed.

Lemma getline_shrinks d st l st' :
  getline d st = (Some l, st') -> (length (rest st') < length (rest st))%nat.
Proof.
  unfold getline. destruct (good st); [|done].
  destruct (break_at _ _) as [l' r] eqn:E. apply break_at_spec in E as (-> & _ & _).
  intros H. rewrite length_app. repeat case_match; simplify_eq/=; lia.
Qed.

Lemma getlines_fuel d keep st f1 f2 :
  (length (rest st) < f1)%nat -> (length (rest st) < f2)%nat ->
  getlines_loop f1 d keep st = getlines_loop f2 d keep st.
Proof.
  revert f2 st. induction f1 as [|f1 IH]; intros [|f2] st H1 H2; try lia. cbn.
  destruct (getline d st) as [[l|] st'] eqn:E; [|done].
  apply getline_shrinks in E. destruct (keep l); [|done]. by rewrite (IH f2) by lia.
Qed.

(** The loop, unfolded once. *)
Lemma getlines_unfold d keep st :
  getlines d keep st
  = match getline d st with
    | (None, st') => ([], st')
    | (Some l, st') =>
        if keep l then let '(ls, st'') := getlines d keep st' in (l :: ls, st'') else ([], st')
    end.
Proof.
  unfold getlines at 1. cbn [getlines_loop].
  destruct (getline d st) as [[l|] st'] eqn:E; [|done]. apply getline_shrinks in E.
  destruct (keep l); [|done]. unfold getlines. by rewrite (getlines_fuel _ _ _ _ (S (length (rest st')))) by lia.
Qed.

Definition no_char (d : ascii) (s : cstr) : Prop := Forall (fun c => Ascii.eqb d c = false) s.

#[export] Instance no_char_dec d s : Decision (no_char d s).
Proof. unfold no_char. apply _. Defined.

Lemma getline_line d l s :
  no_char d l -> getline d (istringstream (l ++ d :: s)) = (Some l, istringstream s).
Proof.
  intros Hl. unfold getline, istringstream, good. cbn [eofbit failbit rest orb negb].
  rewrite break_at_app; [by destruct l|done|apply Ascii.eqb_refl].
Qed.

Lemma getline_last d l :
  no_char d l -> l <> [] -> getline d (istringstream l) = (Some l, mkStream [] true false).
Proof.
  intros Hl Hne. unfold getline, istringstream, good. cbn [eofbit failbit rest orb negb].
  pose proof (break_at_app (Ascii.eqb d) l [] Hl I) as E. rewrite app_nil_r in E. rewrite E. by destruct l.
Qed.

Lemma getline_bad d st : good st = false -> getline d st = (None, mkStream (rest st) (eofbit st) true).
Proof. intros H. unfold getline. by rewrite H. Qed.

Lemma getlines_bad d keep st : good st = false -> getlines d keep st = ([], mkStream (rest st) (eofbit st) true).
Proof. intros H. by rewrite getlines_unfold, getline_bad. Qed.

Lemma getlines_nil d keep : getlines d keep (istringstream []) = ([], mkStream [] true true).
Proof. done. Qed.

Lemma getlines_line d keep l s :
  no_char d l -> keep l = true ->
  getlines d keep (istringstream (l ++ d :: s))
  = let '(ls, st) := getlines d keep (istringstream s) in (l :: ls, st).
Proof. intros Hl Hk. by rewrite getlines_unfold, getline_line, Hk. Qed.

Lemma getlines_stop d keep l s :
  no_char d l -> keep l = false -> getlines d keep (istringstream (l ++ d :: s)) = ([], istringstream s).
Proof. intros Hl Hk. by rewrite getlines_unfold, getline_line, Hk. Qed.

Lemma getlines_last d keep l :
  no_char d l -> l <> [] -> keep l = true ->
  getlines d keep (istringstream l) = ([l], mkStream [] true true).
Proof. intros Hl Hne Hk. by rewrite getlines_unfold, getline_last, Hk, getlines_bad. Qed.

(** Lines that are all kept, each followed by the delimiter. *)
Lemma getlines_all d keep ls s :
  Forall (fun l => no_char d l /\ keep l = true) ls ->
  getlines d keep (istringstream (concat (map (fun l => l ++ [d]) ls) ++ s))
  = let '(ls', st) := getlines d keep (istringstream s) in (ls ++ ls', st).
Proof.
  induction 1 as [|l ls [Hl Hk] Hls IH]; cbn [map concat app].
  - by destruct (getlines d keep (istringstream s)).
  - rewrite <- !app_assoc. cbn [app]. rewrite getlines_line, IH by done.
    by destruct (getlines d keep (istringstream s)).
Qed.

(** Every text is empty, one line, or a line followed by the delimiter. *)
Lemma text_cases d (s : cstr) :
  s = [] \/ (s <> [] /\ no_char d s) \/ exists l s', s = l ++ d :: s' /\ no_char d l.
Proof.
  destruct (break_at (Ascii.eqb d) s) as [l r] eqn:E. apply break_at_spec in E as (-> & Hl & Hr).
  destruct r as [|c r].
  - rewrite app_nil_r. destruct l; [by left|right; left; done].
  - apply Ascii.eqb_eq in Hr as <-. right; right. eauto.
Qed.

Lemma skip_space_none s : Forall (fun c => is_space c = false) s -> skip_space s = s.
Proof. destruct 1 as [|c s Hc Hs]; cbn; [done|]. by rewrite Hc. Qed.

(** Reading a word that is followed by white space or by the end. *)
Lemma extract_word_app w s :
  w <> [] -> Forall (fun c => is_space c = false) w -> match s with [] => True | c :: _ => is_space c = true end ->
  extract_word (istringstream (w ++ s)) = (Some w, mkStream s (bool_decide (s = [])) false).
Proof.
  intros Hne Hw Hs. unfold extract_word, istringstream, good. cbn [eofbit failbit rest orb negb].
  pose proof (break_at_app is_space w s Hw Hs) as B.
  destruct Hw as [|c w Hc Hw]; [done|]. cbn [app] in *. cbn [skip_space]. by rewrite Hc, B.
Qed.

Lemma extract_word_space w s :
  w <> [] -> Forall (fun c => is_space c = false) w -> match s with [] => True | c :: _ => is_space c = true end ->
  extract_word (mkStream (" "%char :: w ++ s) false false) = (Some w, mkStream s (bool_decide (s = [])) false).
Proof. intros Hne Hw Hs. rewrite <- (extract_word_app w s) by done. done. Qed.

Lemma no_char_app d s t : no_char d (s ++ t) <-> no_char d s /\ no_char d t.
Proof. apply Forall_app. Qed.

Lemma find_char_app c l s : no_char c l -> find_char c (l ++ c :: s) = Some (length l).
Proof.
  induction 1 as [|a l Ha Hl IH]; cbn; [by rewrite Ascii.eqb_refl|]. by rewrite Ha, IH.
Qed.

Lemma find_char_none c s : no_char c s -> find_char c s = None.
Proof. induction 1 as [|a s Ha Hs IH]; cbn; [done|]. by rewrite Ha, IH. Qed.

Lemma contains_sub_mid p s t : contains_sub p (s ++ p ++ t) = true.
Proof.
  induction s as [|c s IH]; cbn [app].
  - destruct p as [|c p]; [by destruct t|]. cbn. by rewrite Ascii.eqb_refl, starts_with_app.
  - cbn [contains_sub]. by rewrite IH, orb_true_r.
Qed.

Lemma contains_sub_app p s t : contains_sub p t = true -> contains_sub p (s ++ t) = true.
Proof. intros Ht. induction s as [|c s IH]; [done|]. cbn [app contains_sub]. by rewrite IH, orb_true_r. Qed.
