(* ===== verification/Strtod.v ===== *)
(** * Strtod: std::stod and the character functions of cctype

    [std::stod] reads the longest prefix that is a number: white space, a sign, then
    "inf" or "nan" (in any case), a hexadecimal or a decimal mantissa with an
    optional exponent.  The value is rounded once, from the exact rational.  An
    overflow throws [out_of_range]; so does a result below the normal range, which
    the C standard leaves to the implementation (glibc reports it). *)

From stdpp Require Import base list numbers strings.
From Stdlib Require Import ZArith Lia Ascii.
From S2P Require Import Prelude CString Floats.

(** [::tolower] and [::toupper] of a [char]: a negative argument is undefined. *)
Definition lower_char (c : ascii) : ascii :=
  let z := char_code c in if (65 <=? z) && (z <=? 90) then ascii_of_nat (Z.to_nat (z + 32)) else c.
Definition upper_char (c : ascii) : ascii :=
  let z := char_code c in if (97 <=? z) && (z <=? 122) then ascii_of_nat (Z.to_nat (z - 32)) else c.
Definition ascii_only (s : cstr) : bool := forallb (fun c => char_code c <? 128) s.
Definition tolower (s : cstr) : outcome cstr := if ascii_only s then Ret (map lower_char s) else Undefined.
Definition toupper (s : cstr) : outcome cstr := if ascii_only s then Ret (map upper_char s) else Undefined.

(** The correctly rounded quotient of two integers, [d] positive. *)
Definition d_ratio (n d : Z) : double :=
  match n with
  | Z0 => S754_zero false
  | Zpos p => SFdiv 53 1024 (S754_finite false p 0) (S754_finite false (Z.to_pos d) 0)
  | Zneg p => SFdiv 53 1024 (S754_finite true p 0) (S754_finite false (Z.to_pos d) 0)
  end.

(** [m * b^e]. *)
Definition d_scaled (m b e : Z) : double := if 0 <=? e then d_ratio (m * b ^ e) 1 else d_ratio m (b ^ (- e)).

Definition is_subnormal (d : double) : bool :=
  match d with S754_finite _ m _ => Z.log2 (Zpos m) <? 52 | _ => false end.
Definition is_zero_double (d : double) : bool := match d with S754_zero _ => true | _ => false end.

Definition round_checked (neg : bool) (m b e : Z) : outcome double :=
  let d := d_scaled (if neg then - m else m) b e in
  if m =? 0 then Ret (S754_zero neg)
  else if negb (is_finite d) || is_zero_double d || is_subnormal d then Throw (out_of_range "stod")
  else Ret d.

(** The digits before and after the point, and what follows them. *)
Definition mantissa (base : Z) (s : cstr) : list Z * list Z * cstr :=
  let whole := lead_digits base s in
  let s := drop (length whole) s in
  match s with
  | "."%char :: s' => let frac := lead_digits base s' in (whole, frac, drop (length frac) s')
  | _ => (whole, [], s)
  end.

(** An exponent after the letter [c]; zero when there is none. *)
Definition exponent (c : ascii) (s : cstr) : Z :=
  match s with
  | d :: s' =>
      if Ascii.eqb (lower_char d) c then
        let '(neg, s') := take_sign s' in
        let v := digits_value 10 (lead_digits 10 s') in if (neg : bool) then - v else v
      else 0
  | [] => 0
  end.

Definition stod (s : cstr) : outcome double :=
  let '(neg, s) := take_sign (skip_space s) in
  let word := map lower_char (take 3 s) in
  if bool_decide (word = $"inf") then Ret (S754_infinity neg)
  else if bool_decide (word = $"nan") then Ret S754_nan
  else
    let '(hw, hf, hrest) := mantissa 16 (drop 2 s) in
    if bool_decide (map lower_char (take 2 s) = $"0x") && negb (bool_decide (hw ++ hf = [])) then
      round_checked neg (digits_value 16 (hw ++ hf)) 2 (exponent "p" hrest - 4 * Z.of_nat (length hf))
    else
      let '(w, f, rest) := mantissa 10 s in
      if bool_decide (w ++ f = []) then Throw (invalid_argument "stod")
      else round_checked neg (digits_value 10 (w ++ f)) 10 (exponent "e" rest - Z.of_nat (length f)).

(** [std::stoll]. *)
Definition stoll (base : Z) (s : cstr) : outcome Z :=
  match strto base s with
  | None => Throw (invalid_argument "stoll")
  | Some (neg, v) =>
      let r := if neg then - v else v in
      if (- S64_MOD <=? r) && (r <? S64_MOD) then Ret r else Throw (out_of_range "stoll")
  end.

Example stod_decimal : stod $"100" = Ret (d_of_Z 100). Proof. vm_compute. reflexivity. Qed.
Example stod_version : stod $"1.0.0" = Ret (d_of_Z 1). Proof. vm_compute. reflexivity. Qed.
Example stod_tenth : stod $"-0.1" = Ret (dlit (-1) 10). Proof. vm_compute. reflexivity. Qed.
Example stod_hex : stod $"0x1.8p1" = Ret (d_of_Z 3). Proof. vm_compute. reflexivity. Qed.
Example stod_text : stod $"logs" = Throw (invalid_argument "stod"). Proof. vm_compute. reflexivity. Qed.
Example stod_big : stod $"1e400" = Throw (out_of_range "stod"). Proof. vm_compute. reflexivity. Qed.
