(* ===== verification/Calendar.v ===== *)
(** * Calendar: [std::gmtime], [std::mktime] and [std::put_time]

    The parts of the C library's calendar the code uses: the broken-down time
    [std::tm] of the proleptic Gregorian calendar, [gmtime] by the 400-year era of
    146097 days, [mktime] with its normalisation of fields out of range, and the
    format [%Y-%m-%dT%H:%M:%S].  [day_number_civil] checks [gmtime]'s formula
    against the day count of a date, for every day. *)

From stdpp Require Import base list numbers strings.
From Stdlib Require Import ZArith Lia Ascii.
From S2P Require Import Prelude CString.

(** ** Dates *)

Record civil : Type := mkCivil { year : Z; month : Z; mday : Z }.

Definition is_leap (y : Z) : bool := (y mod 4 =? 0) && (negb (y mod 100 =? 0) || (y mod 400 =? 0)).

(** Days before the month, in a common year. *)
Definition month_start (m : Z) : Z :=
  nth (Z.to_nat (m - 1)) [0; 31; 59; 90; 120; 151; 181; 212; 243; 273; 304; 334] 0.
Definition month_length (y m : Z) : Z :=
  if m =? 2 then (if is_leap y then 29 else 28)
  else if (m =? 4) || (m =? 6) || (m =? 9) || (m =? 11) then 30 else 31.

(** Days from 1970-01-01 to the date. *)
Definition day_number (c : civil) : Z :=
  let y := year c - 1 in
  365 * y + y / 4 - y / 100 + y / 400 + month_start (month c)
  + (if is_leap (year c) && (2 <? month c) then 1 else 0) + mday c - 1 - 719162.

Definition valid_date (c : civil) : Prop := 1 <= month c <= 12 /\ 1 <= mday c <= month_length (year c) (month c).
#[export] Instance valid_date_dec c : Decision (valid_date c).
Proof. unfold valid_date. apply _. Defined.

(** The date of a day: years start in March, so that the leap day comes last; the
    400-year era, century, four-year cycle and year are split off in turn, the last
    century and the last year of a cycle being a day longer. *)
Record split_day : Type := mkSplit { era : Z; century : Z; cycle : Z; cycle_year : Z; day_of_year : Z }.
Definition split (n : Z) : split_day :=
  let z := n + 719468 in
  let doe := z mod 146097 in
  let c := Z.min 3 (doe / 36524) in
  let doc := doe - 36524 * c in
  let q := doc / 1461 in
  let a := Z.min 3 ((doc mod 1461) / 365) in
  mkSplit (z / 146097) c q a (doc mod 1461 - 365 * a).

Definition march_year (s : split_day) : Z := 400 * era s + 100 * century s + 4 * cycle s + cycle_year s.
Definition month_of (doy : Z) : Z := let mp := (5 * doy + 2) / 153 in if mp <? 10 then mp + 3 else mp - 9.
Definition mday_of (doy : Z) : Z := let mp := (5 * doy + 2) / 153 in doy - (153 * mp + 2) / 5 + 1.

Definition civil_of_day (n : Z) : civil :=
  let s := split n in
  let m := month_of (day_of_year s) in
  mkCivil (march_year s + (if m <=? 2 then 1 else 0)) m (mday_of (day_of_year s)).

(** ** [std::tm] *)

Record tm : Type := mkTm { tm_year : Z; tm_mon : Z; tm_mday : Z; tm_hour : Z; tm_min : Z; tm_sec : Z }.

Definition gmtime (t : Z) : tm :=
  let c := civil_of_day (t / 86400) in
  let r := t mod 86400 in
  mkTm (year c - 1900) (month c - 1) (mday c) (r / 3600) (r / 60 mod 60) (r mod 60).

(** The seconds of a broken-down time read as UTC; every field may be out of its
    range and carries into the next one. *)
Definition timegm (t : tm) : Z :=
  let months := (tm_year t + 1900) * 12 + tm_mon t in
  let days := day_number (mkCivil (months / 12) (months mod 12 + 1) 1) + tm_mday t - 1 in
  ((days * 24 + tm_hour t) * 60 + tm_min t) * 60 + tm_sec t.

(** [mktime] reads it as local time; with [tm_isdst == 0] that is the standard time
    of the zone, [offset] seconds east of UTC. *)
Definition mktime (offset : Z) (t : tm) : Z := timegm t - offset.

(** ** [std::put_time] *)

(** [std::setfill('0') << std::setw(w)], and the two-digit fields. *)
Definition pad (w : nat) (n : Z) : cstr := let s := print_dec n in replicate (w - length s) "0"%char ++ s.

Definition put_time (t : tm) : cstr :=
  print_dec (tm_year t + 1900) ++ $"-" ++ pad 2 (tm_mon t + 1) ++ $"-" ++ pad 2 (tm_mday t) ++ $"T"
  ++ pad 2 (tm_hour t) ++ $":" ++ pad 2 (tm_min t) ++ $":" ++ pad 2 (tm_sec t).

(** ** The calendar formula *)

(** Exhaustive check of [0 <= n < bound], by halving. *)
Fixpoint check_from (p : Z -> bool) (depth : nat) (start : Z) : bool :=
  match depth with
  | O => p start
  | S d => check_from p d start && check_from p d (start + 2 ^ Z.of_nat d)
  end.

Lemma check_from_spec p depth start n :
  check_from p depth start = true -> start <= n < start + 2 ^ Z.of_nat depth -> p n = true.
Proof.
  revert start. induction depth as [|d IH]; intros start; cbn [check_from].
  - intros H Hn. change (2 ^ Z.of_nat 0) with 1 in Hn. by replace n with start by lia.
  - rewrite andb_true_iff. intros [Hl Hr] Hn. rewrite Nat2Z.inj_succ, Z.pow_succ_r in Hn by lia.
    destruct (Z.lt_ge_cases n (start + 2 ^ Z.of_nat d)); [apply (IH start)|apply (IH (start + 2 ^ Z.of_nat d))]; (done || lia).
Qed.

(** The leap years up to a year. *)
Definition leaps (y : Z) : Z := y / 4 - y / 100 + y / 400.
Lemma leaps_step y : leaps y = leaps (y - 1) + (if is_leap y then 1 else 0).
Proof.
  unfold leaps, is_leap. destruct (Z.eqb_spec (y mod 4) 0), (Z.eqb_spec (y mod 100) 0), (Z.eqb_spec (y mod 400) 0); cbn [andb orb negb];
    Z.div_mod_to_equations; lia.
Qed.

(** Splitting loses nothing, and a year has 366 days only before a leap year. *)
Lemma split_spec n :
  let s := split n in
  n = 365 * march_year s + leaps (march_year s) + day_of_year s - 719468
  /\ 0 <= day_of_year s <= 365 /\ (day_of_year s = 365 -> is_leap (march_year s + 1) = true).
Proof.
  cbv zeta. unfold split, march_year, leaps. cbn [era century cycle cycle_year day_of_year].
  set (z := n + 719468). assert (Hd : 0 <= z mod 146097 < 146097) by (apply Z.mod_pos_bound; lia).
  assert (Hz : n = 146097 * (z / 146097) + z mod 146097 - 719468) by (pose proof (Z.div_mod z 146097); lia).
  rewrite Hz at 1. clear Hz. revert Hd. generalize (z mod 146097) (z / 146097). clear z n. intros doe e Hd.
  set (c := Z.min 3 (doe / 36524)). assert (Hc : 0 <= c <= 3 /\ 0 <= doe - 36524 * c < 36524 + (if c =? 3 then 1 else 0))
    by (subst c; destruct (Z.eqb_spec (Z.min 3 (doe / 36524)) 3); Z.div_mod_to_equations; lia).
  set (doc := doe - 36524 * c) in *. replace doe with (36524 * c + doc) by (subst doc; lia). clearbody c doc. clear doe Hd.
  assert (Hq : doc = 1461 * (doc / 1461) + doc mod 1461 /\ 0 <= doc mod 1461 < 1461 /\ 0 <= doc / 1461 <= 24)
    by (destruct (c =? 3); Z.div_mod_to_equations; lia).
  revert Hq. generalize (doc / 1461) (doc mod 1461). intros q r Hq. set (a := Z.min 3 (r / 365)).
  assert (Ha : 0 <= a <= 3 /\ 0 <= r - 365 * a < 365 + (if a =? 3 then 1 else 0))
    by (subst a; destruct (Z.eqb_spec (Z.min 3 (r / 365)) 3); Z.div_mod_to_equations; lia).
  set (doy := r - 365 * a) in *. assert (Hr : r = 365 * a + doy) by (subst doy; lia). clearbody a doy.
  replace ((400 * e + 100 * c + 4 * q + a) / 4) with (100 * e + 25 * c + q) by (Z.div_mod_to_equations; lia).
  replace ((400 * e + 100 * c + 4 * q + a) / 100) with (4 * e + c) by (Z.div_mod_to_equations; lia).
  replace ((400 * e + 100 * c + 4 * q + a) / 400) with e by (Z.div_mod_to_equations; lia).
  split_and!; [lia|lia|destruct (a =? 3); lia|]. intros ->. unfold is_leap.
  destruct (Z.eqb_spec a 3), (Z.eqb_spec c 3), (Z.eqb_spec ((400 * e + 100 * c + 4 * q + a + 1) mod 4) 0),
    (Z.eqb_spec ((400 * e + 100 * c + 4 * q + a + 1) mod 100) 0), (Z.eqb_spec ((400 * e + 100 * c + 4 * q + a + 1) mod 400) 0);
    cbn [andb orb negb]; try reflexivity; Z.div_mod_to_equations; lia.
Qed.

(** Months of a year that starts in March. *)
Definition month_ok (doy : Z) : bool :=
  let m := month_of doy in
  let d := mday_of doy in
  (365 <? doy)
  || (bool_decide (1 <= m <= 12) && (1 <=? d)
      && (if m <=? 2 then doy =? 306 + month_start m + d - 1 else doy =? month_start m - 59 + d - 1)
      && (d <=? month_length (if doy =? 365 then 4 else 1) m)).

Lemma month_checked doy : 0 <= doy <= 365 -> month_ok doy = true.
Proof. intros H. apply (check_from_spec month_ok 9 0); [vm_compute; reflexivity|lia]. Qed.

Lemma month_length_leap y y' m : (is_leap y = true -> is_leap y' = true) -> month_length y m <= month_length y' m.
Proof. unfold month_length. destruct (m =? 2); [|lia]. destruct (is_leap y), (is_leap y'); intros H; lia || by specialize (H eq_refl). Qed.

(** The date computed for a day exists in the calendar and is that day. *)
Lemma day_number_civil n : day_number (civil_of_day n) = n /\ valid_date (civil_of_day n).
Proof.
  destruct (split_spec n) as (E & Hd & Hl). unfold civil_of_day, valid_date, day_number. cbv zeta. cbn [year month mday].
  set (y := march_year (split n)) in *. set (doy := day_of_year (split n)) in *. clearbody y doy.
  pose proof (month_checked doy Hd) as H. unfold month_ok in H. set (m := month_of doy) in *. set (d := mday_of doy) in *.
  apply orb_true_iff in H as [H|H]; [lia|]. rewrite !andb_true_iff, bool_decide_eq_true in H. destruct H as [[[Hm Hd1] Hn] Hd2].
  pose proof (leaps_step y) as Hs. unfold leaps in Hs, E.
  assert (Hml : month_length (if doy =? 365 then 4 else 1) m <= month_length (y + (if m <=? 2 then 1 else 0)) m).
  { apply month_length_leap. destruct (Z.eqb_spec doy 365) as [->|]; [|done]. destruct (Z.leb_spec m 2); [auto|]. by change m with 2 in *. }
  destruct (Z.leb_spec m 2); split; try lia.
  - rewrite (proj2 (Z.ltb_ge 2 m)), andb_false_r by lia. replace (y + 1 - 1) with y by lia. lia.
  - rewrite (proj2 (Z.ltb_lt 2 m)), andb_true_r, Z.add_0_r by lia. destruct (is_leap y); lia.
Qed.

(** [timegm] undoes [gmtime]. *)
Lemma timegm_gmtime t : timegm (gmtime t) = t.
Proof.
  unfold timegm, gmtime. cbn [tm_year tm_mon tm_mday tm_hour tm_min tm_sec].
  destruct (day_number_civil (t / 86400)) as [E [Hm _]]. set (c := civil_of_day (t / 86400)) in *.
  replace ((year c - 1900 + 1900) * 12 + (month c - 1)) with (month c - 1 + year c * 12) by lia.
  rewrite Z_div_plus, Z_mod_plus, (Z.div_small (month c - 1)), (Z.mod_small (month c - 1)) by lia.
  replace (month c - 1 + 1) with (month c) by lia. rewrite Z.add_0_l.
  assert (E' : day_number (mkCivil (year c) (month c) 1) = t / 86400 - mday c + 1)
    by (rewrite <- E; unfold day_number; cbn [year month mday]; lia).
  rewrite E'. Z.div_mod_to_equations; lia.
Qed.

(** The fields of [gmtime] are in their ranges. *)
Lemma gmtime_range t :
  let m := gmtime t in
  0 <= tm_mon m <= 11 /\ 1 <= tm_mday m <= 31 /\ 0 <= tm_hour m <= 23 /\ 0 <= tm_min m <= 59 /\ 0 <= tm_sec m <= 59.
Proof.
  cbv zeta. unfold gmtime. cbn [tm_mon tm_mday tm_hour tm_min tm_sec].
  destruct (day_number_civil (t / 86400)) as [_ [Hm Hd]].
  assert (month_length (year (civil_of_day (t / 86400))) (month (civil_of_day (t / 86400))) <= 31)
    by (unfold month_length; repeat case_match; lia).
  repeat split; try lia; Z.div_mod_to_equations; lia.
Qed.

(** The years of the days a 64-bit count of nanoseconds reaches. *)
Lemma year_bounds n : -106752 <= n <= 106752 -> 1677 <= year (civil_of_day n) <= 2263.
Proof.
  intros Hn. destruct (split_spec n) as (E & Hd & _). unfold civil_of_day. cbn [year]. unfold leaps in E.
  set (y := march_year (split n)) in *. set (doy := day_of_year (split n)) in *.
  destruct (month_of doy <=? 2) eqn:?; Z.div_mod_to_equations; lia.
Qed.
