(* ===== verification/Merkle.v ===== *)
(** * Merkle reduction

    The level-by-level loop that [Block::calculate_merkle_root] runs over the
    transaction hashes (and [crypto::Hash::hash_many] over raw hashes), generic in
    the function that combines two nodes, with a recursive top-down reference
    definition and the proof that the two agree. *)

From stdpp Require Import base list numbers.
From Stdlib Require Import Lia.
From S2P Require Import Prelude.

#[local] Open Scope nat_scope.

Section Merkle.
Context {A : Type} (combine : A -> A -> A).
Implicit Types l : list A.

(** One pass of the inner loop: adjacent pairs, the last node paired with itself
    when their number is odd. *)
Fixpoint merkle_level (l : list A) : list A :=
  match l with
  | a :: b :: l' => combine a b :: merkle_level l'
  | [a] => [combine a a]
  | [] => []
  end.

(** [while (hashes.size() > 1) hashes = level(hashes); return hashes[0]]. [None]
    stands for running out of fuel, or for the out-of-range read of an empty
    vector. *)
Fixpoint merkle_loop (fuel : nat) (l : list A) : option A :=
  match l with
  | [] => None
  | [a] => Some a
  | _ => match fuel with O => None | S f => merkle_loop f (merkle_level l) end
  end.

(** Reference definition: the root of a tree of depth [k] over the leaves [l]; a
    missing right subtree is a copy of the left one. *)
Fixpoint merkle_tree (k : nat) (l : list A) : option A :=
  match k with
  | O => head l
  | S k' =>
      left ← merkle_tree k' (take (2 ^ k') l);
      match drop (2 ^ k') l with
      | [] => Some (combine left left)
      | r => right ← merkle_tree k' r; Some (combine left right)
      end
  end.

(** Two-step induction, the shape of the pairing loop. *)
Lemma pair_ind (P : list A -> Prop) :
  P [] -> (forall a, P [a]) -> (forall a b l, P l -> P (a :: b :: l)) -> forall l, P l.
Proof.
  intros H0 H1 H2 l. enough (P l /\ forall a, P (a :: l)) by tauto.
  induction l as [|x l [IH1 IH2]]; auto.
Qed.

Lemma length_merkle_level l : length (merkle_level l) = (length l + 1) / 2.
Proof.
  induction l as [| |a b l IH] using pair_ind; [done|done|].
  simpl length. rewrite IH. replace (S (S (length l)) + 1) with (length l + 1 + 1 * 2) by lia.
  rewrite Nat.div_add by lia. lia.
Qed.

Lemma merkle_level_take k l : merkle_level (take (2 * k) l) = take k (merkle_level l).
Proof.
  revert k. induction l as [| |a b l IH] using pair_ind; intros k.
  - rewrite take_nil. simpl. by rewrite take_nil.
  - destruct k; [done|]. replace (2 * S k) with (S (S (2 * k))) by lia. simpl. by rewrite take_nil.
  - destruct k; [done|]. replace (2 * S k) with (S (S (2 * k))) by lia. simpl. by rewrite <- IH.
Qed.

Lemma merkle_level_drop k l : merkle_level (drop (2 * k) l) = drop k (merkle_level l).
Proof.
  revert k. induction l as [| |a b l IH] using pair_ind; intros k.
  - rewrite drop_nil. simpl. by rewrite drop_nil.
  - destruct k; [done|]. replace (2 * S k) with (S (S (2 * k))) by lia. simpl. by rewrite drop_nil.
  - destruct k; [done|]. replace (2 * S k) with (S (S (2 * k))) by lia. simpl. by rewrite <- IH.
Qed.

(** One pass of the loop is one level of the tree. *)
Lemma merkle_tree_level k l :
  length l <= 2 ^ S k -> merkle_tree (S k) l = merkle_tree k (merkle_level l).
Proof.
  revert l. induction k as [|k IH]; intros l Hl.
  - destruct l as [|a [|b [|c l]]]; try done; simpl in Hl; lia.
  - assert (E : 2 ^ S k = 2 * 2 ^ k) by (simpl; lia).
    assert (E' : 2 ^ S (S k) = 2 * 2 ^ S k) by (simpl; lia).
    change (merkle_tree (S (S k)) l) with
      (left ← merkle_tree (S k) (take (2 ^ S k) l);
       match drop (2 ^ S k) l with
       | [] => Some (combine left left)
       | r => right ← merkle_tree (S k) r; Some (combine left right)
       end).
    change (merkle_tree (S k) (merkle_level l)) with
      (left ← merkle_tree k (take (2 ^ k) (merkle_level l));
       match drop (2 ^ k) (merkle_level l) with
       | [] => Some (combine left left)
       | r => right ← merkle_tree k r; Some (combine left right)
       end).
    rewrite (IH (take _ l)) by (rewrite length_take; lia).
    rewrite E, merkle_level_take, <- merkle_level_drop, <- E.
    destruct (merkle_tree k _) as [left|]; cbn [mbind option_bind]; [|done].
    destruct (drop (2 ^ S k) l) as [|r rs] eqn:D; [done|].
    rewrite IH.
    + destruct (merkle_level (r :: rs)) eqn:F; [|done]. by destruct rs.
    + rewrite <- D, length_drop. lia.
Qed.

(** The loop computes the tree, with one unit of fuel per level. *)
Lemma merkle_loop_tree k fuel l :
  l <> [] -> length l <= 2 ^ k -> (2 ^ k < 2 * length l) -> k <= fuel ->
  merkle_loop fuel l = merkle_tree k l.
Proof.
  revert fuel l. induction k as [|k IH]; intros fuel l Hne Hl Hk Hf.
  - destruct l as [|a [|b l]]; [done| |simpl in Hl; lia]. by destruct fuel.
  - destruct fuel as [|f]; [lia|]. destruct l as [|a [|b l]]; [done| |].
    { change (2 ^ S k) with (2 * 2 ^ k) in Hk. simpl in Hk. pose proof (Nat.pow_nonzero 2 k). lia. }
    change (merkle_loop (S f) (a :: b :: l)) with (merkle_loop f (merkle_level (a :: b :: l))).
    rewrite merkle_tree_level by done. change (2 ^ S k) with (2 * 2 ^ k) in *.
    pose proof (length_merkle_level (a :: b :: l)) as Hlen.
    pose proof (Nat.div_mod_eq (length (a :: b :: l) + 1) 2).
    pose proof (Nat.mod_upper_bound (length (a :: b :: l) + 1) 2).
    apply IH; [done|lia| |lia]. lia.
Qed.

Lemma log2_up_bounds n : 1 <= n -> n <= 2 ^ Nat.log2_up n /\ 2 ^ Nat.log2_up n < 2 * n.
Proof.
  intros Hn. destruct (decide (n = 1)) as [->|]; [simpl; lia|].
  pose proof (Nat.log2_up_spec n) as [H1 H2]; [lia|]. split; [done|].
  pose proof (Nat.log2_up_pos n). destruct (Nat.log2_up n) as [|k]; [lia|].
  simpl Nat.pred in H1. simpl. lia.
Qed.

(** The loop always returns a root for a non-empty list: [length l] iterations
    are enough. *)
Lemma merkle_loop_log2 l :
  l <> [] -> merkle_loop (length l) l = merkle_tree (Nat.log2_up (length l)) l.
Proof.
  intros Hne. assert (1 <= length l) by (destruct l; simpl; [done|lia]).
  destruct (log2_up_bounds (length l)) as [H1 H2]; [done|].
  apply merkle_loop_tree; try done. apply Nat.log2_up_le_lin. lia.
Qed.

Lemma merkle_tree_some k l : l <> [] -> is_Some (merkle_tree k l).
Proof.
  revert l. induction k as [|k IH]; intros l Hne; [destruct l; naive_solver|].
  cbn [merkle_tree].
  destruct (IH (take (2 ^ k) l)) as [x ->].
  { destruct l; [done|]. pose proof (Nat.pow_nonzero 2 k). destruct (2 ^ k); [lia|done]. }
  simpl. destruct (drop (2 ^ k) l) as [|r rs]; [by eauto|].
  destruct (IH (r :: rs)) as [y ->]; [done|]. simpl. by eauto.
Qed.
End Merkle.

(** A predicate kept by [combine] and true of the leaves holds of the root. *)
Lemma merkle_tree_ind {A} (combine : A -> A -> A) (P : A -> Prop) k l r :
  (forall a b, P a -> P b -> P (combine a b)) -> Forall P l ->
  merkle_tree combine k l = Some r -> P r.
Proof.
  intros Hc. revert l r. induction k as [|k IH]; intros l r Hl.
  - simpl. destruct l; [done|]. intros [= <-]. by apply Forall_inv in Hl.
  - cbn [merkle_tree]. destruct (merkle_tree combine k (take (2 ^ k) l)) as [x|] eqn:E; simpl; [|done].
    apply IH in E; [|by apply Forall_take].
    destruct (drop (2 ^ k) l) as [|y ys] eqn:D; [intros [= <-]; auto|].
    destruct (merkle_tree combine k (y :: ys)) as [z|] eqn:F; simpl; [|done].
    intros [= <-]. apply Hc; [done|]. apply (IH _ _) in F; [done|].
    rewrite <- D. by apply Forall_drop.
Qed.
