(* ===== verification/Hash.v ===== *)
(** * Hash: the 32-byte hash type (core/hash.hpp, core/hash.cpp)

    [std::array<uint8_t, 32>] is a list of bytes; [hash_wf] states the array's
    size and element range, and every constructor establishes it.  The digest
    functions of the core module are placeholders that copy the leading bytes of
    their input: they are modelled as they are written, and
    [hash_sha256_prefix] states what that means. *)

From stdpp Require Import base list gmap numbers strings.
From Stdlib Require Import ZArith Lia.
From S2P Require Import Prelude CString.

Definition HASH_SIZE : nat := 32.

Record Hash : Type := mkHash { data_ : list Z }.

#[export] Instance Hash_eq_dec : EqDecision Hash.
Proof. solve_decision. Defined.
#[export] Instance Hash_countable : Countable Hash :=
  inj_countable' data_ mkHash (fun h => match h with mkHash _ => eq_refl end).

Definition hash_wf (h : Hash) : Prop := length (data_ h) = HASH_SIZE /\ bytes_ok (data_ h).

#[export] Instance hash_wf_dec h : Decision (hash_wf h).
Proof. unfold hash_wf. apply _. Defined.

(** ** Operations *)

Definition Hash_of_array (data : list Z) : Hash := mkHash data.

Definition Hash_of_hex (hex_string : list Ascii.ascii) : outcome Hash :=
  if negb (Nat.eqb (length hex_string) (HASH_SIZE * 2)) then
    Throw (invalid_argument "Invalid hex string length for hash")
  else data ← hex_pairs 0 HASH_SIZE hex_string; Ret (mkHash data).

Definition Hash_of_vector (data : list Z) : outcome Hash :=
  if negb (Nat.eqb (length data) HASH_SIZE) then
    Throw (invalid_argument "Invalid data size for hash")
  else Ret (mkHash data).

Definition to_hex (h : Hash) : list Ascii.ascii := bytes_to_hex (data_ h).
Definition to_bytes (h : Hash) : list Z := data_ h.

Definition eqb (a b : Hash) : bool := bytes_eqb (data_ a) (data_ b).
Definition neqb (a b : Hash) : bool := negb (eqb a b).
Definition ltb (a b : Hash) : bool := bytes_ltb (data_ a) (data_ b).

Definition is_zero (h : Hash) : bool := all_zero (data_ h).
Definition zero : Hash := mkHash (replicate HASH_SIZE 0).

(** The generator's draws, in the order the loop consumes them. *)
Definition random (dis : nat -> Z) : Hash := mkHash (map dis (seq 0 HASH_SIZE)).

Definition hash_sha256 (data : list Z) : Hash := mkHash (copy_into HASH_SIZE data).
Definition hash_keccak256 (data : list Z) : Hash := mkHash (copy_into HASH_SIZE data).
Definition hash_ripemd160 (data : list Z) : Hash := mkHash (copy_into HASH_SIZE data).

(** One iteration of the loop of [combine_hashes]. *)
Definition combine_step (left right : Hash) (combined : list Z) (i : nat) : list Z :=
  <[ (i + HASH_SIZE / 2)%nat := data_ right !!! i ]> (<[ i := data_ left !!! i ]> combined).

Definition combine_hashes (left right : Hash) : Hash :=
  mkHash (fold_left (combine_step left right) (seq 0 (HASH_SIZE / 2)) (replicate HASH_SIZE 0)).

Definition hash_to_hex (h : Hash) : list Ascii.ascii := to_hex h.
Definition hash_from_hex (hex_string : list Ascii.ascii) : outcome Hash := Hash_of_hex hex_string.

(** [std::hash<Hash>]: the first eight bytes, shifted into a [size_t]. *)
Definition std_hash (h : Hash) : Z := be_acc 0 (take 8 (data_ h)).

(** ** Lemmas *)

Lemma eqb_eq a b : eqb a b = true <-> a = b.
Proof.
  unfold eqb, bytes_eqb. rewrite bool_decide_eq_true. destruct a, b; simpl. split; congruence.
Qed.

Lemma zero_wf : hash_wf zero.
Proof. split; [done|]. apply replicate_0_ok. Qed.

Lemma hash_sha256_wf data : bytes_ok data -> hash_wf (hash_sha256 data).
Proof. split; simpl; auto using length_copy_into, copy_into_ok. Qed.

Lemma Hash_of_hex_wf s h : Hash_of_hex s = Ret h -> hash_wf h.
Proof.
  unfold Hash_of_hex. case_match; [done|].
  destruct (hex_pairs 0 HASH_SIZE s) as [l| |] eqn:E; simpl; try done.
  intros [= <-]. by apply hex_pairs_wf in E.
Qed.

Lemma Hash_of_vector_wf l h : bytes_ok l -> Hash_of_vector l = Ret h -> hash_wf h /\ data_ h = l.
Proof.
  unfold Hash_of_vector. destruct (Nat.eqb_spec (length l) HASH_SIZE); simpl; [|done].
  intros ? [= <-]. done.
Qed.

Lemma is_zero_spec h : length (data_ h) = HASH_SIZE -> is_zero h = true <-> h = zero.
Proof.
  intros Hl. unfold is_zero. rewrite all_zero_spec, Hl. unfold zero. destruct h; simpl.
  split; congruence.
Qed.

(** The placeholder digest sees the first 32 bytes of its input only. *)
Lemma hash_sha256_prefix l1 l2 :
  (HASH_SIZE <= length l1)%nat -> hash_sha256 (l1 ++ l2) = mkHash (take HASH_SIZE l1).
Proof. intros H. unfold hash_sha256. by rewrite copy_into_prefix. Qed.

(** The loop of [combine_hashes] keeps the leading half of each side. *)
Lemma combine_hashes_data l r :
  length (data_ l) = HASH_SIZE -> length (data_ r) = HASH_SIZE ->
  data_ (combine_hashes l r) = take 16 (data_ l) ++ take 16 (data_ r).
Proof.
  destruct l as [l], r as [r]. unfold HASH_SIZE. simpl. intros Hl Hr.
  do 32 (destruct l as [|? l]; [done|]). destruct l; [|done].
  do 32 (destruct r as [|? r]; [done|]). destruct r; [|done].
  reflexivity.
Qed.

Lemma combine_hashes_wf l r : hash_wf l -> hash_wf r -> hash_wf (combine_hashes l r).
Proof.
  intros [Hl1 Hl2] [Hr1 Hr2]. unfold hash_wf. rewrite combine_hashes_data by done.
  split; [|apply Forall_app_2; by apply Forall_take].
  rewrite length_app, !length_take, Hl1, Hr1. done.
Qed.

(** [std::hash] is the big-endian value of the first eight bytes. *)
Lemma std_hash_value h : hash_wf h -> std_hash h = be_value (take 8 (data_ h)).
Proof.
  intros [Hl Hb]. unfold std_hash. apply be_acc_value; [rewrite length_take; lia|].
  by apply Forall_take.
Qed.

#[export] Hint Resolve zero_wf hash_sha256_wf combine_hashes_wf : chain.

(** ** Properties *)

(** Printing a hash and parsing the text gives the hash back. *)
Theorem hash_hex_roundtrip (h : Hash) : hash_wf h -> Hash_of_hex (to_hex h) = Ret h.
Proof.
  intros [Hl Hb]. unfold Hash_of_hex, to_hex. rewrite length_bytes_to_hex, Hl by done. simpl negb.
  cbv iota. rewrite hex_pairs_to_hex by (rewrite ?Hl; done). simpl.
  rewrite drop_0, <- Hl, firstn_all. by destruct h.
Qed.

Lemma hash_hex_roundtrip_witness : Hash_of_hex (to_hex zero) = Ret zero.
Proof. apply (hash_hex_roundtrip zero). decide_now. Defined.
