(* ===== verification/Address.v ===== *)
(** * Address: the 20-byte account address (core/address.hpp, core/address.cpp)

    Same layout as [Hash]: a list of bytes with the array's size as the invariant
    [address_wf]. *)

From stdpp Require Import base list gmap numbers strings.
From Stdlib Require Import ZArith Lia.
From S2P Require Import Prelude CString.

Definition ADDRESS_SIZE : nat := 20.

Record Address : Type := mkAddress { data_ : list Z }.

#[export] Instance Address_eq_dec : EqDecision Address.
Proof. solve_decision. Defined.
#[export] Instance Address_countable : Countable Address :=
  inj_countable' data_ mkAddress (fun a => match a with mkAddress _ => eq_refl end).

Definition address_wf (a : Address) : Prop := length (data_ a) = ADDRESS_SIZE /\ bytes_ok (data_ a).

#[export] Instance address_wf_dec a : Decision (address_wf a).
Proof. unfold address_wf. apply _. Defined.

(** ** Operations *)

Definition Address_of_array (data : list Z) : Address := mkAddress data.

Definition Address_of_hex (hex_string : list Ascii.ascii) : outcome Address :=
  if negb (Nat.eqb (length hex_string) (ADDRESS_SIZE * 2)) then
    Throw (invalid_argument "Invalid hex string length for address")
  else data ← hex_pairs 0 ADDRESS_SIZE hex_string; Ret (mkAddress data).

Definition Address_of_vector (data : list Z) : outcome Address :=
  if negb (Nat.eqb (length data) ADDRESS_SIZE) then
    Throw (invalid_argument "Invalid data size for address")
  else Ret (mkAddress data).

Definition to_hex (a : Address) : list Ascii.ascii := bytes_to_hex (data_ a).
Definition to_bytes (a : Address) : list Z := data_ a.

Definition is_zero (a : Address) : bool := all_zero (data_ a).
Definition is_valid (a : Address) : bool := negb (is_zero a).
Definition is_contract (a : Address) : bool := 128 <=? data_ a !!! (ADDRESS_SIZE - 1)%nat.

Definition eqb (a b : Address) : bool := bytes_eqb (data_ a) (data_ b).
Definition neqb (a b : Address) : bool := negb (eqb a b).
Definition ltb (a b : Address) : bool := bytes_ltb (data_ a) (data_ b).

Definition zero : Address := mkAddress (replicate ADDRESS_SIZE 0).
Definition random (dis : nat -> Z) : Address := mkAddress (map dis (seq 0 ADDRESS_SIZE)).
Definition from_public_key (public_key : list Z) : Address :=
  mkAddress (copy_into ADDRESS_SIZE public_key).

Definition address_from_hex (hex_string : list Ascii.ascii) : outcome Address := Address_of_hex hex_string.
Definition address_to_hex (a : Address) : list Ascii.ascii := to_hex a.

Definition is_valid_address (hex_string : list Ascii.ascii) : outcome bool :=
  try_catch (a ← Address_of_hex hex_string; Ret (is_valid a)) (fun _ => Ret false).

Definition derive_address_from_public_key (public_key : list Z) : Address := from_public_key public_key.

Definition derive_contract_address (sender : Address) (nonce : Z) : Address :=
  let data := to_bytes sender ++ be_bytes 8 nonce in
  mkAddress (copy_into ADDRESS_SIZE data).

(** [std::hash<Address>]: the first eight bytes, shifted into a [size_t]. *)
Definition std_hash (a : Address) : Z := be_acc 0 (take 8 (data_ a)).

(** ** Lemmas *)

Lemma address_eqb_eq a b : eqb a b = true <-> a = b.
Proof.
  unfold eqb, bytes_eqb. rewrite bool_decide_eq_true. destruct a, b; simpl. split; congruence.
Qed.

Lemma address_zero_wf : address_wf zero.
Proof. split; [done|]. apply replicate_0_ok. Qed.

Lemma Address_of_hex_wf s a : Address_of_hex s = Ret a -> address_wf a.
Proof.
  unfold Address_of_hex. case_match; [done|].
  destruct (hex_pairs 0 ADDRESS_SIZE s) as [l| |] eqn:E; simpl; try done.
  intros [= <-]. by apply hex_pairs_wf in E.
Qed.

Lemma address_is_zero_spec a : length (data_ a) = ADDRESS_SIZE -> is_zero a = true <-> a = zero.
Proof.
  intros Hl. unfold is_zero. rewrite all_zero_spec, Hl. unfold zero. destruct a; simpl.
  split; congruence.
Qed.

Lemma hex_pairs_defined i k s : hex_pairs i k s <> Undefined.
Proof.
  revert i. induction k as [|k IH]; intros i; simpl; [done|].
  unfold stoi. destruct (strto _ _) as [[neg v]|]; simpl; [|done].
  case_match; simpl; [|done]. specialize (IH (S i)). by destruct (hex_pairs _ _ _).
Qed.

#[export] Hint Resolve address_zero_wf : chain.

(** ** Properties *)

(** Printing an address and parsing the text gives the address back. *)
Theorem address_hex_roundtrip (a : Address) : address_wf a -> Address_of_hex (to_hex a) = Ret a.
Proof.
  intros [Hl Hb]. unfold Address_of_hex, to_hex. rewrite length_bytes_to_hex, Hl by done. simpl negb.
  cbv iota. rewrite hex_pairs_to_hex by (rewrite ?Hl; done). simpl.
  rewrite drop_0, <- Hl, firstn_all. by destruct a.
Qed.

(** [is_valid_address] never throws: it answers [true] exactly on the texts
    that parse to a well-formed non-zero address, [false] on all others. *)
Theorem is_valid_address_spec (s : list Ascii.ascii) :
  exists b, is_valid_address s = Ret b
    /\ (b = true <-> exists a, Address_of_hex s = Ret a /\ address_wf a /\ a <> zero).
Proof.
  unfold is_valid_address.
  assert (Hd : Address_of_hex s <> Undefined).
  { unfold Address_of_hex. case_match; [done|]. pose proof (hex_pairs_defined 0 ADDRESS_SIZE s).
    by destruct (hex_pairs _ _ _). }
  destruct (Address_of_hex s) as [a| |] eqn:E; [| |done].
  - exists (is_valid a). split; [done|]. apply Address_of_hex_wf in E as Hwf.
    unfold is_valid. rewrite negb_true_iff, <- not_true_iff_false, address_is_zero_spec by apply Hwf.
    naive_solver.
  - exists false. split; [done|]. naive_solver.
Qed.

(** The derived contract address is the sender's address, whatever the
    nonce: the 20 bytes kept of [sender ++ nonce] are the sender's. *)
Theorem derive_contract_address_ignores_nonce (sender : Address) (nonce : Z) :
  address_wf sender -> derive_contract_address sender nonce = sender.
Proof.
  intros [Hl Hb]. unfold derive_contract_address, to_bytes.
  rewrite copy_into_prefix by lia. rewrite <- Hl, firstn_all. by destruct sender.
Qed.

Lemma address_hex_roundtrip_witness : Address_of_hex (to_hex zero) = Ret zero.
Proof. apply (address_hex_roundtrip zero). decide_now. Defined.

Lemma derive_contract_address_ignores_nonce_witness : derive_contract_address (mkAddress (replicate 20 7)) 42 = mkAddress (replicate 20 7).
Proof. apply (derive_contract_address_ignores_nonce (mkAddress (replicate 20 7)) 42). decide_now. Defined.
