(* ===== verification/Amount.v ===== *)
(** * Amount: currency amounts in wei (core/amount.hpp, core/amount.cpp)

    A [uint64_t] count of wei with checked arithmetic, and its decimal text in
    ether.  [decimal_type] is [uint32_t] in the source, so [fraction] keeps the
    low 32 bits of the 18-digit fractional part: the conversions below write that
    narrowing out. *)

From stdpp Require Import base list numbers strings sets.
From Stdlib Require Import ZArith Lia Ascii.
From S2P Require Import Prelude CString Floats.

Record Amount : Type := mkAmount { wei_ : Z }.

#[export] Instance Amount_eq_dec : EqDecision Amount.
Proof. solve_decision. Defined.

Definition amount_wf (a : Amount) : Prop := is_u64 (wei_ a).

Definition MAX_VALUE : Z := U64_MAX.
Definition DECIMALS : nat := 18.
Definition WEI_PER_ETHER : Z := 1000000000000000000.

(** ** Operations *)

Definition Amount_of_parts (whole fraction : Z) : outcome Amount :=
  if MAX_VALUE / WEI_PER_ETHER <? whole then Throw (overflow_error "Amount whole part too large")
  else Ret (mkAmount (whole * WEI_PER_ETHER + fraction)%u64).

Definition wei (a : Amount) : Z := wei_ a.
Definition whole (a : Amount) : Z := wei_ a / WEI_PER_ETHER.
Definition fraction (a : Amount) : Z := u32 (wei_ a mod WEI_PER_ETHER).

(** [while (s.length() < n) s = "0" + s] and [while (s.length() < n) s += "0"]. *)
Definition pad_left (n : nat) (s : list ascii) : list ascii := replicate (n - length s) "0"%char ++ s.
Definition pad_right (n : nat) (s : list ascii) : list ascii := s ++ replicate (n - length s) "0"%char.

Fixpoint drop_zeros (s : list ascii) : list ascii :=
  match s with c :: s' => if Ascii.eqb c "0" then drop_zeros s' else s | [] => [] end.
(** [s.erase(s.find_last_not_of('0') + 1)]. *)
Definition strip_trailing_zeros (s : list ascii) : list ascii := rev (drop_zeros (rev s)).

(** The digits after the point: the fraction on 18 digits without its trailing zeros. *)
Definition frac_text (frac : Z) : list ascii :=
  if frac =? 0 then $"0"
  else
    let frac_str := strip_trailing_zeros (pad_left DECIMALS (print_dec frac)) in
    match frac_str with [] => $"0" | _ => frac_str end.

Definition to_string (a : Amount) : list ascii :=
  print_dec (whole a) ++ $"." ++ frac_text (fraction a).

Definition to_hex (a : Amount) : list ascii := $"0x" ++ print_hex (wei_ a).
Definition to_double (a : Amount) : spec_float := ddiv (d_of_Z (wei_ a)) (d_of_Z WEI_PER_ETHER).

Definition zero : Amount := mkAmount 0.
Definition max_amount : Amount := mkAmount MAX_VALUE.

Definition validate_overflow (a : Amount) (result : Z) (operation : string) : outcome unit :=
  if (result <? wei_ a) || (result <? wei_ a) then
    Throw (overflow_error (String.append "Amount " (String.append operation " overflow")))
  else Ret tt.

Definition add (a other : Amount) : outcome Amount :=
  _ ← validate_overflow a (wei_ a + wei_ other)%u64 "addition";
  Ret (mkAmount (wei_ a + wei_ other)%u64).

Definition sub (a other : Amount) : outcome Amount :=
  if wei_ a <? wei_ other then Throw (underflow_error "Amount subtraction underflow")
  else Ret (mkAmount (wei_ a - wei_ other)%u64).

Definition mul (a : Amount) (multiplier : Z) : outcome Amount :=
  if multiplier =? 0 then Ret zero
  else if MAX_VALUE / multiplier <? wei_ a then Throw (overflow_error "Amount multiplication overflow")
  else Ret (mkAmount (wei_ a * multiplier)%u64).
Definition mul_left (multiplier : Z) (a : Amount) : outcome Amount := mul a multiplier.

Definition div (a : Amount) (divisor : Z) : outcome Amount :=
  if divisor =? 0 then Throw (domain_error "Division by zero")
  else Ret (mkAmount (wei_ a / divisor)).

(** The compound assignments store the result of the binary operator; a throw
    leaves the object unchanged, since the assignment is not reached. *)
Definition add_assign (a other : Amount) : outcome Amount := add a other.
Definition sub_assign (a other : Amount) : outcome Amount := sub a other.
Definition mul_assign (a : Amount) (multiplier : Z) : outcome Amount := mul a multiplier.
Definition div_assign (a : Amount) (divisor : Z) : outcome Amount := div a divisor.

Definition spaceship (a other : Amount) : comparison := (wei_ a ?= wei_ other).
Definition eqb (a other : Amount) : bool := wei_ a =? wei_ other.
Definition ltb (a b : Amount) : bool := match spaceship a b with Lt => true | _ => false end.
Definition gtb (a b : Amount) : bool := match spaceship a b with Gt => true | _ => false end.

Definition is_zero (a : Amount) : bool := wei_ a =? 0.
Definition is_negative (a : Amount) : bool := false.
Definition abs (a : Amount) : Amount := a.
Definition is_valid (a : Amount) : bool := true.

Definition from_wei (w : Z) : Amount := mkAmount w.

Definition from_ether (ether : spec_float) : outcome Amount :=
  if dltb ether (d_of_Z 0) || dltb (ddiv (d_of_Z MAX_VALUE) (d_of_Z WEI_PER_ETHER)) ether then
    Throw (out_of_range "Ether amount out of range")
  else w ← d_to_u64 (dmul ether (d_of_Z WEI_PER_ETHER)); Ret (mkAmount w).

Definition from_string (str : list ascii) : outcome Amount :=
  match find_char "." str with
  | None => v ← stoull 10 str; Ret (mkAmount (v * WEI_PER_ETHER)%u64)
  | Some dot_pos =>
      whole ← stoull 10 (substr 0 dot_pos str);
      let frac_str := drop (S dot_pos) str in
      let frac_str := if Nat.ltb DECIMALS (length frac_str) then take DECIMALS frac_str else frac_str in
      let frac_str := pad_right DECIMALS frac_str in
      f ← stoul 10 frac_str;
      Amount_of_parts whole (u32 f)
  end.

Definition min (a b : Amount) : Amount := if ltb a b then a else b.
Definition max (a b : Amount) : Amount := if gtb a b then a else b.

(** ** Lemmas on the text format *)

Lemma drop_zeros_rep s : exists n, s = replicate n "0"%char ++ drop_zeros s.
Proof.
  induction s as [|c s [n IH]]; [by exists O|]. simpl.
  destruct (Ascii.eqb_spec c "0") as [->|]; [exists (S n); simpl; congruence | by exists O].
Qed.

Lemma rev_replicate {A} n (x : A) : rev (replicate n x) = replicate n x.
Proof.
  induction n as [|n IH]; [done|]. simpl. rewrite IH. symmetry. apply replicate_cons_app.
Qed.

Lemma strip_trailing_zeros_rep s : exists n, s = strip_trailing_zeros s ++ replicate n "0"%char.
Proof.
  destruct (drop_zeros_rep (rev s)) as [n H]. exists n. unfold strip_trailing_zeros.
  rewrite <- (rev_replicate n), <- rev_app_distr, <- H. by rewrite rev_involutive.
Qed.

(** Stripping the zeros of a padded text and padding it again changes nothing. *)
Lemma pad_strip s : pad_right (length s) (strip_trailing_zeros s) = s.
Proof.
  destruct (strip_trailing_zeros_rep s) as [n H]. unfold pad_right.
  pose proof (f_equal length H) as L. rewrite length_app, length_replicate in L.
  replace (length s - _)%nat with n by lia. by rewrite <- H.
Qed.

Lemma length_strip s : (length (strip_trailing_zeros s) <= length s)%nat.
Proof.
  destruct (strip_trailing_zeros_rep s) as [n H]. apply (f_equal length) in H.
  rewrite length_app in H. lia.
Qed.

Lemma to_digits_aux_len base fuel n acc k :
  2 <= base -> 0 <= n < base ^ Z.of_nat (S k) ->
  (length (to_digits_aux base fuel n acc) <= S k + length acc)%nat.
Proof.
  intros Hb. revert fuel n acc. induction k as [|k IH]; intros [|f] n acc Hn; cbn [to_digits_aux]; try lia.
  - destruct (Z.ltb_spec n base); [simpl; lia|]. simpl in Hn. lia.
  - destruct (Z.ltb_spec n base); [simpl; lia|]. etrans; [apply IH|simpl; lia].
    rewrite Nat2Z.inj_succ, Z.pow_succ_r in Hn by lia.
    split; [apply Z.div_pos; lia|]. apply Z.div_lt_upper_bound; lia.
Qed.

Lemma length_print_dec n k : 0 <= n < 10 ^ Z.of_nat (S k) -> (length (print_dec n) <= S k)%nat.
Proof.
  intros Hn. unfold print_dec, to_digits. rewrite length_map.
  etrans; [by apply (to_digits_aux_len 10 _ n [] k)|]. simpl; lia.
Qed.

Lemma find_char_first c s1 s2 : c ∉ s1 -> find_char c (s1 ++ c :: s2) = Some (length s1).
Proof.
  induction s1 as [|d s1 IH]; intros Hc; simpl.
  - by rewrite Ascii.eqb_refl.
  - destruct (Ascii.eqb_spec c d) as [->|]; [set_solver|]. rewrite IH by set_solver. done.
Qed.

Lemma dot_not_digit n : 0 <= n -> "."%char ∉ print_dec n.
Proof.
  intros Hn. unfold print_dec. rewrite list_elem_of_In, in_map_iff.
  intros (d & Hd & Hin). pose proof (to_digits_range 10 n ltac:(lia) Hn) as Hr.
  rewrite Forall_forall in Hr. apply list_elem_of_In, Hr in Hin.
  assert (H : negb (bool_decide (digit_char d = "."%char)) = true).
  { clear Hd. revert d Hin. apply (forallb_seqZ (fun d => negb (bool_decide (digit_char d = "."%char)))).
    vm_compute. reflexivity. }
  rewrite Hd in H. vm_compute in H. done.
Qed.

Lemma length_pad_left n s : (length s <= n)%nat -> length (pad_left n s) = n.
Proof. intros. unfold pad_left. rewrite length_app, length_replicate. lia. Qed.

Lemma frac_text_len f : 0 <= f < WEI_PER_ETHER -> (length (frac_text f) <= DECIMALS)%nat.
Proof.
  intros Hf. unfold frac_text. destruct (f =? 0); [simpl; unfold DECIMALS; lia|].
  pose proof (length_strip (pad_left DECIMALS (print_dec f))) as Hs.
  rewrite length_pad_left in Hs by (by apply length_print_dec).
  destruct (strip_trailing_zeros _); [unfold DECIMALS; simpl; lia | done].
Qed.

Lemma frac_text_pad f :
  0 <= f < WEI_PER_ETHER -> pad_right DECIMALS (frac_text f) = pad_left DECIMALS (print_dec f).
Proof.
  intros Hf. unfold frac_text. destruct (Z.eqb_spec f 0) as [->|]; [done|].
  assert (Hl : length (pad_left DECIMALS (print_dec f)) = DECIMALS)
    by (apply length_pad_left; by apply length_print_dec).
  pose proof (pad_strip (pad_left DECIMALS (print_dec f))) as H. rewrite Hl in H.
  destruct (strip_trailing_zeros _); [|done]. rewrite <- H. done.
Qed.

Lemma stoul_padded f : 0 <= f < WEI_PER_ETHER -> stoul 10 (pad_left DECIMALS (print_dec f)) = Ret f.
Proof.
  intros Hf. unfold stoul, pad_left, print_dec.
  set (k := (DECIMALS - _)%nat).
  replace (replicate k "0"%char) with (map digit_char (replicate k 0)) 
    by apply (fmap_replicate digit_char k 0).
  assert (Hv : digits_value 10 (replicate k 0 ++ to_digits 10 f) = f).
  { clearbody k. induction k as [|k IH]; [apply digits_value_to_digits; lia|].
    simpl. rewrite digits_value_cons. lia. }
  rewrite <- map_app, strto_digits, Hv; [|lia| |].
  - unfold WEI_PER_ETHER in Hf. by destruct (Z.leb_spec f U64_MAX); [|lia].
  - intros [_ E]%app_nil. by apply to_digits_nonempty in E.
  - apply Forall_app_2; [apply Forall_replicate; lia | apply to_digits_range; lia].
Qed.

Lemma fraction_range a : 0 <= fraction a < U32_MOD /\ fraction a < WEI_PER_ETHER.
Proof. unfold fraction, WEI_PER_ETHER. mint. Qed.

Lemma whole_range a : amount_wf a -> 0 <= whole a <= 18.
Proof. unfold amount_wf, whole, WEI_PER_ETHER. mint. Qed.

Lemma Amount_of_parts_exact w f :
  0 <= w <= 18 -> is_u32 f -> Amount_of_parts w f = Ret (mkAmount (w * WEI_PER_ETHER + f)).
Proof.
  intros Hw Hf. unfold Amount_of_parts, MAX_VALUE, WEI_PER_ETHER.
  change (U64_MAX / 1000000000000000000) with 18.
  destruct (Z.ltb_spec 18 w); [lia|]. unfold u64_add, u64_mul, is_u32 in *.
  rewrite (u64_small (w * _)), u64_small; [done| |]; unfold is_u64; lia.
Qed.

Lemma mul_exact a k :
  amount_wf a -> is_u64 k ->
  mul a k = (if wei_ a * k <=? MAX_VALUE then Ret (mkAmount (wei_ a * k))
             else Throw (overflow_error "Amount multiplication overflow")).
Proof.
  unfold amount_wf, mul, MAX_VALUE, is_u64. intros Ha Hk.
  destruct (Z.eqb_spec k 0) as [->|Hk0]; [by rewrite Z.mul_0_r|].
  destruct (Z.ltb_spec (U64_MAX / k) (wei_ a)) as [H|H];
    destruct (Z.leb_spec (wei_ a * k) U64_MAX) as [H'|H']; try done.
  - exfalso. rewrite Z.mul_comm in H'. apply (Z.div_le_lower_bound U64_MAX k (wei_ a)) in H'; lia.
  - unfold u64_mul. rewrite u64_small; [done|]. unfold is_u64. nia.
  - pose proof (Z.mul_div_le U64_MAX k). nia.
Qed.

Lemma whole_fraction a : amount_wf a -> wei_ a = whole a * WEI_PER_ETHER + wei_ a mod WEI_PER_ETHER.
Proof. unfold amount_wf, whole, WEI_PER_ETHER. mint. Qed.

(** ** Properties *)

(** C20: the four operators compute the exact result of the integer operation
    when it fits in 64 bits and throw the documented exception otherwise. *)
Theorem amount_arithmetic_exact (a b : Amount) (k : Z) :
  amount_wf a -> amount_wf b -> is_u64 k ->
  add a b = (if wei_ a + wei_ b <=? MAX_VALUE then Ret (mkAmount (wei_ a + wei_ b))
             else Throw (overflow_error "Amount addition overflow"))
  /\ sub a b = (if wei_ b <=? wei_ a then Ret (mkAmount (wei_ a - wei_ b))
                else Throw (underflow_error "Amount subtraction underflow"))
  /\ mul a k = (if wei_ a * k <=? MAX_VALUE then Ret (mkAmount (wei_ a * k))
                else Throw (overflow_error "Amount multiplication overflow"))
  /\ div a k = (if k =? 0 then Throw (domain_error "Division by zero")
                else Ret (mkAmount (wei_ a / k))).
Proof.
  intros Ha Hb Hk. split_and!.
  - unfold add, validate_overflow. rewrite orb_diag.
    destruct (Z.leb_spec (wei_ a + wei_ b) MAX_VALUE) as [H|H]; unfold amount_wf, MAX_VALUE in *.
    + unfold u64_add. rewrite u64_small by (unfold is_u64 in *; lia).
      destruct (Z.ltb_spec (wei_ a + wei_ b) (wei_ a)); [unfold is_u64 in *; lia|done].
    + destruct (Z.ltb_spec (wei_ a + wei_ b)%u64 (wei_ a)); [done|]. mint.
  - unfold sub. destruct (Z.ltb_spec (wei_ a) (wei_ b)), (Z.leb_spec (wei_ b) (wei_ a)); try lia; try done.
    unfold u64_sub. by rewrite u64_small by (unfold amount_wf, is_u64 in *; lia).
  - apply mul_exact; done.
  - done.
Qed.

(** What the text form keeps of an amount: reading back the printed text
    gives the whole part and the low 32 bits of the fractional part, so the
    round trip is exact precisely on the amounts whose fractional part fits in
    32 bits. *)
Theorem amount_text_roundtrip (a : Amount) :
  amount_wf a ->
  from_string (to_string a) = Ret (mkAmount (whole a * WEI_PER_ETHER + fraction a))
  /\ (from_string (to_string a) = Ret a <-> wei_ a mod WEI_PER_ETHER < U32_MOD).
Proof.
  intros Ha. pose proof (whole_range a Ha) as Hw. pose proof (fraction_range a) as [Hf Hf'].
  assert (E : from_string (to_string a) = Ret (mkAmount (whole a * WEI_PER_ETHER + fraction a))).
  { change (to_string a) with (print_dec (whole a) ++ "."%char :: frac_text (fraction a)).
    unfold from_string. rewrite find_char_first by (apply dot_not_digit; lia).
    unfold substr. rewrite drop_0, take_app_length, stoull_print_dec by (unfold is_u64; lia). simpl.
    rewrite (drop_app_ge (print_dec _)) by lia.
    replace (S (length (print_dec (whole a))) - length (print_dec (whole a)))%nat with 1%nat by lia.
    simpl drop. rewrite drop_0.
    pose proof (frac_text_len (fraction a) ltac:(lia)) as Hl.
    destruct (Nat.ltb_spec DECIMALS (length (frac_text (fraction a)))); [lia|].
    rewrite frac_text_pad, stoul_padded by lia. simpl.
    by rewrite u32_small, Amount_of_parts_exact. }
  split; [done|]. rewrite E. destruct a as [w]. pose proof (whole_fraction _ Ha) as Hwf.
  simpl in *. unfold fraction in *. simpl in *. split.
  - intros [= H]. unfold u32 in *. mint.
  - intros H. f_equal. f_equal. rewrite u32_small by (unfold is_u32; mint). lia.
Qed.

Lemma amount_arithmetic_exact_witness :
  sub (mkAmount 5) (mkAmount 7) = Throw (underflow_error "Amount subtraction underflow").
Proof. apply (amount_arithmetic_exact (mkAmount 5) (mkAmount 7) 3); unfold amount_wf, is_u64; simpl; lia. Defined.

Lemma amount_text_roundtrip_witness :
  from_string (to_string (mkAmount 3000000000000000005)) = Ret (mkAmount 3000000000000000005).
Proof. apply (amount_text_roundtrip (mkAmount 3000000000000000005)); [unfold amount_wf, is_u64; simpl; lia|vm_compute; reflexivity]. Defined.
