(* ===== verification/Timestamp.v ===== *)
(** * Timestamp: seconds since the epoch (core/timestamp.hpp, core/timestamp.cpp)

    [seconds_] is a [uint64_t]; [std::chrono::seconds] counts are signed 64-bit,
    so every operation states its conversions.  The clock is an argument: the
    value [std::chrono::system_clock::now()] returns, in nanoseconds since the
    epoch. *)

From stdpp Require Import base list numbers strings.
From Stdlib Require Import ZArith Lia Ascii.
From S2P Require Import Prelude CString.

Record Timestamp : Type := mkTimestamp { seconds_ : Z }.

#[export] Instance Timestamp_eq_dec : EqDecision Timestamp.
Proof. solve_decision. Defined.

Definition timestamp_wf (t : Timestamp) : Prop := is_u64 (seconds_ t).
(** A [std::chrono::seconds] count. *)
Definition is_s64 (z : Z) : Prop := - S64_MOD <= z < S64_MOD.

Definition MAX_VALUE : Z := U64_MAX.
Definition MIN_VALUE : Z := 0.

(** ** Operations *)

Definition is_valid_timestamp (seconds : Z) : bool := (MIN_VALUE <=? seconds) && (seconds <=? MAX_VALUE).
Definition validate_timestamp (seconds : Z) : outcome unit :=
  if negb (is_valid_timestamp seconds) then Throw (out_of_range "Invalid timestamp value") else Ret tt.

Definition Timestamp_of_seconds (seconds_since_epoch : Z) : outcome Timestamp :=
  _ ← validate_timestamp seconds_since_epoch; Ret (mkTimestamp seconds_since_epoch).

(** [duration_cast<seconds>] truncates toward zero; the cast to [uint64_t] wraps. *)
Definition seconds_of_ns (ns : Z) : Z := u64 (Z.quot ns 1000000000).
Definition Timestamp_of_time_point (ns : Z) : outcome Timestamp :=
  _ ← validate_timestamp (seconds_of_ns ns); Ret (mkTimestamp (seconds_of_ns ns)).

Definition seconds (t : Timestamp) : Z := seconds_ t.
Definition milliseconds (t : Timestamp) : Z := (seconds_ t * 1000)%u64.
Definition microseconds (t : Timestamp) : Z := (seconds_ t * 1000000)%u64.

Definition to_string (t : Timestamp) : list ascii := print_dec (seconds_ t).

Definition add (t : Timestamp) (duration : Z) : outcome Timestamp :=
  let result_seconds := (seconds_ t + u64 duration)%u64 in
  if MAX_VALUE <? result_seconds then Throw (overflow_error "Timestamp addition overflow")
  else Timestamp_of_seconds (u64 result_seconds).
Definition add_left (duration : Z) (t : Timestamp) : outcome Timestamp := add t duration.

Definition sub (t : Timestamp) (duration : Z) : outcome Timestamp :=
  if s64 (seconds_ t) <? duration then Throw (underflow_error "Timestamp subtraction underflow")
  else Timestamp_of_seconds (seconds_ t - u64 duration)%u64.

Definition diff (t other : Timestamp) : outcome Z :=
  if seconds_ t <? seconds_ other then Throw (underflow_error "Timestamp difference underflow")
  else Ret (s64 (seconds_ t - seconds_ other)%u64).

Definition add_assign (t : Timestamp) (duration : Z) : outcome Timestamp := add t duration.
Definition sub_assign (t : Timestamp) (duration : Z) : outcome Timestamp := sub t duration.

Definition spaceship (t other : Timestamp) : comparison := (seconds_ t ?= seconds_ other).
Definition eqb (t other : Timestamp) : bool := seconds_ t =? seconds_ other.
Definition ltb (a b : Timestamp) : bool := match spaceship a b with Lt => true | _ => false end.
Definition gtb (a b : Timestamp) : bool := match spaceship a b with Gt => true | _ => false end.
Definition leb (a b : Timestamp) : bool := match spaceship a b with Gt => false | _ => true end.

Definition is_zero (t : Timestamp) : bool := seconds_ t =? 0.
Definition is_valid (t : Timestamp) : bool := is_valid_timestamp (seconds_ t).
Definition is_future (now : Z) (t : Timestamp) : bool := seconds_of_ns now <? seconds_ t.
Definition is_past (now : Z) (t : Timestamp) : bool := seconds_ t <? seconds_of_ns now.
Definition now_timestamp (now : Z) : outcome Timestamp := Timestamp_of_seconds (seconds_of_ns now).

Definition from_seconds (s : Z) : outcome Timestamp := Timestamp_of_seconds s.
Definition from_milliseconds (ms : Z) : outcome Timestamp := Timestamp_of_seconds (ms / 1000).
Definition zero : outcome Timestamp := Timestamp_of_seconds 0.
Definition max_timestamp : outcome Timestamp := Timestamp_of_seconds MAX_VALUE.

Definition min (a b : Timestamp) : Timestamp := if ltb a b then a else b.
Definition max (a b : Timestamp) : Timestamp := if gtb a b then a else b.
Definition is_valid_timestamp_range (start finish : Timestamp) : bool := leb start finish.
Definition duration_between (start finish : Timestamp) : outcome Z := diff finish start.
(** No order check here: the unsigned difference wraps. *)
Definition duration_ms_between (start finish : Timestamp) : Z :=
  s64 ((seconds_ finish - seconds_ start) * 1000)%u64.

(** ** Lemmas *)

Lemma Timestamp_of_seconds_ok s : is_u64 s -> Timestamp_of_seconds s = Ret (mkTimestamp s).
Proof.
  intros Hs. unfold Timestamp_of_seconds, validate_timestamp, is_valid_timestamp, MIN_VALUE, MAX_VALUE.
  unfold is_u64 in Hs. destruct (Z.leb_spec 0 s), (Z.leb_spec s U64_MAX); try lia; done.
Qed.

Lemma s64_small z : is_s64 z -> s64 z = z.
Proof. unfold is_s64, s64. intros. rewrite Z.mod_small; lia. Qed.

Lemma add_wraps t d : add t d = Ret (mkTimestamp (u64 (seconds_ t + d))).
Proof.
  unfold add. pose proof (u64_range (seconds_ t + u64 d)) as Hr. unfold u64_add.
  destruct (Z.ltb_spec MAX_VALUE (u64 (seconds_ t + u64 d))); [unfold is_u64, MAX_VALUE in *; lia|].
  rewrite u64_small, Timestamp_of_seconds_ok by done. do 2 f_equal.
  unfold u64. by rewrite Zplus_mod_idemp_r.
Qed.

(** ** Properties *)

(** Adding a duration never throws: the sum is reduced modulo 2^64 before
    the overflow test, so at the top of the range it wraps to the epoch. *)
Theorem timestamp_add_wraps (t : Timestamp) (d : Z) :
  add t d = Ret (mkTimestamp (u64 (seconds_ t + d)))
  /\ add (mkTimestamp MAX_VALUE) 1 = Ret (mkTimestamp 0).
Proof. split; apply add_wraps. Qed.

(** On timestamps below 2^63 subtraction throws exactly when the duration
    exceeds the timestamp, is exact otherwise, and undoes an addition. *)
Theorem timestamp_sub_spec (t : Timestamp) (d : Z) :
  is_s64 (seconds_ t) -> timestamp_wf t -> 0 <= d < S64_MOD ->
  sub t d = (if seconds_ t <? d then Throw (underflow_error "Timestamp subtraction underflow")
             else Ret (mkTimestamp (seconds_ t - d)))
  /\ (seconds_ t + d < S64_MOD -> (t' ← add t d; sub t' d) = Ret t).
Proof.
  intros Hs Hw Hd. split.
  - unfold sub. rewrite s64_small by done. destruct (Z.ltb_spec (seconds_ t) d); [done|].
    unfold timestamp_wf, is_u64, u64_sub in *.
    by rewrite (u64_small d), u64_small, Timestamp_of_seconds_ok by (unfold is_u64; lia).
  - intros Hlt. rewrite add_wraps. simpl. unfold timestamp_wf, is_u64 in Hw.
    rewrite u64_small by (unfold is_u64; lia). unfold sub. simpl.
    rewrite s64_small by (unfold is_s64; lia).
    destruct (Z.ltb_spec (seconds_ t + d) d); [lia|].
    unfold u64_sub. rewrite (u64_small d), u64_small, Timestamp_of_seconds_ok by (unfold is_u64; lia).
    destruct t; simpl. do 2 f_equal. lia.
Qed.

Lemma timestamp_sub_spec_witness : (t' ← add (mkTimestamp 100) 30; sub t' 30) = Ret (mkTimestamp 100).
Proof. apply (timestamp_sub_spec (mkTimestamp 100) 30); unfold is_s64, timestamp_wf, is_u64; simpl; lia. Defined.
