(* ===== verification/CoreText.v ===== *)
(** * Texts of the core values: ISO 8601 and the stream operators

    [Timestamp::to_iso8601], [from_iso8601] and [parse_iso8601] of
    core/timestamp.cpp, on the calendar of Calendar.v, and the stream operators of
    [Timestamp] and [Amount].  The zone [std::mktime] reads is the argument
    [offset], in seconds east of UTC. *)

From stdpp Require Import base list numbers strings.
From Stdlib Require Import ZArith Lia Ascii.
From S2P Require Import Prelude CString Streams Calendar Amount Timestamp.

(** ** ISO 8601 *)

(** [time_point(std::chrono::seconds(seconds_))]: the count becomes signed, then
    nanoseconds, whose overflow is undefined. *)
Definition to_time_point (t : Timestamp) : outcome Z :=
  let ns := s64 (seconds_ t) * 1000000000 in
  if (- S64_MOD <=? ns) && (ns <? S64_MOD) then Ret ns else Undefined.

(** [system_clock::to_time_t]. *)
Definition to_time_t (ns : Z) : Z := Z.quot ns 1000000000.

Definition to_iso8601 (t : Timestamp) : outcome cstr :=
  time_point ← to_time_point t; Ret (put_time (gmtime (to_time_t time_point)) ++ $"Z").

(** The pattern [(\d{4})-(\d{2})-(\d{2})T(\d{2}):(\d{2}):(\d{2})Z]: [None] stands for
    [\d]. *)
Definition iso_pattern : list (option ascii) :=
  let d2 := [None; None] in
  d2 ++ d2 ++ Some "-"%char :: d2 ++ Some "-"%char :: d2 ++ Some "T"%char :: d2 ++ Some ":"%char :: d2
  ++ Some ":"%char :: d2 ++ [Some "Z"%char].

Definition is_decimal (c : ascii) : bool := match is_digit_in 10 c with Some _ => true | None => false end.

(** [std::regex_match] of such a pattern. *)
Fixpoint matches (pat : list (option ascii)) (s : cstr) : bool :=
  match pat, s with
  | [], [] => true
  | Some a :: pat', c :: s' => Ascii.eqb a c && matches pat' s'
  | None :: pat', c :: s' => is_decimal c && matches pat' s'
  | _, _ => false
  end.

Definition parse_iso8601 (offset : Z) (iso_string : cstr) : outcome Z :=
  if negb (matches iso_pattern iso_string) then Throw (invalid_argument "Invalid ISO8601 format")
  else
    y ← stoi 10 (substr 0 4 iso_string);
    mo ← stoi 10 (substr 5 2 iso_string);
    d ← stoi 10 (substr 8 2 iso_string);
    h ← stoi 10 (substr 11 2 iso_string);
    mi ← stoi 10 (substr 14 2 iso_string);
    sec ← stoi 10 (substr 17 2 iso_string);
    let time_t := mktime offset (mkTm (y - 1900) (mo - 1) d h mi sec) in
    if time_t =? -1 then Throw (invalid_argument "Invalid date/time in ISO8601 string")
    else Ret (u64 time_t).

Definition from_iso8601 (offset : Z) (iso_string : cstr) : outcome Timestamp :=
  v ← parse_iso8601 offset iso_string; Timestamp_of_seconds v.

(** ** Stream operators *)

(** [is >> n] for a [uint64_t]: [None] when the variable is not written (no
    character to read), zero when there is no number, the largest value when it does
    not fit. *)
Definition extract_u64 (st : istream) : option Z * istream :=
  if good st then
    match skip_space (rest st) with
    | [] => (None, mkStream [] true true)
    | s =>
        let '(neg, s1) := take_sign s in
        let ds := lead_digits 10 s1 in
        let r := drop (length ds) s1 in
        let v := digits_value 10 ds in
        let ended := bool_decide (r = []) in
        match ds with
        | [] => (Some 0, mkStream r ended true)
        | _ => if v <=? U64_MAX then (Some (if neg then u64 (- v) else v), mkStream r ended false)
               else (Some U64_MAX, mkStream r ended true)
        end
    end
  else (None, mkStream (rest st) (eofbit st) true).

(** [os << timestamp] and [is >> timestamp]; [seconds] is not initialised. *)
Definition print_timestamp (os : cstr) (t : Timestamp) : cstr := os ++ Timestamp.to_string t.
Definition read_timestamp (st : istream) : outcome (Timestamp * istream) :=
  match extract_u64 st with
  | (None, _) => Undefined
  | (Some seconds, st') => t ← Timestamp_of_seconds seconds; Ret (t, st')
  end.

(** [os << amount] and [is >> amount]; the string starts empty. *)
Definition print_amount (os : cstr) (a : Amount) : cstr := os ++ Amount.to_string a.
Definition read_amount (st : istream) : outcome (Amount * istream) :=
  let '(w, st') := extract_word st in a ← Amount.from_string (default [] w); Ret (a, st').

(** ** Lemmas *)

(** A two-digit field is printed, matched and read back. *)
Definition field_ok (n : Z) : bool :=
  bool_decide (matches [None; None] (pad 2 n) = true /\ stoi 10 (pad 2 n) = Ret n) || (99 <? n).
Lemma field_checked n : 0 <= n <= 99 -> matches [None; None] (pad 2 n) = true /\ stoi 10 (pad 2 n) = Ret n.
Proof.
  intros H. assert (E : field_ok n = true) by (apply (check_from_spec field_ok 7 0); [vm_compute; reflexivity|lia]).
  unfold field_ok in E. apply orb_true_iff in E as [E%bool_decide_eq_true|]; [done|lia].
Qed.

Definition year_text_ok (n : Z) : bool :=
  let s := print_dec (1677 + n) in
  bool_decide (matches [None; None; None; None] s = true /\ stoi 10 s = Ret (1677 + n)) || (586 <? n).
Lemma year_text_checked y :
  1677 <= y <= 2263 -> matches [None; None; None; None] (print_dec y) = true /\ stoi 10 (print_dec y) = Ret y.
Proof.
  intros H. assert (E : year_text_ok (y - 1677) = true) by (apply (check_from_spec year_text_ok 10 0); [vm_compute; reflexivity|lia]).
  unfold year_text_ok in E. replace (1677 + (y - 1677)) with y in E by lia.
  apply orb_true_iff in E as [E%bool_decide_eq_true|]; [done|lia].
Qed.

Lemma matches_two s : matches [None; None] s = true -> exists a b, s = [a; b] /\ is_decimal a = true /\ is_decimal b = true.
Proof.
  destruct s as [|a [|b [|]]]; cbn; rewrite ?andb_true_iff; try naive_solver; destruct (is_decimal a); naive_solver.
Qed.

Lemma matches_four s :
  matches [None; None; None; None] s = true ->
  exists a b c d, s = [a; b; c; d] /\ Forall (fun x => is_decimal x = true) [a; b; c; d].
Proof.
  destruct s as [|a [|b [|c [|d [|]]]]]; cbn; rewrite ?andb_true_iff, ?andb_false_r; naive_solver.
Qed.

(** What is printed for a broken-down time in range is matched, and its fields are
    read back. *)
Lemma parse_put_time offset m :
  1677 <= tm_year m + 1900 <= 2263 -> 0 <= tm_mon m <= 11 -> 0 <= tm_mday m <= 31 -> 0 <= tm_hour m <= 23 ->
  0 <= tm_min m <= 59 -> 0 <= tm_sec m <= 59 ->
  length (put_time m ++ $"Z") = 20%nat
  /\ parse_iso8601 offset (put_time m ++ $"Z")
     = if mktime offset m =? -1 then Throw (invalid_argument "Invalid date/time in ISO8601 string") else Ret (u64 (mktime offset m)).
Proof.
  destruct m as [y mo d h mi sec]. cbn [tm_year tm_mon tm_mday tm_hour tm_min tm_sec]. intros Hy Hmo Hd Hh Hmi Hs.
  unfold put_time. cbn [tm_year tm_mon tm_mday tm_hour tm_min tm_sec].
  destruct (year_text_checked _ Hy) as [My Ey]. destruct (field_checked (mo + 1)) as [Mmo Emo]; [lia|].
  destruct (field_checked d) as [Md Ed]; [lia|]. destruct (field_checked h) as [Mh Eh]; [lia|].
  destruct (field_checked mi) as [Mmi Emi]; [lia|]. destruct (field_checked sec) as [Ms Es]; [lia|].
  apply matches_four in My as (y1 & y2 & y3 & y4 & Ty & Dy). rewrite !Forall_cons in Dy. destruct Dy as (D1 & D2 & D3 & D4 & _).
  apply matches_two in Mmo as (o1 & o2 & To & O1 & O2). apply matches_two in Md as (d1 & d2 & Td & Dd1 & Dd2).
  apply matches_two in Mh as (h1 & h2 & Th & H1 & H2). apply matches_two in Mmi as (i1 & i2 & Ti & I1 & I2).
  apply matches_two in Ms as (s1 & s2 & Ts & S1 & S2).
  rewrite Ty in *. rewrite To in *. rewrite Td in *. rewrite Th in *. rewrite Ti in *. rewrite Ts in *.
  split; [done|]. unfold parse_iso8601.
  set (txt := (_ ++ $"Z") : cstr).
  assert (M : matches iso_pattern txt = true) by (subst txt; cbn; by rewrite D1, D2, D3, D4, O1, O2, Dd1, Dd2, H1, H2, I1, I2, S1, S2).
  rewrite M. cbn [negb]. subst txt. unfold substr. cbn [app drop take String.list_ascii_of_string].
  rewrite Ey. cbn [mbind outcome_bind]. rewrite Emo. cbn [mbind outcome_bind]. rewrite Ed. cbn [mbind outcome_bind].
  rewrite Eh. cbn [mbind outcome_bind]. rewrite Emi. cbn [mbind outcome_bind]. rewrite Es. cbn [mbind outcome_bind].
  replace (y + 1900 - 1900) with y by lia. by replace (mo + 1 - 1) with mo by lia.
Qed.

(** A number that is followed by something else than a digit. *)
Lemma extract_u64_print n s :
  is_u64 n -> match s with [] => True | c :: _ => is_digit_in 10 c = None end ->
  extract_u64 (istringstream (print_dec n ++ s)) = (Some n, mkStream s (bool_decide (s = [])) false).
Proof.
  intros Hn Hs. unfold extract_u64, istringstream, good. cbn [rest eofbit failbit orb negb].
  unfold print_dec. pose proof (to_digits_range 10 n) as Hr. pose proof (digits_value_to_digits 10 n) as Hv.
  pose proof (to_digits_nonempty 10 n) as Hne. unfold is_u64 in Hn. specialize (Hr ltac:(lia) ltac:(lia)). specialize (Hv ltac:(lia) ltac:(lia)).
  destruct (to_digits 10 n) as [|d ds] eqn:E; [done|]. pose proof (Forall_inv Hr) as Hd. cbn in Hd.
  cbn [map app]. rewrite skip_space_digit by lia. rewrite take_sign_digit by lia.
  change (digit_char d :: map digit_char ds ++ s) with (map digit_char (d :: ds) ++ s).
  rewrite lead_digits_printed; [|lia|done|destruct s as [|c s]; [done|by cbn; rewrite Hs]].
  rewrite <- (length_map digit_char), drop_app_length, Hv. by rewrite (proj2 (Z.leb_le _ _)) by lia.
Qed.

(** What [<<] prints, [>>] reads back, and the stream goes on after it. *)
Lemma timestamp_stream t s :
  timestamp_wf t -> match s with [] => True | c :: _ => is_digit_in 10 c = None end ->
  read_timestamp (istringstream (print_timestamp [] t ++ s)) = Ret (t, mkStream s (bool_decide (s = [])) false).
Proof.
  intros Ht Hs. unfold read_timestamp, print_timestamp, Timestamp.to_string. cbn [app]. rewrite extract_u64_print by done.
  rewrite Timestamp_of_seconds_ok by done. by destruct t.
Qed.

Lemma digit_char_no_space d : 0 <= d < 10 -> is_space (digit_char d) = false.
Proof.
  intros H. assert (C : d ∈ seqZ 0 10) by (apply elem_of_seqZ; lia). clear H. revert d C. apply Forall_forall. vm_compute. repeat constructor.
Qed.



Abbreviation no_space := (Forall (fun c => is_space c = false)).
Lemma print_no_space n : 0 <= n -> no_space (print_dec n).
Proof.
  intros Hn. unfold print_dec. apply Forall_map. eapply Forall_impl; [apply to_digits_range; lia|]. intros d. apply digit_char_no_space.
Qed.

Lemma drop_zeros_no_space s : no_space s -> no_space (drop_zeros s).
Proof. induction 1 as [|c s Hc Hs IH]; cbn; repeat case_match; auto. Qed.

Lemma amount_no_space a : amount_wf a -> no_space (Amount.to_string a).
Proof.
  intros Ha. pose proof (whole_range a Ha). pose proof (fraction_range a) as [Hf _].
  unfold Amount.to_string. apply Forall_app. split; [apply print_no_space; lia|]. constructor; [done|].
  unfold frac_text. destruct (_ =? 0); [by repeat constructor|].
  assert (N : no_space (strip_trailing_zeros (pad_left DECIMALS (print_dec (fraction a))))).
  { unfold strip_trailing_zeros, pad_left. apply Forall_rev, drop_zeros_no_space, Forall_rev, Forall_app.
    split; [by apply Forall_replicate|apply print_no_space; lia]. }
  case_match; [by repeat constructor|done].
Qed.

(** Reading an amount from a stream reads the text [<<] printed. *)
Lemma amount_stream a s :
  amount_wf a -> match s with [] => True | c :: _ => is_space c = true end ->
  read_amount (istringstream (print_amount [] a ++ s))
  = b ← Amount.from_string (Amount.to_string a); Ret (b, mkStream s (bool_decide (s = [])) false).
Proof.
  intros Ha Hs. unfold read_amount, print_amount. cbn [app]. rewrite extract_word_app; [done| |by apply amount_no_space|done].
  unfold Amount.to_string. intros [_ [=]]%app_eq_nil.
Qed.

(** ** Properties *)

(** C32: For a timestamp within 292 years of the epoch [to_iso8601] prints the 20
    characters of its UTC date and time; [from_iso8601] accepts that text and returns
    the same timestamp when the zone of the process is UTC, one shifted by the offset
    of the zone otherwise (the text says UTC, [mktime] reads local time), and
    throws where the time it computes is one second before the epoch.  Beyond that
    range [to_iso8601] overflows the nanosecond count. *)
Theorem iso8601_roundtrip (t : Timestamp) (offset : Z) :
  timestamp_wf t ->
  let z := s64 (seconds_ t) in
  if bool_decide (-9223372036 <= z <= 9223372036) then
    exists s, to_iso8601 t = Ret s /\ length s = 20%nat
      /\ from_iso8601 offset s
         = (if z - offset =? -1 then Throw (invalid_argument "Invalid date/time in ISO8601 string")
            else Ret (mkTimestamp (u64 (z - offset))))
      /\ (z <> -1 -> from_iso8601 0 s = Ret t)
  else to_iso8601 t = Undefined.
Proof.
  intros Hw z. unfold to_iso8601, to_time_point. fold z. case_bool_decide as Hz.
  2: { destruct (Z.leb_spec (- S64_MOD) (z * 1000000000)), (Z.ltb_spec (z * 1000000000) S64_MOD); try done. lia. }
  rewrite (proj2 (Z.leb_le _ _)), (proj2 (Z.ltb_lt _ _)) by lia. cbn [andb mbind outcome_bind].
  unfold to_time_t. rewrite Z.quot_mul by lia. exists (put_time (gmtime z) ++ $"Z"). split; [done|].
  assert (Hp : forall off, length (put_time (gmtime z) ++ $"Z") = 20%nat
    /\ parse_iso8601 off (put_time (gmtime z) ++ $"Z")
       = if z - off =? -1 then Throw (invalid_argument "Invalid date/time in ISO8601 string") else Ret (u64 (z - off))).
  { intros off. pose proof (gmtime_range z) as R. cbv zeta in R. replace (z - off) with (mktime off (gmtime z)) by (unfold mktime; by rewrite timegm_gmtime).
    apply parse_put_time; try lia. unfold gmtime. cbn [tm_year].
    pose proof (year_bounds (z / 86400)) as Y. Z.div_mod_to_equations; lia. }
  assert (Hf : forall off, from_iso8601 off (put_time (gmtime z) ++ $"Z")
    = if z - off =? -1 then Throw (invalid_argument "Invalid date/time in ISO8601 string") else Ret (mkTimestamp (u64 (z - off)))).
  { intros off. unfold from_iso8601. rewrite (proj2 (Hp off)). destruct (z - off =? -1); [done|]. cbn [mbind outcome_bind].
    by rewrite Timestamp_of_seconds_ok by apply u64_range. }
  split; [apply (Hp 0)|]. split; [apply Hf|]. intros Hn. rewrite Hf, (proj2 (Z.eqb_neq _ _)) by lia.
  destruct t as [v]. do 2 f_equal. subst z. unfold timestamp_wf, is_u64, s64, u64 in *. cbn [seconds_] in *. rewrite Z.sub_0_r.
  Z.div_mod_to_equations; lia.
Qed.

Lemma iso8601_roundtrip_witness :
  exists s, to_iso8601 (mkTimestamp 1640995200) = Ret s /\ from_iso8601 0 s = Ret (mkTimestamp 1640995200).
Proof.
  assert (H := iso8601_roundtrip (mkTimestamp 1640995200) 0 ltac:(unfold timestamp_wf, is_u64; simpl; lia)). cbv zeta in H.
  rewrite bool_decide_eq_true_2 in H by (vm_compute; split; discriminate).
  destruct H as (s & H1 & _ & _ & H2). exists s. split; [exact H1|]. apply H2. vm_compute. discriminate.
Defined.

(** The text of a date is what the tests expect; the largest timestamp is
    printed as a date before the epoch. *)
Example iso_texts :
  to_iso8601 (mkTimestamp 1640995200) = Ret $"2022-01-01T00:00:00Z"
  /\ to_iso8601 (mkTimestamp 951782400) = Ret $"2000-02-29T00:00:00Z"
  /\ to_iso8601 (mkTimestamp MAX_VALUE) = Ret $"1969-12-31T23:59:59Z"
  /\ from_iso8601 0 $"2021-14-35T25:61:61Z" = Ret (mkTimestamp 1646704921)
  /\ from_iso8601 0 $"1969-12-31T23:59:58Z" = Ret (mkTimestamp 18446744073709551614).
Proof. vm_compute. done. Qed.
