(* ===== verification/Transaction.v ===== *)
(** * Transaction (core/types.hpp, core/transaction.hpp, core/transaction.cpp)

    The transaction's fields and the lazily computed hash.  [calculate_hash] is
    [const] in the source but fills the mutable [cached_hash_], so it returns the
    object it leaves behind.  The non-const accessor [data()] hands out a
    reference to the fields; a write through it is [write_data], which, as in the
    source, does not touch the cache. *)

From stdpp Require Import base list gmap numbers strings.
From Stdlib Require Import ZArith Lia Ascii.
From S2P Require Import Prelude CString Hash Address Amount.

Record TransactionData : Type := mkTransactionData {
  from : list Z;
  to : list Z;
  value : Z;
  gas_limit : Z;
  gas_price : Z;
  data : list Z;
  nonce : Z
}.

Record Transaction : Type := mkTransaction {
  data_ : TransactionData;
  cached_hash_ : option Hash
}.

#[export] Instance TransactionData_eq_dec : EqDecision TransactionData.
Proof. solve_decision. Defined.
#[export] Instance Transaction_eq_dec : EqDecision Transaction.
Proof. solve_decision. Defined.

Definition MAX_TRANSACTION_SIZE : Z := 128 * 1024.
(** [sizeof(TransactionData)] on an LP64 target: two 20-byte arrays, three
    8-byte integers, a 24-byte vector and the nonce. *)
Definition SIZEOF_TRANSACTION_DATA : Z := 96.

Definition txdata_wf (d : TransactionData) : Prop :=
  length (from d) = ADDRESS_SIZE /\ bytes_ok (from d)
  /\ length (to d) = ADDRESS_SIZE /\ bytes_ok (to d)
  /\ is_u64 (value d) /\ is_u64 (gas_limit d) /\ is_u64 (gas_price d)
  /\ bytes_ok (data d) /\ is_u64 (nonce d).

#[export] Instance txdata_wf_dec d : Decision (txdata_wf d).
Proof. unfold txdata_wf. apply _. Defined.

(** ** Constructors, accessors and setters *)

Definition Transaction_of (f t : Address) (v : Amount) : Transaction :=
  mkTransaction (mkTransactionData (Address.data_ f) (Address.data_ t) (wei v) 21000 1 [] 0) None.
Definition Transaction_of_data (d : TransactionData) : Transaction := mkTransaction d None.

Definition get_from (tx : Transaction) : Address := mkAddress (from (data_ tx)).
Definition get_to (tx : Transaction) : Address := mkAddress (to (data_ tx)).
Definition get_value (tx : Transaction) : Amount := from_wei (value (data_ tx)).
Definition get_gas_limit (tx : Transaction) : Z := gas_limit (data_ tx).
Definition get_gas_price (tx : Transaction) : Z := gas_price (data_ tx).
Definition payload (tx : Transaction) : list Z := data (data_ tx).
Definition get_nonce (tx : Transaction) : Z := nonce (data_ tx).

Definition invalidate_cache (tx : Transaction) : Transaction := mkTransaction (data_ tx) None.

(** A write through the reference returned by the non-const [data()]. *)
Definition write_data (f : TransactionData -> TransactionData) (tx : Transaction) : Transaction :=
  mkTransaction (f (data_ tx)) (cached_hash_ tx).

Definition set_from (a : Address) (tx : Transaction) : Transaction :=
  invalidate_cache (write_data (fun d => mkTransactionData (Address.data_ a) (to d) (value d) (gas_limit d) (gas_price d) (data d) (nonce d)) tx).
Definition set_to (a : Address) (tx : Transaction) : Transaction :=
  invalidate_cache (write_data (fun d => mkTransactionData (from d) (Address.data_ a) (value d) (gas_limit d) (gas_price d) (data d) (nonce d)) tx).
Definition set_value (v : Amount) (tx : Transaction) : Transaction :=
  invalidate_cache (write_data (fun d => mkTransactionData (from d) (to d) (wei v) (gas_limit d) (gas_price d) (data d) (nonce d)) tx).
Definition set_gas_limit (g : Z) (tx : Transaction) : Transaction :=
  invalidate_cache (write_data (fun d => mkTransactionData (from d) (to d) (value d) g (gas_price d) (data d) (nonce d)) tx).
Definition set_gas_price (g : Z) (tx : Transaction) : Transaction :=
  invalidate_cache (write_data (fun d => mkTransactionData (from d) (to d) (value d) (gas_limit d) g (data d) (nonce d)) tx).
Definition set_data (p : list Z) (tx : Transaction) : Transaction :=
  invalidate_cache (write_data (fun d => mkTransactionData (from d) (to d) (value d) (gas_limit d) (gas_price d) p (nonce d)) tx).
Definition set_nonce (n : Z) (tx : Transaction) : Transaction :=
  invalidate_cache (write_data (fun d => mkTransactionData (from d) (to d) (value d) (gas_limit d) (gas_price d) (data d) n) tx).

(** ** Hash, fee, classification *)

(** The byte string [calculate_hash] assembles. *)
Definition hash_data (d : TransactionData) : list Z :=
  from d ++ to d ++ be_bytes 8 (value d) ++ be_bytes 8 (gas_limit d)
  ++ be_bytes 8 (gas_price d) ++ be_bytes 8 (nonce d) ++ data d.

Definition calculate_hash (tx : Transaction) : Hash * Transaction :=
  match cached_hash_ tx with
  | Some h => (h, tx)
  | None => let h := hash_sha256 (hash_data (data_ tx)) in (h, mkTransaction (data_ tx) (Some h))
  end.

Definition calculate_fee (tx : Transaction) : Amount :=
  from_wei (gas_limit (data_ tx) * gas_price (data_ tx))%u64.

Definition no_data (tx : Transaction) : bool := match data (data_ tx) with [] => true | _ => false end.

Definition is_contract_creation (tx : Transaction) : bool :=
  Address.is_zero (mkAddress (to (data_ tx))) && negb (no_data tx).
Definition is_contract_call (tx : Transaction) : bool :=
  negb (Address.is_zero (mkAddress (to (data_ tx)))) && negb (no_data tx).
Definition is_transfer (tx : Transaction) : bool :=
  negb (Address.is_zero (mkAddress (to (data_ tx)))) && no_data tx.

(** ** Validation *)

Definition validate_addresses (tx : Transaction) : bool :=
  Address.is_valid (mkAddress (from (data_ tx)))
  && (Address.is_valid (mkAddress (to (data_ tx))) || is_contract_creation tx).
Definition validate_gas (tx : Transaction) : bool :=
  (21000 <=? gas_limit (data_ tx)) && (0 <? gas_price (data_ tx)).
Definition validate_amount (tx : Transaction) : bool :=
  negb (Amount.is_zero (mkAmount (value (data_ tx)))) || is_contract_creation tx.
Definition validate_nonce (tx : Transaction) : bool := true.
Definition validate_signature (tx : Transaction) : bool := true.

Definition is_valid (tx : Transaction) : bool :=
  validate_addresses tx && validate_gas tx && validate_amount tx && validate_nonce tx.

(** ** Size, text *)

Definition size (tx : Transaction) : Z :=
  (SIZEOF_TRANSACTION_DATA + Z.of_nat (length (data (data_ tx))))%u64.
Definition is_too_large (tx : Transaction) : bool := MAX_TRANSACTION_SIZE <? size tx.

Definition to_string (tx : Transaction) : list ascii :=
  let d := data_ tx in
  $"Transaction{" ++ $"from: " ++ Address.to_hex (mkAddress (from d))
  ++ $", to: " ++ Address.to_hex (mkAddress (to d))
  ++ $", value: " ++ Amount.to_string (mkAmount (value d))
  ++ $", gas_limit: " ++ print_dec (gas_limit d)
  ++ $", gas_price: " ++ print_dec (gas_price d)
  ++ $", nonce: " ++ print_dec (nonce d)
  ++ $", data_size: " ++ print_dec (Z.of_nat (length (data d)))
  ++ $"}".

Definition to_hex (tx : Transaction) : list ascii * Transaction :=
  let '(h, tx') := calculate_hash tx in (Hash.to_hex h, tx').

(** ** Free functions *)

Definition tx_eqb (lhs rhs : Transaction) : bool :=
  Hash.eqb (fst (calculate_hash lhs)) (fst (calculate_hash rhs)).
Definition tx_neqb (lhs rhs : Transaction) : bool := negb (tx_eqb lhs rhs).

Definition create_transfer_transaction (f t : Address) (v : Amount) : Transaction := Transaction_of f t v.
Definition create_contract_transaction (f : Address) (contract_data : list Z) : Transaction :=
  let tx := Transaction_of f Address.zero Amount.zero in
  let tx := set_data contract_data tx in
  set_gas_limit 53000 tx.
Definition create_contract_call_transaction (f contract : Address) (call_data : list Z) : Transaction :=
  let tx := Transaction_of f contract Amount.zero in set_data call_data tx.

Definition is_valid_transaction (tx : Transaction) : bool := is_valid tx.
Definition is_valid_transaction_data (d : TransactionData) : bool := is_valid (Transaction_of_data d).

Definition estimate_gas (tx : Transaction) : Z :=
  if is_contract_creation tx then (53000 + Z.of_nat (length (payload tx)) * 200)%u64
  else if is_contract_call tx then (21000 + Z.of_nat (length (payload tx)) * 68)%u64
  else 21000.
Definition calculate_transaction_fee (tx : Transaction) : Amount := calculate_fee tx.

(** ** The cache as a state machine

    [tx_step] is every way the class's interface changes a transaction, the
    const [calculate_hash] included; [write_data] is kept apart. *)
Inductive tx_step : Transaction -> Transaction -> Prop :=
  | step_set_from a tx : tx_step tx (set_from a tx)
  | step_set_to a tx : tx_step tx (set_to a tx)
  | step_set_value v tx : tx_step tx (set_value v tx)
  | step_set_gas_limit g tx : tx_step tx (set_gas_limit g tx)
  | step_set_gas_price g tx : tx_step tx (set_gas_price g tx)
  | step_set_data p tx : tx_step tx (set_data p tx)
  | step_set_nonce n tx : tx_step tx (set_nonce n tx)
  | step_calculate_hash tx : tx_step tx (snd (calculate_hash tx)).

(** The digest a fresh computation would return. *)
Definition digest (tx : Transaction) : Hash := hash_sha256 (hash_data (data_ tx)).
Definition cache_ok (tx : Transaction) : Prop :=
  match cached_hash_ tx with Some h => h = digest tx | None => True end.

(** ** Lemmas *)

Lemma calculate_hash_cached tx : cache_ok tx -> fst (calculate_hash tx) = digest tx.
Proof. unfold cache_ok, calculate_hash. by destruct (cached_hash_ tx). Qed.

Lemma cache_ok_step tx tx' : tx_step tx tx' -> cache_ok tx -> cache_ok tx'.
Proof.
  intros [] Hc; try done. unfold calculate_hash, cache_ok in *.
  destruct (cached_hash_ tx0) eqn:E; simpl; [by rewrite E | done].
Qed.

Lemma calculate_hash_data tx : data_ (snd (calculate_hash tx)) = data_ tx.
Proof. unfold calculate_hash. by destruct (cached_hash_ tx). Qed.

Lemma hash_data_ok d : txdata_wf d -> bytes_ok (hash_data d).
Proof.
  intros (? & ? & ? & ? & ? & ? & ? & ? & ?). unfold hash_data.
  repeat apply Forall_app_2; try done; apply be_bytes_ok.
Qed.

Lemma digest_wf tx : txdata_wf (data_ tx) -> hash_wf (digest tx).
Proof. intros H. by apply hash_sha256_wf, hash_data_ok. Qed.

(** The digest is the sender and the first twelve bytes of the recipient. *)
Lemma digest_eq tx :
  txdata_wf (data_ tx) -> digest tx = mkHash (from (data_ tx) ++ take 12 (to (data_ tx))).
Proof.
  intros (Hf & _ & Ht & _). unfold digest, hash_data, ADDRESS_SIZE in *. rewrite app_assoc.
  rewrite hash_sha256_prefix by (rewrite length_app, Hf, Ht; unfold HASH_SIZE; lia).
  f_equal. rewrite take_app_ge by (rewrite Hf; unfold HASH_SIZE; lia). by rewrite Hf.
Qed.

Lemma is_zero_address_iff l : length l = ADDRESS_SIZE -> Address.is_zero (mkAddress l) = true <-> l = replicate 20 0.
Proof. intros H. rewrite address_is_zero_spec by done. unfold Address.zero, ADDRESS_SIZE. split; congruence. Qed.

Lemma no_data_iff tx : no_data tx = true <-> data (data_ tx) = [].
Proof. unfold no_data. by destruct (data (data_ tx)). Qed.

(** ** Properties *)

(** C19: cache coherence.  From any constructor, after any sequence of setters and
    hash computations, [calculate_hash] returns the digest of the current fields. *)
Theorem tx_cache_coherent (d : TransactionData) (tx : Transaction) :
  rtc tx_step (Transaction_of_data d) tx -> fst (calculate_hash tx) = digest tx.
Proof.
  intros Hr. apply calculate_hash_cached.
  assert (Hinv : forall a b, rtc tx_step a b -> cache_ok a -> cache_ok b).
  { induction 1; eauto using cache_ok_step. }
  by apply (Hinv _ _ Hr).
Qed.

(** The digest is a placeholder that sees 32 bytes only: two transactions
    have the same hash exactly when they have the same sender and recipients that
    agree on twelve bytes, whatever their value, gas, nonce and data. *)
Theorem tx_hash_collision (tx1 tx2 : Transaction) :
  txdata_wf (data_ tx1) -> txdata_wf (data_ tx2) -> cache_ok tx1 -> cache_ok tx2 ->
  tx_eqb tx1 tx2 = true
  <-> from (data_ tx1) = from (data_ tx2) /\ take 12 (to (data_ tx1)) = take 12 (to (data_ tx2)).
Proof.
  intros W1 W2 C1 C2. unfold tx_eqb.
  rewrite !calculate_hash_cached, Hash.eqb_eq, !digest_eq by done.
  destruct W1 as [L1 _], W2 as [L2 _]. split.
  - intros [= E]. by apply app_inj_1 in E; [|congruence].
  - intros [-> ->]. done.
Qed.

(** What validity means: a non-zero sender, at least 21000 gas at a positive
    price, and either a contract creation (zero recipient with data) or a non-zero
    recipient with a non-zero value. *)
Theorem tx_is_valid_spec (tx : Transaction) :
  txdata_wf (data_ tx) ->
  is_valid tx = true <->
  from (data_ tx) <> replicate 20 0
  /\ 21000 <= gas_limit (data_ tx) /\ 0 < gas_price (data_ tx)
  /\ ((to (data_ tx) = replicate 20 0 /\ data (data_ tx) <> [])
      \/ (to (data_ tx) <> replicate 20 0 /\ value (data_ tx) <> 0)).
Proof.
  intros (Hf & _ & Ht & _). pose proof (is_zero_address_iff _ Hf) as If.
  pose proof (is_zero_address_iff _ Ht) as It. pose proof (no_data_iff tx) as Id.
  unfold is_valid, validate_addresses, validate_gas, validate_amount, validate_nonce,
    Address.is_valid, Amount.is_zero, is_contract_creation. simpl wei_.
  rewrite !andb_true_iff, !orb_true_iff, !andb_true_iff, !negb_true_iff, Z.leb_le, Z.ltb_lt, Z.eqb_neq.
  rewrite <- !not_true_iff_false, If, It, Id. destruct (decide (to (data_ tx) = replicate 20 0)); naive_solver.
Qed.

(** A contract call built by the library's helper is never valid: it carries
    a zero value, which validation accepts for contract creations only. *)
Theorem contract_call_never_valid (f contract : Address) (call_data : list Z) :
  address_wf f -> address_wf contract -> contract <> Address.zero ->
  is_valid (create_contract_call_transaction f contract call_data) = false.
Proof.
  intros _ [Hl _] Hz. apply not_true_iff_false. intros H.
  unfold is_valid, validate_amount, is_contract_creation in H. simpl in H.
  rewrite !andb_true_iff in H. destruct H as [[_ [Hc _]] _].
  apply Hz. apply address_is_zero_spec; [done|]. by destruct contract.
Qed.

(** Every transaction with data or a recipient is exactly one of transfer,
    contract call and contract creation; a transaction with neither is none. *)
Theorem tx_kind_partition (tx : Transaction) :
  let kinds := [is_contract_creation tx; is_contract_call tx; is_transfer tx] in
  length (List.filter id kinds)
  = if Address.is_zero (get_to tx) && no_data tx then 0%nat else 1%nat.
Proof.
  unfold is_contract_creation, is_contract_call, is_transfer, get_to.
  by destruct (Address.is_zero _), (no_data tx).
Qed.

(** ** Witnesses *)

Definition demo_data (v n : Z) : TransactionData :=
  mkTransactionData (replicate 20 1) (replicate 20 2) v 21000 1 [] n.

Lemma tx_cache_coherent_witness :
  let tx := set_nonce 9 (snd (calculate_hash (Transaction_of_data (demo_data 5 0)))) in
  fst (calculate_hash tx) = digest tx.
Proof.
  apply (tx_cache_coherent (demo_data 5 0) (set_nonce 9 (snd (calculate_hash (Transaction_of_data (demo_data 5 0)))))).
  eapply rtc_l; [apply step_calculate_hash|]. eapply rtc_l; [apply step_set_nonce|]. apply rtc_refl.
Defined.

Lemma tx_hash_collision_witness :
  tx_eqb (Transaction_of_data (demo_data 5 0)) (Transaction_of_data (demo_data 6 1)) = true.
Proof.
  apply (tx_hash_collision (Transaction_of_data (demo_data 5 0)) (Transaction_of_data (demo_data 6 1)));
    [decide_now|decide_now|exact I|exact I|split; reflexivity].
Defined.

Lemma tx_is_valid_spec_witness : is_valid (Transaction_of_data (demo_data 5 0)) = true.
Proof.
  apply (tx_is_valid_spec (Transaction_of_data (demo_data 5 0))); [decide_now|].
  simpl. split; [discriminate|]. split; [lia|]. split; [lia|]. right. split; [discriminate|lia].
Defined.

Lemma contract_call_never_valid_witness :
  is_valid (create_contract_call_transaction (mkAddress (replicate 20 1)) (mkAddress (replicate 20 2)) [7]) = false.
Proof. apply (contract_call_never_valid (mkAddress (replicate 20 1)) (mkAddress (replicate 20 2)) [7]); [decide_now|decide_now|discriminate]. Defined.
