(* ===== verification/Block.v ===== *)
(** * Block (core/types.hpp, core/block.hpp, core/block.cpp)

    Header, transactions and the lazily computed block hash.  The const methods
    that hash (the block or its transactions) fill mutable caches, so they return
    the object they leave behind.  The digest is a parameter [sha] of the hashing
    functions, instantiated with the core module's [hash_sha256]: the instance is
    what the code runs, the parameter is what the cache theorems range over. *)

From stdpp Require Import base list gmap numbers strings.
From Stdlib Require Import ZArith Lia Ascii.
From S2P Require Import Prelude CString Merkle Hash Address Amount Timestamp Transaction.

Record BlockHeader : Type := mkBlockHeader {
  height : Z;
  parent_hash : list Z;
  merkle_root : list Z;
  timestamp : Z;
  block_nonce : Z;
  block_gas_limit : Z;
  block_gas_price : Z;
  chain_id : Z
}.

Record Block : Type := mkBlock {
  header_ : BlockHeader;
  transactions_ : list Transaction;
  block_cached_hash_ : option Hash
}.

#[export] Instance BlockHeader_eq_dec : EqDecision BlockHeader.
Proof. solve_decision. Defined.
#[export] Instance Block_eq_dec : EqDecision Block.
Proof. solve_decision. Defined.

Definition MAX_BLOCK_SIZE : Z := 1024 * 1024.
(** [sizeof(BlockHeader)] on an LP64 target: five 8-byte integers, two 32-byte
    arrays and a 4-byte chain id, padded to a multiple of eight. *)
Definition SIZEOF_BLOCK_HEADER : Z := 112.

Definition header_wf (h : BlockHeader) : Prop :=
  is_u64 (height h) /\ length (parent_hash h) = HASH_SIZE /\ bytes_ok (parent_hash h)
  /\ length (merkle_root h) = HASH_SIZE /\ bytes_ok (merkle_root h)
  /\ is_u64 (timestamp h) /\ is_u64 (block_nonce h) /\ is_u64 (block_gas_limit h)
  /\ is_u64 (block_gas_price h) /\ is_u32 (chain_id h).

#[export] Instance header_wf_dec h : Decision (header_wf h).
Proof. unfold header_wf. apply _. Defined.

(** ** Hashing *)

(** The byte string [calculate_hash] assembles from the header. *)
Definition header_bytes (h : BlockHeader) : list Z :=
  be_bytes 8 (height h) ++ parent_hash h ++ merkle_root h ++ be_bytes 8 (timestamp h)
  ++ be_bytes 8 (block_nonce h) ++ be_bytes 8 (block_gas_limit h)
  ++ be_bytes 8 (block_gas_price h) ++ be_bytes 4 (chain_id h).

Definition calculate_hash_with (sha : list Z -> Hash) (b : Block) : Hash * Block :=
  match block_cached_hash_ b with
  | Some h => (h, b)
  | None => let h := sha (header_bytes (header_ b)) in (h, mkBlock (header_ b) (transactions_ b) (Some h))
  end.
Definition calculate_hash (b : Block) : Hash * Block := calculate_hash_with hash_sha256 b.

(** Hash every transaction in order; each call leaves its transaction cached. *)
Fixpoint hash_transactions (txs : list Transaction) : list Hash * list Transaction :=
  match txs with
  | [] => ([], [])
  | tx :: rest =>
      let '(h, tx') := Transaction.calculate_hash tx in
      let '(hs, rest') := hash_transactions rest in
      (h :: hs, tx' :: rest')
  end.

(** The root of a list of transaction hashes, as the three cases of the code. *)
Definition merkle_of (hashes : list Hash) : Hash :=
  match hashes with
  | [] => Hash.zero
  | [h] => h
  | _ => default Hash.zero (merkle_loop combine_hashes (length hashes) hashes)
  end.

Definition calculate_merkle_root (b : Block) : Hash * Block :=
  let '(hs, txs) := hash_transactions (transactions_ b) in
  (merkle_of hs, mkBlock (header_ b) txs (block_cached_hash_ b)).

(** ** Setters and transaction management *)

Definition invalidate_cache (b : Block) : Block := mkBlock (header_ b) (transactions_ b) None.

(** A write through the reference returned by the non-const [header()]. *)
Definition write_header (f : BlockHeader -> BlockHeader) (b : Block) : Block :=
  mkBlock (f (header_ b)) (transactions_ b) (block_cached_hash_ b).

(** A write through the reference [transactions()] returns: as in the source it
    touches neither the Merkle root nor the cached hash. *)
Definition write_transactions (f : list Transaction -> list Transaction) (b : Block) : Block :=
  mkBlock (header_ b) (f (transactions_ b)) (block_cached_hash_ b).

Definition with_merkle_root (r : list Z) (h : BlockHeader) : BlockHeader :=
  mkBlockHeader (height h) (parent_hash h) r (timestamp h) (block_nonce h) (block_gas_limit h) (block_gas_price h) (chain_id h).

Definition update_merkle_root (b : Block) : Block :=
  let '(r, b') := calculate_merkle_root b in write_header (with_merkle_root (Hash.data_ r)) b'.

(** [Block() = default]: the members of the header have no initialisers, so they are
    zero or whatever the memory held, depending on how the object is created. *)
Definition Block_default (memory : BlockHeader) : Block := mkBlock memory [] None.
Definition Block_of (ht : Z) (parent : Hash) (ts : Timestamp) : Block :=
  mkBlock (mkBlockHeader ht (Hash.data_ parent) (Hash.data_ Hash.zero) (seconds_ ts) 0 8000000 1 1) [] None.
Definition Block_of_header (h : BlockHeader) (txs : list Transaction) : Block :=
  update_merkle_root (mkBlock h txs None).

Definition set_height (v : Z) (b : Block) : Block :=
  invalidate_cache (write_header (fun h => mkBlockHeader v (parent_hash h) (merkle_root h) (timestamp h) (block_nonce h) (block_gas_limit h) (block_gas_price h) (chain_id h)) b).
Definition set_parent_hash (v : Hash) (b : Block) : Block :=
  invalidate_cache (write_header (fun h => mkBlockHeader (height h) (Hash.data_ v) (merkle_root h) (timestamp h) (block_nonce h) (block_gas_limit h) (block_gas_price h) (chain_id h)) b).
Definition set_timestamp (v : Timestamp) (b : Block) : Block :=
  invalidate_cache (write_header (fun h => mkBlockHeader (height h) (parent_hash h) (merkle_root h) (seconds_ v) (block_nonce h) (block_gas_limit h) (block_gas_price h) (chain_id h)) b).
Definition set_nonce (v : Z) (b : Block) : Block :=
  invalidate_cache (write_header (fun h => mkBlockHeader (height h) (parent_hash h) (merkle_root h) (timestamp h) v (block_gas_limit h) (block_gas_price h) (chain_id h)) b).
(** The last three setters do not invalidate the cached hash. *)
Definition set_gas_limit (v : Z) (b : Block) : Block :=
  write_header (fun h => mkBlockHeader (height h) (parent_hash h) (merkle_root h) (timestamp h) (block_nonce h) v (block_gas_price h) (chain_id h)) b.
Definition set_gas_price (v : Z) (b : Block) : Block :=
  write_header (fun h => mkBlockHeader (height h) (parent_hash h) (merkle_root h) (timestamp h) (block_nonce h) (block_gas_limit h) v (chain_id h)) b.
Definition set_chain_id (v : Z) (b : Block) : Block :=
  write_header (fun h => mkBlockHeader (height h) (parent_hash h) (merkle_root h) (timestamp h) (block_nonce h) (block_gas_limit h) (block_gas_price h) v) b.

Definition add_transaction (tx : Transaction) (b : Block) : Block :=
  invalidate_cache (update_merkle_root (mkBlock (header_ b) (transactions_ b ++ [tx]) (block_cached_hash_ b))).

Definition remove_transaction (index : nat) (b : Block) : Block :=
  if Nat.ltb index (length (transactions_ b)) then
    invalidate_cache (update_merkle_root (mkBlock (header_ b) (delete index (transactions_ b)) (block_cached_hash_ b)))
  else b.

Definition clear_transactions (b : Block) : Block :=
  invalidate_cache (write_header (with_merkle_root (Hash.data_ Hash.zero)) (mkBlock (header_ b) [] (block_cached_hash_ b))).

(** ** Size and validation *)

Definition is_genesis (b : Block) : bool := height (header_ b) =? 0.
Definition size (b : Block) : Z :=
  fold_left (fun s tx => (s + Transaction.size tx)%u64) (transactions_ b) SIZEOF_BLOCK_HEADER.
Definition is_full (b : Block) : bool := MAX_BLOCK_SIZE <=? size b.

Definition is_valid_block_header (h : BlockHeader) : bool :=
  Timestamp.is_valid (mkTimestamp (timestamp h)) && (0 <? block_gas_limit h) && (0 <? chain_id h).
Definition validate_header (b : Block) : bool := is_valid_block_header (header_ b).

(** The accumulating loop with its early return. *)
Fixpoint gas_loop (limit total : Z) (txs : list Transaction) : bool :=
  match txs with
  | [] => true
  | tx :: rest =>
      let total' := (total + get_gas_limit tx)%u64 in
      if limit <? total' then false else gas_loop limit total' rest
  end.
Definition validate_gas_limits (b : Block) : bool := gas_loop (block_gas_limit (header_ b)) 0 (transactions_ b).

Definition validate_transactions (b : Block) : bool :=
  forallb Transaction.is_valid (transactions_ b) && validate_gas_limits b.
Definition validate_size (b : Block) : bool := size b <=? MAX_BLOCK_SIZE.
Definition is_valid (b : Block) : bool := validate_header b && validate_transactions b && validate_size b.

(** ** Text, comparison, factories *)

Definition to_string (b : Block) : list ascii * Block :=
  let '(h, b') := calculate_hash b in
  ($"Block{" ++ $"height: " ++ print_dec (height (header_ b))
   ++ $", hash: " ++ substr 0 16 (Hash.to_hex h) ++ $"..."
   ++ $", parent: " ++ substr 0 16 (Hash.to_hex (mkHash (parent_hash (header_ b)))) ++ $"..."
   ++ $", transactions: " ++ print_dec (Z.of_nat (length (transactions_ b)))
   ++ $", timestamp: " ++ print_dec (timestamp (header_ b))
   ++ $", gas_limit: " ++ print_dec (block_gas_limit (header_ b)) ++ $"}", b').

Definition block_eqb (lhs rhs : Block) : bool :=
  Hash.eqb (fst (calculate_hash lhs)) (fst (calculate_hash rhs)).
Definition block_neqb (lhs rhs : Block) : bool := negb (block_eqb lhs rhs).

Definition create_genesis_block (cid : Z) : outcome Block :=
  ts ← from_seconds 1609459200;
  let genesis := Block_of 0 Hash.zero ts in
  let genesis := set_chain_id cid genesis in
  let genesis := set_nonce 305419896 genesis in
  Ret genesis.
Definition create_block (ht : Z) (parent : Hash) (ts : Timestamp) : Block := Block_of ht parent ts.
Definition is_valid_block (b : Block) : bool := is_valid b.

(** ** The interface as a step relation *)

Inductive block_step : Block -> Block -> Prop :=
  | bstep_height v b : block_step b (set_height v b)
  | bstep_parent v b : block_step b (set_parent_hash v b)
  | bstep_timestamp v b : block_step b (set_timestamp v b)
  | bstep_nonce v b : block_step b (set_nonce v b)
  | bstep_gas_limit v b : block_step b (set_gas_limit v b)
  | bstep_gas_price v b : block_step b (set_gas_price v b)
  | bstep_chain_id v b : block_step b (set_chain_id v b)
  | bstep_add tx b : block_step b (add_transaction tx b)
  | bstep_remove i b : block_step b (remove_transaction i b)
  | bstep_clear b : block_step b (clear_transactions b)
  | bstep_hash b : block_step b (snd (calculate_hash b))
  | bstep_merkle b : block_step b (snd (calculate_merkle_root b)).

(** How a block comes into being. *)
Inductive block_init : Block -> Prop :=
  | init_default h : block_init (Block_default h)
  | init_fields ht p ts : block_init (Block_of ht p ts)
  | init_header h txs : block_init (Block_of_header h txs).

(** The header's root is the root of the transactions it sits next to. *)
Definition merkle_consistent (b : Block) : Prop :=
  merkle_root (header_ b) = Hash.data_ (merkle_of (map (fun tx => fst (Transaction.calculate_hash tx)) (transactions_ b))).

(** ** Lemmas *)

Lemma tx_hash_idem tx :
  fst (Transaction.calculate_hash (snd (Transaction.calculate_hash tx))) = fst (Transaction.calculate_hash tx).
Proof. unfold Transaction.calculate_hash. destruct (cached_hash_ tx) eqn:E; simpl; by rewrite ?E. Qed.

Lemma hash_transactions_spec txs :
  hash_transactions txs = (map (fun tx => fst (Transaction.calculate_hash tx)) txs,
                           map (fun tx => snd (Transaction.calculate_hash tx)) txs).
Proof.
  induction txs as [|tx txs IH]; simpl; [done|].
  by destruct (Transaction.calculate_hash tx) as [h tx']; rewrite IH.
Qed.

(** Hashing the transactions does not change what they hash to. *)
Lemma hashes_stable txs :
  map (fun tx => fst (Transaction.calculate_hash tx)) (map (fun tx => snd (Transaction.calculate_hash tx)) txs)
  = map (fun tx => fst (Transaction.calculate_hash tx)) txs.
Proof. rewrite map_map. apply map_ext, tx_hash_idem. Qed.

Lemma update_merkle_root_consistent b : merkle_consistent (update_merkle_root b).
Proof.
  unfold merkle_consistent, update_merkle_root, calculate_merkle_root.
  rewrite hash_transactions_spec. simpl. by rewrite hashes_stable.
Qed.

Lemma merkle_consistent_same b b' :
  merkle_root (header_ b') = merkle_root (header_ b) ->
  map (fun tx => fst (Transaction.calculate_hash tx)) (transactions_ b')
  = map (fun tx => fst (Transaction.calculate_hash tx)) (transactions_ b) ->
  merkle_consistent b -> merkle_consistent b'.
Proof. unfold merkle_consistent. by intros -> ->. Qed.

(** A block whose header is still as a default constructor left it, without
    transactions. *)
Definition unrooted (b0 b : Block) : Prop :=
  exists h, b0 = Block_default h /\ transactions_ b = [] /\ merkle_root (header_ b) = merkle_root h.

Lemma merkle_consistent_init b : block_init b -> merkle_consistent b \/ unrooted b b.
Proof. intros []; [right; by eexists|by left|]. left. apply update_merkle_root_consistent. Qed.

Lemma merkle_consistent_step b b' : block_step b b' -> merkle_consistent b -> merkle_consistent b'.
Proof.
  intros [] Hc; try (by apply (merkle_consistent_same b0)).
  - apply update_merkle_root_consistent.
  - unfold remove_transaction. case_match; [apply update_merkle_root_consistent|done].
  - done.
  - apply (merkle_consistent_same b0); [unfold calculate_hash, calculate_hash_with; by destruct (block_cached_hash_ b0)..|done].
  - unfold calculate_merkle_root. rewrite hash_transactions_spec. simpl.
    apply (merkle_consistent_same b0); [done|apply hashes_stable|done].
Qed.

Lemma unrooted_step b0 b b' : block_step b b' -> unrooted b0 b -> merkle_consistent b' \/ unrooted b0 b'.
Proof.
  intros Hs (h & E & Ht & Hr). assert (Hgo : transactions_ b' = [] -> merkle_root (header_ b') = merkle_root h -> unrooted b0 b') by (intros; by exists h).
  destruct Hs as [| | | | | | | |ix b| | |]; try (right; by apply Hgo).
  - left. apply update_merkle_root_consistent.
  - right. unfold remove_transaction in *. rewrite Ht in *. by apply Hgo.
  - by left.
  - right. unfold calculate_hash, calculate_hash_with in *. destruct (block_cached_hash_ b); by apply Hgo.
  - right. unfold calculate_merkle_root in *. rewrite hash_transactions_spec, Ht in *. by apply Hgo.
Qed.

Lemma merkle_of_tree hs :
  hs <> [] -> merkle_tree combine_hashes (Nat.log2_up (length hs)) hs = Some (merkle_of hs).
Proof.
  intros Hne. rewrite <- merkle_loop_log2 by done.
  destruct hs as [|a [|b hs]]; [done|done|].
  pose proof (merkle_tree_some combine_hashes (Nat.log2_up (length (a :: b :: hs))) (a :: b :: hs)) as [r Hr]; [done|].
  rewrite <- merkle_loop_log2 in Hr by done. unfold merkle_of. by rewrite Hr.
Qed.

Lemma merkle_tree_wf k l r : Forall hash_wf l -> merkle_tree combine_hashes k l = Some r -> hash_wf r.
Proof. apply (merkle_tree_ind _ hash_wf), combine_hashes_wf. Qed.

Lemma merkle_of_wf hs : Forall hash_wf hs -> hash_wf (merkle_of hs).
Proof.
  intros Hw. destruct hs as [|h hs]; [apply zero_wf|].
  pose proof (merkle_of_tree (h :: hs)) as H.
  by eapply merkle_tree_wf; [|apply H].
Qed.

Lemma combine_take l r : hash_wf l -> hash_wf r -> take 16 (Hash.data_ (combine_hashes l r)) = take 16 (Hash.data_ l).
Proof.
  intros [Hl _] [Hr _]. rewrite combine_hashes_data, take_app_le by (done || rewrite length_take, Hl; unfold HASH_SIZE; lia).
  by rewrite take_take.
Qed.

(** The leading half of a subtree's root is that of its first leaf. *)
Lemma merkle_tree_take k l r h :
  Forall hash_wf l -> head l = Some h -> merkle_tree combine_hashes k l = Some r ->
  take 16 (Hash.data_ r) = take 16 (Hash.data_ h).
Proof.
  revert l r. induction k as [|k IH]; intros l r Hw Hh; [simpl; congruence|].
  cbn [merkle_tree]. destruct (merkle_tree combine_hashes k (take (2 ^ k) l)) as [x|] eqn:E; simpl; [|done].
  assert (Hx : hash_wf x) by (eapply merkle_tree_wf, E; by apply Forall_take).
  apply IH in E; [|by apply Forall_take|].
  2: { destruct l; [done|]. pose proof (Nat.pow_nonzero 2 k). by destruct (2 ^ k)%nat; [lia|]. }
  destruct (drop (2 ^ k) l) as [|y ys] eqn:D.
  - intros [= <-]. by rewrite combine_take.
  - destruct (merkle_tree combine_hashes k (y :: ys)) as [z|] eqn:F; simpl; [|done].
    intros [= <-]. rewrite combine_take; [done|done|].
    eapply merkle_tree_wf, F. rewrite <- D. by apply Forall_drop.
Qed.

(** The gas loop adds up exactly as long as no partial sum reaches 2^64. *)
Definition gas_sum (txs : list Transaction) : Z := fold_right (fun tx s => get_gas_limit tx + s) 0 txs.

Lemma gas_loop_exact limit total txs :
  Forall (fun tx => is_u64 (get_gas_limit tx)) txs -> 0 <= total <= limit ->
  total + gas_sum txs < U64_MOD ->
  gas_loop limit total txs = (total + gas_sum txs <=? limit).
Proof.
  intros Hw. revert total. induction Hw as [|tx txs Htx Hw IH]; intros total Ht Hs; simpl in *.
  - symmetry. apply Z.leb_le. lia.
  - assert (0 <= gas_sum txs) by (clear -Hw; induction Hw; simpl; unfold is_u64 in *; lia).
    unfold u64_add, is_u64 in *. rewrite u64_small by (unfold is_u64; lia).
    destruct (Z.ltb_spec limit (total + get_gas_limit tx)).
    + symmetry. apply Z.leb_gt. lia.
    + rewrite IH by lia. f_equal. lia.
Qed.

(** ** Properties *)

(** C10: after any sequence of setters, transaction edits and hash computations on a
    block built by any of its constructors, the header's Merkle root is the root of the
    block's transactions; the one exception is a block from the default constructor, which
    does not initialise the root, until its transactions are first edited. *)
Theorem block_merkle_invariant (b0 b : Block) :
  block_init b0 -> rtc block_step b0 b ->
  merkle_root (header_ b) = Hash.data_ (fst (calculate_merkle_root b))
  \/ exists h, b0 = Block_default h /\ transactions_ b = [] /\ merkle_root (header_ b) = merkle_root h.
Proof.
  intros Hi Hr. assert (H : merkle_consistent b \/ unrooted b0 b); [|destruct H as [H|H]; [left|by right]].
  - apply merkle_consistent_init in Hi. refine (rtc_ind_r (R := block_step) (fun b => merkle_consistent b \/ unrooted b0 b) b0 Hi _ b Hr).
    intros y z _ Hs [H|H]; [left; by eapply merkle_consistent_step|by eapply unrooted_step].
  - unfold calculate_merkle_root. rewrite hash_transactions_spec. apply H.
Qed.

(** C6: the bottom-up Merkle loop terminates on every non-empty list of hashes and
    returns the root of the recursively defined tree of depth ⌈log2 n⌉, in which a
    missing right subtree is a copy of the left one. *)
Theorem merkle_loop_reference (hs : list Hash) :
  hs <> [] ->
  merkle_tree combine_hashes (Nat.log2_up (length hs)) hs = Some (merkle_of hs)
  /\ merkle_loop combine_hashes (length hs) hs = Some (merkle_of hs).
Proof.
  intros Hne. rewrite merkle_loop_log2 by done. split; by apply merkle_of_tree.
Qed.

(** With the placeholder [combine_hashes] the root of two or more transactions
    is made of two leaves only: the first one and the one that starts the right
    subtree.  All other transactions can be replaced without changing the root. *)
Theorem merkle_root_two_leaves (hs : list Hash) (h0 h1 : Hash) :
  Forall hash_wf hs -> (2 <= length hs)%nat ->
  hs !! 0%nat = Some h0 -> hs !! (2 ^ (Nat.log2_up (length hs) - 1))%nat = Some h1 ->
  Hash.data_ (merkle_of hs) = take 16 (Hash.data_ h0) ++ take 16 (Hash.data_ h1).
Proof.
  intros Hw Hl H0 H1. destruct (Nat.log2_up (length hs)) as [|k] eqn:K.
  { pose proof (Nat.log2_up_pos (length hs)). lia. }
  pose proof (merkle_of_tree hs) as Ht. rewrite K in Ht. cbn [merkle_tree] in Ht.
  replace (S k - 1)%nat with k in H1 by lia.
  specialize (Ht ltac:(intros ->; done)).
  assert (Hk : (0 < 2 ^ k)%nat) by (pose proof (Nat.pow_nonzero 2 k); lia).
  destruct (merkle_tree combine_hashes k (take (2 ^ k) hs)) as [x|] eqn:E; simpl in Ht; [|done].
  rewrite (drop_S hs h1 (2 ^ k) H1) in Ht.
  destruct (merkle_tree combine_hashes k (h1 :: drop (S (2 ^ k)) hs)) as [y|] eqn:F; simpl in Ht; [|done].
  injection Ht as <-.
  assert (Wd : Forall hash_wf (h1 :: drop (S (2 ^ k)) hs)) by (rewrite <- (drop_S hs h1 (2 ^ k) H1); by apply Forall_drop).
  assert (Wx : hash_wf x) by (eapply merkle_tree_wf, E; by apply Forall_take).
  assert (Wy : hash_wf y) by (eapply merkle_tree_wf, F; exact Wd).
  rewrite combine_hashes_data by (apply Wx || apply Wy).
  rewrite (merkle_tree_take k _ x h0 (Forall_take hash_wf (2 ^ k) hs Hw)), (merkle_tree_take k _ y h1 Wd); try done.
  destruct hs; [done|]. destruct (2 ^ k)%nat; [lia|done].
Qed.

(** For any digest that tells the two headers apart, changing the gas limit of
    a block whose hash has been computed leaves the old hash in place, although
    the gas limit is one of the hashed fields. *)
Theorem set_gas_limit_keeps_stale_hash (sha : list Z -> Hash) (b : Block) (v : Z) :
  block_cached_hash_ b = None ->
  sha (header_bytes (header_ (set_gas_limit v b))) <> sha (header_bytes (header_ b)) ->
  let b' := set_gas_limit v (snd (calculate_hash_with sha b)) in
  fst (calculate_hash_with sha b') <> sha (header_bytes (header_ b')).
Proof.
  intros Hc Hne. unfold calculate_hash_with. rewrite Hc. cbn [fst snd set_gas_limit write_header block_cached_hash_]. intros E. apply Hne. symmetry. exact E.
Qed.

(** The gas check is exact while the transactions' gas limits add up to less
    than 2^64: it accepts exactly the blocks whose total is within the limit. *)
Theorem validate_gas_limits_exact (b : Block) :
  Forall (fun tx => is_u64 (get_gas_limit tx)) (transactions_ b) ->
  is_u64 (block_gas_limit (header_ b)) -> gas_sum (transactions_ b) < U64_MOD ->
  validate_gas_limits b = (gas_sum (transactions_ b) <=? block_gas_limit (header_ b)).
Proof.
  intros Hw Hl Hs. unfold validate_gas_limits. by rewrite gas_loop_exact by (unfold is_u64 in *; done || lia).
Qed.

(** Block validity does not look at the parent hash, the Merkle root or the
    nonce: a block stays valid under any change of the three. *)
Lemma block_is_valid_ignores_roots (b : Block) (p r : list Z) (n : Z) :
  is_valid (write_header (fun h => mkBlockHeader (height h) p r (timestamp h) n
              (block_gas_limit h) (block_gas_price h) (chain_id h)) b) = is_valid b.
Proof. done. Qed.

(** The 64-bit sum of the gas check wraps: a block whose two transactions ask
    for more than 2^64 gas in total is valid under a limit of 30000. *)
Theorem gas_check_wraps :
  let tx g := Transaction_of_data (mkTransactionData (replicate 20 1) (replicate 20 2) 5 g 1 [] 0) in
  let b := set_gas_limit 30000 (add_transaction (tx (U64_MOD - 20000))
             (add_transaction (tx 21000) (Block_of 1 Hash.zero (mkTimestamp 1609459200)))) in
  is_valid b = true /\ block_gas_limit (header_ b) < gas_sum (transactions_ b).
Proof. vm_compute. split; reflexivity. Qed.

(** ** Witnesses *)

Definition demo_tx_to (r : Z) : Transaction :=
  Transaction_of_data (mkTransactionData (replicate 20 1) (replicate 20 r) 5 21000 1 [] 0).
Definition demo_block : Block := Block_of 1 Hash.zero (mkTimestamp 1609459200).
Definition demo_hash_of (k : Z) : Hash := mkHash (replicate 32 k).

Lemma block_merkle_invariant_witness :
  let b := add_transaction (demo_tx_to 2) demo_block in
  merkle_root (header_ b) = Hash.data_ (fst (calculate_merkle_root b)).
Proof.
  destruct (block_merkle_invariant demo_block (add_transaction (demo_tx_to 2) demo_block)) as [H|(h & _ & H & _)];
    [apply init_fields|apply rtc_once, bstep_add|exact H|vm_compute in H; discriminate].
Defined.

Lemma merkle_loop_reference_witness :
  merkle_tree combine_hashes 2 [demo_hash_of 1; demo_hash_of 2; demo_hash_of 3] = Some (merkle_of [demo_hash_of 1; demo_hash_of 2; demo_hash_of 3]).
Proof. apply (merkle_loop_reference [demo_hash_of 1; demo_hash_of 2; demo_hash_of 3]). discriminate. Defined.

Lemma merkle_root_two_leaves_witness :
  Hash.data_ (merkle_of [demo_hash_of 1; demo_hash_of 2; demo_hash_of 3]) = replicate 16 1 ++ replicate 16 3.
Proof.
  apply (merkle_root_two_leaves [demo_hash_of 1; demo_hash_of 2; demo_hash_of 3] (demo_hash_of 1) (demo_hash_of 3));
    [decide_now|simpl; lia|reflexivity|reflexivity].
Defined.

Lemma set_gas_limit_keeps_stale_hash_witness :
  let sha := fun l => mkHash (drop 88 l) in
  let b' := set_gas_limit 7 (snd (calculate_hash_with sha demo_block)) in
  fst (calculate_hash_with sha b') <> sha (header_bytes (header_ b')).
Proof.
  apply (set_gas_limit_keeps_stale_hash (fun l => mkHash (drop 88 l)) demo_block 7); [reflexivity|]. vm_compute. discriminate.
Defined.

Lemma validate_gas_limits_exact_witness :
  validate_gas_limits (add_transaction (demo_tx_to 2) demo_block) = (21000 <=? 8000000).
Proof.
  apply (validate_gas_limits_exact (add_transaction (demo_tx_to 2) demo_block)); [|decide_now|vm_compute; reflexivity].
  repeat constructor; vm_compute; discriminate.
Defined.
