(* ===== verification/Mempool.v ===== *)
(** * The transaction pool (mempool/mempool.hpp, mempool/mempool_impl.hpp, mempool_impl.cpp)

    [Mempool] is the private state of [MempoolImpl]; a method is a computation of
    the effect monad on it.  [std::unordered_map] is a finite map whose iteration
    order is the parameter [iter], known only to enumerate the map;
    [std::priority_queue<pair<double, Hash>>] is the list of its elements in the
    order [pop] delivers them, largest pair first.  The user callbacks are the
    events [Added] and [Removed]. *)

From stdpp Require Import base list gmap numbers strings sorting.
From Stdlib Require Import ZArith Lia Ascii.
From S2P Require Import Prelude CString Floats Sorting Effects Hash Address Amount Transaction.

Inductive MempoolError : Type :=
  | SUCCESS
  | TRANSACTION_EXISTS
  | INVALID_TRANSACTION
  | INSUFFICIENT_FEE
  | POOL_FULL
  | NONCE_TOO_LOW
  | NONCE_TOO_HIGH
  | REPLACE_UNDERPRICED
  | DEPENDENCY_MISSING.

#[export] Instance MempoolError_eq_dec : EqDecision MempoolError.
Proof. solve_decision. Defined.

Record TransactionPriority : Type := mkPriority {
  fee_per_gas : double;
  age_seconds : Z;
  size_bytes : Z
}.

Definition calculate_score (p : TransactionPriority) : double :=
  let age_bonus := dadd (dlit 1 1) (ddiv (d_of_Z (age_seconds p)) (dlit 3600 1)) in
  let size_penalty := ddiv (d_of_Z (size_bytes p)) (dlit 1000 1) in
  ddiv (dmul (fee_per_gas p) age_bonus) (dmax size_penalty (dlit 1 1)).

Definition priority_ltb (a b : TransactionPriority) : bool := dltb (calculate_score a) (calculate_score b).

Record MempoolConfig : Type := mkMempoolConfig {
  max_size_bytes : Z;
  max_transactions : Z;
  min_fee_per_gas : Z;
  max_fee_per_gas : Z;
  eviction_interval_seconds : Z;
  eviction_threshold_ratio : double
}.

Definition default_MempoolConfig : MempoolConfig :=
  mkMempoolConfig (100 * 1024 * 1024) 10000 1 1000000 60 (dlit 9 10).

Record MempoolEntry : Type := mkEntry {
  transaction : Transaction;
  priority : TransactionPriority;
  added_timestamp : Z;
  last_seen_timestamp : Z;
  dependencies : list Hash
}.

Definition is_expired (e : MempoolEntry) (current_time max_age_seconds : Z) : bool :=
  max_age_seconds <? (current_time - added_timestamp e)%u64.

Record MempoolStats : Type := mkStats {
  transaction_count : Z;
  total_size_bytes : Z;
  stats_min_fee_per_gas : Z;
  stats_max_fee_per_gas : Z;
  avg_fee_per_gas : double;
  oldest_transaction_age : Z
}.

Abbreviation PriorityQueueEntry := (double * Hash)%type (only parsing).

Record Mempool : Type := mkMempool {
  config_ : MempoolConfig;
  transactions_ : gmap Hash MempoolEntry;
  account_nonces_ : gmap Address (gmap Z Hash);
  priority_queue_ : list PriorityQueueEntry;
  on_transaction_added_ : bool;
  on_transaction_removed_ : bool
}.

Inductive pool_event : Type :=
  | Added (h : Hash)
  | Removed (h : Hash).

Abbreviation pool_eff := (eff Mempool pool_event) (only parsing).

(** ** State updates *)

Definition set_transactions (f : gmap Hash MempoolEntry -> gmap Hash MempoolEntry) (p : Mempool) : Mempool :=
  mkMempool (config_ p) (f (transactions_ p)) (account_nonces_ p) (priority_queue_ p) (on_transaction_added_ p) (on_transaction_removed_ p).
Definition set_nonces (f : gmap Address (gmap Z Hash) -> gmap Address (gmap Z Hash)) (p : Mempool) : Mempool :=
  mkMempool (config_ p) (transactions_ p) (f (account_nonces_ p)) (priority_queue_ p) (on_transaction_added_ p) (on_transaction_removed_ p).
Definition set_queue (f : list PriorityQueueEntry -> list PriorityQueueEntry) (p : Mempool) : Mempool :=
  mkMempool (config_ p) (transactions_ p) (account_nonces_ p) (f (priority_queue_ p)) (on_transaction_added_ p) (on_transaction_removed_ p).

(** [transactions_.size()]. *)
Definition pool_size (p : Mempool) : Z := Z.of_nat (base.size (transactions_ p)).

(** [std::pair<double, Hash>::operator<]. *)
Definition pair_ltb (a b : PriorityQueueEntry) : bool :=
  dltb (fst a) (fst b) || (negb (dltb (fst b) (fst a)) && Hash.ltb (snd a) (snd b)).

(** [emplace] into the max-heap: the list stays in the order [pop] delivers. *)
Definition pq_emplace (e : PriorityQueueEntry) (q : list PriorityQueueEntry) : list PriorityQueueEntry :=
  insert_by (fun a b => pair_ltb b a) e q.

Definition queue_entry (kv : Hash * MempoolEntry) : PriorityQueueEntry :=
  (calculate_score (priority (snd kv)), fst kv).

(** ** Helper methods (no lock of their own) *)

Definition update_account_nonce (address : Address) (n : Z) (tx_hash : Hash) (p : Mempool) : Mempool :=
  set_nonces (fun m => <[ address := <[ n := tx_hash ]> (default ∅ (m !! address)) ]> m) p.

Definition remove_account_nonce (address : Address) (n : Z) (p : Mempool) : Mempool :=
  set_nonces (fun m =>
    match m !! address with
    | Some inner =>
        let inner' := delete n inner in
        if decide (inner' = ∅) then delete address m else <[ address := inner' ]> m
    | None => m
    end) p.

(** [std::max_element] over the keys; [None] on an absent or empty inner map. *)
Definition get_account_nonce (address : Address) (p : Mempool) : option Z :=
  match account_nonces_ p !! address with
  | None => None
  | Some inner =>
      match map (fun kv => fst kv) (map_to_list inner) with
      | [] => None
      | n :: ns => Some (fold_left (fun acc k => if acc <? k then k else acc) ns n)
      end
  end.

Definition validate_basic_properties (tx : Transaction) : bool := Transaction.is_valid tx.
Definition validate_fee (p : Mempool) (tx : Transaction) : bool :=
  (min_fee_per_gas (config_ p) <=? get_gas_price tx) && (get_gas_price tx <=? max_fee_per_gas (config_ p)).
Definition validate_nonce (p : Mempool) (tx : Transaction) : bool :=
  match get_account_nonce (get_from tx) p with
  | Some existing_nonce => if get_nonce tx <=? existing_nonce then false else true
  | None => true
  end.
Definition validate_dependencies (tx : Transaction) : bool := true.
Definition validate_size (tx : Transaction) : bool := negb (is_too_large tx).

Definition validate_transaction (p : Mempool) (tx : Transaction) : bool :=
  validate_basic_properties tx && validate_fee p tx && validate_nonce p tx
  && validate_dependencies tx && validate_size tx.

(** [new_fee_rate < old_fee_rate * 1.1], in doubles. *)
Definition check_replacement_policy (old_tx new_tx : Transaction) : MempoolError :=
  let old_fee_rate := get_gas_price old_tx in
  let new_fee_rate := get_gas_price new_tx in
  if dltb (d_of_Z new_fee_rate) (dmul (d_of_Z old_fee_rate) (dlit 11 10))
  then REPLACE_UNDERPRICED else SUCCESS.

(** The accumulators of the loop of [get_stats]: size, fees, smallest age, least
    and largest gas price. *)
Definition stats_step (current_time : Z) (acc : Z * Z * Z * Z * Z) (kv : Hash * MempoolEntry) : Z * Z * Z * Z * Z :=
  let '(total_size, total_fee, min_age, min_fee, max_fee) := acc in
  let tx := transaction (snd kv) in
  ((total_size + Transaction.size tx)%u64,
   (total_fee + get_gas_price tx)%u64,
   Z.min min_age (current_time - added_timestamp (snd kv))%u64,
   (if (min_fee =? 0) || (get_gas_price tx <? min_fee) then get_gas_price tx else min_fee),
   (if max_fee <? get_gas_price tx then get_gas_price tx else max_fee)).

Section Methods.
Context {env : Env} {io : IterOrder}.

Definition rebuild_priority_queue (p : Mempool) : Mempool :=
  set_queue (fun _ => fold_left (fun q kv => pq_emplace (queue_entry kv) q) (iter (transactions_ p)) []) p.

Definition select_transactions_to_evict (count : Z) (p : Mempool) : list Hash :=
  let candidates := sort_by pair_ltb (map queue_entry (iter (transactions_ p))) in
  map snd (take (Z.to_nat (Z.min count (Z.of_nat (length candidates)))) candidates).

(** The clock's count, converted to [uint64_t]. *)
Definition get_current_timestamp : pool_eff Z := t ← read_clock; mret (u64 t).

Definition calculate_priority (tx : Transaction) (added_time : Z) : pool_eff TransactionPriority :=
  current_time ← get_current_timestamp;
  mret (mkPriority (d_of_Z (get_gas_price tx)) (current_time - added_time)%u64 (Transaction.size tx)).

(** ** The interface *)

Definition set_config (config : MempoolConfig) : pool_eff () :=
  with_lock Exclusive (modify (fun p =>
    mkMempool config (transactions_ p) (account_nonces_ p) (priority_queue_ p) (on_transaction_added_ p) (on_transaction_removed_ p))).
Definition get_config : pool_eff MempoolConfig := with_lock Shared (p ← get; mret (config_ p)).

Definition set_transaction_added_callback (callback : bool) : pool_eff () :=
  with_lock Exclusive (modify (fun p =>
    mkMempool (config_ p) (transactions_ p) (account_nonces_ p) (priority_queue_ p) callback (on_transaction_removed_ p))).
Definition set_transaction_removed_callback (callback : bool) : pool_eff () :=
  with_lock Exclusive (modify (fun p =>
    mkMempool (config_ p) (transactions_ p) (account_nonces_ p) (priority_queue_ p) (on_transaction_added_ p) callback)).

Definition get_transaction (tx_hash : Hash) : pool_eff (option Transaction) :=
  with_lock Shared (p ← get; mret (transaction <$> transactions_ p !! tx_hash)).
Definition has_transaction (tx_hash : Hash) : pool_eff bool :=
  with_lock Shared (p ← get; mret (bool_decide (is_Some (transactions_ p !! tx_hash)))).
Definition get_all_transaction_hashes : pool_eff (list Hash) :=
  with_lock Shared (p ← get; mret (map fst (iter (transactions_ p)))).

Definition get_stats : pool_eff MempoolStats :=
  with_lock Shared (
    p ← get;
    if decide (transactions_ p = ∅) then mret (mkStats 0 0 0 0 (dlit 0 1) 0)
    else
      current_time ← get_current_timestamp;
      let '(total_size, total_fee, min_age, min_fee, max_fee) :=
        fold_left (stats_step current_time) (iter (transactions_ p)) (0, 0, U64_MAX, 0, 0) in
      mret (mkStats (pool_size p) total_size min_fee max_fee
              (ddiv (d_of_Z total_fee) (d_of_Z (pool_size p))) min_age)).

Definition is_pool_full : pool_eff bool :=
  p ← get;
  if max_transactions (config_ p) <=? pool_size p then mret true
  else stats ← get_stats; mret (max_size_bytes (config_ p) <=? total_size_bytes stats).

(** The lock is released before the callback runs: the body says whether to call. *)
Definition remove_transaction (tx_hash : Hash) : pool_eff MempoolError :=
  '(err, notify) ← with_lock Exclusive (
    p ← get;
    match transactions_ p !! tx_hash with
    | None => mret (INVALID_TRANSACTION, false)
    | Some entry =>
        modify (remove_account_nonce (get_from (transaction entry)) (get_nonce (transaction entry)));;
        modify (set_transactions (delete tx_hash));;
        modify rebuild_priority_queue;;
        mret (SUCCESS, on_transaction_removed_ p)
    end);
  (if (notify : bool) then emit (Removed tx_hash) else mret tt);;
  mret err.

Definition evict_transactions_by_age (max_age_seconds : Z) : pool_eff () :=
  current_time ← get_current_timestamp;
  p ← get;
  let to_remove := map fst (List.filter (fun kv => is_expired (snd kv) current_time max_age_seconds) (iter (transactions_ p))) in
  for_each (fun hash => remove_transaction hash;; mret tt) to_remove.

Definition evict_transactions_by_fee (count : Z) : pool_eff () :=
  p ← get;
  for_each (fun hash => remove_transaction hash;; mret tt) (select_transactions_to_evict count p).

Definition evict_expired_transactions : pool_eff () :=
  with_lock Exclusive (evict_transactions_by_age 3600).

Definition evict_low_fee_transactions : pool_eff () :=
  with_lock Exclusive (
    p ← get;
    if dltb (d_of_Z (pool_size p)) (dmul (d_of_Z (max_transactions (config_ p))) (eviction_threshold_ratio (config_ p)))
    then mret tt
    else
      target_count ← lift (d_to_u64 (dmul (d_of_Z (max_transactions (config_ p))) (dlit 8 10)));
      evict_transactions_by_fee (pool_size p - target_count)%u64).

Definition add_transaction (tx : Transaction) : pool_eff MempoolError :=
  let '(tx_hash, tx) := Transaction.calculate_hash tx in
  '(err, notify) ← with_lock Exclusive (
    p ← get;
    if decide (is_Some (transactions_ p !! tx_hash)) then mret (TRANSACTION_EXISTS, false)
    else if negb (validate_transaction p tx) then mret (INVALID_TRANSACTION, false)
    else
      full ← is_pool_full;
      still_full ← (if (full : bool) then evict_low_fee_transactions;; is_pool_full else mret false);
      if (still_full : bool) then mret (POOL_FULL, false)
      else
        current_time ← get_current_timestamp;
        prio ← calculate_priority tx current_time;
        let entry := mkEntry tx prio current_time current_time [] in
        modify (update_account_nonce (get_from tx) (get_nonce tx) tx_hash);;
        modify (set_transactions (insert tx_hash entry));;
        modify (set_queue (pq_emplace (calculate_score prio, tx_hash)));;
        p ← get;
        mret (SUCCESS, on_transaction_added_ p));
  (if (notify : bool) then emit (Added tx_hash) else mret tt);;
  mret err.

Definition replace_transaction (new_transaction : Transaction) : pool_eff MempoolError :=
  let '(new_hash, new_transaction) := Transaction.calculate_hash new_transaction in
  with_lock Exclusive (
    p ← get;
    match account_nonces_ p !! get_from new_transaction with
    | None => mret INVALID_TRANSACTION
    | Some account =>
    match account !! get_nonce new_transaction with
    | None => mret INVALID_TRANSACTION
    | Some old_tx_hash =>
    match transactions_ p !! old_tx_hash with
    | None => mret INVALID_TRANSACTION
    | Some old_entry =>
    let old_tx := transaction old_entry in
    let replacement_error := check_replacement_policy old_tx new_transaction in
    if decide (replacement_error <> SUCCESS) then mret replacement_error
    else
      modify (remove_account_nonce (get_from old_tx) (get_nonce old_tx));;
      modify (set_transactions (delete old_tx_hash));;
      p ← get;
      if negb (validate_transaction p new_transaction) then mret INVALID_TRANSACTION
      else
        current_time ← get_current_timestamp;
        prio ← calculate_priority new_transaction current_time;
        let entry := mkEntry new_transaction prio current_time current_time [] in
        modify (update_account_nonce (get_from new_transaction) (get_nonce new_transaction) new_hash);;
        modify (set_transactions (insert new_hash entry));;
        modify rebuild_priority_queue;;
        mret SUCCESS
    end end end).

(** The drain loop of [get_top_transactions]: one iteration per queue element. *)
Fixpoint drain (txs : gmap Hash MempoolEntry) (count : nat) (q : list PriorityQueueEntry) : list Transaction :=
  match q, count with
  | [], _ | _, O => []
  | (_, tx_hash) :: q', S count' =>
      match txs !! tx_hash with
      | Some e => transaction e :: drain txs count' q'
      | None => drain txs count q'
      end
  end.

Definition get_top_transactions (count : nat) : pool_eff (list Transaction) :=
  with_lock Shared (p ← get; mret (drain (transactions_ p) count (priority_queue_ p))).

(** The same loop with the gas budget of [get_transactions_for_block]. *)
Fixpoint drain_gas (txs : gmap Hash MempoolEntry) (count : nat) (max_gas_limit total_gas : Z)
    (q : list PriorityQueueEntry) : list Transaction :=
  match q, count with
  | [], _ | _, O => []
  | (_, tx_hash) :: q', S count' =>
      match txs !! tx_hash with
      | Some e =>
          let tx := transaction e in
          if (total_gas + get_gas_limit tx)%u64 <=? max_gas_limit
          then tx :: drain_gas txs count' max_gas_limit (total_gas + get_gas_limit tx)%u64 q'
          else drain_gas txs count max_gas_limit total_gas q'
      | None => drain_gas txs count max_gas_limit total_gas q'
      end
  end.

Definition get_transactions_for_block (max_count : nat) (max_gas_limit : Z) : pool_eff (list Transaction) :=
  with_lock Shared (p ← get; mret (drain_gas (transactions_ p) max_count max_gas_limit 0 (priority_queue_ p))).

Definition clear : pool_eff () :=
  with_lock Exclusive (
    modify (set_transactions (fun _ => ∅));;
    modify (set_nonces (fun _ => ∅));;
    modify (set_queue (fun _ => []))).
End Methods.

(** ** Free functions *)

Definition create_mempool (config : MempoolConfig) : Mempool := mkMempool config ∅ ∅ [] false false.

Definition mempool_error_to_string (error : MempoolError) : list ascii :=
  match error with
  | SUCCESS => $"Success"
  | TRANSACTION_EXISTS => $"Transaction already exists"
  | INVALID_TRANSACTION => $"Invalid transaction"
  | INSUFFICIENT_FEE => $"Insufficient fee"
  | POOL_FULL => $"Pool is full"
  | NONCE_TOO_LOW => $"Nonce too low"
  | NONCE_TOO_HIGH => $"Nonce too high"
  | REPLACE_UNDERPRICED => $"Replacement underpriced"
  | DEPENDENCY_MISSING => $"Dependency missing"
  end.

Inductive SelectionStrategy : Type := HIGHEST_FEE_FIRST | OLDEST_FIRST | PRIORITY_SCORE.

Definition select_transactions_for_block {env : Env} (strategy : SelectionStrategy) (max_count : nat) (max_gas_limit : Z) : pool_eff (list Transaction) :=
  match strategy with
  | HIGHEST_FEE_FIRST | PRIORITY_SCORE => get_transactions_for_block max_count max_gas_limit
  | OLDEST_FIRST => get_transactions_for_block max_count max_gas_limit
  end.
