(* ===== verification/MempoolInv.v ===== *)
(** * The pool's invariant and what its operations do

    Every pooled transaction is indexed in [account_nonces_] under its sender and
    nonce, and the priority queue covers the storage (a refused replacement can
    leave an entry behind): [pool_core], which every operation keeps.  The index
    lists nothing else ([index_sound]) as long as no replacement carries the hash of
    a third pooled transaction; [pool_inv] is both. *)

From stdpp Require Import base list gmap numbers strings sorting sets.
From Stdlib Require Import ZArith Lia Ascii.
From S2P Require Import Prelude CString Floats FloatExact Sorting Effects Hash Address Amount Transaction Mempool.

(** The entry of the two-level index. *)
Definition nonce_lookup (p : Mempool) (a : Address) (n : Z) : option Hash :=
  account_nonces_ p !! a ≫= fun m => m !! n.

(** The queue delivers its elements largest first; comparing scores is an order
    only as long as none of them is a NaN. *)
Definition score_ok (x : double * Hash) : Prop := is_nan (fst x) = false.
Definition queue_ordered (q : list (double * Hash)) : Prop := ordered (fun a b => pair_ltb b a) q.
Definition queue_sorted (q : list (double * Hash)) : Prop := Forall score_ok q -> queue_ordered q.

Record pool_core (p : Mempool) : Prop := {
  inv_key : forall h e, transactions_ p !! h = Some e -> fst (Transaction.calculate_hash (transaction e)) = h;
  inv_valid : forall h e, transactions_ p !! h = Some e ->
    Transaction.is_valid (transaction e) = true /\ is_too_large (transaction e) = false;
  inv_complete : forall h e, transactions_ p !! h = Some e ->
    nonce_lookup p (get_from (transaction e)) (get_nonce (transaction e)) = Some h;
  inv_inner : forall a m, account_nonces_ p !! a = Some m -> m <> ∅;
  inv_queue : forall h e, transactions_ p !! h = Some e -> queue_entry (h, e) ∈ priority_queue_ p;
  inv_sorted : queue_sorted (priority_queue_ p)
}.

(** What the index lists is pooled. *)
Definition index_sound (p : Mempool) : Prop := forall a n h, nonce_lookup p a n = Some h ->
  exists e, transactions_ p !! h = Some e /\ get_from (transaction e) = a /\ get_nonce (transaction e) = n.

Record pool_inv (p : Mempool) : Prop := mkInv { inv_core :> pool_core p; inv_sound : index_sound p }.

(** ** The nonce index *)

Lemma nonce_lookup_update a n h p a' n' :
  nonce_lookup (update_account_nonce a n h p) a' n'
  = if decide (a' = a /\ n' = n) then Some h else nonce_lookup p a' n'.
Proof.
  unfold nonce_lookup, update_account_nonce. simpl.
  destruct (decide (a' = a)) as [->|Ha].
  - rewrite lookup_insert_eq. simpl. destruct (decide (n' = n)) as [->|Hn].
    + rewrite lookup_insert_eq. by rewrite decide_True.
    + rewrite lookup_insert_ne, decide_False by naive_solver. by destruct (account_nonces_ p !! a).
  - rewrite lookup_insert_ne, decide_False by naive_solver. done.
Qed.

Lemma nonce_lookup_remove a n p a' n' :
  nonce_lookup (remove_account_nonce a n p) a' n'
  = if decide (a' = a /\ n' = n) then None else nonce_lookup p a' n'.
Proof.
  unfold nonce_lookup, remove_account_nonce. simpl.
  destruct (account_nonces_ p !! a) as [m|] eqn:E.
  2: { case_decide as Hd; [|done]. destruct Hd as [-> ->]. by rewrite E. }
  destruct (decide (a' = a)) as [->|Ha].
  - assert (L : ((if decide (delete n m = ∅) then delete a (account_nonces_ p) else <[a:=delete n m]> (account_nonces_ p)) !! a ≫= fun m => m !! n')
             = delete n m !! n').
    { case_decide as Hm; [by rewrite Hm, lookup_delete_eq, lookup_empty | by rewrite lookup_insert_eq]. }
    rewrite L, E. simpl. destruct (decide (n' = n)) as [->|Hn].
    + by rewrite lookup_delete_eq, decide_True.
    + by rewrite lookup_delete_ne, decide_False by naive_solver.
  - destruct (decide (a' = a /\ n' = n)) as [[]|_]; [done|]. case_decide.
    + by rewrite lookup_delete_ne.
    + by rewrite lookup_insert_ne.
Qed.

Definition inner_nonempty (p : Mempool) : Prop := forall a m, account_nonces_ p !! a = Some m -> m <> ∅.

Lemma inner_nonempty_update a n h p : inner_nonempty p -> inner_nonempty (update_account_nonce a n h p).
Proof.
  intros Hi a' m. unfold update_account_nonce. simpl.
  destruct (decide (a' = a)) as [->|Ha].
  - rewrite lookup_insert_eq. intros [= <-]. apply insert_non_empty.
  - rewrite lookup_insert_ne by done. apply Hi.
Qed.

Lemma inner_nonempty_remove a n p : inner_nonempty p -> inner_nonempty (remove_account_nonce a n p).
Proof.
  intros Hi a' m. unfold remove_account_nonce. simpl.
  destruct (account_nonces_ p !! a) as [m0|] eqn:E; [|apply Hi].
  case_decide as Hd; destruct (decide (a' = a)) as [->|Ha].
  - by rewrite lookup_delete_eq.
  - rewrite lookup_delete_ne by done. apply Hi.
  - rewrite lookup_insert_eq. by intros [= <-].
  - rewrite lookup_insert_ne by done. apply Hi.
Qed.

Lemma fold_max_spec l n :
  let r := fold_left (fun acc k => if acc <? k then k else acc) l n in
  r ∈ n :: l /\ forall k, k ∈ n :: l -> k <= r.
Proof.
  revert n. induction l as [|x l IH]; intros n; simpl.
  - split; [by left|]. intros k Hk. apply list_elem_of_singleton in Hk. lia.
  - specialize (IH (if n <? x then x else n)) as [H1 H2]. split.
    + set_unfold in H1. set_unfold. destruct (n <? x); tauto.
    + intros k Hk. set_unfold in Hk. set_unfold in H2.
      destruct (Z.ltb_spec n x) as [Hlt|Hge].
      * specialize (H2 x (or_introl eq_refl)) as Hx. destruct Hk as [->|[->|Hk]]; [lia|done|auto].
      * specialize (H2 n (or_introl eq_refl)) as Hn. destruct Hk as [->|[->|Hk]]; [done|lia|auto].
Qed.

(** [get_account_nonce] is the highest nonce the index has for the account. *)
Lemma get_account_nonce_spec a p :
  match get_account_nonce a p with
  | Some k => is_Some (nonce_lookup p a k) /\ forall n, is_Some (nonce_lookup p a n) -> n <= k
  | None => forall n, nonce_lookup p a n = None
  end.
Proof.
  unfold get_account_nonce, nonce_lookup. destruct (account_nonces_ p !! a) as [m|]; simpl; [|done].
  assert (Hk : forall n, is_Some (m !! n) <-> n ∈ map (fun kv => fst kv) (map_to_list m)).
  { intros n. rewrite <- elem_of_dom. rewrite list_elem_of_fmap. split.
    - intros [h Hh]%elem_of_dom. exists (n, h). by rewrite elem_of_map_to_list.
    - intros ([n' h] & -> & Hh%elem_of_map_to_list). by apply elem_of_dom_2 in Hh. }
  destruct (map (fun kv => fst kv) (map_to_list m)) as [|x l] eqn:E.
  - intros n. apply eq_None_not_Some. rewrite Hk. apply not_elem_of_nil.
  - pose proof (fold_max_spec l x) as [H1 H2]. split; [by apply Hk|].
    intros n Hn. apply H2. by apply Hk.
Qed.

Lemma validate_nonce_spec p tx :
  validate_nonce p tx = true <-> forall n, is_Some (nonce_lookup p (get_from tx) n) -> n < get_nonce tx.
Proof.
  unfold validate_nonce. pose proof (get_account_nonce_spec (get_from tx) p) as H.
  destruct (get_account_nonce (get_from tx) p) as [k|].
  - destruct H as [H1 H2]. destruct (Z.leb_spec (get_nonce tx) k); split; try done.
    + intros Hn. specialize (Hn k H1). lia.
    + intros _ n Hn. specialize (H2 n Hn). lia.
  - split; [|done]. intros _ n [h Hh]. by rewrite H in Hh.
Qed.

(** ** The priority queue *)

Lemma foldl_emplace_perm l q :
  fold_left (fun q kv => pq_emplace (queue_entry kv) q) l q ≡ₚ map queue_entry l ++ q.
Proof.
  revert q. induction l as [|x l IH]; intros q; simpl; [done|].
  rewrite IH. unfold pq_emplace. rewrite insert_by_perm. by rewrite Permutation_middle.
Qed.

Lemma rebuild_queue_perm `{io : IterOrder} p :
  priority_queue_ (rebuild_priority_queue p) ≡ₚ map queue_entry (map_to_list (transactions_ p)).
Proof. simpl. rewrite foldl_emplace_perm, app_nil_r. by rewrite iter_perm. Qed.

Lemma rebuild_queue_elem `{io : IterOrder} p s h :
  (s, h) ∈ priority_queue_ (rebuild_priority_queue p)
  <-> exists e, transactions_ p !! h = Some e /\ s = calculate_score (priority e).
Proof.
  rewrite rebuild_queue_perm, list_elem_of_fmap. split.
  - intros ([h' e] & [= -> ->] & He%elem_of_map_to_list). eauto.
  - intros (e & He & ->). exists (h, e). split; [done|]. by apply elem_of_map_to_list.
Qed.

Lemma pair_ltb_weak_order :
  weak_order_on (fun a b => pair_ltb b a) score_ok.
Proof.
  split.
  - intros [s h] [t k]; unfold pair_ltb; simpl. intros _ _ H.
    apply orb_true_iff in H as [H|H].
    + by rewrite H, (dltb_asym _ _ H).
    + apply andb_true_iff in H as [H1 H2]. apply negb_true_iff in H1.
      rewrite H1. simpl. apply andb_false_iff. right. by apply bytes_ltb_asym.
  - intros [a x] [b y] [c z]; unfold pair_ltb, Hash.ltb; simpl. intros Na Nb Nc H1 H2.
    apply orb_false_iff in H1 as [H1 H1'], H2 as [H2 H2'].
    assert (H3 : dltb a c = false).
    { destruct (dltb a c) eqn:E; [|done]. destruct (dltb_cotrans _ b _ Nb E); congruence. }
    rewrite H3. simpl.
    destruct (dltb c a) eqn:E; simpl; [done|].
    assert (Hba : dltb b a = false).
    { destruct (dltb b a) eqn:F; [|done]. destruct (dltb_cotrans _ c _ Nc F); congruence. }
    assert (Hcb : dltb c b = false).
    { destruct (dltb c b) eqn:F; [|done]. destruct (dltb_cotrans _ a _ Na F); congruence. }
    rewrite Hba in H1'. rewrite Hcb in H2'. simpl in *.
    destruct (bytes_ltb (Hash.data_ x) (Hash.data_ z)) eqn:G; [|done].
    destruct (bytes_ltb (Hash.data_ y) (Hash.data_ z)) eqn:G2; [done|].
    destruct (bytes_ltb (Hash.data_ x) (Hash.data_ y)) eqn:G3; [done|].
    exfalso. revert G. rewrite <- not_false_iff_true. intros G. apply G.
    destruct (bytes_ltb (Hash.data_ z) (Hash.data_ y)) eqn:G4.
    + apply bytes_ltb_asym. destruct (bytes_ltb (Hash.data_ y) (Hash.data_ x)) eqn:G5.
      * by eapply bytes_ltb_trans.
      * rewrite <- (bytes_ltb_total _ _ G5 G3). done.
    + by rewrite <- (bytes_ltb_total _ _ G2 G4).
Qed.

Lemma emplace_sorted x q : queue_sorted q -> queue_sorted (pq_emplace x q).
Proof.
  intros Hq Hf. unfold pq_emplace in *. rewrite insert_by_perm in Hf. apply Forall_cons_1 in Hf as [Hx Hf].
  apply (insert_by_ordered _ score_ok); [apply pair_ltb_weak_order|done|done|by apply Hq].
Qed.

Lemma foldl_emplace_sorted l q :
  queue_sorted q -> queue_sorted (fold_left (fun q kv => pq_emplace (queue_entry kv) q) l q).
Proof. revert q. induction l; intros q Hq; simpl; auto using emplace_sorted. Qed.

Lemma rebuild_queue_sorted `{io : IterOrder} p : queue_sorted (priority_queue_ (rebuild_priority_queue p)).
Proof. apply foldl_emplace_sorted. intros _. constructor. Qed.

(** ** Storage updates *)

(** Erase an entry from the index and the storage. *)
Definition drop_entry (h : Hash) (e : MempoolEntry) (p : Mempool) : Mempool :=
  set_transactions (delete h) (remove_account_nonce (get_from (transaction e)) (get_nonce (transaction e)) p).

(** Put an entry into the index and the storage. *)
Definition put_entry (h : Hash) (e : MempoolEntry) (p : Mempool) : Mempool :=
  set_transactions (insert h e) (update_account_nonce (get_from (transaction e)) (get_nonce (transaction e)) h p).

Lemma nonce_lookup_drop h e p a n :
  nonce_lookup (drop_entry h e p) a n
  = if decide (a = get_from (transaction e) /\ n = get_nonce (transaction e)) then None else nonce_lookup p a n.
Proof. apply nonce_lookup_remove. Qed.

(** *** Dropping an entry *)

Lemma core_drop h e p : pool_core p -> transactions_ p !! h = Some e -> pool_core (drop_entry h e p).
Proof.
  intros [Hk Hv Hc Hi Hq Ho] He.
  assert (Hd : forall h' e', transactions_ (drop_entry h e p) !! h' = Some e' -> h' <> h /\ transactions_ p !! h' = Some e')
    by (intros ??; simpl; rewrite lookup_delete_Some; naive_solver).
  split.
  - intros h' e' [_ ?]%Hd. eauto.
  - intros h' e' [_ ?]%Hd. eauto.
  - intros h' e' [Hne He']%Hd. rewrite nonce_lookup_drop. case_decide as Hd'; [|by apply Hc].
    destruct Hd' as [Ha Hn]. apply Hc in He', He. rewrite Ha, Hn in He'. congruence.
  - by apply inner_nonempty_remove.
  - intros h' e' [_ ?]%Hd. by apply Hq.
  - done.
Qed.

Lemma sound_drop h e p : index_sound p -> transactions_ p !! h = Some e -> index_sound (drop_entry h e p).
Proof.
  intros Hs He a n h'. rewrite nonce_lookup_drop. case_decide as Hd; [done|]. intros H.
  destruct (Hs _ _ _ H) as (e' & He' & Ha & Hn). exists e'. split; [|done].
  apply lookup_delete_Some. split; [|done]. intros ->. rewrite He in He'. injection He' as <-. by destruct Hd.
Qed.

Lemma pool_inv_drop h e p : pool_inv p -> transactions_ p !! h = Some e -> pool_inv (drop_entry h e p).
Proof. intros [Hc Hs] He. split; [by apply core_drop|by apply sound_drop]. Qed.

(** *** Putting an entry into a free slot *)

Lemma nonce_lookup_put h e p a n :
  nonce_lookup (put_entry h e p) a n
  = if decide (a = get_from (transaction e) /\ n = get_nonce (transaction e)) then Some h else nonce_lookup p a n.
Proof. apply nonce_lookup_update. Qed.

(** An entry stored under the same hash is overwritten. *)
Lemma core_put h e p :
  pool_core p -> fst (Transaction.calculate_hash (transaction e)) = h ->
  Transaction.is_valid (transaction e) = true -> is_too_large (transaction e) = false ->
  nonce_lookup p (get_from (transaction e)) (get_nonce (transaction e)) = None ->
  queue_entry (h, e) ∈ priority_queue_ p ->
  pool_core (put_entry h e p).
Proof.
  intros [Hk Hv Hc Hi Hq Ho] Hh Hval Hsz Hf Hqe.
  assert (Hd : forall h' e', transactions_ (put_entry h e p) !! h' = Some e' ->
             (h' = h /\ e' = e) \/ (h' <> h /\ transactions_ p !! h' = Some e'))
    by (intros ??; simpl; rewrite lookup_insert_Some; naive_solver).
  split.
  - intros h' e' [[-> ->]|[? He']]%Hd; eauto.
  - intros h' e' [[-> ->]|[? He']]%Hd; eauto.
  - intros h' e' [[-> ->]|[? He']]%Hd; rewrite nonce_lookup_put; [by rewrite decide_True|].
    apply Hc in He'. rewrite decide_False; [done|]. intros [E1 E2]. rewrite E1, E2 in He'. congruence.
  - by apply inner_nonempty_update.
  - intros h' e' [[-> ->]|[? He']]%Hd; [done|]. by apply Hq.
  - done.
Qed.

Lemma sound_put h e p : index_sound p -> transactions_ p !! h = None -> index_sound (put_entry h e p).
Proof.
  intros Hs Hn a n h'. rewrite nonce_lookup_put. case_decide as Hd'.
  - intros [= <-]. exists e. simpl. rewrite lookup_insert_eq. naive_solver.
  - intros H. destruct (Hs _ _ _ H) as (e' & He' & ? & ?). exists e'. split; [|done].
    apply lookup_insert_Some. right. split; [congruence|done].
Qed.

(** *** The queue *)

Lemma core_queue q p :
  pool_core p -> queue_sorted q ->
  (forall h e, transactions_ p !! h = Some e -> queue_entry (h, e) ∈ q) -> pool_core (set_queue (fun _ => q) p).
Proof. intros [Hk Hv Hc Hi _ _] Ho Hq. by split. Qed.

Lemma core_rebuild `{io : IterOrder} p : pool_core p -> pool_core (rebuild_priority_queue p).
Proof.
  intros Hp. apply core_queue; [done|apply rebuild_queue_sorted|]. intros h e He.
  apply (rebuild_queue_elem p). eauto.
Qed.

Lemma pool_inv_rebuild `{io : IterOrder} p : pool_inv p -> pool_inv (rebuild_priority_queue p).
Proof. intros [Hc Hs]. split; [by apply core_rebuild|exact Hs]. Qed.

Lemma create_mempool_inv c : pool_inv (create_mempool c).
Proof. split; [|done]. split; try done. intros _. constructor. Qed.

Lemma validate_transaction_parts p tx :
  validate_transaction p tx = true ->
  Transaction.is_valid tx = true /\ is_too_large tx = false
  /\ (forall n, is_Some (nonce_lookup p (get_from tx) n) -> n < get_nonce tx).
Proof.
  unfold validate_transaction, validate_basic_properties, validate_size. rewrite !andb_true_iff, negb_true_iff.
  intros [[[[? ?] Hn] ?] ?]. split; [done|]. split; [done|]. by apply validate_nonce_spec.
Qed.

(** The copy kept in the pool hashes to its key. *)
Lemma calculate_hash_stable tx h tx' :
  Transaction.calculate_hash tx = (h, tx') ->
  Transaction.calculate_hash tx' = (h, tx') /\ Transaction.data_ tx' = Transaction.data_ tx.
Proof.
  unfold Transaction.calculate_hash. destruct (cached_hash_ tx) eqn:E.
  - intros [= <- <-]. by rewrite E.
  - intros [= <- <-]. done.
Qed.

(** ** Specifications of the methods *)

Section Specs.
Context {env : Env} {io : IterOrder}.
Implicit Types w : world Mempool pool_event.

(** What [remove_transaction] leaves. *)
Definition after_remove (h : Hash) (p : Mempool) : Mempool :=
  match transactions_ p !! h with
  | Some e => rebuild_priority_queue (drop_entry h e p)
  | None => p
  end.

Lemma wp_remove h (Q : MempoolError -> world Mempool pool_event -> Prop) w :
  (forall err lg,
     (transactions_ (obj w) !! h = None -> err = INVALID_TRANSACTION /\ lg = log w) ->
     (is_Some (transactions_ (obj w) !! h) -> err = SUCCESS
        /\ lg = (if on_transaction_removed_ (obj w) then log w ++ [Removed h] else log w)) ->
     Q err (mkWorld (after_remove h (obj w)) (held w) (ticks w) lg)) ->
  wp (remove_transaction h) Q w.
Proof.
  intros HQ. unfold remove_transaction. wp_go. unfold after_remove in HQ.
  destruct (transactions_ (obj w) !! h) as [e|] eqn:E; wp_go.
  - destruct (on_transaction_removed_ (obj w)) eqn:N; wp_go; apply HQ; try done; naive_solver.
  - apply HQ; [done|]. by intros [? ?].
Qed.

Lemma after_remove_core h p : pool_core p -> pool_core (after_remove h p).
Proof. intros Hp. unfold after_remove. case_match; [|done]. by apply core_rebuild, core_drop. Qed.
Lemma after_remove_sound h p : index_sound p -> index_sound (after_remove h p).
Proof. intros Hs. unfold after_remove. destruct (transactions_ p !! h) as [e|] eqn:E; [|done]. exact (sound_drop h e p Hs E). Qed.
Lemma after_remove_inv h p : pool_inv p -> pool_inv (after_remove h p).
Proof. intros [Hc Hs]. split; [by apply after_remove_core|by apply after_remove_sound]. Qed.

Lemma after_remove_transactions h p : transactions_ (after_remove h p) = delete h (transactions_ p).
Proof. unfold after_remove. destruct (transactions_ p !! h) eqn:E; [done|]. by rewrite delete_id. Qed.

Lemma after_remove_config h p :
  config_ (after_remove h p) = config_ p /\ on_transaction_added_ (after_remove h p) = on_transaction_added_ p
  /\ on_transaction_removed_ (after_remove h p) = on_transaction_removed_ p.
Proof. unfold after_remove. by case_match. Qed.

(** The eviction loops: the storage loses exactly the listed hashes. *)
Definition after_removals (hs : list Hash) (p : Mempool) : Mempool := fold_left (fun p h => after_remove h p) hs p.

Lemma after_removals_core hs p : pool_core p -> pool_core (after_removals hs p).
Proof. revert p. induction hs; intros p Hp; simpl; [done|]. auto using after_remove_core. Qed.
Lemma after_removals_sound hs p : index_sound p -> index_sound (after_removals hs p).
Proof. revert p. induction hs; intros p Hp; simpl; [done|]. auto using after_remove_sound. Qed.

(** Removing transactions only frees nonces. *)
Lemma after_remove_nonce h p a n : nonce_lookup p a n = None -> nonce_lookup (after_remove h p) a n = None.
Proof.
  intros Hn. unfold after_remove. case_match; [|done].
  match goal with |- nonce_lookup (rebuild_priority_queue ?q) _ _ = _ => change (nonce_lookup q a n = None) end.
  rewrite nonce_lookup_drop. by case_decide.
Qed.
Lemma removals_fresh hs p a n : nonce_lookup p a n = None -> nonce_lookup (after_removals hs p) a n = None.
Proof. revert p. induction hs; intros p Hp; simpl; [done|]. auto using after_remove_nonce. Qed.

Lemma after_removals_lookup hs p h :
  transactions_ (after_removals hs p) !! h = if decide (h ∈ hs) then None else transactions_ p !! h.
Proof.
  revert p. induction hs as [|x hs IH]; intros p.
  - by rewrite decide_False by apply not_elem_of_nil.
  - change (after_removals (x :: hs) p) with (after_removals hs (after_remove x p)). rewrite IH, after_remove_transactions. destruct (decide (h ∈ hs)) as [Hin|Hout].
    + by rewrite decide_True by (by right).
    + destruct (decide (h = x)) as [->|Hne].
      * by rewrite lookup_delete_eq, decide_True by (by left).
      * rewrite lookup_delete_ne by done. rewrite decide_False; [done|]. set_solver.
Qed.

Lemma after_removals_config hs p :
  config_ (after_removals hs p) = config_ p /\ on_transaction_added_ (after_removals hs p) = on_transaction_added_ p
  /\ on_transaction_removed_ (after_removals hs p) = on_transaction_removed_ p.
Proof.
  revert p. induction hs as [|x hs IH]; intros p; simpl; [done|].
  destruct (IH (after_remove x p)) as (-> & -> & ->). apply after_remove_config.
Qed.

Lemma wp_removals hs (Q : () -> world Mempool pool_event -> Prop) w :
  (forall lg, Q tt (mkWorld (after_removals hs (obj w)) (held w) (ticks w) lg)) ->
  wp (for_each (fun hash => remove_transaction hash;; mret tt) hs) Q w.
Proof.
  revert w. induction hs as [|h hs IH]; intros w HQ; cbn [for_each].
  - wp_go. specialize (HQ (log w)). by destruct w.
  - do 2 wp_step. apply wp_remove. intros err lg _ _. wp_go. apply IH. done.
Qed.

(** *** Statistics and capacity *)

Definition bytes_of (l : list (Hash * MempoolEntry)) : Z :=
  fold_right (fun kv s => Transaction.size (transaction (snd kv)) + s) 0 l.
(** The bytes in the pool. *)
Definition pool_bytes (p : Mempool) : Z := bytes_of (map_to_list (transactions_ p)).

Lemma bytes_of_perm l l' : l ≡ₚ l' -> bytes_of l = bytes_of l'.
Proof. induction 1; simpl; lia. Qed.
Lemma bytes_of_snoc l x : bytes_of (l ++ [x]) = bytes_of l + Transaction.size (transaction (snd x)).
Proof. induction l; simpl; lia. Qed.

Definition price_of (kv : Hash * MempoolEntry) : Z := get_gas_price (transaction (snd kv)).
Definition age_of (t : Z) (kv : Hash * MempoolEntry) : Z := (t - added_timestamp (snd kv))%u64.

(** What the loop of [get_stats] has accumulated after the entries [l]. *)
Definition stats_acc (t : Z) (l : list (Hash * MempoolEntry)) (acc : Z * Z * Z * Z * Z) : Prop :=
  let '(ts, _, ma, lo, hi) := acc in
  ts = u64 (bytes_of l)
  /\ (forall kv, kv ∈ l -> ma <= age_of t kv /\ lo <= price_of kv <= hi)
  /\ (l = [] /\ ma = U64_MAX /\ lo = 0 /\ hi = 0
      \/ (exists kv, kv ∈ l /\ ma = age_of t kv) /\ (exists kv, kv ∈ l /\ lo = price_of kv)
         /\ (exists kv, kv ∈ l /\ hi = price_of kv)).

Lemma stats_acc_step t l acc kv :
  (forall x, x ∈ l ++ [kv] -> 0 < price_of x) -> stats_acc t l acc -> stats_acc t (l ++ [kv]) (stats_step t acc kv).
Proof.
  destruct acc as [[[[ts tf] ma] lo] hi]. intros Hpos (-> & Hall & Hex).
  assert (Hlast : 0 < price_of kv) by (apply Hpos; set_solver).
  assert (Hl : forall kv', kv' ∈ l -> 0 < price_of kv') by (intros; apply Hpos; set_solver).
  unfold stats_step. fold (price_of kv) (age_of t kv). split; [|split].
  - rewrite bytes_of_snoc. unfold u64_add, u64. rewrite Zplus_mod_idemp_l. done.
  - intros kv' [Hin| ->%list_elem_of_singleton]%elem_of_app.
    + specialize (Hall _ Hin) as [? ?]. destruct (Z.eqb_spec lo 0) as [->|]; simpl.
      * destruct Hex as [(-> & _)|(_ & (k & Hk & Hk0) & _)]; [by apply not_elem_of_nil in Hin|].
        specialize (Hl _ Hk). lia.
      * destruct (Z.ltb_spec (price_of kv) lo), (Z.ltb_spec hi (price_of kv)); lia.
    + destruct ((lo =? 0) || (price_of kv <? lo)) eqn:E1, (Z.ltb_spec hi (price_of kv)); split; try lia.
      all: apply orb_false_iff in E1 as [_ ?%Z.ltb_ge]; lia.
  - right. destruct Hex as [(-> & -> & -> & ->)|((k1 & H1 & ->) & (k2 & H2 & ->) & (k3 & H3 & ->))].
    + simpl. assert (is_u64 (age_of t kv)) by apply u64_range. unfold is_u64 in *.
      rewrite (proj2 (Z.ltb_lt 0 (price_of kv))) by done. rewrite Z.min_r by lia.
      split; [|split]; exists kv; (split; [by left|done]).
    + split; [|split].
      * destruct (Z.min_spec (age_of t k1) (age_of t kv)) as [[_ ->]|[_ ->]]; [exists k1|exists kv]; set_solver.
      * case_match; [exists kv|exists k2]; set_solver.
      * case_match; [exists kv|exists k3]; set_solver.
Qed.

Lemma stats_fold_spec t l :
  (forall kv, kv ∈ l -> 0 < price_of kv) -> stats_acc t l (fold_left (stats_step t) l (0, 0, U64_MAX, 0, 0)).
Proof.
  induction l as [|kv l IH] using rev_ind; intros Hpos.
  - split; [done|]. split; [intros ? []%not_elem_of_nil|by left].
  - rewrite fold_left_app. apply stats_acc_step; [done|]. apply IH. set_solver.
Qed.

(** The size component needs no hypothesis on the prices. *)
Lemma stats_fold_size t l acc :
  is_u64 (fst (fst (fst (fst acc)))) ->
  fst (fst (fst (fst (fold_left (stats_step t) l acc)))) = u64 (fst (fst (fst (fst acc))) + bytes_of l).
Proof.
  revert acc. induction l as [|kv l IH]; intros [[[[ts tf] ma] lo] hi] Hts; simpl in *.
  - by rewrite Z.add_0_r, u64_small.
  - rewrite IH by apply u64_range. simpl. unfold u64_add, u64. rewrite Zplus_mod_idemp_l. f_equal. lia.
Qed.

(** The test of [is_pool_full], as a function of the state. *)
Definition pool_full (p : Mempool) : bool :=
  (max_transactions (config_ p) <=? pool_size p) || (max_size_bytes (config_ p) <=? u64 (pool_bytes p)).

Lemma wp_is_pool_full (Q : bool -> world Mempool pool_event -> Prop) w :
  (forall tk, Q (pool_full (obj w)) (mkWorld (obj w) (held w) tk (log w))) -> wp is_pool_full Q w.
Proof.
  intros HQ. unfold is_pool_full, pool_full in *. wp_go.
  destruct (max_transactions _ <=? pool_size _); simpl in HQ.
  { wp_go. specialize (HQ (ticks w)). by destruct w. }
  unfold get_stats. wp_go. case_decide as He; wp_go.
  - replace (pool_bytes (obj w)) with 0 in HQ by (unfold pool_bytes; by rewrite He, map_to_list_empty). apply HQ.
  - unfold get_current_timestamp. wp_go.
    pose proof (stats_fold_size (u64 (clock (ticks w))) (iter (transactions_ (obj w))) (0, 0, U64_MAX, 0, 0)) as Hs.
    destruct (fold_left _ _ _) as [[[[ts tf] ma] lo] hi]. simpl in Hs. rewrite Hs by done. wp_go.
    rewrite (bytes_of_perm _ _ (iter_perm _ _ _ _ _)). apply HQ.
Qed.

(** *** Eviction *)

(** [config_.max_transactions * 0.8], converted to [size_t]. *)
Definition target_count (c : MempoolConfig) : outcome Z :=
  d_to_u64 (dmul (d_of_Z (max_transactions c)) (dlit 8 10)).
(** [max_transactions] is a [size_t]: the target is then one, too. *)
Definition config_typed (c : MempoolConfig) : Prop := is_u64 (max_transactions c).

Lemma target_defined c : config_typed c -> exists t, target_count c = Ret t.
Proof. apply four_fifths. Qed.

Definition below_threshold (p : Mempool) : bool :=
  dltb (d_of_Z (pool_size p)) (dmul (d_of_Z (max_transactions (config_ p))) (eviction_threshold_ratio (config_ p))).
Definition low_fee_victims (p : Mempool) : list Hash :=
  if below_threshold p
  then []
  else match target_count (config_ p) with
       | Ret t => select_transactions_to_evict (pool_size p - t)%u64 p
       | _ => []
       end.

Definition expired_victims (t : Z) (p : Mempool) : list Hash :=
  map fst (List.filter (fun kv => is_expired (snd kv) t 3600) (iter (transactions_ p))).

Lemma wp_evict_low_fee (Q : () -> world Mempool pool_event -> Prop) w :
  config_typed (config_ (obj w)) ->
  (forall lg, Q tt (mkWorld (after_removals (low_fee_victims (obj w)) (obj w)) (held w) (ticks w) lg)) ->
  wp evict_low_fee_transactions Q w.
Proof.
  unfold low_fee_victims, below_threshold, evict_low_fee_transactions. intros [t Ht]%target_defined HQ. wp_go.
  destruct (dltb _ _); wp_go; [apply HQ|]. fold (target_count (config_ (obj w))). rewrite Ht in *.
  eapply wp_lift; [done|]. unfold evict_transactions_by_fee. wp_go. apply wp_removals. intros lg. apply HQ.
Qed.

Lemma wp_evict_expired (Q : () -> world Mempool pool_event -> Prop) w :
  (forall lg, Q tt (mkWorld (after_removals (expired_victims (u64 (clock (ticks w))) (obj w)) (obj w)) (held w) (S (ticks w)) lg)) ->
  wp evict_expired_transactions Q w.
Proof.
  intros HQ. unfold evict_expired_transactions, evict_transactions_by_age, get_current_timestamp. wp_go.
  apply wp_removals. intros lg. apply HQ.
Qed.

(** *** Adding and replacing *)

Definition make_room (p : Mempool) : Mempool :=
  if pool_full p then after_removals (low_fee_victims p) p else p.

(** The entry the two clock readings produce. *)
Definition new_entry (tx : Transaction) (t t' : Z) : MempoolEntry :=
  mkEntry tx (mkPriority (d_of_Z (get_gas_price tx)) (t' - t)%u64 (Transaction.size tx)) t t [].

Definition added_pool (h : Hash) (e : MempoolEntry) (p : Mempool) : Mempool :=
  put_entry h e (set_queue (pq_emplace (queue_entry (h, e))) p).

Lemma wp_add tx h tx' (Q : MempoolError -> world Mempool pool_event -> Prop) w :
  Transaction.calculate_hash tx = (h, tx') -> config_typed (config_ (obj w)) ->
  (is_Some (transactions_ (obj w) !! h) -> Q TRANSACTION_EXISTS w) ->
  (transactions_ (obj w) !! h = None -> validate_transaction (obj w) tx' = false -> Q INVALID_TRANSACTION w) ->
  (transactions_ (obj w) !! h = None -> validate_transaction (obj w) tx' = true ->
     forall tk lg,
     (pool_full (make_room (obj w)) = true -> Q POOL_FULL (mkWorld (make_room (obj w)) (held w) tk lg))
     /\ (pool_full (make_room (obj w)) = false -> forall t t',
         Q SUCCESS (mkWorld (added_pool h (new_entry tx' (u64 t) (u64 t')) (make_room (obj w))) (held w) tk lg))) ->
  wp (add_transaction tx) Q w.
Proof.
  intros Hh Hc H1 H2 H3. unfold add_transaction. rewrite Hh. wp_go.
  case_decide as Hd; [wp_go; specialize (H1 Hd); by destruct w|].
  apply eq_None_not_Some in Hd.
  destruct (validate_transaction (obj w) tx') eqn:V; simpl; [|wp_go; specialize (H2 Hd eq_refl); by destruct w].
  specialize (H3 Hd eq_refl). clear H1 H2.
  wp_step. apply wp_is_pool_full. intros tk. cbn [obj held ticks log].
  assert (Hgo : forall tk lg (b : bool), b = pool_full (make_room (obj w)) ->
    wp (if b then mret (POOL_FULL, false)
        else current_time ← get_current_timestamp;
             prio ← calculate_priority tx' current_time;
             modify (update_account_nonce (get_from tx') (get_nonce tx') h);;
             modify (set_transactions (insert h (mkEntry tx' prio current_time current_time [])));;
             modify (set_queue (pq_emplace (calculate_score prio, h)));;
             p ← get; mret (SUCCESS, on_transaction_added_ p))
      (fun a w' => wp (let '(err, notify) := a in (if (notify : bool) then emit (Added h) else mret tt);; mret err) Q
                      (mkWorld (obj w') (held w) (ticks w') (log w')))
      (mkWorld (make_room (obj w)) (Exclusive :: held w) tk lg)).
  { intros tk' lg b ->. destruct (pool_full (make_room (obj w))) eqn:F; wp_go.
    - by apply (H3 tk' lg).
    - unfold get_current_timestamp, calculate_priority, get_current_timestamp. wp_go.
      match goal with |- context [if ?b then _ else _] => destruct b end; wp_go; by apply H3. }
  destruct (pool_full (obj w)) eqn:F.
  - wp_go. apply wp_evict_low_fee; [done|]. intros lg. apply wp_is_pool_full. intros tk'. cbn [obj held ticks log].
    specialize (Hgo tk' lg). unfold make_room in *. rewrite F in *. by apply Hgo.
  - wp_go. specialize (Hgo tk (log w) false). unfold make_room in *. rewrite F in *. by apply Hgo.
Qed.
End Specs.

Section Invariant.
Context {env : Env} {io : IterOrder}.
Implicit Types w : world Mempool pool_event.

Lemma wp_replace tx h tx' (Q : MempoolError -> world Mempool pool_event -> Prop) w :
  Transaction.calculate_hash tx = (h, tx') ->
  (nonce_lookup (obj w) (get_from tx') (get_nonce tx') ≫= (fun old => transactions_ (obj w) !! old) = None -> Q INVALID_TRANSACTION w) ->
  (forall old e, nonce_lookup (obj w) (get_from tx') (get_nonce tx') = Some old -> transactions_ (obj w) !! old = Some e ->
     (check_replacement_policy (transaction e) tx' <> SUCCESS -> Q (check_replacement_policy (transaction e) tx') w)
     /\ (check_replacement_policy (transaction e) tx' = SUCCESS ->
         (validate_transaction (drop_entry old e (obj w)) tx' = false ->
            Q INVALID_TRANSACTION (mkWorld (drop_entry old e (obj w)) (held w) (ticks w) (log w)))
         /\ (validate_transaction (drop_entry old e (obj w)) tx' = true -> forall t t' tk,
            Q SUCCESS (mkWorld (rebuild_priority_queue (put_entry h (new_entry tx' (u64 t) (u64 t')) (drop_entry old e (obj w))))
                         (held w) tk (log w))))) ->
  wp (replace_transaction tx) Q w.
Proof.
  intros Hh HN HS. unfold replace_transaction. rewrite Hh. wp_go. unfold nonce_lookup in *.
  destruct (account_nonces_ (obj w) !! get_from tx') as [acc|]; simpl in *; [|wp_go; specialize (HN eq_refl); by destruct w].
  destruct (acc !! get_nonce tx') as [old|]; simpl in *; [|wp_go; specialize (HN eq_refl); by destruct w].
  destruct (transactions_ (obj w) !! old) as [e|] eqn:He; [|wp_go; specialize (HN eq_refl); by destruct w].
  specialize (HS old e eq_refl He) as [HS1 HS2].
  case_decide as Hd; [wp_go; specialize (HS1 Hd); by destruct w|].
  specialize (HS2 Hd) as [HS2 HS3]. wp_go.
  change (set_transactions (delete old) (remove_account_nonce (get_from (transaction e)) (get_nonce (transaction e)) (obj w)))
    with (drop_entry old e (obj w)).
  destruct (validate_transaction (drop_entry old e (obj w)) tx') eqn:V; simpl; wp_go; [|by apply HS2].
  unfold get_current_timestamp, calculate_priority, get_current_timestamp. wp_go. by apply HS3.
Qed.

(** The calls of the interface. *)
Inductive pool_op : Type :=
  | OpSetConfig (c : MempoolConfig)
  | OpAdd (tx : Transaction)
  | OpRemove (h : Hash)
  | OpReplace (tx : Transaction)
  | OpEvictExpired
  | OpEvictLowFee
  | OpClear
  | OpStats
  | OpSetAdded (b : bool)
  | OpSetRemoved (b : bool).

Definition run_op (op : pool_op) : eff Mempool pool_event () :=
  match op with
  | OpSetConfig c => set_config c
  | OpAdd tx => add_transaction tx;; mret tt
  | OpRemove h => remove_transaction h;; mret tt
  | OpReplace tx => replace_transaction tx;; mret tt
  | OpEvictExpired => evict_expired_transactions
  | OpEvictLowFee => evict_low_fee_transactions
  | OpClear => clear
  | OpStats => get_stats;; mret tt
  | OpSetAdded b => set_transaction_added_callback b
  | OpSetRemoved b => set_transaction_removed_callback b
  end.

(** The arguments of a call are values of their C++ types. *)
Definition op_typed (op : pool_op) : Prop := match op with OpSetConfig c => config_typed c | _ => True end.

(** A replacement whose hash is that of a third pooled transaction, neither a new one
    nor the one it replaces, overwrites that transaction in the storage. *)
Definition clashes (p : Mempool) (op : pool_op) : bool :=
  match op with
  | OpReplace tx =>
      match nonce_lookup p (get_from tx) (get_nonce tx) with
      | Some old => let h := fst (Transaction.calculate_hash tx) in bool_decide (is_Some (transactions_ p !! h)) && negb (bool_decide (old = h))
      | None => false
      end
  | _ => false
  end.

(** The states a pool goes through between calls that return, and whether no call so
    far was a clashing replacement. *)
Inductive pool_reach (c : MempoolConfig) : bool -> world Mempool pool_event -> Prop :=
  | reach_init : config_typed c -> pool_reach c true (idle (create_mempool c))
  | reach_call b w op w' : pool_reach c b w -> op_typed op -> run_op op w = Ret (tt, w') ->
      pool_reach c (b && negb (clashes (obj w) op)) w'.

Definition pool_ok w : Prop := pool_core (obj w) /\ config_typed (config_ (obj w)).

(** The invariant reads neither the callbacks nor the configuration. *)
Lemma core_config c a r p :
  pool_core p -> pool_core (mkMempool c (transactions_ p) (account_nonces_ p) (priority_queue_ p) a r).
Proof. by intros []. Qed.
Lemma pool_inv_config c a r p :
  pool_inv p -> pool_inv (mkMempool c (transactions_ p) (account_nonces_ p) (priority_queue_ p) a r).
Proof. intros [Hc Hs]. split; [by apply core_config|exact Hs]. Qed.

Lemma removals_none hs p h : transactions_ p !! h = None -> transactions_ (after_removals hs p) !! h = None.
Proof. rewrite after_removals_lookup. by case_decide. Qed.

Lemma fresh_of_validate p tx :
  validate_transaction p tx = true -> nonce_lookup p (get_from tx) (get_nonce tx) = None.
Proof.
  intros (_ & _ & Hf)%validate_transaction_parts. apply eq_None_not_Some. intros H. specialize (Hf _ H). lia.
Qed.

Lemma added_pool_core h tx t t' p :
  pool_core p -> fst (Transaction.calculate_hash tx) = h ->
  Transaction.is_valid tx = true -> is_too_large tx = false ->
  nonce_lookup p (get_from tx) (get_nonce tx) = None ->
  pool_core (added_pool h (new_entry tx t t') p).
Proof.
  intros Hp Hh Hv Hs Hf. apply core_put; try done.
  - apply (core_queue (pq_emplace (queue_entry (h, new_entry tx t t')) (priority_queue_ p))); [done|apply emplace_sorted, Hp|].
    intros h' e' He. apply elem_of_insert_by. right. by apply (inv_queue _ Hp).
  - apply elem_of_insert_by. by left.
Qed.

Lemma added_pool_sound h e p : index_sound p -> transactions_ p !! h = None -> index_sound (added_pool h e p).
Proof. intros Hs Hn. by apply (sound_put h e (set_queue (pq_emplace (queue_entry (h, e))) p)). Qed.

Lemma make_room_cases p :
  make_room p = p \/ make_room p = after_removals (low_fee_victims p) p.
Proof. unfold make_room. case_match; auto. Qed.

(** What making room keeps. *)
Lemma make_room_keeps p h a n :
  pool_core p -> transactions_ p !! h = None -> nonce_lookup p a n = None ->
  pool_core (make_room p) /\ (index_sound p -> index_sound (make_room p)) /\ config_ (make_room p) = config_ p
  /\ transactions_ (make_room p) !! h = None /\ nonce_lookup (make_room p) a n = None.
Proof.
  intros Hp Hn Hf. destruct (make_room_cases p) as [-> | ->]; [done|].
  split_and!; [by apply after_removals_core|apply after_removals_sound|apply after_removals_config|by apply removals_none|by apply removals_fresh].
Qed.

(** What a call keeps: the core of the invariant, and the index as long as it does not
    clash. *)
Definition kept (op : pool_op) (w w' : world Mempool pool_event) : Prop :=
  pool_ok w' /\ held w' = held w /\ (index_sound (obj w) -> clashes (obj w) op = false -> index_sound (obj w')).

Lemma add_keeps tx w : pool_ok w -> wp (add_transaction tx) (fun _ w' => kept (OpAdd tx) w w') w.
Proof.
  intros [Hp Hc]. destruct (Transaction.calculate_hash tx) as [h tx'] eqn:Hh.
  apply (wp_add tx h tx'); try done. intros Hn Hv tk lg.
  destruct (make_room_keeps (obj w) h _ _ Hp Hn (fresh_of_validate _ _ Hv)) as (Hmi & Hms & Hmc & Hmn & Hmf). split.
  - intros _. unfold kept, pool_ok. simpl. rewrite Hmc. by split_and!; auto.
  - intros _ t t'. unfold kept, pool_ok. simpl. rewrite Hmc.
    apply validate_transaction_parts in Hv as (? & ? & _). destruct (calculate_hash_stable _ _ _ Hh) as [Hst _].
    split_and!; [|done|done|intros; apply added_pool_sound; auto]. apply added_pool_core; try done. by rewrite Hst.
Qed.

Lemma replace_keeps tx w : pool_ok w -> wp (replace_transaction tx) (fun _ w' => kept (OpReplace tx) w w') w.
Proof.
  intros [Hp Hc]. destruct (Transaction.calculate_hash tx) as [h tx'] eqn:Hh.
  destruct (calculate_hash_stable _ _ _ Hh) as [Hst Hd].
  apply (wp_replace tx h tx'); try done. intros old e Hold He.
  pose proof (core_drop _ _ _ Hp He) as Hdrop.
  split; [done|]. intros _. split; [intros _; split_and!; [done|done|intros; by apply sound_drop]|]. intros Hv t t' tk.
  apply validate_transaction_parts in Hv as Hv'. destruct Hv' as (? & ? & _).
  split_and!; [split; [|done]|done|].
  - apply (core_rebuild (added_pool h (new_entry tx' (u64 t) (u64 t')) (drop_entry old e (obj w)))).
    apply added_pool_core; try done; [by rewrite Hst|]. by apply fresh_of_validate.
  - intros Hs Hcl. apply (added_pool_sound h (new_entry tx' (u64 t) (u64 t')) (drop_entry old e (obj w))); [by apply sound_drop|].
    unfold get_from, get_nonce in Hold. rewrite Hd in Hold. unfold clashes, get_from, get_nonce in Hcl. rewrite Hold, Hh in Hcl. cbn in Hcl |- *.
    apply andb_false_iff in Hcl as [Hx%bool_decide_eq_false|Hx%negb_false_iff%bool_decide_eq_true].
    + apply lookup_delete_None. right. by apply eq_None_not_Some.
    + rewrite Hx. apply lookup_delete_eq.
Qed.

(** Every call keeps the invariant and releases the locks it took. *)
Lemma run_op_keeps op w : pool_ok w -> op_typed op -> wp (run_op op) (fun _ w' => kept op w w') w.
Proof.
  intros [Hp Hc] Hok. destruct op; simpl run_op.
  - unfold set_config. wp_go. split_and!; [split; [by apply core_config|done]|done|done].
  - wp_step. eapply wp_mono; [by apply add_keeps|]. done.
  - wp_step. apply wp_remove. intros err lg _ _. wp_go. split_and!; [split; [by apply after_remove_core|]|done|].
    + simpl. destruct (after_remove_config h (obj w)) as [-> _]. done.
    + intros Hs _. by apply after_remove_sound.
  - wp_step. eapply wp_mono; [by apply replace_keeps|]. done.
  - apply wp_evict_expired. intros lg. split_and!; [split; [by apply after_removals_core|]|done|intros; by apply after_removals_sound].
    simpl. by rewrite (proj1 (after_removals_config _ _)).
  - apply wp_evict_low_fee; [done|]. intros lg. split_and!; [split; [by apply after_removals_core|]|done|intros; by apply after_removals_sound].
    simpl. by rewrite (proj1 (after_removals_config _ _)).
  - unfold clear. wp_go. split_and!; [split; [|done]|done|done]. apply (core_config _ _ _ _ (create_mempool_inv (config_ (obj w)))).
  - wp_step. unfold get_stats. wp_go. case_decide; wp_go; [done|].
    unfold get_current_timestamp. wp_go. destruct (fold_left _ _ _) as [[[[? ?] ?] ?] ?]. wp_go. done.
  - unfold set_transaction_added_callback. wp_go. split_and!; [split; [by apply core_config|done]|done|done].
  - unfold set_transaction_removed_callback. wp_go. split_and!; [split; [by apply core_config|done]|done|done].
Qed.

Lemma reach_ok c b w : pool_reach c b w -> pool_ok w /\ held w = [] /\ (b = true -> index_sound (obj w)).
Proof.
  induction 1 as [Hc|b w op w' _ (Hok & Hh & Hs) Hop Hrun].
  - split_and!; [split; [apply create_mempool_inv|done]|done|done].
  - pose proof (wp_ret_inv _ _ _ _ _ (run_op_keeps op w Hok Hop) Hrun) as (? & ? & Hi). split_and!; [done|congruence|].
    intros [Hb Hcl%negb_true_iff]%andb_true_iff. auto.
Qed.
End Invariant.
