(* ===== verification/MempoolProps.v ===== *)
(** * Properties of the transaction pool

    Each theorem is about the interface of [MempoolImpl]; the library of
    [MempoolInv] carries the proofs. *)

From stdpp Require Import base list gmap numbers strings sorting sets.
From Stdlib Require Import ZArith Lia Ascii.
From S2P Require Import Prelude CString Floats Sorting Effects Hash Address Amount Transaction Mempool MempoolInv.

(** ** Selection *)

(** The gas of a list of transactions, without wrap-around. *)
Definition gas_total (txs : list Transaction) : Z := fold_right (fun tx s => get_gas_limit tx + s) 0 txs.

(** The transactions the queue entries [picks] stand for. *)
Definition picked (txs : gmap Hash MempoolEntry) (picks : list (double * Hash)) (r : list Transaction) : Prop :=
  Forall2 (fun x tx => transaction <$> txs !! snd x = Some tx) picks r.

Lemma drain_gas_picks txs count maxg total q :
  exists picks, picks `sublist_of` q /\ picked txs picks (drain_gas txs count maxg total q)
    /\ (length (drain_gas txs count maxg total q) <= count)%nat.
Proof.
  revert count total. induction q as [|[s h] q IH]; intros count total.
  { exists []. destruct count; split_and!; simpl; try constructor; lia. }
  destruct count as [|count]; [exists []; split_and!; simpl; [apply sublist_nil_l|constructor|lia]|].
  cbn [drain_gas]. destruct (txs !! h) as [e|] eqn:E.
  - case_match.
    + destruct (IH count (total + get_gas_limit (transaction e))%u64) as (picks & H1 & H2 & H3).
      exists ((s, h) :: picks). split_and!; [by constructor|constructor; [simpl; by rewrite E|done]|simpl; lia].
    + destruct (IH (S count) total) as (picks & H1 & H2 & H3). exists picks. split_and!; [by constructor|done..].
  - destruct (IH (S count) total) as (picks & H1 & H2 & H3). exists picks. split_and!; [by constructor|done..].
Qed.

Lemma drain_gas_total txs count maxg total q :
  (forall h e, txs !! h = Some e -> 0 <= get_gas_limit (transaction e) /\ get_gas_limit (transaction e) + maxg < U64_MOD) ->
  0 <= total <= maxg -> total + gas_total (drain_gas txs count maxg total q) <= maxg.
Proof.
  intros Hg. revert count total. induction q as [|[s h] q IH]; intros count total Ht.
  { destruct count; simpl; lia. }
  destruct count as [|count]; [simpl; lia|]. cbn [drain_gas]. destruct (txs !! h) as [e|] eqn:E; [|by apply IH].
  specialize (Hg h e E). unfold u64_add. rewrite u64_small by (unfold is_u64; lia).
  destruct (Z.leb_spec (total + get_gas_limit (transaction e)) maxg); [|by apply IH].
  specialize (IH count (total + get_gas_limit (transaction e))). simpl. lia.
Qed.

(** Everything that is queued is taken when it all fits. *)
Lemma drain_gas_all txs count maxg total q :
  (forall h e, txs !! h = Some e -> 0 <= get_gas_limit (transaction e)) -> maxg < U64_MOD -> 0 <= total ->
  (length q <= count)%nat ->
  total + fold_right (fun x s => match txs !! snd x with Some e => get_gas_limit (transaction e) + s | None => s end) 0 q <= maxg ->
  forall s h e, (s, h) ∈ q -> txs !! h = Some e -> transaction e ∈ drain_gas txs count maxg total q.
Proof.
  intros Hg Hm. revert count total. induction q as [|[s h] q IH]; intros count total Ht Hl Hsum s' h' e' Hin He.
  { by apply not_elem_of_nil in Hin. }
  destruct count as [|count]; simpl in Hl; [lia|]. cbn [drain_gas]. simpl in Hsum.
  assert (Hpos : 0 <= fold_right (fun x s => match txs !! snd x with Some e => get_gas_limit (transaction e) + s | None => s end) 0 q).
  { clear -Hg. induction q as [|[s h] q IH]; simpl; [lia|]. destruct (txs !! h) as [e|] eqn:E; [|done]. specialize (Hg _ _ E). lia. }
  apply elem_of_cons in Hin. destruct (txs !! h) as [e|] eqn:E.
  - specialize (Hg h e E) as Hge. unfold u64_add. rewrite u64_small by (unfold is_u64; lia).
    destruct (Z.leb_spec (total + get_gas_limit (transaction e)) maxg); [|lia].
    destruct Hin as [[= -> ->]|Hin].
    + rewrite E in He. injection He as ->. by left.
    + right. eapply IH; eauto; lia.
  - destruct Hin as [[= -> ->]|Hin]; [congruence|]. eapply IH; eauto; lia.
Qed.

Lemma sublist_ordered {A} (lt : A -> A -> bool) l k : l `sublist_of` k -> ordered lt k -> ordered lt l.
Proof.
  intros Hs. induction Hs as [|x l k Hs IH|x l k Hs IH]; intros Ho; [done| |]; inversion_clear Ho; [|by apply IH].
  constructor; [by apply IH|]. apply Forall_forall. intros y Hy.
  match goal with H : Forall _ k |- _ => rewrite Forall_forall in H; apply H end. by eapply elem_of_sublist.
Qed.

(** ** Eviction order *)

Lemma pair_ltb_weak_order_asc : weak_order_on pair_ltb score_ok.
Proof.
  destruct pair_ltb_weak_order as [H1 H2]. split.
  - intros a b Ha Hb. by apply H1.
  - intros a b c Ha Hb Hc Hba Hcb. exact (H2 c b a Hc Hb Ha Hcb Hba).
Qed.

Section Victims.
Context {io : IterOrder}.

Lemma victims_split count p :
  exists vs ss, sort_by pair_ltb (map queue_entry (iter (transactions_ p))) = vs ++ ss
    /\ select_transactions_to_evict count p = map snd vs
    /\ Z.of_nat (length vs) = Z.max 0 (Z.min count (pool_size p)).
Proof.
  set (l := sort_by _ _). set (n := Z.to_nat (Z.min count (Z.of_nat (length l)))).
  assert (Hl : length l = base.size (transactions_ p)).
  { unfold l. rewrite length_sort_by, length_map, iter_perm. apply length_map_to_list. }
  exists (take n l), (drop n l). split; [by rewrite take_drop|]. split; [done|].
  rewrite length_take. unfold n, pool_size. rewrite Hl. lia.
Qed.

(** An element of the pool's score list. *)
Lemma elem_of_candidates p s h :
  (s, h) ∈ sort_by pair_ltb (map queue_entry (iter (transactions_ p)))
  <-> exists e, transactions_ p !! h = Some e /\ s = calculate_score (priority e).
Proof.
  rewrite elem_of_sort_by, iter_perm, list_elem_of_fmap. split.
  - intros ([h' e] & [= -> ->] & He%elem_of_map_to_list). eauto.
  - intros (e & He & ->). exists (h, e). split; [done|]. by apply elem_of_map_to_list.
Qed.

Lemma select_best count p h e h' e' :
  (forall h e, transactions_ p !! h = Some e -> is_nan (calculate_score (priority e)) = false) ->
  transactions_ p !! h = Some e -> h ∈ select_transactions_to_evict count p ->
  transactions_ p !! h' = Some e' -> h' ∉ select_transactions_to_evict count p ->
  pair_ltb (queue_entry (h', e')) (queue_entry (h, e)) = false.
Proof.
  intros Hn He Hv He' Hs. destruct (victims_split count p) as (vs & ss & Hsplit & Hsel & _).
  rewrite Hsel in Hv, Hs.
  assert (Ho : ordered pair_ltb (vs ++ ss)).
  { rewrite <- Hsplit. apply (sort_by_ordered _ score_ok); [apply pair_ltb_weak_order_asc|].
    rewrite Forall_forall. intros [s k] Hk. apply elem_of_sort_by with (lt := pair_ltb) in Hk.
    apply elem_of_candidates in Hk as (e0 & He0 & ->). by apply (Hn k e0). }
  apply (ordered_app _ vs ss); [done| |].
  - apply list_elem_of_fmap in Hv as ([s k] & -> & Hk).
    assert (Hk' : (s, k) ∈ vs ++ ss) by (apply elem_of_app; by left).
    rewrite <- Hsplit in Hk'. apply elem_of_candidates in Hk' as (e0 & He0 & ->). simpl in He. by simplify_eq.
  - assert (Hin : queue_entry (h', e') ∈ vs ++ ss) by (rewrite <- Hsplit; apply elem_of_candidates; eauto).
    apply elem_of_app in Hin as [Hin|Hin]; [|done]. exfalso. apply Hs, list_elem_of_fmap. by exists (queue_entry (h', e')).
Qed.

Lemma expired_victims_elem t p h :
  h ∈ expired_victims t p <-> exists e, transactions_ p !! h = Some e /\ is_expired e t 3600 = true.
Proof.
  unfold expired_victims. rewrite list_elem_of_fmap. split.
  - intros ([h' e] & -> & Hin). apply list_elem_of_In, filter_In in Hin as [Hin He]. exists e. split; [|done].
    apply list_elem_of_In in Hin. rewrite iter_perm in Hin. by apply elem_of_map_to_list in Hin.
  - intros (e & He & Hx). exists (h, e). split; [done|]. apply list_elem_of_In, filter_In. split; [|done].
    apply list_elem_of_In. rewrite iter_perm. by apply elem_of_map_to_list.
Qed.
End Victims.

Lemma valid_gas_price tx : Transaction.is_valid tx = true -> 0 < get_gas_price tx.
Proof.
  unfold Transaction.is_valid, validate_gas. rewrite !andb_true_iff. intros [[[_ [_ H]] _] _]. by apply Z.ltb_lt.
Qed.

(** The hashes selected for eviction are distinct and pooled. *)
Lemma victims_pooled `{io : IterOrder} count p :
  NoDup (select_transactions_to_evict count p) /\ forall h, h ∈ select_transactions_to_evict count p -> is_Some (transactions_ p !! h).
Proof.
  destruct (victims_split count p) as (vs & ss & Hsplit & Hsel & _). rewrite Hsel. split.
  - assert (Hnd : NoDup (map snd (vs ++ ss))).
    { rewrite <- Hsplit. rewrite sort_by_perm, map_map. simpl. rewrite iter_perm. apply NoDup_fst_map_to_list. }
    rewrite map_app in Hnd. by apply NoDup_app in Hnd as (Hnd & _ & _).
  - intros h ([s k] & -> & Hk)%list_elem_of_fmap.
    assert (Hk' : (s, k) ∈ vs ++ ss) by (apply elem_of_app; by left).
    rewrite <- Hsplit in Hk'. apply elem_of_candidates in Hk' as (e & He & _). eauto.
Qed.

(** ** A small pool for the examples *)

Definition demo_address (k : Z) : Address := mkAddress (replicate 19 0 ++ [k]).
(** A transfer of one wei from account [s] to account [r]. *)
Definition demo_tx (s r price n : Z) : Transaction :=
  Transaction_of_data (mkTransactionData (replicate 19 0 ++ [s]) (r :: replicate 19 0) 1 21000 price [] n).
Definition demo_hash (s r : Z) : Hash := fst (Transaction.calculate_hash (demo_tx s r 1 0)).
Definition demo_env : Env := recursive_env (fun n => 1000 + Z.of_nat n).
Definition demo_std : Env := std_env (fun n => 1000 + Z.of_nat n).
Definition demo_config : MempoolConfig := mkMempoolConfig 1000000 4 1 100 60 (dlit 9 10).

(** Run calls one after the other; an exception or undefined behaviour stops. *)
Fixpoint run_ops {env : Env} {io : IterOrder} (ops : list pool_op) (w : world Mempool pool_event) : outcome (world Mempool pool_event) :=
  match ops with
  | [] => Ret w
  | op :: ops' => match run_op op w with Ret (_, w') => run_ops ops' w' | Throw e => Throw e | Undefined => Undefined end
  end.
Definition demo_run (c : MempoolConfig) (ops : list pool_op) : world Mempool pool_event :=
  match @run_ops demo_env map_order ops (idle (create_mempool c)) with Ret w => w | _ => idle (create_mempool c) end.

(** Two senders, three pooled transactions. *)
Definition demo_ops : list pool_op :=
  [OpAdd (demo_tx 1 7 10 5); OpAdd (demo_tx 1 8 30 6); OpAdd (demo_tx 2 7 20 1)].
Definition demo_world : world Mempool pool_event := demo_run demo_config demo_ops.

Lemma run_ops_reach {env : Env} {io : IterOrder} c b ops w w' :
  pool_reach c b w -> Forall op_typed ops -> run_ops ops w = Ret w' -> exists b', pool_reach c b' w'.
Proof.
  intros Hr Hok. revert b w Hr. induction Hok as [|op ops Hop _ IH]; intros b w Hr Hrun; simpl in *; [simplify_eq; by eexists|].
  destruct (run_op op w) as [[[] w1]| |] eqn:E; try done. by eapply IH; [eapply reach_call|].
Qed.

(** ** The locking rule of the standard *)

Section Standard.
Context (clk : nat -> Z) {io : IterOrder}.
#[local] Instance standard : Env := std_env clk.

Lemma with_lock_held {A} m (body : eff Mempool pool_event A) w : held w <> [] -> with_lock m body w = Undefined.
Proof. unfold with_lock. by destruct (held w). Qed.

Lemma add_transaction_std tx h tx' (w : world Mempool pool_event) :
  held w = [] -> Transaction.calculate_hash tx = (h, tx') ->
  add_transaction tx w
  = if decide (is_Some (transactions_ (obj w) !! h)) then Ret (TRANSACTION_EXISTS, w)
    else if validate_transaction (obj w) tx' then Undefined else Ret (INVALID_TRANSACTION, w).
Proof.
  destruct w as [p hs tk lg]. simpl. intros -> Hh. unfold add_transaction. rewrite Hh.
  unfold mbind at 1, eff_bind at 1. unfold with_lock at 1. simpl held. cbv iota.
  unfold mbind at 1, eff_bind at 1, get at 1. simpl.
  case_decide; [done|]. destruct (validate_transaction p tx'); [|done]. simpl.
  unfold mbind at 1, eff_bind at 1. unfold is_pool_full at 1.
  unfold mbind at 1, eff_bind at 1, get at 1. simpl.
  destruct (max_transactions (config_ p) <=? pool_size p); [|done]. simpl. done.
Qed.

(** The removal loops of the evictions run with the mutex held. *)
Lemma removals_std hs (w : world Mempool pool_event) : held w <> [] ->
  for_each (fun hash => remove_transaction hash;; mret tt) hs w = match hs with [] => Ret (tt, w) | _ :: _ => Undefined end.
Proof.
  intros Hh. destruct hs as [|h hs]; [done|]. cbn [for_each]. apply eff_bind_undef, eff_bind_undef.
  unfold remove_transaction. by apply eff_bind_undef, with_lock_held.
Qed.

Lemma evict_expired_std (w : world Mempool pool_event) : held w = [] ->
  evict_expired_transactions w
  = match expired_victims (u64 (clk (ticks w))) (obj w) with [] => Ret (tt, mkWorld (obj w) [] (S (ticks w)) (log w)) | _ :: _ => Undefined end.
Proof.
  destruct w as [p hs tk lg]. simpl. intros ->. unfold evict_expired_transactions, evict_transactions_by_age, get_current_timestamp.
  unfold with_lock, mbind, eff_bind, read_clock, get, mret, eff_ret. cbn [held obj ticks log on_relock standard std_env clock].
  change (map fst (List.filter _ _)) with (expired_victims (u64 (clk tk)) p).
  rewrite removals_std by done. by destruct (expired_victims (u64 (clk tk)) p).
Qed.

Lemma evict_low_fee_std (w : world Mempool pool_event) : config_typed (config_ (obj w)) -> held w = [] ->
  evict_low_fee_transactions w = match low_fee_victims (obj w) with [] => Ret (tt, w) | _ :: _ => Undefined end.
Proof.
  destruct w as [p hs tk lg]. simpl. intros [t Ht]%target_defined ->. unfold evict_low_fee_transactions, low_fee_victims.
  rewrite Ht. unfold with_lock. cbn [held obj ticks log on_relock standard std_env]. rewrite (eff_bind_run get _ _ _ _ eq_refl). cbn [obj].
  fold (below_threshold p). destruct (below_threshold p); [done|]. fold (target_count (config_ p)).
  rewrite (eff_bind_run _ _ _ t (mkWorld p [Exclusive] tk lg)) by (unfold lift; by rewrite Ht).
  unfold evict_transactions_by_fee. rewrite (eff_bind_run get _ _ _ _ eq_refl). cbn [obj].
  rewrite removals_std by done. by destruct (select_transactions_to_evict _ p).
Qed.
End Standard.

(** A call that locks the mutex a second time on its way: an addition that passes
    validation, an eviction that finds something to evict. *)
Definition relocks {env : Env} {io : IterOrder} (op : pool_op) (w : world Mempool pool_event) : bool :=
  match op with
  | OpAdd tx =>
      let '(h, tx') := Transaction.calculate_hash tx in
      negb (bool_decide (is_Some (transactions_ (obj w) !! h))) && validate_transaction (obj w) tx'
  | OpEvictExpired => negb (bool_decide (expired_victims (u64 (clock (ticks w))) (obj w) = []))
  | OpEvictLowFee => negb (bool_decide (low_fee_victims (obj w) = []))
  | _ => false
  end.

Section Relocking.
Context {env : Env} {io : IterOrder}.

Lemma relock_undefined_run op (w : world Mempool pool_event) :
  on_relock = relock_undefined -> config_typed (config_ (obj w)) -> held w = [] -> relocks op w = true -> run_op op w = Undefined.
Proof.
  destruct env as [[] clk]; [|done]. intros _ Hc Hh Hr. change {| on_relock := relock_undefined; clock := clk |} with (std_env clk) in *.
  destruct op; cbn [relocks run_op] in *; try done.
  - destruct (Transaction.calculate_hash tx) as [h tx'] eqn:E. apply andb_true_iff in Hr as [Hn%negb_true_iff%bool_decide_eq_false Hv].
    apply eff_bind_undef. rewrite (add_transaction_std clk tx h tx') by done. by rewrite decide_False, Hv.
  - rewrite evict_expired_std by done. cbn [clock std_env] in Hr. by destruct (expired_victims _ _).
  - rewrite evict_low_fee_std by done. by destruct (low_fee_victims _).
Qed.

Lemma calm_run op (w : world Mempool pool_event) :
  on_relock = relock_undefined -> config_typed (config_ (obj w)) -> held w = [] -> relocks op w = false -> exists w', run_op op w = Ret (tt, w').
Proof.
  destruct env as [[] clk]; [|done]. intros _ Hc Hh Hr. change {| on_relock := relock_undefined; clock := clk |} with (std_env clk) in *.
  assert (Hgo : forall m : eff Mempool pool_event (), twp m (fun _ _ => True) w -> exists w', m w = Ret (tt, w')) by (intros m ([] & w' & H & _); by exists w').
  destruct op; cbn [relocks run_op] in *.
  - apply Hgo. unfold set_config. by twp_go.
  - destruct (Transaction.calculate_hash tx) as [h tx'] eqn:E. unfold mbind, eff_bind. rewrite (add_transaction_std clk tx h tx') by done.
    case_decide as Hd; [by eexists|]. rewrite bool_decide_eq_false_2 in Hr by done. cbn in Hr. rewrite Hr. by eexists.
  - apply Hgo. unfold remove_transaction. twp_go. destruct (transactions_ (obj w) !! h); twp_go; [|done]. case_match; by twp_go.
  - apply Hgo. unfold replace_transaction. destruct (Transaction.calculate_hash tx) as [h tx']. twp_go.
    repeat (case_match; twp_go; try done). all: unfold get_current_timestamp, calculate_priority, get_current_timestamp; by twp_go.
  - rewrite evict_expired_std by done. cbn [clock std_env] in Hr. destruct (expired_victims _ _); [by eexists|done].
  - rewrite evict_low_fee_std by done. destruct (low_fee_victims _); [by eexists|done].
  - apply Hgo. unfold clear. by twp_go.
  - apply Hgo. unfold get_stats. twp_go. case_decide; twp_go; [done|]. unfold get_current_timestamp. twp_go.
    destruct (fold_left _ _ _) as [[[[? ?] ?] ?] ?]. by twp_go.
  - apply Hgo. unfold set_transaction_added_callback. by twp_go.
  - apply Hgo. unfold set_transaction_removed_callback. by twp_go.
Qed.
End Relocking.

(** ** Properties *)

Section Properties.
Context {env : Env} {io : IterOrder}.
Implicit Types w : world Mempool pool_event.

(** C1: the pool's invariant.  Whatever calls have returned since the pool was
    created, every pooled transaction is valid, within the size limit and stored
    under its own hash; the per-account nonce index has it under its sender and
    nonce, so there is at most one per sender and nonce, and has no empty account;
    every pooled transaction is in the priority queue with its score, and the queue
    is ordered; and no lock is left held.  As long as no replacement carried the hash
    of a third pooled transaction, the index lists nothing but pooled transactions,
    each under its sender and nonce. *)
Theorem mempool_invariant (c : MempoolConfig) (unclashed : bool) (w : world Mempool pool_event) :
  pool_reach c unclashed w -> pool_core (obj w) /\ held w = [] /\ (unclashed = true -> index_sound (obj w)).
Proof. intros ([Hp _] & Hh & Hs)%reach_ok. done. Qed.

(** C14: which calls return.  On a pool that keeps the invariant, with the mutex free, a
    call has undefined behaviour exactly when it would lock the mutex twice and the
    locking rule is the standard's for [std::shared_mutex]: an addition that passes
    validation, an eviction that finds something to evict.  Every other call returns
    without an exception, leaves the mutex free and keeps the invariant; under a mutex
    its owner may lock again all calls do. *)
Theorem mempool_progress (op : pool_op) (w : world Mempool pool_event) :
  pool_core (obj w) -> config_typed (config_ (obj w)) -> held w = [] -> op_typed op ->
  if relocks op w && bool_decide (on_relock = relock_undefined)
  then run_op op w = Undefined
  else exists w', run_op op w = Ret (tt, w') /\ pool_core (obj w') /\ held w' = [].
Proof.
  intros Hp Hc Hh Hop. pose proof (run_op_keeps op w (conj Hp Hc) Hop) as Hk.
  assert (Hgo : forall w', run_op op w = Ret (tt, w') -> pool_core (obj w') /\ held w' = []).
  { intros w' Hrun. destruct (wp_ret_inv _ _ _ _ _ Hk Hrun) as ([? _] & ? & _). split; [done|congruence]. }
  destruct (relocks op w) eqn:Hr; cbn [andb]; [destruct (bool_decide (on_relock = relock_undefined)) eqn:Hb|].
  - apply bool_decide_eq_true in Hb. by apply relock_undefined_run.
  - apply bool_decide_eq_false in Hb. assert (Hn : on_relock = relock_nested) by (by destruct on_relock).
    destruct (wp_returns _ _ _ Hn Hk) as ([] & w' & Hrun & _). eauto.
  - destruct on_relock eqn:Hn.
    + destruct (calm_run op w Hn Hc Hh Hr) as [w' Hrun]. eauto.
    + destruct (wp_returns _ _ _ Hn Hk) as ([] & w' & Hrun & _). eauto.
Qed.

(** C4: adding a transaction, on every branch.  A hash already pooled and a
    transaction that fails validation are refused and leave the pool as it is.  For
    any other, [is_pool_full] or the eviction locks the mutex a second time: under the
    standard's rule for [std::shared_mutex] that is undefined behaviour; under a mutex
    its owner may lock again the pool makes room by evicting, and either is still full
    or gains exactly the new entry and stays within [max_transactions]. *)
Theorem add_transaction_outcome (tx tx' : Transaction) (h : Hash) (w : world Mempool pool_event) :
  config_typed (config_ (obj w)) -> held w = [] -> Transaction.calculate_hash tx = (h, tx') ->
  if decide (is_Some (transactions_ (obj w) !! h)) then add_transaction tx w = Ret (TRANSACTION_EXISTS, w)
  else if negb (validate_transaction (obj w) tx') then add_transaction tx w = Ret (INVALID_TRANSACTION, w)
  else match on_relock with
  | relock_undefined => add_transaction tx w = Undefined
  | relock_nested =>
      exists err w', add_transaction tx w = Ret (err, w') /\
        if pool_full (make_room (obj w))
        then err = POOL_FULL /\ obj w' = make_room (obj w)
        else err = SUCCESS
          /\ (exists e, transaction e = tx' /\ transactions_ (obj w') = <[ h := e ]> (transactions_ (make_room (obj w))))
          /\ (forall a n, nonce_lookup (obj w') a n
                = if decide (a = get_from tx' /\ n = get_nonce tx') then Some h else nonce_lookup (make_room (obj w)) a n)
          /\ pool_size (obj w') <= max_transactions (config_ (obj w'))
  end.
Proof.
  intros Hc Hh E. destruct on_relock eqn:Hn.
  - destruct env as [pol clk]. cbn in Hn. subst pol. rewrite (add_transaction_std clk tx h tx') by done. case_decide; [done|]. by destruct (validate_transaction _ _).
  - assert (Hwp : wp (add_transaction tx) (fun err w' =>
      if decide (is_Some (transactions_ (obj w) !! h)) then err = TRANSACTION_EXISTS /\ w' = w
      else if negb (validate_transaction (obj w) tx') then err = INVALID_TRANSACTION /\ w' = w
      else if pool_full (make_room (obj w)) then err = POOL_FULL /\ obj w' = make_room (obj w)
      else err = SUCCESS /\ (exists t t', obj w' = added_pool h (new_entry tx' t t') (make_room (obj w)))) w).
    { apply (wp_add tx h tx'); try done.
      - intros H. by rewrite decide_True.
      - intros Hno Hv. rewrite decide_False, Hv by (rewrite Hno; by intros [? ?]). done.
      - intros Hno Hv tk lg. rewrite decide_False, Hv by (rewrite Hno; by intros [? ?]). cbn [negb]. split; [by intros ->|].
        intros -> t t'. rewrite decide_False by (rewrite Hno; by intros [? ?]). split; [done|]. by eexists _, _. }
    destruct (wp_returns _ _ _ Hn Hwp) as (err & w' & Hrun & Hpost). case_decide as Hd; [by destruct Hpost as [-> ->]|].
    destruct (validate_transaction (obj w) tx') eqn:Hv; cbn [negb] in *; [|by destruct Hpost as [-> ->]]. exists err, w'. split; [done|].
    destruct (pool_full (make_room (obj w))) eqn:Hf; [done|]. destruct Hpost as (-> & t & t' & Ho). split; [done|]. rewrite Ho.
    split; [by exists (new_entry tx' t t')|]. split; [intros a n; exact (nonce_lookup_put h (new_entry tx' t t') (set_queue _ (make_room (obj w))) a n)|].
    unfold pool_full in Hf. apply orb_false_iff in Hf as [Hlt%Z.leb_gt _]. unfold pool_size in *. simpl. rewrite map_size_insert.
    apply eq_None_not_Some in Hd. assert (transactions_ (make_room (obj w)) !! h = None) as ->
      by (destruct (make_room_cases (obj w)) as [-> | ->]; [done|by apply removals_none]). lia.
Qed.

(** C5: removing a transaction, under any locking rule: an unknown hash is
    refused and changes nothing; a pooled one disappears from the storage, from
    the nonce index and from the queue, nothing else does, and the callback is
    told once. *)
Theorem remove_transaction_outcome (h : Hash) (w : world Mempool pool_event) :
  pool_core (obj w) -> held w = [] ->
  exists err w', remove_transaction h w = Ret (err, w') /\
    transactions_ (obj w') = delete h (transactions_ (obj w)) /\
    match transactions_ (obj w) !! h with
    | None => err = INVALID_TRANSACTION /\ w' = w
    | Some e => err = SUCCESS
        /\ (forall a n, nonce_lookup (obj w') a n
              = if decide (a = get_from (transaction e) /\ n = get_nonce (transaction e)) then None else nonce_lookup (obj w) a n)
        /\ priority_queue_ (obj w') ≡ₚ map queue_entry (map_to_list (delete h (transactions_ (obj w))))
        /\ log w' = (if on_transaction_removed_ (obj w) then log w ++ [Removed h] else log w)
    end.
Proof.
  intros Hp Hh. destruct w as [p hs tk lg]. simpl in *. subst hs.
  unfold remove_transaction, mbind, eff_bind, with_lock, get, modify, mret, eff_ret, emit. simpl.
  destruct (transactions_ p !! h) as [e|] eqn:E.
  - destruct on_relock, (on_transaction_removed_ p); simpl; do 2 eexists; (split; [reflexivity|]); simpl;
      (split; [done|]); (split; [done|]); (split; [intros a n; apply nonce_lookup_remove|]); (split; [|done]);
      apply (rebuild_queue_perm (drop_entry h e p)).
  - destruct on_relock; simpl; do 2 eexists; (split; [reflexivity|]); simpl; (split; [by rewrite delete_id|done]).
Qed.
(** Replace-by-fee loses transactions.  When the sender has a pooled
    transaction with a higher nonce, a replacement that pays enough is refused as
    invalid after the old transaction has been erased: the pool keeps neither. *)
Theorem replace_loses_old (tx tx' : Transaction) (h old : Hash) (e : MempoolEntry) (n : Z) (w : world Mempool pool_event) :
  pool_inv (obj w) -> held w = [] -> Transaction.calculate_hash tx = (h, tx') ->
  nonce_lookup (obj w) (get_from tx') (get_nonce tx') = Some old -> transactions_ (obj w) !! old = Some e ->
  check_replacement_policy (transaction e) tx' = SUCCESS ->
  is_Some (nonce_lookup (obj w) (get_from tx') n) -> get_nonce tx' < n ->
  exists w', replace_transaction tx w = Ret (INVALID_TRANSACTION, w')
    /\ transactions_ (obj w') = delete old (transactions_ (obj w)).
Proof.
  intros Hp Hh Hc Hold He Hpol Hn Hlt.
  assert (V : validate_transaction (drop_entry old e (obj w)) tx' = false).
  { apply not_true_iff_false. intros (_ & _ & Hf)%validate_transaction_parts.
    specialize (Hf n). rewrite nonce_lookup_drop in Hf.
    destruct (inv_sound _ Hp _ _ _ Hold) as (e' & He' & _ & Hne). rewrite He in He'. injection He' as <-.
    rewrite decide_False in Hf by (intros [_ ->]; lia). specialize (Hf Hn). lia. }
  unfold replace_transaction. rewrite Hc. unfold nonce_lookup in Hold.
  destruct w as [p hs tk lg]. simpl in *. subst hs.
  destruct (account_nonces_ p !! get_from tx') as [acc|] eqn:Ha; [|done]. simpl in Hold.
  exists (mkWorld (drop_entry old e p) [] tk lg). split; [|done].
  unfold mbind, eff_bind, with_lock, get, modify, mret, eff_ret. simpl.
  destruct on_relock; rewrite Ha, Hold, He, Hpol, decide_False by tauto; simpl;
    fold (drop_entry old e p); by rewrite V.
Qed.

(** C15: block assembly.  The selected transactions are pooled, at most
    [max_count], in the order of the priority queue, hence by falling score, and
    their gas adds up to at most the limit as long as no single addition can
    exceed 64 bits. *)
Theorem block_selection (max_count : nat) (max_gas : Z) (w : world Mempool pool_event) :
  pool_core (obj w) -> held w = [] ->
  exists r picks, get_transactions_for_block max_count max_gas w = Ret (r, w)
    /\ (length r <= max_count)%nat
    /\ picked (transactions_ (obj w)) picks r /\ picks `sublist_of` priority_queue_ (obj w)
    /\ (Forall score_ok (priority_queue_ (obj w)) -> queue_ordered picks)
    /\ ((forall h e, transactions_ (obj w) !! h = Some e ->
           0 <= get_gas_limit (transaction e) /\ get_gas_limit (transaction e) + max_gas < U64_MOD) ->
        0 <= max_gas -> gas_total r <= max_gas).
Proof.
  intros Hp Hh. set (r := drain_gas (transactions_ (obj w)) max_count max_gas 0 (priority_queue_ (obj w))).
  destruct (drain_gas_picks (transactions_ (obj w)) max_count max_gas 0 (priority_queue_ (obj w))) as (picks & H1 & H2 & H3).
  exists r, picks. split_and!; try done.
  - destruct w as [p hs tk lg]. simpl in *. subst hs.
    unfold get_transactions_for_block, mbind, eff_bind, with_lock, get, mret, eff_ret. simpl. by destruct on_relock.
  - intros Hs. eapply sublist_ordered; [done|]. by apply (inv_sorted _ Hp).
  - intros Hg Hm. pose proof (drain_gas_total (transactions_ (obj w)) max_count max_gas 0 (priority_queue_ (obj w)) Hg).
    unfold r. lia.
Qed.

(** C18: fee-based eviction takes the right transactions.  Below the configured fill
    level it does nothing; otherwise the victims are as many pooled transactions as the
    pool has above 80% of its capacity (a 64-bit difference, at most all), and none
    that stays has a lower (score, hash) pair than a victim, scores being numbers.  With
    victims to remove, the loop locks the mutex a second time: undefined behaviour under
    the standard's rule; under a mutex its owner may lock again the victims go, and
    nothing else does. *)
Theorem eviction_removes_lowest (w : world Mempool pool_event) :
  config_typed (config_ (obj w)) -> held w = [] ->
  (forall h e, transactions_ (obj w) !! h = Some e -> is_nan (calculate_score (priority e)) = false) ->
  exists vs t, target_count (config_ (obj w)) = Ret t
    /\ Z.of_nat (length vs) = (if below_threshold (obj w) then 0 else Z.min (pool_size (obj w) - t)%u64 (pool_size (obj w)))
    /\ NoDup vs /\ (forall h, h ∈ vs -> is_Some (transactions_ (obj w) !! h))
    /\ (forall h e h' e', transactions_ (obj w) !! h = Some e -> h ∈ vs -> transactions_ (obj w) !! h' = Some e' -> h' ∉ vs ->
          pair_ltb (queue_entry (h', e')) (queue_entry (h, e)) = false)
    /\ match on_relock, vs with
       | relock_undefined, _ :: _ => evict_low_fee_transactions w = Undefined
       | _, _ => exists w', evict_low_fee_transactions w = Ret (tt, w')
           /\ forall h, transactions_ (obj w') !! h = if decide (h ∈ vs) then None else transactions_ (obj w) !! h
       end.
Proof.
  intros Hc Hh Hnum. destruct (target_defined _ Hc) as [t Ht]. exists (low_fee_victims (obj w)), t. split; [done|].
  assert (Hvs : low_fee_victims (obj w) = if below_threshold (obj w) then [] else select_transactions_to_evict (pool_size (obj w) - t)%u64 (obj w))
    by (unfold low_fee_victims; by rewrite Ht).
  split_and!.
  - rewrite Hvs. destruct (below_threshold (obj w)); [done|]. destruct (victims_split (pool_size (obj w) - t)%u64 (obj w)) as (vs & ss & _ & -> & Hlen).
    rewrite length_map, Hlen. pose proof (u64_range (pool_size (obj w) - t)) as [? _]. unfold pool_size, u64_sub in *. lia.
  - rewrite Hvs. destruct (below_threshold (obj w)); [constructor|apply victims_pooled].
  - rewrite Hvs. destruct (below_threshold (obj w)); [intros h []%not_elem_of_nil|apply victims_pooled].
  - rewrite Hvs. destruct (below_threshold (obj w)); [intros ? ? ? ? _ []%not_elem_of_nil|]. intros. by eapply select_best.
  - assert (Hev : wp evict_low_fee_transactions (fun _ w' => obj w' = after_removals (low_fee_victims (obj w)) (obj w)) w) by (by apply wp_evict_low_fee).
    assert (Hgo : (exists w', evict_low_fee_transactions w = Ret (tt, w') /\ obj w' = after_removals (low_fee_victims (obj w)) (obj w)) ->
      exists w', evict_low_fee_transactions w = Ret (tt, w')
        /\ forall h, transactions_ (obj w') !! h = if decide (h ∈ low_fee_victims (obj w)) then None else transactions_ (obj w) !! h).
    { intros (w' & Hrun & Ho). exists w'. split; [done|]. intros h. by rewrite Ho, after_removals_lookup. }
    destruct on_relock eqn:Hn; [|destruct (wp_returns _ _ _ Hn Hev) as ([] & w' & ?); apply Hgo; by exists w'].
    destruct env as [pol clk]. cbn in Hn. subst pol. pose proof (evict_low_fee_std clk w Hc Hh) as Hs.
    destruct (low_fee_victims (obj w)) eqn:Ev; [apply Hgo; exists w; by split|exact Hs].
Qed.

(** Age-based eviction keeps exactly the transactions whose age, computed
    with 64-bit wrap-around from the clock reading of the call, is at most an
    hour; removing one locks the mutex again. *)
Theorem expired_eviction_exact (w : world Mempool pool_event) :
  held w = [] ->
  match on_relock, expired_victims (u64 (clock (ticks w))) (obj w) with
  | relock_undefined, _ :: _ => evict_expired_transactions w = Undefined
  | _, _ => exists w', evict_expired_transactions w = Ret (tt, w')
    /\ forall h e, transactions_ (obj w') !! h = Some e
         <-> transactions_ (obj w) !! h = Some e /\ (u64 (clock (ticks w)) - added_timestamp e)%u64 <= 3600
  end.
Proof.
  intros Hh. set (t := u64 (clock (ticks w))).
  assert (Hgo : (exists w', evict_expired_transactions w = Ret (tt, w') /\ obj w' = after_removals (expired_victims t (obj w)) (obj w)) ->
    exists w', evict_expired_transactions w = Ret (tt, w') /\ forall h e, transactions_ (obj w') !! h = Some e
         <-> transactions_ (obj w) !! h = Some e /\ (t - added_timestamp e)%u64 <= 3600).
  { intros (w' & Hrun & Ho). exists w'. split; [done|]. intros h e. rewrite Ho, after_removals_lookup.
    case_decide as Hd; rewrite expired_victims_elem in Hd; unfold is_expired in Hd.
    - destruct Hd as (e0 & He0 & Hx%Z.ltb_lt). split; [done|]. intros [He ?]. rewrite He in He0. injection He0 as <-. lia.
    - split; [|tauto]. intros He. split; [done|]. apply Z.nlt_ge. intros Hx. apply Hd. exists e. split; [done|]. by apply Z.ltb_lt. }
  assert (Hwp : wp evict_expired_transactions (fun _ w' => obj w' = after_removals (expired_victims t (obj w)) (obj w)) w) by (by apply wp_evict_expired).
  destruct on_relock eqn:Hn; [|destruct (wp_returns _ _ _ Hn Hwp) as ([] & w' & ?); apply Hgo; by exists w'].
  destruct env as [pol clk]. cbn in Hn. subst pol. pose proof (evict_expired_std clk w Hh) as Hs. change (u64 (clk (ticks w))) with t in Hs.
  destruct (expired_victims t (obj w)) eqn:Ev; [apply Hgo; eexists; by split|exact Hs].
Qed.

(** The statistics of a non-empty pool: the number and the bytes of the pooled
    transactions, the least and the largest gas price among them; and
    [oldest_transaction_age] is the age of the youngest one. *)
Theorem stats_exact (w : world Mempool pool_event) :
  pool_inv (obj w) -> held w = [] -> transactions_ (obj w) <> ∅ ->
  let t := u64 (clock (ticks w)) in
  exists st w', get_stats w = Ret (st, w') /\ obj w' = obj w
    /\ transaction_count st = pool_size (obj w) /\ total_size_bytes st = u64 (pool_bytes (obj w))
    /\ (forall h e, transactions_ (obj w) !! h = Some e ->
          stats_min_fee_per_gas st <= get_gas_price (transaction e) <= stats_max_fee_per_gas st
          /\ oldest_transaction_age st <= (t - added_timestamp e)%u64)
    /\ (exists h e, transactions_ (obj w) !! h = Some e /\ get_gas_price (transaction e) = stats_min_fee_per_gas st)
    /\ (exists h e, transactions_ (obj w) !! h = Some e /\ get_gas_price (transaction e) = stats_max_fee_per_gas st)
    /\ (exists h e, transactions_ (obj w) !! h = Some e /\ (t - added_timestamp e)%u64 = oldest_transaction_age st).
Proof.
  intros Hp Hh Hne t. destruct w as [p hs tk lg]. simpl in *. subst hs.
  assert (Hin : forall kv, kv ∈ iter (transactions_ p) <-> transactions_ p !! fst kv = Some (snd kv)).
  { intros [h e]. rewrite iter_perm. apply elem_of_map_to_list. }
  assert (Hpos : forall kv, kv ∈ iter (transactions_ p) -> 0 < price_of kv).
  { intros kv Hkv%Hin. apply (inv_valid _ Hp) in Hkv as [Hv _]. by apply valid_gas_price. }
  pose proof (stats_fold_spec t (iter (transactions_ p)) Hpos) as Hs.
  assert (Hnil : iter (transactions_ p) <> []).
  { intros Hnil. apply Hne, map_to_list_empty_iff, Permutation_nil_r. rewrite <- iter_perm. by rewrite Hnil. }
  destruct (fold_left (stats_step t) (iter (transactions_ p)) (0, 0, U64_MAX, 0, 0)) as [[[[ts tf] ma] lo] hi] eqn:F.
  destruct Hs as (Hts & Hall & [[? _]|(Hma & Hlo & Hhi)]); [done|].
  exists (mkStats (pool_size p) ts lo hi (ddiv (d_of_Z tf) (d_of_Z (pool_size p))) ma), (mkWorld p [] (S tk) lg).
  split.
  { unfold get_stats, get_current_timestamp, mbind, eff_bind, with_lock, get, read_clock, mret, eff_ret. simpl.
    destruct on_relock; rewrite decide_False by done; cbn [ticks]; change (u64 (clock tk)) with t; by rewrite F. }
  simpl. split; [done|]. split; [done|].
  split; [by rewrite Hts, (bytes_of_perm _ _ (iter_perm _ _ _ _ _))|].
  split; [intros h e He; specialize (Hall (h, e)); rewrite Hin in Hall; specialize (Hall He); unfold price_of, age_of in Hall; simpl in Hall; lia|].
  split_and!; [destruct Hlo as ([h e] & Hk%Hin & ->)|destruct Hhi as ([h e] & Hk%Hin & ->)|destruct Hma as ([h e] & Hk%Hin & ->)];
    exists h, e; done.
Qed.
End Properties.

(** ** The locking rule of the standard *)

Section StandardPool.
Context (clk : nat -> Z) {io : IterOrder}.
#[local] Instance standard_rule : Env := std_env clk.

Lemma std_run_op_empty op (w w' : world Mempool pool_event) :
  pool_ok w -> held w = [] -> transactions_ (obj w) = ∅ -> run_op op w = Ret (tt, w') -> transactions_ (obj w') = ∅.
Proof.
  intros Hok Hh He Hrun.
  assert (Hwp : (forall tx, op <> OpAdd tx) -> wp (run_op op) (fun _ w' => transactions_ (obj w') = ∅) w).
  { intros Hna. destruct op as [c|tx|h|tx| | | | |b|b]; simpl run_op; try by destruct (Hna tx).
    - unfold set_config. by wp_go.
    - wp_step. apply wp_remove. intros err lg _ _. wp_go. rewrite after_remove_transactions, He. apply delete_empty.
    - wp_step. destruct (Transaction.calculate_hash tx) as [h tx'] eqn:E. apply (wp_replace tx h tx'); [done|done|].
      intros old e _ Hl. by rewrite He in Hl.
    - apply wp_evict_expired. intros lg. apply map_empty. intros h. simpl. by apply removals_none; rewrite He.
    - apply wp_evict_low_fee; [apply Hok|]. intros lg. apply map_empty. intros h. simpl. by apply removals_none; rewrite He.
    - unfold clear. by wp_go.
    - wp_step. unfold get_stats. wp_go. rewrite decide_True by done. by wp_go.
    - unfold set_transaction_added_callback. by wp_go.
    - unfold set_transaction_removed_callback. by wp_go. }
  destruct op as [c|tx|h|tx| | | | |b|b];
    try (by apply (wp_ret_inv _ _ _ _ _ (Hwp ltac:(congruence)) Hrun)).
  simpl in Hrun. destruct (Transaction.calculate_hash tx) as [h tx'] eqn:E.
  unfold mbind, eff_bind in Hrun. rewrite (add_transaction_std clk tx h tx') in Hrun by done.
  rewrite He, lookup_empty, decide_False in Hrun by (by intros [? ?]).
  destruct (validate_transaction (obj w) tx'); [done|]. unfold mret, eff_ret in Hrun. by simplify_eq.
Qed.

(** Under the standard's rule for [std::shared_mutex] no transaction is ever added: as
    long as no call is undefined, the pool is empty. *)
Theorem standard_pool_stays_empty (c : MempoolConfig) (b : bool) (w : world Mempool pool_event) :
  pool_reach c b w -> transactions_ (obj w) = ∅.
Proof.
  induction 1 as [Hc|b w op w' Hr IH Hop Hrun]; [done|].
  apply reach_ok in Hr as (Hok & Hh & _). by eapply std_run_op_empty.
Qed.
End StandardPool.

(** ** Concrete runs *)

(** A refused replacement leaves its victim's entry in the priority queue, so
    pooling the same transaction again makes block assembly deliver it twice. *)
Theorem block_contains_duplicate :
  let tx := demo_tx 1 7 10 5 in
  let w := demo_run demo_config [OpAdd tx; OpReplace (demo_tx 1 7 1000 5); OpAdd tx] in
  exists tx', @get_transactions_for_block demo_env 10 1000000 w = Ret ([tx'; tx'], w)
    /\ Transaction.data_ tx' = Transaction.data_ tx
    /\ base.size (transactions_ (obj w)) = 1%nat.
Proof. eexists. vm_compute. repeat split. Qed.

(** With an eviction threshold below the fixed 80% target the number to evict
    underflows: a pool half full is emptied although it is under the target. *)
Theorem eviction_count_underflow :
  let c := mkMempoolConfig 1000000 10 1 100 60 (dlit 5 10) in
  let w := demo_run c [OpAdd (demo_tx 1 7 10 5); OpAdd (demo_tx 2 7 10 5); OpAdd (demo_tx 3 7 10 5);
                       OpAdd (demo_tx 4 7 10 5); OpAdd (demo_tx 5 7 10 5)] in
  pool_size (obj w) = 5 /\ target_count c = Ret 8
  /\ exists w', @evict_low_fee_transactions demo_env map_order w = Ret (tt, w') /\ pool_size (obj w') = 0.
Proof. vm_compute. split; [done|]. split; [done|]. eexists. split; reflexivity. Qed.

(** A replacement that carries the hash of a third pooled transaction overwrites it
    in the storage and leaves its nonce behind in the index: the account then has a
    nonce that belongs to no pooled transaction, which blocks lower nonces and
    cannot be replaced away. *)
Theorem clashing_replacement_corrupts_index :
  let w := demo_run demo_config [OpAdd (demo_tx 1 7 10 5); OpAdd (demo_tx 1 8 10 6); OpReplace (demo_tx 1 7 20 6)] in
  pool_size (obj w) = 1
  /\ nonce_lookup (obj w) (demo_address 1) 5 = Some (demo_hash 1 7)
  /\ (get_nonce ∘ transaction <$> transactions_ (obj w) !! demo_hash 1 7) = Some 6
  /\ ~ index_sound (obj w).
Proof.
  cbn zeta. set (w := demo_run _ _). assert (H5 : nonce_lookup (obj w) (demo_address 1) 5 = Some (demo_hash 1 7)) by (vm_compute; reflexivity).
  assert (H6 : (get_nonce ∘ transaction <$> transactions_ (obj w) !! demo_hash 1 7) = Some 6) by (vm_compute; reflexivity).
  split_and!; [vm_compute; reflexivity|done|done|]. intros Hs. destruct (Hs _ _ _ H5) as (e & He & _ & Hn). rewrite He in H6. cbn in H6. congruence.
Qed.

(** ** Witnesses *)

Lemma demo_reach : @pool_reach demo_env map_order demo_config true demo_world.
Proof.
  pose (w1 := demo_run demo_config (take 1 demo_ops)). pose (w2 := demo_run demo_config (take 2 demo_ops)).
  refine (@reach_call demo_env map_order demo_config true w2 (OpAdd (demo_tx 2 7 20 1)) demo_world _ I ltac:(vm_compute; reflexivity)).
  refine (@reach_call demo_env map_order demo_config true w1 (OpAdd (demo_tx 1 8 30 6)) w2 _ I ltac:(vm_compute; reflexivity)).
  refine (@reach_call demo_env map_order demo_config true _ (OpAdd (demo_tx 1 7 10 5)) w1 (reach_init _ _) I ltac:(vm_compute; reflexivity)).
  decide_now.
Qed.

Lemma demo_ok : pool_inv (obj demo_world) /\ config_typed (config_ (obj demo_world)).
Proof. destruct (@reach_ok demo_env map_order demo_config true demo_world demo_reach) as ([Hc Ht] & _ & Hs). split; [split; auto|done]. Qed.

Lemma demo_scores h e :
  transactions_ (obj demo_world) !! h = Some e -> is_nan (calculate_score (priority e)) = false.
Proof.
  intros He. assert (H : forallb (fun kv => negb (is_nan (calculate_score (priority (snd kv))))) (map_to_list (transactions_ (obj demo_world))) = true)
    by (vm_compute; reflexivity).
  rewrite forallb_forall in H. apply elem_of_map_to_list, list_elem_of_In, H in He. by apply negb_true_iff in He.
Qed.

Lemma mempool_invariant_witness :
  pool_size (obj demo_world) = 3 /\ pool_core (obj demo_world) /\ held demo_world = [] /\ index_sound (obj demo_world).
Proof.
  split; [vm_compute; reflexivity|]. destruct (@mempool_invariant demo_env map_order demo_config true demo_world demo_reach) as (H1 & H2 & H3). auto.
Defined.

Lemma mempool_progress_witness :
  (exists w', @run_op demo_std map_order (OpRemove (demo_hash 1 7)) demo_world = Ret (tt, w') /\ pool_core (obj w') /\ held w' = [])
  /\ @run_op demo_std map_order (OpAdd (demo_tx 3 7 40 0)) demo_world = Undefined.
Proof.
  split.
  - apply (@mempool_progress demo_std map_order (OpRemove (demo_hash 1 7)) demo_world); [apply demo_ok|apply demo_ok|reflexivity|exact I].
  - pose proof (@mempool_progress demo_std map_order (OpAdd (demo_tx 3 7 40 0)) demo_world) as H.
    replace (relocks _ _ && _) with true in H by (vm_compute; reflexivity). apply H; [apply demo_ok|apply demo_ok|reflexivity|exact I].
Defined.

Lemma add_transaction_outcome_witness :
  @add_transaction demo_std map_order (demo_tx 3 7 40 0) demo_world = Undefined
  /\ exists err w', @add_transaction demo_env map_order (demo_tx 3 7 40 0) demo_world = Ret (err, w') /\ err = SUCCESS
    /\ pool_size (obj w') <= max_transactions (config_ (obj w')).
Proof.
  set (tx' := snd (Transaction.calculate_hash (demo_tx 3 7 40 0))).
  assert (Hd : ~ is_Some (transactions_ (obj demo_world) !! demo_hash 3 7)) by (apply eq_None_not_Some; vm_compute; reflexivity).
  assert (Hv : validate_transaction (obj demo_world) tx' = true) by (vm_compute; reflexivity).
  assert (Hf : pool_full (@make_room map_order (obj demo_world)) = false) by (vm_compute; reflexivity).
  split.
  - pose proof (@add_transaction_outcome demo_std map_order (demo_tx 3 7 40 0) tx' (demo_hash 3 7) demo_world (proj2 demo_ok) eq_refl eq_refl) as H.
    rewrite decide_False, Hv in H by exact Hd. exact H.
  - pose proof (@add_transaction_outcome demo_env map_order (demo_tx 3 7 40 0) tx' (demo_hash 3 7) demo_world (proj2 demo_ok) eq_refl eq_refl) as H.
    rewrite decide_False, Hv in H by exact Hd. destruct H as (err & w' & Hrun & Hpost). rewrite Hf in Hpost.
    exists err, w'. split; [exact Hrun|]. destruct Hpost as (He & _ & _ & Hs). split; [exact He|exact Hs].
Defined.

Lemma remove_transaction_outcome_witness :
  exists err w', @remove_transaction demo_env map_order (demo_hash 1 7) demo_world = Ret (err, w')
    /\ transactions_ (obj w') = delete (demo_hash 1 7) (transactions_ (obj demo_world)).
Proof.
  destruct (@remove_transaction_outcome demo_env map_order (demo_hash 1 7) demo_world) as (err & w' & Hrun & Ht & _);
    [apply demo_ok|vm_compute; reflexivity|]. exists err, w'. split; [exact Hrun|exact Ht].
Defined.

Lemma replace_loses_old_witness :
  exists w', @replace_transaction demo_env map_order (demo_tx 1 7 20 5) demo_world = Ret (INVALID_TRANSACTION, w')
    /\ transactions_ (obj w') = delete (demo_hash 1 7) (transactions_ (obj demo_world)).
Proof.
  destruct (transactions_ (obj demo_world) !! demo_hash 1 7) as [e|] eqn:He; [|vm_compute in He; discriminate].
  apply (@replace_loses_old demo_env map_order (demo_tx 1 7 20 5) (snd (Transaction.calculate_hash (demo_tx 1 7 20 5)))
           (demo_hash 1 7) (demo_hash 1 7) e 6 demo_world);
    [apply demo_ok|vm_compute; reflexivity|vm_compute; reflexivity|vm_compute; reflexivity|exact He| | |vm_compute; reflexivity].
  - vm_compute in He. injection He as <-. vm_compute. reflexivity.
  - vm_compute. eexists. reflexivity.
Defined.

Lemma block_selection_witness :
  exists r picks, @get_transactions_for_block demo_env 2 50000 demo_world = Ret (r, demo_world)
    /\ (length r <= 2)%nat /\ picked (transactions_ (obj demo_world)) picks r.
Proof.
  destruct (@block_selection demo_env 2 50000 demo_world) as (r & picks & H1 & H2 & H3 & _);
    [apply demo_ok|vm_compute; reflexivity|]. exists r, picks. split; [exact H1|]. split; [exact H2|exact H3].
Defined.

(** A pool of ten with nine transactions: one goes. *)
Definition demo_crowd : world Mempool pool_event :=
  demo_run (mkMempoolConfig 1000000 10 1 100 60 (dlit 9 10)) (map (fun k => OpAdd (demo_tx k 7 (10 + k) 5)) [1; 2; 3; 4; 5; 6; 7; 8; 9]).

Lemma eviction_removes_lowest_witness :
  @evict_low_fee_transactions demo_std map_order demo_crowd = Undefined
  /\ exists vs w', length vs = 1%nat /\ @evict_low_fee_transactions demo_env map_order demo_crowd = Ret (tt, w')
     /\ forall h, transactions_ (obj w') !! h = if decide (h ∈ vs) then None else transactions_ (obj demo_crowd) !! h.
Proof.
  assert (Hn : forall h e, transactions_ (obj demo_crowd) !! h = Some e -> is_nan (calculate_score (priority e)) = false).
  { intros h e He. assert (H : forallb (fun kv => negb (is_nan (calculate_score (priority (snd kv))))) (map_to_list (transactions_ (obj demo_crowd))) = true)
      by (vm_compute; reflexivity).
    rewrite forallb_forall in H. apply elem_of_map_to_list, list_elem_of_In, H in He. by apply negb_true_iff in He. }
  assert (Ht : target_count (config_ (obj demo_crowd)) = Ret 8) by (vm_compute; reflexivity).
  split.
  - destruct (@eviction_removes_lowest demo_std map_order demo_crowd) as (vs & t & E & Hl & _ & _ & _ & H); [decide_now|vm_compute; reflexivity|exact Hn|].
    rewrite Ht in E. injection E as <-. destruct vs; [vm_compute in Hl; discriminate|exact H].
  - destruct (@eviction_removes_lowest demo_env map_order demo_crowd) as (vs & t & E & Hl & _ & _ & _ & w' & H1 & H2); [decide_now|vm_compute; reflexivity|exact Hn|].
    rewrite Ht in E. injection E as <-. exists vs, w'. split; [|split; [exact H1|exact H2]].
    apply Nat2Z.inj. rewrite Hl. vm_compute. reflexivity.
Defined.

Lemma expired_eviction_exact_witness :
  exists w', @evict_expired_transactions (recursive_env (fun n => 5000)) map_order demo_world = Ret (tt, w')
    /\ transactions_ (obj w') !! demo_hash 1 7 = None.
Proof.
  destruct (@expired_eviction_exact (recursive_env (fun n => 5000)) map_order demo_world eq_refl) as (w' & H1 & H2).
  exists w'. split; [exact H1|].
  destruct (transactions_ (obj w') !! demo_hash 1 7) as [e|] eqn:He; [|reflexivity].
  apply H2 in He as [He Hage]. vm_compute in He. injection He as <-. vm_compute in Hage. by destruct Hage.
Defined.

Lemma stats_exact_witness :
  exists st w', @get_stats demo_env map_order demo_world = Ret (st, w') /\ transaction_count st = 3.
Proof.
  destruct (@stats_exact demo_env map_order demo_world) as (st & w' & H1 & _ & H2 & _);
    [apply demo_ok|vm_compute; reflexivity|vm_compute; discriminate|].
  exists st, w'. split; [exact H1|]. rewrite H2. vm_compute. reflexivity.
Defined.

Lemma standard_pool_stays_empty_witness :
  transactions_ (@obj Mempool pool_event (idle (create_mempool demo_config))) = ∅.
Proof.
  apply (@standard_pool_stays_empty (fun n => 1000 + Z.of_nat n) map_order demo_config true). apply reach_init. decide_now.
Defined.
