(* ===== verification/MempoolSpec.v ===== *)
(** * The pool as an abstract book of transactions

    [MempoolImpl] keeps a table by hash, an index by account and nonce and a
    priority queue.  What it promises its callers is simpler: a book that holds at
    most one transaction per sender and nonce, and the claims to slots of the book that
    decide what may enter.  [spec_step] is that contract as a labelled transition
    system, a label being a call and the error code it returns; the refinement theorem
    shows that every call of the implementation is a step of the contract.  Eviction is
    the contract's non-determinism: it may drop any transactions.  Every transaction of
    the book claims its slot; a replacement that carries the hash of a third one
    overwrites that one, and its claim stays.

    [MempoolLaws] is the interface of mempool.hpp for its clients: an implementation
    with its book; [select_transactions_for_block] is proved against it. *)

From stdpp Require Import base list gmap numbers strings sorting sets relations.
From Stdlib Require Import ZArith Lia Ascii.
From S2P Require Import Prelude CString Floats Sorting Effects Hash Address Amount Transaction Block Mempool MempoolInv MempoolProps.

(** ** The book *)

Abbreviation slot := (Address * Z)%type (only parsing).
Definition slot_of (tx : Transaction) : slot := (get_from tx, get_nonce tx).

Record pool_spec : Type := mkSpec { sp_config : MempoolConfig; sp_book : gmap slot Transaction; sp_claims : gmap slot Hash }.

(** What a transaction must satisfy to enter. *)
Definition admissible (s : pool_spec) (tx : Transaction) : Prop :=
  Transaction.is_valid tx = true /\ is_too_large tx = false
  /\ min_fee_per_gas (sp_config s) <= get_gas_price tx <= max_fee_per_gas (sp_config s)
  /\ forall n, is_Some (sp_claims s !! (get_from tx, n)) -> n < get_nonce tx.

Definition has_hash (h : Hash) (tx : Transaction) : Prop := fst (Transaction.calculate_hash tx) = h.
#[export] Instance has_hash_dec h tx : Decision (has_hash h tx).
Proof. unfold has_hash. apply _. Defined.
Definition book_lacks (b : gmap slot Transaction) (h : Hash) : Prop := forall k tx, b !! k = Some tx -> ~ has_hash h tx.

(** Taking the transaction of a slot out; writing one in, which replaces whatever has
    the same hash. *)
Definition sp_drop (k : slot) (s : pool_spec) : pool_spec := mkSpec (sp_config s) (delete k (sp_book s)) (delete k (sp_claims s)).
Definition sp_write (h : Hash) (tx : Transaction) (s : pool_spec) : pool_spec :=
  mkSpec (sp_config s) (<[ slot_of tx := tx ]> (filter (fun kt => ~ has_hash h (snd kt)) (sp_book s))) (<[ slot_of tx := h ]> (sp_claims s)).
(** Some transactions are gone, with their claims. *)
Definition sp_evicted (s s' : pool_spec) : Prop :=
  sp_config s' = sp_config s /\ sp_book s' ⊆ sp_book s
  /\ forall k, sp_claims s' !! k = if decide (is_Some (sp_book s !! k) /\ sp_book s' !! k = None) then None else sp_claims s !! k.

(** The transaction a replacement replaces: the one whose hash claims the slot. *)
Definition sp_target (s : pool_spec) (tx : Transaction) (k : slot) (old : Transaction) : Prop :=
  exists h, sp_claims s !! slot_of tx = Some h /\ sp_book s !! k = Some old /\ has_hash h old.

(** The contract: a call, its answer, and what becomes of the book. *)
Inductive spec_step (s : pool_spec) : pool_op -> option MempoolError -> pool_spec -> Prop :=
  | sp_config_set c : spec_step s (OpSetConfig c) None (mkSpec c (sp_book s) (sp_claims s))
  | sp_add_exists tx : ~ book_lacks (sp_book s) (fst (Transaction.calculate_hash tx)) ->
      spec_step s (OpAdd tx) (Some TRANSACTION_EXISTS) s
  | sp_add_invalid tx : ~ admissible s (snd (Transaction.calculate_hash tx)) -> spec_step s (OpAdd tx) (Some INVALID_TRANSACTION) s
  | sp_add_full tx s' : admissible s (snd (Transaction.calculate_hash tx)) -> sp_evicted s s' -> spec_step s (OpAdd tx) (Some POOL_FULL) s'
  | sp_add_done tx h tx' s' : Transaction.calculate_hash tx = (h, tx') -> admissible s tx' -> book_lacks (sp_book s) h ->
      sp_evicted s s' -> Z.of_nat (base.size (sp_book s')) < max_transactions (sp_config s) ->
      spec_step s (OpAdd tx) (Some SUCCESS) (sp_write h tx' s')
  | sp_remove_unknown h : book_lacks (sp_book s) h -> spec_step s (OpRemove h) (Some INVALID_TRANSACTION) s
  | sp_remove_done h k tx : sp_book s !! k = Some tx -> has_hash h tx -> spec_step s (OpRemove h) (Some SUCCESS) (sp_drop k s)
  | sp_replace_unknown tx : (forall k old, ~ sp_target s tx k old) -> spec_step s (OpReplace tx) (Some INVALID_TRANSACTION) s
  | sp_replace_refused tx k old err : sp_target s tx k old -> check_replacement_policy old tx = err -> err <> SUCCESS ->
      spec_step s (OpReplace tx) (Some err) s
  | sp_replace_lost tx k old : sp_target s tx k old -> check_replacement_policy old tx = SUCCESS ->
      ~ admissible (sp_drop k s) (snd (Transaction.calculate_hash tx)) ->
      spec_step s (OpReplace tx) (Some INVALID_TRANSACTION) (sp_drop k s)
  | sp_replace_done tx h tx' k old : Transaction.calculate_hash tx = (h, tx') -> sp_target s tx k old ->
      check_replacement_policy old tx = SUCCESS -> admissible (sp_drop k s) tx' ->
      spec_step s (OpReplace tx) (Some SUCCESS) (sp_write h tx' (sp_drop k s))
  | sp_evict_expired s' : sp_evicted s s' -> spec_step s OpEvictExpired None s'
  | sp_evict_low_fee s' : sp_evicted s s' -> spec_step s OpEvictLowFee None s'
  | sp_clear : spec_step s OpClear None (mkSpec (sp_config s) ∅ ∅)
  | sp_stats : spec_step s OpStats None s
  | sp_on_added b : spec_step s (OpSetAdded b) None s
  | sp_on_removed b : spec_step s (OpSetRemoved b) None s.

(** ** The contract's own invariant *)

Definition spec_ok (s : pool_spec) : Prop := forall k tx, sp_book s !! k = Some tx ->
  slot_of tx = k /\ Transaction.is_valid tx = true /\ is_too_large tx = false /\ exists h, has_hash h tx /\ sp_claims s !! k = Some h.

Lemma slot_fields tx tx' : slot_of tx = slot_of tx' -> get_from tx = get_from tx' /\ get_nonce tx = get_nonce tx'.
Proof. intros E. split; [exact (f_equal fst E)|exact (f_equal snd E)]. Qed.

Lemma slot_of_hash tx : slot_of (snd (Transaction.calculate_hash tx)) = slot_of tx.
Proof. unfold Transaction.calculate_hash. by destruct (cached_hash_ tx). Qed.

Lemma spec_ok_evicted s s' : sp_evicted s s' -> spec_ok s -> spec_ok s'.
Proof.
  intros (_ & Hb & Hc) Hs k tx Hk. pose proof (lookup_weaken _ _ _ _ Hk Hb) as Hk'. destruct (Hs k tx Hk') as (? & ? & ? & h & ? & ?).
  split_and!; try done. exists h. split; [done|]. rewrite Hc, decide_False; [done|]. rewrite Hk. by intros [_ ?].
Qed.

Lemma spec_ok_drop k s : spec_ok s -> spec_ok (sp_drop k s).
Proof.
  intros Hs k' tx H. cbn in H. apply lookup_delete_Some in H as [Hne H]. destruct (Hs k' tx H) as (? & ? & ? & h & ? & ?).
  split_and!; try done. exists h. split; [done|]. cbn. by rewrite lookup_delete_ne.
Qed.

Lemma admissible_unclaimed s tx : admissible s tx -> sp_claims s !! slot_of tx = None.
Proof. intros (_ & _ & _ & H). apply eq_None_not_Some. intros Hs. specialize (H _ Hs). lia. Qed.

Lemma spec_ok_write h tx s :
  spec_ok s -> has_hash h tx -> Transaction.is_valid tx = true -> is_too_large tx = false -> spec_ok (sp_write h tx s).
Proof.
  intros Hs Hh Hv Hl k tx' H. cbn in H |- *. apply lookup_insert_Some in H as [[<- <-]|[Hne H]].
  - split_and!; try done. exists h. split; [done|]. by rewrite lookup_insert_eq.
  - apply map_lookup_filter_Some in H as [H _]. destruct (Hs k tx' H) as (? & ? & ? & h' & ? & ?). split_and!; try done.
    exists h'. split; [done|]. by rewrite lookup_insert_ne.
Qed.

Lemma hash_of_kept tx h tx' : Transaction.calculate_hash tx = (h, tx') -> has_hash h tx'.
Proof. intros [H _]%calculate_hash_stable. unfold has_hash. by rewrite H. Qed.

Lemma spec_step_ok s op r s' : spec_step s op r s' -> spec_ok s -> spec_ok s'.
Proof.
  destruct 1 as [| | |tx s' _ He|tx h tx' s' Hh Ha _ He _| | | | | |tx h tx' k old Hh _ _ Ha| | | | | |]; intros Hs; try done;
    try (by eapply spec_ok_evicted); try (by apply spec_ok_drop).
  - destruct Ha as (? & ? & _). apply spec_ok_write; [by eapply spec_ok_evicted|by eapply hash_of_kept|done..].
  - destruct Ha as (? & ? & _). apply spec_ok_write; [by apply spec_ok_drop|by eapply hash_of_kept|done..].
Qed.

(** ** Abstraction *)

Definition book_list (p : Mempool) : list (slot * Transaction) :=
  map (fun he => (slot_of (transaction (snd he)), transaction (snd he))) (map_to_list (transactions_ p)).
Definition book (p : Mempool) : gmap slot Transaction := list_to_map (book_list p).
(** The two-level index, flat. *)
Definition claims (p : Mempool) : gmap slot Hash := map_uncurry (M1 := gmap Address) (M2 := gmap Z) (M12 := gmap slot) (account_nonces_ p).
Definition abstract (p : Mempool) : pool_spec := mkSpec (config_ p) (book p) (claims p).

Lemma claims_lookup p a n : claims p !! (a, n) = nonce_lookup p a n.
Proof. exact (lookup_map_uncurry (M1 := gmap Address) (M2 := gmap Z) (MC := gmap slot) (account_nonces_ p) a n). Qed.
Lemma claims_slot p tx : claims p !! slot_of tx = nonce_lookup p (get_from tx) (get_nonce tx).
Proof. apply claims_lookup. Qed.

Lemma book_nodup p : pool_core p -> NoDup (map fst (book_list p)).
Proof.
  intros Hp. unfold book_list. rewrite map_map. cbn. apply NoDup_fmap_2_strong; [|apply NoDup_map_to_list].
  intros [h e] [h' e'] H%elem_of_map_to_list H'%elem_of_map_to_list [E1 E2]%slot_fields. cbn in *.
  apply (inv_complete _ Hp) in H as I. apply (inv_complete _ Hp) in H' as I'.
  rewrite E1, E2, I' in I. injection I as <-. by simplify_eq.
Qed.

Lemma book_lookup p k tx :
  pool_core p -> book p !! k = Some tx <-> exists h e, transactions_ p !! h = Some e /\ transaction e = tx /\ slot_of tx = k.
Proof.
  intros Hp. unfold book. rewrite <- elem_of_list_to_map by (by apply book_nodup).
  unfold book_list. rewrite list_elem_of_fmap. split.
  - intros ([h e] & [= -> ->] & H%elem_of_map_to_list). by exists h, e.
  - intros (h & e & H & <- & <-). exists (h, e). split; [done|]. by apply elem_of_map_to_list.
Qed.

Lemma book_of_entry p h e : pool_core p -> transactions_ p !! h = Some e -> book p !! slot_of (transaction e) = Some (transaction e).
Proof. intros Hp He. apply book_lookup; [done|]. by exists h, e. Qed.

(** The slot and the entry of a transaction of the book. *)
Lemma book_entry p k tx h : pool_core p -> book p !! k = Some tx -> has_hash h tx ->
  exists e, transactions_ p !! h = Some e /\ transaction e = tx /\ slot_of tx = k.
Proof.
  intros Hp Hk Hh. apply book_lookup in Hk as (h' & e & He & <- & Hs); [|done]. exists e. split; [|done].
  apply (inv_key _ Hp) in He as Hkey. unfold has_hash in Hh. congruence.
Qed.

(** Slots are taken by one transaction. *)
Lemma slots_differ p h e h' e' : pool_core p -> transactions_ p !! h = Some e -> transactions_ p !! h' = Some e' ->
  h <> h' -> slot_of (transaction e) <> slot_of (transaction e').
Proof.
  intros Hp He He' Hne [E1 E2]%slot_fields. apply (inv_complete _ Hp) in He as I, He' as I'. rewrite E1, E2 in I. congruence.
Qed.

Lemma book_size p : pool_core p -> Z.of_nat (base.size (book p)) = pool_size p.
Proof.
  intros Hp. unfold book, pool_size. rewrite <- length_map_to_list, map_to_list_to_map by (by apply book_nodup).
  unfold book_list. by rewrite length_map, length_map_to_list.
Qed.

Lemma admissible_iff p tx : validate_transaction p tx = true <-> admissible (abstract p) tx.
Proof.
  unfold validate_transaction, validate_basic_properties, validate_fee, validate_size, validate_dependencies, admissible.
  rewrite !andb_true_iff, negb_true_iff, !Z.leb_le, validate_nonce_spec. cbn [sp_config sp_claims abstract].
  setoid_rewrite claims_lookup. tauto.
Qed.

Lemma not_admissible p tx : validate_transaction p tx = false -> ~ admissible (abstract p) tx.
Proof. intros Hv Ha. apply admissible_iff in Ha. congruence. Qed.

Lemma book_lacks_iff p h : pool_core p -> transactions_ p !! h = None <-> book_lacks (book p) h.
Proof.
  intros Hp. split.
  - intros Hn k tx Hk Hh. destruct (book_entry p k tx h Hp Hk Hh) as (e & He & _). congruence.
  - intros Hb. destruct (transactions_ p !! h) as [e|] eqn:He; [|done]. exfalso.
    apply (Hb _ _ (book_of_entry p h e Hp He)). by apply (inv_key _ Hp).
Qed.

(** ** The book after the updates of the implementation *)

Lemma abstract_drop p h e : pool_core p -> transactions_ p !! h = Some e -> abstract (drop_entry h e p) = sp_drop (slot_of (transaction e)) (abstract p).
Proof.
  intros Hp He. pose proof (core_drop _ _ _ Hp He) as Hd. unfold abstract, sp_drop. cbn [sp_config sp_book sp_claims]. f_equal; apply map_eq.
  - intros k. apply option_eq. intros tx. rewrite lookup_delete_Some, !book_lookup by done. split.
    + intros (h' & e' & H & <- & <-). cbn in H. apply lookup_delete_Some in H as [Hne H]. split; [|by exists h', e'].
      by apply (slots_differ p h e h' e').
    + intros (Hne & h' & e' & H & <- & <-). exists h', e'. split; [|done]. apply lookup_delete_Some. split; [|done].
      intros ->. rewrite He in H. by injection H as <-.
  - intros [a n]. rewrite claims_lookup, nonce_lookup_drop. case_decide as Hx.
    + destruct Hx as [-> ->]. symmetry. apply lookup_delete_eq.
    + rewrite lookup_delete_ne; [by rewrite claims_lookup|]. intros E. apply Hx. split; [exact (eq_sym (f_equal fst E))|exact (eq_sym (f_equal snd E))].
Qed.

Lemma abstract_put p q h tx t t' :
  pool_core p -> pool_core q -> has_hash h tx -> nonce_lookup p (get_from tx) (get_nonce tx) = None ->
  config_ q = config_ p -> transactions_ q = <[ h := new_entry tx t t' ]> (transactions_ p) ->
  (forall a n, nonce_lookup q a n = if decide (a = get_from tx /\ n = get_nonce tx) then Some h else nonce_lookup p a n) ->
  abstract q = sp_write h tx (abstract p).
Proof.
  intros Hp Hq Hh Hf Hc Ht Hl. unfold abstract, sp_write. cbn [sp_config sp_book sp_claims]. f_equal; [done|apply map_eq..].
  - intros k. apply option_eq. intros tx'. rewrite lookup_insert_Some, map_lookup_filter_Some, !book_lookup, Ht by done. split.
    + intros (h' & e' & H & <- & <-). apply lookup_insert_Some in H as [[<- <-]|[Hne H]]; [by left|right]. split_and!.
      * intros [E1 E2]%slot_fields. cbn in E1, E2. apply (inv_complete _ Hp) in H. rewrite <- E1, <- E2 in H. congruence.
      * by exists h', e'.
      * cbn. intros Hx. apply (inv_key _ Hp) in H. unfold has_hash in Hx. congruence.
    + intros [[<- <-]|(Hne & (h' & e' & H & <- & <-) & Hx)]; [exists h, (new_entry tx t t'); by rewrite lookup_insert_eq|].
      exists h', e'. split; [|done]. apply lookup_insert_Some. right. split; [|done]. intros <-. apply Hx. cbn. by apply (inv_key _ Hp).
  - intros [a n]. rewrite claims_lookup, Hl. case_decide as Hx.
    + destruct Hx as [-> ->]. symmetry. apply lookup_insert_eq.
    + rewrite lookup_insert_ne; [by rewrite claims_lookup|]. intros E. apply Hx. split; [exact (eq_sym (f_equal fst E))|exact (eq_sym (f_equal snd E))].
Qed.

(** Removing transactions is an eviction. *)
Lemma evicted_refl s : sp_evicted s s.
Proof. split_and!; try done. intros k. rewrite decide_False; [done|]. intros [[? E] ?]. congruence. Qed.

Lemma evicted_drop s s' k : sp_evicted s s' -> is_Some (sp_book s' !! k) -> sp_evicted s (sp_drop k s').
Proof.
  intros (Hc & Hb & Hl) [tx Hk]. split_and!; [done|etrans; [apply delete_subseteq|done]|]. intros k'. cbn.
  destruct (decide (k' = k)) as [->|Hne].
  - rewrite lookup_delete_eq. rewrite decide_True; [done|]. split; [by exists tx; eapply lookup_weaken|apply lookup_delete_eq].
  - by rewrite !lookup_delete_ne, Hl by done.
Qed.

Lemma evicted_removals `{io : IterOrder} hs p s : pool_core p -> sp_evicted s (abstract p) -> sp_evicted s (abstract (after_removals hs p)).
Proof.
  revert p. induction hs as [|h hs IH]; intros p Hp Hs; [done|]. apply IH; [by apply after_remove_core|]. unfold after_remove.
  destruct (transactions_ p !! h) as [e|] eqn:E; [|done].
  change (abstract (rebuild_priority_queue (drop_entry h e p))) with (abstract (drop_entry h e p)).
  rewrite (abstract_drop p h e) by done. apply evicted_drop; [done|]. eexists. by apply (book_of_entry p h).
Qed.

Lemma evicted_after `{io : IterOrder} hs p : pool_core p -> sp_evicted (abstract p) (abstract (after_removals hs p)).
Proof. intros Hp. apply evicted_removals; [done|apply evicted_refl]. Qed.

(** ** Calls with their answers *)

Section Calls.
Context {env : Env} {io : IterOrder}.
Implicit Types w : world Mempool pool_event.

Definition call (op : pool_op) : eff Mempool pool_event (option MempoolError) :=
  match op with
  | OpAdd tx => r ← add_transaction tx; mret (Some r)
  | OpRemove h => r ← remove_transaction h; mret (Some r)
  | OpReplace tx => r ← replace_transaction tx; mret (Some r)
  | _ => run_op op;; mret None
  end.

(** A call is a step of the contract. *)
Definition simulates (op : pool_op) (w : world Mempool pool_event) (r : option MempoolError) (w' : world Mempool pool_event) : Prop :=
  spec_step (abstract (obj w)) op r (abstract (obj w')).

Lemma make_room_evicts p : pool_core p -> sp_evicted (abstract p) (abstract (make_room p)).
Proof. intros Hp. destruct (make_room_cases p) as [-> | ->]; [apply evicted_refl|by apply evicted_after]. Qed.

Lemma pool_not_full p : pool_full p = false -> pool_size p < max_transactions (config_ p).
Proof. unfold pool_full. rewrite orb_false_iff. intros [H _]. by apply Z.leb_gt in H. Qed.

(** Admitting a transaction writes it into its slot. *)
Lemma abstract_added h tx t t' q :
  pool_core q -> has_hash h tx -> Transaction.is_valid tx = true -> is_too_large tx = false ->
  nonce_lookup q (get_from tx) (get_nonce tx) = None ->
  abstract (added_pool h (new_entry tx t t') q) = sp_write h tx (abstract q).
Proof.
  intros Hq Hh Hv Hl Hf. eapply abstract_put; try done; [by apply added_pool_core|].
  intros a n. exact (nonce_lookup_put h (new_entry tx t t') (set_queue _ q) a n).
Qed.

Lemma add_simulates tx w : pool_ok w -> wp (add_transaction tx) (fun r w' => simulates (OpAdd tx) w (Some r) w') w.
Proof.
  intros [Hp Hc]. destruct (Transaction.calculate_hash tx) as [h tx'] eqn:Hh. unfold simulates.
  assert (Eh : fst (Transaction.calculate_hash tx) = h) by (by rewrite Hh).
  assert (Et : snd (Transaction.calculate_hash tx) = tx') by (by rewrite Hh).
  apply (wp_add tx h tx'); try done.
  - intros [e He]. apply sp_add_exists. rewrite Eh. intros Hl. apply book_lacks_iff in Hl; [congruence|done].
  - intros _ Hv. apply sp_add_invalid. rewrite Et. by apply not_admissible.
  - intros Hn Hv tk lg. pose proof (make_room_evicts (obj w) Hp) as He.
    destruct (make_room_keeps (obj w) h _ _ Hp Hn (fresh_of_validate _ _ Hv)) as (Hmi & _ & Hmc & Hmn & Hmf). split.
    + intros _. apply sp_add_full; [rewrite Et; by apply admissible_iff|done].
    + intros Hfull t t'. cbn [obj]. apply validate_transaction_parts in Hv as Hparts. destruct Hparts as (? & ? & _).
      rewrite abstract_added by (done || by eapply hash_of_kept). apply (sp_add_done _ tx h tx'); try done.
      * by apply admissible_iff.
      * by apply book_lacks_iff.
      * cbn [abstract sp_book sp_config]. rewrite (book_size _ Hmi), <- Hmc. by apply pool_not_full.
Qed.

Lemma policy_of_hash old tx : check_replacement_policy old (snd (Transaction.calculate_hash tx)) = check_replacement_policy old tx.
Proof. unfold check_replacement_policy, get_gas_price, Transaction.calculate_hash. by destruct (cached_hash_ tx). Qed.

Lemma replace_simulates tx w : pool_ok w -> wp (replace_transaction tx) (fun r w' => simulates (OpReplace tx) w (Some r) w') w.
Proof.
  intros [Hp Hc]. destruct (Transaction.calculate_hash tx) as [h tx'] eqn:Hh. unfold simulates.
  assert (Et : tx' = snd (Transaction.calculate_hash tx)) by (by rewrite Hh).
  assert (Hslot : claims (obj w) !! slot_of tx = nonce_lookup (obj w) (get_from tx') (get_nonce tx'))
    by (rewrite Et, <- claims_slot; f_equal; symmetry; apply slot_of_hash).
  apply (wp_replace tx h tx'); try done.
  - intros Hnone. apply sp_replace_unknown. intros k old (h0 & H1 & H2 & H3). cbn [abstract sp_claims sp_book] in *.
    rewrite Hslot in H1. rewrite H1 in Hnone. cbn in Hnone. destruct (book_entry _ _ _ _ Hp H2 H3) as (e & He & _). congruence.
  - intros old e Hold He. pose proof (core_drop _ _ _ Hp He) as Hdrop. pose proof (abstract_drop _ _ _ Hp He) as Hbd.
    assert (Htgt : sp_target (abstract (obj w)) tx (slot_of (transaction e)) (transaction e)).
    { exists old. cbn [abstract sp_claims sp_book]. rewrite Hslot. split_and!; [done|by eapply book_of_entry|by apply (inv_key _ Hp)]. }
    assert (Hpol : check_replacement_policy (transaction e) tx' = check_replacement_policy (transaction e) tx) by (rewrite Et; apply policy_of_hash).
    rewrite Hpol. split; [intros Hne; by eapply sp_replace_refused|]. intros Hok. cbn [obj]. split.
    + intros Hv. rewrite Hbd. eapply sp_replace_lost; [done..|]. rewrite <- Hbd, <- Et. by apply not_admissible.
    + intros Hv t t' tk. apply validate_transaction_parts in Hv as Hparts. destruct Hparts as (? & ? & _).
      change (abstract (rebuild_priority_queue (put_entry h (new_entry tx' (u64 t) (u64 t')) (drop_entry old e (obj w)))))
        with (abstract (added_pool h (new_entry tx' (u64 t) (u64 t')) (drop_entry old e (obj w)))).
      rewrite abstract_added by (done || by eapply hash_of_kept || by apply fresh_of_validate). rewrite Hbd.
      eapply sp_replace_done; [done..|]. rewrite <- Hbd. by apply admissible_iff.
Qed.

Lemma call_simulates op w : pool_ok w -> op_typed op -> wp (call op) (fun r w' => simulates op w r w') w.
Proof.
  intros Hw Hok. pose proof Hw as [Hp Hc]. destruct op; cbn [call run_op]; wp_step.
  - unfold set_config. wp_go. apply (sp_config_set (abstract (obj w))).
  - eapply wp_mono; [by apply add_simulates|]. intros r w' H. by wp_go.
  - apply wp_remove. intros err lg H1 H2. wp_go. unfold simulates. cbn [obj]. unfold after_remove.
    destruct (transactions_ (obj w) !! h) as [e|] eqn:E.
    + destruct (H2 (ex_intro _ e eq_refl)) as [-> _].
      change (abstract (rebuild_priority_queue (drop_entry h e (obj w)))) with (abstract (drop_entry h e (obj w))).
      rewrite (abstract_drop _ _ _ Hp E). eapply sp_remove_done; [by apply (book_of_entry _ h)|by apply (inv_key _ Hp)].
    + destruct (H1 eq_refl) as [-> _]. apply sp_remove_unknown. by apply book_lacks_iff.
  - eapply wp_mono; [by apply replace_simulates|]. intros r w' H. by wp_go.
  - apply wp_evict_expired. intros lg. wp_go. by apply sp_evict_expired, evicted_after.
  - apply wp_evict_low_fee; [done|]. intros lg. wp_go. by apply sp_evict_low_fee, evicted_after.
  - unfold clear. wp_go. apply (sp_clear (abstract (obj w))).
  - wp_step. unfold get_stats. wp_go. case_decide; wp_go; [apply sp_stats|].
    unfold get_current_timestamp. wp_go. destruct (fold_left _ _ _) as [[[[? ?] ?] ?] ?]. wp_go. apply sp_stats.
  - unfold set_transaction_added_callback. wp_go. apply (sp_on_added (abstract (obj w))).
  - unfold set_transaction_removed_callback. wp_go. apply (sp_on_removed (abstract (obj w))).
Qed.
Lemma call_run op w r w' : call op w = Ret (r, w') -> run_op op w = Ret (tt, w').
Proof.
  destruct op; cbn [call run_op]; unfold mbind, eff_bind, mret, eff_ret;
    match goal with |- context [match ?m with Ret _ => _ | _ => _ end] => destruct m as [[[] ?]| |] end; intros; by simplify_eq.
Qed.

Lemma call_keeps op w r w' : pool_ok w -> held w = [] -> op_typed op -> call op w = Ret (r, w') -> pool_ok w' /\ held w' = [].
Proof.
  intros Hw Hh Hok Hrun%call_run. destruct (wp_ret_inv _ _ _ _ _ (run_op_keeps op w Hw Hok) Hrun) as (H1 & H2 & _). by rewrite H2.
Qed.

(** Sequences of calls with their answers, on the implementation and on the contract. *)
Inductive calls (w0 : world Mempool pool_event) : list (pool_op * option MempoolError) -> world Mempool pool_event -> Prop :=
  | calls_none : calls w0 [] w0
  | calls_one l w op r w' : calls w0 l w -> op_typed op -> call op w = Ret (r, w') -> calls w0 (l ++ [(op, r)]) w'.

Inductive spec_calls (s0 : pool_spec) : list (pool_op * option MempoolError) -> pool_spec -> Prop :=
  | spec_calls_none : spec_calls s0 [] s0
  | spec_calls_one l s op r s' : spec_calls s0 l s -> spec_step s op r s' -> spec_calls s0 (l ++ [(op, r)]) s'.

Lemma calls_ok w0 l w : pool_ok w0 -> held w0 = [] -> calls w0 l w -> pool_ok w /\ held w = [].
Proof. intros H0 Hh. induction 1 as [|l w op r w' _ [IH IH'] Hok Hrun]; [done|]. by eapply call_keeps. Qed.

Lemma calls_refine w0 l w : pool_ok w0 -> held w0 = [] -> calls w0 l w -> spec_calls (abstract (obj w0)) l (abstract (obj w)).
Proof.
  intros H0 Hh. induction 1 as [|l w op r w' Hc IH Hok Hrun]; [constructor|]. destruct (calls_ok _ _ _ H0 Hh Hc) as [Hw _].
  apply (spec_calls_one _ _ _ _ _ _ IH). exact (wp_ret_inv _ _ _ _ _ (call_simulates op w Hw Hok) Hrun).
Qed.

Lemma spec_calls_ok s0 l s : spec_calls s0 l s -> spec_ok s0 -> spec_ok s.
Proof. induction 1 as [|l s op r s' _ IH Hs]; [done|]. intros H. apply (spec_step_ok _ _ _ _ Hs). by apply IH. Qed.

Lemma query_run {A} (f : Mempool -> A) w : held w = [] -> with_lock Shared (p ← get; mret (f p)) w = Ret (f (obj w), w).
Proof. destruct w as [p hs tk lg]. cbn. intros ->. unfold with_lock. cbn. by destruct on_relock. Qed.

Lemma create_abstract c : abstract (create_mempool c) = mkSpec c ∅ ∅.
Proof. done. Qed.
End Calls.

(** ** Refinement *)

Section Refinement.
Context {env : Env} {io : IterOrder}.
Implicit Types w : world Mempool pool_event.

(** C2: The pool refines the abstract book.  Whatever calls a new pool has answered,
    the contract can make the same calls with the same answers and end in the book
    and the claims that the pool's tables describe; in that book every transaction is
    valid, within the size limit, in the slot of its sender and nonce, and claims it;
    and looking a hash up, or asking whether it is pooled, answers from the book. *)
Theorem mempool_refines_book (c : MempoolConfig) (l : list (pool_op * option MempoolError)) (w : world Mempool pool_event) :
  config_typed c -> calls (idle (create_mempool c)) l w ->
  spec_calls (mkSpec c ∅ ∅) l (abstract (obj w)) /\ spec_ok (abstract (obj w))
  /\ (forall h, exists r, get_transaction h w = Ret (r, w) /\ forall tx,
        r = Some tx <-> exists k, sp_book (abstract (obj w)) !! k = Some tx /\ has_hash h tx)
  /\ (forall h, exists b, has_transaction h w = Ret (b, w) /\ (b = false <-> book_lacks (sp_book (abstract (obj w))) h)).
Proof.
  intros Hc Hl. assert (H0 : pool_ok (idle (create_mempool c))) by (split; [apply create_mempool_inv|done]).
  destruct (calls_ok _ _ _ H0 eq_refl Hl) as [[Hp _] Hh]. pose proof (calls_refine _ _ _ H0 eq_refl Hl) as Hr.
  cbn [obj idle] in Hr. rewrite create_abstract in Hr. split_and!.
  - exact Hr.
  - apply (spec_calls_ok _ _ _ Hr). intros k tx H. cbn in H. by rewrite lookup_empty in H.
  - intros h. eexists. split; [by apply query_run|]. intros tx. cbn [abstract sp_book]. split.
    + intros (e & He & ->)%fmap_Some_1. exists (slot_of (transaction e)). split; [by apply (book_of_entry _ h)|by apply (inv_key _ Hp)].
    + intros (k & Hk & Hx). destruct (book_entry _ _ _ _ Hp Hk Hx) as (e & He & <- & _). by rewrite He.
  - intros h. eexists. split; [by apply query_run|]. rewrite bool_decide_eq_false, <- eq_None_not_Some. by apply book_lacks_iff.
Qed.
End Refinement.

(** The last call replaces the transaction with nonce 6 by one with the hash of the
    transaction with nonce 5, which is lost while its claim stays. *)
Definition demo_calls : list (pool_op * option MempoolError) :=
  [(OpAdd (demo_tx 1 7 10 5), Some SUCCESS); (OpAdd (demo_tx 1 8 10 6), Some SUCCESS); (OpReplace (demo_tx 1 7 20 6), Some SUCCESS)].
Definition demo_book_world : world Mempool pool_event := demo_run demo_config (map fst demo_calls).

Lemma demo_calls_run : @calls demo_env map_order (idle (create_mempool demo_config)) demo_calls demo_book_world.
Proof.
  apply (@calls_one demo_env map_order _ (take 2 demo_calls) (demo_run demo_config (map fst (take 2 demo_calls))));
    [|exact I|vm_compute; reflexivity].
  apply (@calls_one demo_env map_order _ (take 1 demo_calls) (demo_run demo_config (map fst (take 1 demo_calls))));
    [|exact I|vm_compute; reflexivity].
  apply (@calls_one demo_env map_order _ [] (idle (create_mempool demo_config))); [apply calls_none|exact I|vm_compute; reflexivity].
Qed.

Lemma mempool_refines_book_witness :
  spec_calls (mkSpec demo_config ∅ ∅) demo_calls (abstract (obj demo_book_world))
  /\ base.size (sp_book (abstract (obj demo_book_world))) = 1%nat /\ base.size (sp_claims (abstract (obj demo_book_world))) = 2%nat.
Proof.
  split; [|split; vm_compute; reflexivity].
  refine (proj1 (@mempool_refines_book demo_env map_order demo_config demo_calls demo_book_world _ demo_calls_run)). decide_now.
Defined.
