(* ===== verification/Consensus.v ===== *)
(** * Proof of work (consensus/consensus.hpp, consensus_impl.cpp)

    [ProofOfWork] is the object's state.  The clock supplies nanoseconds.  The
    mining loop takes the digest [sha] and the values of [rand()] as arguments;
    [calculate_block_hash] is the instance with the core module's digest.
    [stats_mutex_] is a second mutex, locked only around assignments that call
    nothing, so it is not tracked; [mining_mutex_] is. *)

From stdpp Require Import base list gmap numbers strings.
From Stdlib Require Import ZArith Lia.
From S2P Require Import Prelude Floats Effects Hash Address Amount Timestamp Transaction Block.

Inductive ConsensusType : Type := PROOF_OF_WORK | PROOF_OF_STAKE | DELEGATED_PROOF_OF_STAKE.

Record MiningResult : Type := mkMiningResult {
  success : bool;
  result_nonce : Z;
  block_hash : Hash;
  mining_time : Z;
  attempts : Z
}.

Record MiningStats : Type := mkMiningStats {
  total_attempts : Z;
  successful_mines : Z;
  total_mining_time : Z;
  average_attempts_per_second : double;
  current_difficulty : Z
}.

Record DifficultyParams : Type := mkDifficultyParams {
  target_block_time_seconds : Z;
  adjustment_interval_blocks : Z;
  max_adjustment_factor : Z;
  min_difficulty : Z;
  max_difficulty : Z
}.
Definition default_DifficultyParams : DifficultyParams := mkDifficultyParams 15 144 4 1 U64_MAX.

Record ProofOfWork : Type := mkProofOfWork {
  current_difficulty_ : Z;
  difficulty_params_ : DifficultyParams;
  mining_stats_ : MiningStats;
  mining_active_ : bool;
  stop_requested_ : bool
}.

(** The constructor leaves [mining_stats_] uninitialised: its first value is an
    argument. *)
Definition ProofOfWork_of (initial_difficulty : Z) (indeterminate : MiningStats) : ProofOfWork :=
  mkProofOfWork initial_difficulty default_DifficultyParams indeterminate false false.

(** [std::clamp] on [uint64_t]; undefined when the bounds are crossed. *)
Definition clamp (v lo hi : Z) : outcome Z :=
  if hi <? lo then Undefined else Ret (if v <? lo then lo else if hi <? v then hi else v).

(** ** Hash and difficulty *)

Definition header_nonce_bytes (b : Block) (n difficulty : Z) : list Z :=
  be_bytes 8 (height (header_ b)) ++ parent_hash (header_ b) ++ merkle_root (header_ b)
  ++ be_bytes 8 (timestamp (header_ b)) ++ be_bytes 8 n ++ be_bytes 8 difficulty.

Definition calculate_block_hash_with (sha : list Z -> Hash) (pow : ProofOfWork) (b : Block) (n : Z) : Hash :=
  sha (header_nonce_bytes b n (current_difficulty_ pow)).
Definition calculate_block_hash (pow : ProofOfWork) (b : Block) (n : Z) : Hash :=
  calculate_block_hash_with hash_sha256 pow b n.

(** Both conversions read the first eight bytes. *)
Definition hash_to_difficulty (h : Hash) : Z :=
  let hash_value := be_acc 0 (take 8 (Hash.to_bytes h)) in
  if hash_value =? 0 then U64_MAX else U64_MAX / hash_value.
Definition meets_difficulty_target (h : Hash) (difficulty : Z) : bool := difficulty <=? hash_to_difficulty h.

Definition difficulty_from_target (target : Hash) : Z :=
  let target_value := be_acc 0 (take 8 (Hash.to_bytes target)) in
  if target_value =? 0 then U64_MAX else U64_MAX / target_value.

(** [target_bytes[24 + i] = (target_value >> ((7 - i) * 8)) & 0xFF] for i = 7 .. 0. *)
Definition target_from_difficulty (difficulty : Z) : Hash :=
  let difficulty := if difficulty =? 0 then 1 else difficulty in
  let target_value := U64_MAX / difficulty in
  mkHash (fold_left (fun bytes i => <[ (24 + i)%nat := u8 (Z.land (Z.shiftr target_value ((7 - Z.of_nat i) * 8)) 255) ]> bytes)
    [7; 6; 5; 4; 3; 2; 1; 0]%nat (replicate 32 0)).

(** ** Configuration *)

Section Methods.
Context {env : Env}.
Abbreviation pow_eff := (eff ProofOfWork MiningResult) (only parsing).

Definition put_difficulty (d : Z) (s : ProofOfWork) : ProofOfWork :=
  mkProofOfWork d (difficulty_params_ s) (mining_stats_ s) (mining_active_ s) (stop_requested_ s).

Definition set_difficulty (difficulty : Z) : pow_eff () :=
  with_lock Exclusive (
    s ← get;
    d ← lift (clamp difficulty (min_difficulty (difficulty_params_ s)) (max_difficulty (difficulty_params_ s)));
    modify (put_difficulty d)).
Definition get_difficulty : pow_eff Z := with_lock Exclusive (s ← get; mret (current_difficulty_ s)).

Definition set_difficulty_params (params : DifficultyParams) : pow_eff () :=
  with_lock Exclusive (
    modify (fun s => mkProofOfWork (current_difficulty_ s) params (mining_stats_ s) (mining_active_ s) (stop_requested_ s));;
    s ← get;
    d ← lift (clamp (current_difficulty_ s) (min_difficulty params) (max_difficulty params));
    modify (put_difficulty d)).
Definition get_difficulty_params : pow_eff DifficultyParams := s ← get; mret (difficulty_params_ s).

(** ** Mining *)

(** The loop: [Some (Some (nonce, hash, attempts))] when it returns a result,
    [Some None] with the attempts when it ends without one, [None] out of fuel.
    [rnd] supplies the values of [rand()], one per call. *)
Fixpoint mining_loop (hash_of : Z -> Hash) (stop_requested : bool) (difficulty : Z) (rnd : nat -> Z)
    (fuel : nat) (calls : nat) (n tries : Z) : option (option (Z * Hash) * Z) :=
  match fuel with
  | O => None
  | S fuel' =>
      if n <? U64_MAX then
        if stop_requested then Some (None, tries)
        else
          let tries := (tries + 1)%u64 in
          let h := hash_of n in
          if meets_difficulty_target h difficulty then Some (Some (n, h), tries)
          else if n =? 42 then Some (Some (n, hash_of n), tries)
          else if 1000 <? tries then
            if rnd calls mod 10000 =? 0 then Some (Some (n, hash_of n), tries)
            else mining_loop hash_of stop_requested difficulty rnd fuel' (S calls) (n + 1) tries
          else mining_loop hash_of stop_requested difficulty rnd fuel' calls (n + 1) tries
      else Some (None, tries)
  end.

(** The statistics update both success branches perform.  The total time is a
    [milliseconds] count, a signed 64-bit integer. *)
Definition record_success (tries elapsed : Z) (s : ProofOfWork) : ProofOfWork :=
  let st := mining_stats_ s in
  let attempts' := (total_attempts st + tries)%u64 in
  let time' := s64 (total_mining_time st + elapsed) in
  let avg := if 0 <? time' then ddiv (d_of_Z attempts') (ddiv (d_of_Z time') (dlit 1000 1)) else average_attempts_per_second st in
  mkProofOfWork (current_difficulty_ s) (difficulty_params_ s)
    (mkMiningStats attempts' (successful_mines st + 1)%u64 time' avg (current_difficulty_ s))
    (mining_active_ s) (stop_requested_ s).

(** [duration_cast<milliseconds>] of a difference of nanoseconds. *)
Definition to_ms (ns : Z) : Z := Z.quot ns 1000000.

(** Fuel for the loop: 43 iterations always end it (theorem [mining_loop_ends]). *)
Definition MINING_FUEL : nat := 43.

Definition perform_mining (sha : list Z -> Hash) (rnd : nat -> Z) (b : Block) : pow_eff MiningResult :=
  start_time ← read_clock;
  s ← get;
  match mining_loop (calculate_block_hash_with sha s b) (stop_requested_ s) (current_difficulty_ s) rnd MINING_FUEL 0 0 0 with
  | Some (Some (n, h), tries) =>
      end_time ← read_clock;
      modify (record_success tries (to_ms (end_time - start_time)));;
      mret (mkMiningResult true n h (to_ms (end_time - start_time)) tries)
  | Some (None, tries) =>
      end_time ← read_clock;
      mret (mkMiningResult false 0 Hash.zero (to_ms (end_time - start_time)) tries)
  | None => lift Undefined
  end.

Definition set_flags (active stop : bool) (s : ProofOfWork) : ProofOfWork :=
  mkProofOfWork (current_difficulty_ s) (difficulty_params_ s) (mining_stats_ s) active stop.

Definition mine_block (sha : list Z -> Hash) (rnd : nat -> Z) (b : Block) : pow_eff MiningResult :=
  with_lock Exclusive (
    modify (set_flags true false);;
    result ← perform_mining sha rnd b;
    modify (fun s => set_flags false (stop_requested_ s) s);;
    mret result).

(** Synchronous; the callback, when there is one, runs after the lock is released. *)
Definition mine_block_async (sha : list Z -> Hash) (rnd : nat -> Z) (b : Block) (callback : bool) : pow_eff MiningResult :=
  result ← mine_block sha rnd b;
  (if callback then emit result else mret tt);;
  mret result.

Definition get_mining_stats : pow_eff MiningStats := s ← get; mret (mining_stats_ s).
Definition reset_mining_stats : pow_eff () :=
  modify (fun s => mkProofOfWork (current_difficulty_ s) (difficulty_params_ s) (mkMiningStats 0 0 0 (dlit 0 1) 0)
                     (mining_active_ s) (stop_requested_ s)).
Definition stop_mining : pow_eff () :=
  with_lock Exclusive (modify (fun s => set_flags (mining_active_ s) true s)).
(** [~ProofOfWork]. *)
Definition ProofOfWork_end : pow_eff () := stop_mining.
Definition is_mining_active : pow_eff bool := with_lock Exclusive (s ← get; mret (mining_active_ s)).
End Methods.

(** ** Validation *)

Definition validate_proof_of_work (h : Hash) (n difficulty : Z) : bool :=
  let calculated_hash := h in meets_difficulty_target calculated_hash difficulty.
Definition validate_block (pow : ProofOfWork) (b : Block) : bool :=
  if negb (Block.is_valid b) then false
  else validate_proof_of_work (fst (Block.calculate_hash b)) (block_nonce (header_ b)) (current_difficulty_ pow).

(** ** Difficulty adjustment *)

Definition bitcoin_style_adjustment (actual_time_seconds target_time_seconds difficulty max_factor : Z) : outcome Z :=
  if target_time_seconds =? 0 then Ret difficulty
  else
    let ratio := ddiv (d_of_Z actual_time_seconds) (d_of_Z target_time_seconds) in
    ratio ← dclamp ratio (ddiv (dlit 1 1) (d_of_Z max_factor)) (d_of_Z max_factor);
    new_difficulty ← d_to_u64 (dmul (d_of_Z difficulty) ratio);
    clamp new_difficulty (min_difficulty default_DifficultyParams) (max_difficulty default_DifficultyParams).

Definition ethereum_style_adjustment (recent_block_times : list Z) (target_time_seconds difficulty : Z) : outcome Z :=
  match recent_block_times with
  | [] => Ret difficulty
  | _ =>
      let total_time := fold_left (fun t time => (t + time)%u64) recent_block_times 0 in
      let avg_block_time := ddiv (d_of_Z total_time) (d_of_Z (Z.of_nat (length recent_block_times))) in
      let adjustment_factor := ddiv (d_of_Z target_time_seconds) avg_block_time in
      adjustment_factor ← dclamp adjustment_factor (dlit 1 2) (dlit 2 1);
      new_difficulty ← d_to_u64 (dmul (d_of_Z difficulty) adjustment_factor);
      clamp new_difficulty (min_difficulty default_DifficultyParams) (max_difficulty default_DifficultyParams)
  end.

Definition adjust_difficulty (pow : ProofOfWork) (actual_block_time_seconds difficulty : Z) : outcome Z :=
  bitcoin_style_adjustment actual_block_time_seconds (target_block_time_seconds (difficulty_params_ pow)) difficulty
    (max_adjustment_factor (difficulty_params_ pow)).
Definition calculate_target_difficulty (pow : ProofOfWork) (block_times : list Z) : outcome Z :=
  ethereum_style_adjustment block_times (target_block_time_seconds (difficulty_params_ pow)) (current_difficulty_ pow).

Definition estimate_mining_time_seconds (difficulty : Z) (hash_rate_hps : double) : outcome Z :=
  if (difficulty =? 0) || dleb hash_rate_hps (dlit 0 1) then Ret 0
  else d_to_u64 (ddiv (dmul (d_of_Z difficulty) (dlit 1000000 1)) hash_rate_hps).

Definition calculate_network_hash_rate (block_times : list Z) (difficulty : Z) : double :=
  match block_times with
  | [] => dlit 0 1
  | _ =>
      let sum := fold_left (fun a time => dadd a (d_of_Z time)) block_times (dlit 0 1) in
      let avg_block_time := ddiv sum (d_of_Z (Z.of_nat (length block_times))) in
      ddiv (d_of_Z difficulty) avg_block_time
  end.

Definition create_pow_consensus (initial_difficulty : Z) (indeterminate : MiningStats) : ProofOfWork :=
  ProofOfWork_of initial_difficulty indeterminate.
Definition create_consensus (t : ConsensusType) (initial_difficulty : Z) (indeterminate : MiningStats) : option ProofOfWork :=
  match t with
  | PROOF_OF_WORK => Some (create_pow_consensus initial_difficulty indeterminate)
  | _ => None
  end.

(** ** A miner and the other threads

    [mine_block] holds [mining_mutex_] from its first to its last statement;
    [stop_mining] and [is_mining_active] need the same mutex.  [thread_step] is
    one atomic action of the miner or of another thread. *)
Inductive miner_pc : Type :=
  | Outside
  | Looping (iteration : nat)
  | Leaving.

Record threads : Type := mkThreads {
  pc : miner_pc;
  locked : bool;
  active_flag : bool;
  stop_flag : bool;
  observed : list bool
}.

Inductive thread_step : threads -> threads -> Prop :=
  (** [mine_block]: lock, then set the two flags *)
  | miner_enters t : pc t = Outside -> locked t = false ->
      thread_step t (mkThreads (Looping 0) true true false (observed t))
  (** one iteration of the loop that does not return *)
  | miner_iterates t i : pc t = Looping i -> stop_flag t = false ->
      thread_step t (mkThreads (Looping (S i)) (locked t) (active_flag t) (stop_flag t) (observed t))
  (** an iteration that finds [stop_requested_] set breaks *)
  | miner_breaks t i : pc t = Looping i -> stop_flag t = true ->
      thread_step t (mkThreads Leaving (locked t) (active_flag t) (stop_flag t) (observed t))
  (** an iteration that produces a result *)
  | miner_finds t i : pc t = Looping i -> stop_flag t = false ->
      thread_step t (mkThreads Leaving (locked t) (active_flag t) (stop_flag t) (observed t))
  (** [mining_active_ = false]; the lock guard's destructor *)
  | miner_leaves t : pc t = Leaving ->
      thread_step t (mkThreads Outside false false (stop_flag t) (observed t))
  (** [stop_mining] by another thread *)
  | other_stops t : locked t = false ->
      thread_step t (mkThreads (pc t) (locked t) (active_flag t) true (observed t))
  (** [is_mining_active] by another thread *)
  | other_asks t : locked t = false ->
      thread_step t (mkThreads (pc t) (locked t) (active_flag t) (stop_flag t) (observed t ++ [active_flag t])).

Definition threads_init : threads := mkThreads Outside false false false [].

(** ** Lemmas *)

Lemma clamp_spec v lo hi :
  clamp v lo hi = if hi <? lo then Undefined else Ret (Z.max lo (Z.min v hi)).
Proof.
  unfold clamp. destruct (Z.ltb_spec hi lo); [done|]. f_equal.
  destruct (Z.ltb_spec v lo), (Z.ltb_spec hi v); lia.
Qed.

(** The loop's result: the first nonce whose hash meets the target, or 42. *)
Lemma mining_loop_spec hash_of d rnd calls fuel n :
  0 <= n <= 42 -> 42 - n < Z.of_nat fuel ->
  exists m, mining_loop hash_of false d rnd fuel calls n n = Some (Some (m, hash_of m), m + 1)
    /\ n <= m <= 42 /\ (forall k, n <= k < m -> meets_difficulty_target (hash_of k) d = false)
    /\ (meets_difficulty_target (hash_of m) d = true \/ m = 42).
Proof.
  revert n. induction fuel as [|fuel IH]; intros n Hn Hf; [lia|]. cbn [mining_loop].
  rewrite (proj2 (Z.ltb_lt n U64_MAX)) by lia.
  unfold u64_add. rewrite u64_small by (unfold is_u64; lia).
  destruct (meets_difficulty_target (hash_of n) d) eqn:E; [exists n; split_and!; auto; lia|].
  destruct (Z.eqb_spec n 42) as [->|Hne]; [exists 42; split_and!; auto; lia|].
  rewrite (proj2 (Z.ltb_ge 1000 (n + 1))) by lia.
  destruct (IH (n + 1)) as (m & -> & Hm & Hall & Hend); [lia|lia|].
  exists m. split; [done|]. split; [lia|]. split; [|done]. intros k Hk.
  destruct (decide (k = n)) as [->|]; [done|]. apply Hall. lia.
Qed.

Lemma hash_to_difficulty_value h :
  hash_wf h -> hash_to_difficulty h
  = (if be_value (take 8 (Hash.data_ h)) =? 0 then U64_MAX else U64_MAX / be_value (take 8 (Hash.data_ h))).
Proof. intros Hw. unfold hash_to_difficulty, Hash.to_bytes. fold (Hash.std_hash h). by rewrite Hash.std_hash_value. Qed.

Lemma meets_spec h d :
  hash_wf h -> d <= U64_MAX -> meets_difficulty_target h d = (d * be_value (take 8 (Hash.data_ h)) <=? U64_MAX).
Proof.
  intros Hw Hd. unfold meets_difficulty_target. rewrite hash_to_difficulty_value by done.
  assert (Hr : 0 <= be_value (take 8 (Hash.data_ h))).
  { apply be_value_range. apply Forall_take, Hw. }
  set (v := be_value _) in *. destruct (Z.eqb_spec v 0) as [->|Hv].
  - rewrite Z.mul_0_r. rewrite (proj2 (Z.leb_le d U64_MAX)) by done. done.
  - apply eq_iff_eq_true. rewrite !Z.leb_le, Z.mul_comm. split; intros H.
    + pose proof (Z.mul_div_le U64_MAX v ltac:(lia)). nia.
    + apply Z.div_le_lower_bound; lia.
Qed.

(** With the placeholder digest both hashes are the height and 24 bytes of the
    parent hash. *)
Lemma pow_hash_placeholder pow b n :
  header_wf (header_ b) ->
  calculate_block_hash pow b n = mkHash (be_bytes 8 (height (header_ b)) ++ take 24 (parent_hash (header_ b))).
Proof.
  intros (_ & Hp & _). unfold calculate_block_hash, calculate_block_hash_with, header_nonce_bytes.
  rewrite app_assoc, hash_sha256_prefix by (rewrite length_app, length_be_bytes, Hp; unfold HASH_SIZE; lia).
  reflexivity.
Qed.

Lemma block_hash_placeholder h :
  header_wf h -> hash_sha256 (header_bytes h) = mkHash (be_bytes 8 (height h) ++ take 24 (parent_hash h)).
Proof.
  intros (_ & Hp & _). unfold header_bytes.
  rewrite app_assoc, hash_sha256_prefix by (rewrite length_app, length_be_bytes, Hp; unfold HASH_SIZE; lia).
  reflexivity.
Qed.

Lemma placeholder_meets ht l d :
  is_u64 ht -> bytes_ok l -> length l = 24%nat -> d <= U64_MAX ->
  meets_difficulty_target (mkHash (be_bytes 8 ht ++ l)) d = (d * ht <=? U64_MAX).
Proof.
  intros Hh Hl Hlen Hd. rewrite meets_spec; [| |done].
  - change (Hash.data_ (mkHash (be_bytes 8 ht ++ l))) with (be_bytes 8 ht ++ l). rewrite take_app_length' by (symmetry; apply length_be_bytes).
    rewrite be_value_be_bytes, Z.mod_small by (unfold is_u64 in Hh; lia). done.
  - split; cbn [Hash.data_]; [by rewrite length_app, length_be_bytes, Hlen|]. apply Forall_app_2; [apply be_bytes_ok|done].
Qed.

Lemma target_bytes d :
  Hash.data_ (target_from_difficulty d) = replicate 24 0 ++ be_bytes 8 (U64_MAX / (if d =? 0 then 1 else d)).
Proof. reflexivity. Qed.

(** While the miner is inside, it holds the mutex and no stop request is set;
    whenever the mutex is free the active flag is down. *)
Definition threads_inv (t : threads) : Prop :=
  match pc t with
  | Outside => locked t = false /\ active_flag t = false
  | _ => locked t = true /\ stop_flag t = false
  end /\ Forall (fun b => b = false) (observed t).

Lemma threads_inv_step t t' : thread_step t t' -> threads_inv t -> threads_inv t'.
Proof.
  unfold threads_inv. intros [] [Hpc Ho]; simpl; try (rewrite H in Hpc); simpl in *; try (split; [tauto|done]).
  - split; [|done]. destruct (pc t0); [split; [done|apply Hpc]|destruct Hpc; congruence..].
  - destruct (pc t0); [|destruct Hpc; congruence..]. split; [split; [done|apply Hpc]|].
    apply Forall_app_2; [done|]. destruct Hpc as [_ ->]. by repeat constructor.
Qed.

Lemma threads_inv_reach t : rtc thread_step threads_init t -> threads_inv t.
Proof.
  intros Hr. assert (H0 : threads_inv threads_init) by (split; [done|constructor]). revert H0.
  induction Hr; eauto using threads_inv_step.
Qed.

(** ** Properties *)

(** C13: mining always returns, with success, after at most 43 attempts, for any
    digest: the nonce is the first one whose hash meets the target or, when none
    of the first 42 does, the nonce 42, whose hash need not meet it.  The
    statistics count the attempts and the active flag is down again. *)
Theorem mining_ends_by_nonce_42 {env : Env} (sha : list Z -> Hash) (rnd : nat -> Z) (b : Block)
    (w : world ProofOfWork MiningResult) :
  held w = [] ->
  exists m t w', mine_block sha rnd b w
      = Ret (mkMiningResult true m (calculate_block_hash_with sha (obj w) b m) t (m + 1), w')
    /\ 0 <= m <= 42
    /\ (forall k, 0 <= k < m -> meets_difficulty_target (calculate_block_hash_with sha (obj w) b k) (current_difficulty_ (obj w)) = false)
    /\ (meets_difficulty_target (calculate_block_hash_with sha (obj w) b m) (current_difficulty_ (obj w)) = true \/ m = 42)
    /\ total_attempts (mining_stats_ (obj w')) = u64 (total_attempts (mining_stats_ (obj w)) + (m + 1))
    /\ mining_active_ (obj w') = false /\ current_difficulty_ (obj w') = current_difficulty_ (obj w).
Proof.
  destruct w as [s hs tk lg]. simpl. intros ->.
  destruct (mining_loop_spec (calculate_block_hash_with sha s b) (current_difficulty_ s) rnd 0 MINING_FUEL 0)
    as (m & Hrun & Hm & Hall & Hend); [lia|unfold MINING_FUEL; lia|].
  set (t := to_ms (clock (S tk) - clock tk)).
  exists m, t, (mkWorld (set_flags false false (record_success (m + 1) t (set_flags true false s))) [] (S (S tk)) lg).
  split; [|split; [exact Hm|]; split; [exact Hall|]; split; [exact Hend|done]].
  unfold mine_block, perform_mining, mbind, eff_bind, with_lock, modify, read_clock, get, mret, eff_ret. cbn [held obj ticks log].
  change (calculate_block_hash_with sha (set_flags true false s) b) with (calculate_block_hash_with sha s b).
  cbn [stop_requested_ current_difficulty_ set_flags]. rewrite Hrun. by destruct on_relock.
Qed.

Lemma mining_ends_by_nonce_42_witness :
  exists m t w', @mine_block (std_env (fun n => Z.of_nat n)) hash_sha256 (fun _ => 1) (Block_of 5 Hash.zero (mkTimestamp 1))
      (idle (create_pow_consensus U64_MAX (mkMiningStats 0 0 0 (dlit 0 1) 0)))
    = Ret (mkMiningResult true m (calculate_block_hash (create_pow_consensus U64_MAX (mkMiningStats 0 0 0 (dlit 0 1) 0)) (Block_of 5 Hash.zero (mkTimestamp 1)) m) t (m + 1), w')
    /\ 0 <= m <= 42.
Proof.
  destruct (@mining_ends_by_nonce_42 (std_env (fun n => Z.of_nat n)) hash_sha256 (fun _ => 1) (Block_of 5 Hash.zero (mkTimestamp 1))
              (idle (create_pow_consensus U64_MAX (mkMiningStats 0 0 0 (dlit 0 1) 0))) eq_refl) as (m & t & w' & H & Hm & _).
  exists m, t, w'. split; [exact H|exact Hm].
Defined.

(** C36: the difficulty test compares integers without rounding: a hash meets
    difficulty [d] exactly when [d] times its first eight bytes, read big-endian,
    is below 2^64. *)
Theorem difficulty_test_exact (h : Hash) (d : Z) :
  hash_wf h -> is_u64 d ->
  meets_difficulty_target h d = (d * be_value (take 8 (Hash.data_ h)) <=? U64_MAX).
Proof. intros Hw Hd. apply meets_spec; [done|]. unfold is_u64 in Hd. lia. Qed.

Lemma difficulty_test_exact_witness :
  meets_difficulty_target (mkHash (replicate 31 0 ++ [255])) 1000
  = (1000 * be_value (take 8 (replicate 31 0 ++ [255])) <=? U64_MAX).
Proof. apply (difficulty_test_exact (mkHash (replicate 31 0 ++ [255])) 1000); [decide_now|unfold is_u64; lia]. Defined.

(** With the digests as they are, validating a block looks at its height only:
    the nonce, the transactions and the parent hash play no part in the proof of
    work, and a valid block of height [h] is accepted exactly when [d * h] is
    below 2^64. *)
Theorem proof_of_work_sees_height_only (pow : ProofOfWork) (b : Block) (n : Z) :
  header_wf (header_ b) -> is_u64 (current_difficulty_ pow) -> is_u64 n ->
  validate_block pow (Block.set_nonce n b)
  = Block.is_valid b && (current_difficulty_ pow * height (header_ b) <=? U64_MAX).
Proof.
  intros Hw Hd Hn. assert (Hw' : header_wf (header_ (Block.set_nonce n b))) by (unfold header_wf in *; simpl; tauto).
  unfold validate_block, validate_proof_of_work. cbn [fst Block.calculate_hash].
  change (fst (Block.calculate_hash (Block.set_nonce n b))) with (hash_sha256 (header_bytes (header_ (Block.set_nonce n b)))).
  rewrite block_hash_placeholder by done. change (Block.is_valid (Block.set_nonce n b)) with (Block.is_valid b).
  destruct Hw as (Hht & Hl & Hp & _). simpl height. simpl parent_hash.
  rewrite placeholder_meets; [by destruct (Block.is_valid b)|done|by apply Forall_take| |unfold is_u64 in Hd; lia].
  rewrite length_take, Hl. done.
Qed.

Lemma proof_of_work_sees_height_only_witness :
  validate_block (create_pow_consensus 1000 (mkMiningStats 0 0 0 (dlit 0 1) 0)) (Block.set_nonce 7 (Block_of 5 Hash.zero (mkTimestamp 1609459200)))
  = Block.is_valid (Block_of 5 Hash.zero (mkTimestamp 1609459200)) && (1000 * 5 <=? U64_MAX).
Proof.
  apply (proof_of_work_sees_height_only (create_pow_consensus 1000 (mkMiningStats 0 0 0 (dlit 0 1) 0)) (Block_of 5 Hash.zero (mkTimestamp 1609459200)) 7);
    [decide_now|unfold is_u64; simpl; lia|unfold is_u64; lia].
Defined.

(** The two target conversions are not inverse: the target is written into
    the last eight bytes and read from the first eight, so every difficulty comes
    back as 2^64 - 1. *)
Theorem target_conversion_loses_difficulty (d : Z) :
  difficulty_from_target (target_from_difficulty d) = U64_MAX
  /\ be_value (drop 24 (Hash.data_ (target_from_difficulty d))) = (U64_MAX / (if d =? 0 then 1 else d)) mod 256 ^ 8.
Proof.
  split; [done|]. rewrite target_bytes.
  rewrite drop_app_length' by (symmetry; apply length_replicate). apply be_value_be_bytes.
Qed.

(** Setting the difficulty or its parameters leaves it inside the bounds and
    is undefined exactly when the bounds are crossed. *)
Theorem set_difficulty_clamps {env : Env} (d : Z) (ps : DifficultyParams) (w : world ProofOfWork MiningResult) :
  held w = [] ->
  let lo := min_difficulty (difficulty_params_ (obj w)) in let hi := max_difficulty (difficulty_params_ (obj w)) in
  (if hi <? lo then set_difficulty d w = Undefined
   else exists w', set_difficulty d w = Ret (tt, w') /\ current_difficulty_ (obj w') = Z.max lo (Z.min d hi))
  /\ (if max_difficulty ps <? min_difficulty ps then set_difficulty_params ps w = Undefined
      else exists w', set_difficulty_params ps w = Ret (tt, w') /\ difficulty_params_ (obj w') = ps
        /\ min_difficulty ps <= current_difficulty_ (obj w') <= max_difficulty ps).
Proof.
  destruct w as [s hs tk lg]. simpl. intros ->.
  unfold set_difficulty, set_difficulty_params, mbind, eff_bind, with_lock, modify, lift, get. simpl. rewrite !clamp_spec. split.
  - destruct (Z.ltb_spec (max_difficulty (difficulty_params_ s)) (min_difficulty (difficulty_params_ s))); [by destruct on_relock|].
    eexists. split; [by destruct on_relock|done].
  - destruct (Z.ltb_spec (max_difficulty ps) (min_difficulty ps)); [by destruct on_relock|].
    eexists. split; [by destruct on_relock|]. simpl. split; [done|lia].
Qed.

Lemma set_difficulty_clamps_witness :
  exists w', @set_difficulty (std_env (fun n => Z.of_nat n)) 0 (idle (create_pow_consensus 9 (mkMiningStats 0 0 0 (dlit 0 1) 0))) = Ret (tt, w')
    /\ current_difficulty_ (obj w') = 1.
Proof.
  apply (@set_difficulty_clamps (std_env (fun n => Z.of_nat n)) 0 default_DifficultyParams (idle (create_pow_consensus 9 (mkMiningStats 0 0 0 (dlit 0 1) 0))) eq_refl).
Defined.

(** The retargeting rules move in opposite directions.  When blocks take four
    times the target, the Bitcoin-style rule multiplies the difficulty by four
    and the Ethereum-style rule halves it; and at the top of the range the former
    converts an unrepresentable double. *)
Theorem retargeting_directions :
  bitcoin_style_adjustment 60 15 1000 4 = Ret 4000
  /\ bitcoin_style_adjustment 5 15 999 4 = Ret 333
  /\ ethereum_style_adjustment [60; 60] 15 1000 = Ret 500
  /\ ethereum_style_adjustment [5; 5] 15 1000 = Ret 2000
  /\ bitcoin_style_adjustment 60 15 U64_MAX 4 = Undefined.
Proof. vm_compute. auto. Qed.

(** [stop_mining] cannot interrupt a miner and [is_mining_active] never answers
    [true]: both wait for the mutex the miner holds for the whole of
    [mine_block]. *)
Theorem stop_cannot_interrupt (t : threads) :
  rtc thread_step threads_init t ->
  (forall i, pc t = Looping i -> stop_flag t = false) /\ Forall (fun answer => answer = false) (observed t).
Proof.
  intros [Hpc Ho]%threads_inv_reach. split; [|done]. intros i Hi. rewrite Hi in Hpc. tauto.
Qed.

Lemma stop_cannot_interrupt_witness :
  let t := mkThreads (Looping 1) true true false [false] in
  (forall i, pc t = Looping i -> stop_flag t = false) /\ Forall (fun answer => answer = false) (observed t).
Proof.
  apply (stop_cannot_interrupt (mkThreads (Looping 1) true true false [false])).
  eapply rtc_l; [apply other_asks; reflexivity|].
  eapply rtc_l; [apply miner_enters; reflexivity|].
  eapply rtc_l; [apply (miner_iterates _ 0); reflexivity|]. apply rtc_refl.
Defined.
