(* ===== verification/Storage.v ===== *)
(** * The key-value store (storage/database.hpp, rocksdb_database.cpp)

    [create_database] gives the in-memory [MemoryDatabase] for every backend it
    knows; that class, its iterator and its write batch are modelled here.  No
    method calls another one while it holds the mutex, so a method is a function
    on the state.  An iterator owns a sorted snapshot of the keys but refers to
    the live data: the functions that read values take the data as it is at the
    time of the call.

    [KVStore] is what the rest of the system may rely on; the theorems about
    clients are proved against it. *)

From stdpp Require Import base list gmap numbers strings sorting.
From Stdlib Require Import ZArith Lia Ascii.
From S2P Require Import Prelude CString Sorting Effects.

Inductive StorageError : Type :=
  | SUCCESS
  | NOT_FOUND
  | ALREADY_EXISTS
  | INVALID_ARGUMENT
  | IO_ERROR
  | CORRUPTION
  | NOT_SUPPORTED
  | TIMEOUT
  | LOCK_CONFLICT.

#[export] Instance StorageError_eq_dec : EqDecision StorageError.
Proof. solve_decision. Defined.

Record StorageResult (T : Type) : Type := mkStorageResult { value : T; error : StorageError }.
Arguments mkStorageResult {T}.
Arguments value {T}.
Arguments error {T}.

(** [StorageResult<void>] has the error only. *)
Definition success {T} (r : StorageResult T) : bool := bool_decide (error r = SUCCESS).

Abbreviation Key := (list Z) (only parsing).
Abbreviation Value := (list Z) (only parsing).
Abbreviation KeyValueMap := (gmap (list Z) (list Z)) (only parsing).

Record DatabaseConfig : Type := mkDatabaseConfig {
  path : list ascii;
  create_if_missing : bool;
  error_if_exists : bool;
  write_buffer_size : Z;
  max_open_files : Z;
  block_cache_size : Z;
  compression : bool;
  compression_level : Z;
  max_background_jobs : Z
}.
Definition default_DatabaseConfig : DatabaseConfig :=
  mkDatabaseConfig [] true false (64 * 1024 * 1024) 1000 (8 * 1024 * 1024) true 6 2.

(** ** Write batches *)

Inductive OperationType : Type := PUT | REMOVE.
Record Operation : Type := mkOperation { op_type : OperationType; op_key : Key; op_value : Value }.
Record MemoryWriteBatch : Type := mkMemoryWriteBatch { operations_ : list Operation }.

Definition batch_put (k : Key) (v : Value) (b : MemoryWriteBatch) : MemoryWriteBatch :=
  mkMemoryWriteBatch (operations_ b ++ [mkOperation PUT k v]).
Definition batch_remove (k : Key) (b : MemoryWriteBatch) : MemoryWriteBatch :=
  mkMemoryWriteBatch (operations_ b ++ [mkOperation REMOVE k []]).
Definition batch_clear (b : MemoryWriteBatch) : MemoryWriteBatch := mkMemoryWriteBatch [].
Definition batch_size (b : MemoryWriteBatch) : Z := Z.of_nat (length (operations_ b)).
Definition get_operations (b : MemoryWriteBatch) : list Operation := operations_ b.
Definition create_write_batch : MemoryWriteBatch := mkMemoryWriteBatch [].

(** A [WriteBatch&]: the class of this file, or another implementation. *)
Inductive WriteBatch : Type :=
  | memory_batch (b : MemoryWriteBatch)
  | other_batch.

(** ** The database *)

Record MemoryDatabase : Type := mkMemoryDatabase {
  data_ : KeyValueMap;
  config_ : DatabaseConfig;
  is_open_ : bool
}.
Definition MemoryDatabase_default : MemoryDatabase := mkMemoryDatabase ∅ default_DatabaseConfig false.

Definition open (config : DatabaseConfig) (db : MemoryDatabase) : StorageError * MemoryDatabase :=
  if is_open_ db then (ALREADY_EXISTS, db)
  else if error_if_exists config && negb (bool_decide (data_ db = ∅)) then (ALREADY_EXISTS, db)
  else (SUCCESS, mkMemoryDatabase (data_ db) config true).

Definition close (db : MemoryDatabase) : StorageError * MemoryDatabase :=
  if negb (is_open_ db) then (SUCCESS, db)
  else (SUCCESS, mkMemoryDatabase ∅ (config_ db) false).

Definition is_open (db : MemoryDatabase) : bool := is_open_ db.

Definition set_data (m : KeyValueMap) (db : MemoryDatabase) : MemoryDatabase :=
  mkMemoryDatabase m (config_ db) (is_open_ db).

Definition get (key : Key) (db : MemoryDatabase) : StorageResult Value :=
  if negb (is_open_ db) then mkStorageResult [] IO_ERROR
  else match data_ db !! key with
       | None => mkStorageResult [] NOT_FOUND
       | Some v => mkStorageResult v SUCCESS
       end.

Definition put (key : Key) (v : Value) (db : MemoryDatabase) : StorageError * MemoryDatabase :=
  if negb (is_open_ db) then (IO_ERROR, db)
  else (SUCCESS, set_data (<[ key := v ]> (data_ db)) db).

Definition remove (key : Key) (db : MemoryDatabase) : StorageError * MemoryDatabase :=
  if negb (is_open_ db) then (IO_ERROR, db)
  else match data_ db !! key with
       | None => (NOT_FOUND, db)
       | Some _ => (SUCCESS, set_data (delete key (data_ db)) db)
       end.

Definition apply_operation (m : KeyValueMap) (op : Operation) : KeyValueMap :=
  match op_type op with
  | PUT => <[ op_key op := op_value op ]> m
  | REMOVE => delete (op_key op) m
  end.

Definition write (batch : WriteBatch) (db : MemoryDatabase) : StorageError * MemoryDatabase :=
  if negb (is_open_ db) then (IO_ERROR, db)
  else match batch with
       | other_batch => (INVALID_ARGUMENT, db)
       | memory_batch b => (SUCCESS, set_data (fold_left apply_operation (get_operations b) (data_ db)) db)
       end.

Definition flush (db : MemoryDatabase) : StorageError := if negb (is_open_ db) then IO_ERROR else SUCCESS.
Definition compact_range (db : MemoryDatabase) : StorageError := if negb (is_open_ db) then IO_ERROR else SUCCESS.

Definition get_property (property : list ascii) (db : MemoryDatabase) : StorageResult (list ascii) :=
  if negb (is_open_ db) then mkStorageResult [] IO_ERROR
  else if bool_decide (property = $"rocksdb.stats") then
    mkStorageResult ($"In-memory database stats:" ++ [ascii_of_nat 10]
      ++ $"Keys: " ++ print_dec (Z.of_nat (size (data_ db))) ++ [ascii_of_nat 10]) SUCCESS
  else mkStorageResult [] NOT_FOUND.

Section Iteration.
Context {io : IterOrder}.

(** [key >= start && key <= limit], both spelled with [operator<]. *)
Definition in_range (start limit key : Key) : bool := negb (bytes_ltb key start) && negb (bytes_ltb limit key).

Definition get_approximate_size (start limit : Key) (db : MemoryDatabase) : StorageResult Z :=
  if negb (is_open_ db) then mkStorageResult 0 IO_ERROR
  else mkStorageResult
    (fold_left (fun s kv => if in_range start limit (fst kv)
                            then (s + (Z.of_nat (length (fst kv)) + Z.of_nat (length (snd kv))))%u64 else s)
       (iter (data_ db)) 0) SUCCESS.

(** ** Iterators *)

Record MemoryIterator : Type := mkMemoryIterator { keys_ : list Key; current_index_ : Z }.

Definition num_keys (it : MemoryIterator) : Z := Z.of_nat (length (keys_ it)).

Definition MemoryIterator_of (data : KeyValueMap) : MemoryIterator :=
  mkMemoryIterator (sort_by bytes_ltb (map fst (iter data))) (-1).

Definition new_iterator (db : MemoryDatabase) : option MemoryIterator :=
  if negb (is_open_ db) then None else Some (MemoryIterator_of (data_ db)).
End Iteration.

Definition valid (it : MemoryIterator) : bool :=
  (0 <=? current_index_ it) && (current_index_ it <? num_keys it).

Definition move_to (i : Z) (it : MemoryIterator) : MemoryIterator := mkMemoryIterator (keys_ it) i.

Definition seek_to_first (it : MemoryIterator) : MemoryIterator :=
  move_to (match keys_ it with [] => -1 | _ => 0 end) it.
Definition seek_to_last (it : MemoryIterator) : MemoryIterator :=
  move_to (match keys_ it with [] => -1 | _ => s32 (num_keys it - 1)%u64 end) it.

(** [std::lower_bound] on a sorted range: the index of the first key not below. *)
Fixpoint lower_bound (key : Key) (keys : list Key) : nat :=
  match keys with
  | [] => 0
  | k :: keys' => if bytes_ltb k key then S (lower_bound key keys') else 0
  end.

Definition seek (key : Key) (it : MemoryIterator) : MemoryIterator :=
  let i := lower_bound key (keys_ it) in
  match keys_ it !! i with
  | Some k => if bytes_eqb k key then move_to (s32 (Z.of_nat i)) it else move_to (-1) it
  | None => move_to (-1) it
  end.

Definition next (it : MemoryIterator) : MemoryIterator :=
  if (0 <=? current_index_ it) && (current_index_ it <? (num_keys it - 1)%u64)
  then move_to (current_index_ it + 1) it else move_to (-1) it.
Definition prev (it : MemoryIterator) : MemoryIterator :=
  if 0 <? current_index_ it then move_to (current_index_ it - 1) it else move_to (-1) it.

Definition iter_key (it : MemoryIterator) : Key :=
  if negb (valid it) then [] else default [] (keys_ it !! Z.to_nat (current_index_ it)).
(** Looks the key up in the data as it is now. *)
Definition iter_value (data : KeyValueMap) (it : MemoryIterator) : Value :=
  if negb (valid it) then [] else default [] (data !! iter_key it).
Definition status (it : MemoryIterator) : StorageError := SUCCESS.

Definition create_database (backend : list ascii) : option MemoryDatabase :=
  if bool_decide (backend = $"memory") || bool_decide (backend = $"rocksdb") then Some MemoryDatabase_default else None.

(** [for (it->seek_to_first(); it->valid(); it->next()) visit(it->key())] and its
    mirror image: the loops a client writes. *)
Fixpoint scan_forward (fuel : nat) (it : MemoryIterator) : list Key :=
  match fuel with
  | O => []
  | S fuel' => if valid it then iter_key it :: scan_forward fuel' (next it) else []
  end.
Fixpoint scan_backward (fuel : nat) (it : MemoryIterator) : list Key :=
  match fuel with
  | O => []
  | S fuel' => if valid it then iter_key it :: scan_backward fuel' (prev it) else []
  end.

(** ** The calls of the interface, and the interface *)

Inductive db_op : Type :=
  | DbOpen (config : DatabaseConfig)
  | DbClose
  | DbPut (k : Key) (v : Value)
  | DbRemove (k : Key)
  | DbWrite (batch : WriteBatch).

Definition db_run (op : db_op) (db : MemoryDatabase) : StorageError * MemoryDatabase :=
  match op with
  | DbOpen c => open c db
  | DbClose => close db
  | DbPut k v => put k v db
  | DbRemove k => remove k db
  | DbWrite b => write b db
  end.

(** What a store promises: a view of the contents ([None] when closed), and how
    each operation acts on it. *)
Class KVStore (S : Type) : Type := {
  kv_view : S -> option KeyValueMap;
  kv_get : Key -> S -> StorageResult Value;
  kv_put : Key -> Value -> S -> StorageError * S;
  kv_remove : Key -> S -> StorageError * S;
  kv_write : MemoryWriteBatch -> S -> StorageError * S;
  kv_get_law k s : kv_get k s = match kv_view s with
    | None => mkStorageResult [] IO_ERROR
    | Some m => match m !! k with Some v => mkStorageResult v SUCCESS | None => mkStorageResult [] NOT_FOUND end
    end;
  kv_put_law k v s : kv_view (snd (kv_put k v s)) = insert k v <$> kv_view s
    /\ fst (kv_put k v s) = match kv_view s with None => IO_ERROR | Some _ => SUCCESS end;
  kv_remove_law k s : kv_view (snd (kv_remove k s)) = delete k <$> kv_view s
    /\ fst (kv_remove k s) = match kv_view s with
         | None => IO_ERROR
         | Some m => if decide (is_Some (m !! k)) then SUCCESS else NOT_FOUND
         end;
  kv_write_law b s : kv_view (snd (kv_write b s)) = fold_left apply_operation (operations_ b) <$> kv_view s
    /\ fst (kv_write b s) = match kv_view s with None => IO_ERROR | Some _ => SUCCESS end
}.

(** ** Lemmas *)

Definition memory_view (db : MemoryDatabase) : option KeyValueMap :=
  if is_open_ db then Some (data_ db) else None.

(** The in-memory database keeps the interface's promises. *)
#[export, refine] Instance MemoryDatabase_store : KVStore MemoryDatabase := {|
  kv_view := memory_view;
  kv_get := get;
  kv_put := put;
  kv_remove := remove;
  kv_write := fun b => write (memory_batch b)
|}.
Proof.
  - intros k [m c []]; done.
  - intros k v [m c []]; done.
  - intros k [m c []]; unfold remove, memory_view; simpl; [|done].
    destruct (m !! k) eqn:E; simpl.
    + done.
    + by rewrite delete_id.
  - intros b [m c []]; done.
Defined.

Section Client.
Context {S : Type} {store : KVStore S}.

(** One batch entry, done as a separate call. *)
Definition kv_apply (s : S) (op : Operation) : S :=
  match op_type op with
  | PUT => snd (kv_put (op_key op) (op_value op) s)
  | REMOVE => snd (kv_remove (op_key op) s)
  end.

Lemma kv_apply_view s op : kv_view (kv_apply s op) = (fun m => apply_operation m op) <$> kv_view s.
Proof.
  unfold kv_apply, apply_operation. destruct (op_type op).
  - by destruct (kv_put_law (op_key op) (op_value op) s) as [-> _].
  - by destruct (kv_remove_law (op_key op) s) as [-> _].
Qed.

Lemma kv_apply_all_view ops s :
  kv_view (fold_left kv_apply ops s) = fold_left apply_operation ops <$> kv_view s.
Proof.
  revert s. induction ops as [|op ops IH]; intros s; simpl; [by destruct (kv_view s)|].
  rewrite IH, kv_apply_view. by destruct (kv_view s).
Qed.
End Client.

(** *** Histories: what a key holds after a list of calls, most recent first *)

Fixpoint history_open (h : list db_op) : bool :=
  match h with
  | [] => false
  | DbOpen _ :: _ => true
  | DbClose :: _ => false
  | _ :: h' => history_open h'
  end.

(** The last entry of a batch that touches [k], if any. *)
Fixpoint batch_last (k : Key) (ops : list Operation) : option (option Value) :=
  match ops with
  | [] => None
  | op :: ops' =>
      match batch_last k ops' with
      | Some r => Some r
      | None => if decide (op_key op = k)
                then Some (match op_type op with PUT => Some (op_value op) | REMOVE => None end) else None
      end
  end.

Fixpoint last_write (k : Key) (h : list db_op) : option Value :=
  match h with
  | [] => None
  | DbOpen _ :: h' => last_write k h'
  | DbClose :: _ => None
  | DbPut k' v :: h' => if history_open h' then if decide (k' = k) then Some v else last_write k h' else None
  | DbRemove k' :: h' => if history_open h' then if decide (k' = k) then None else last_write k h' else None
  | DbWrite (memory_batch b) :: h' =>
      if history_open h' then match batch_last k (operations_ b) with Some r => r | None => last_write k h' end else None
  | DbWrite other_batch :: h' => last_write k h'
  end.

(** Replay a history, oldest call first. *)
Definition replay (h : list db_op) : MemoryDatabase := fold_right (fun op db => snd (db_run op db)) MemoryDatabase_default h.

Lemma batch_last_spec k ops m :
  fold_left apply_operation ops m !! k = match batch_last k ops with Some r => r | None => m !! k end.
Proof.
  revert m. induction ops as [|op ops IH]; intros m; simpl; [done|]. rewrite IH.
  destruct (batch_last k ops) as [r|]; [done|]. unfold apply_operation.
  case_decide as Hk; destruct (op_type op); subst;
    by rewrite ?lookup_insert_eq, ?lookup_delete_eq, ?lookup_insert_ne, ?lookup_delete_ne.
Qed.

Lemma replay_spec h :
  is_open_ (replay h) = history_open h /\ (forall k, data_ (replay h) !! k = last_write k h)
  /\ (history_open h = false -> data_ (replay h) = ∅).
Proof.
  induction h as [|op h (IHo & IHd & IHe)]; [by split_and!|]. simpl.
  destruct op as [c| |k v|k|[b|]]; simpl.
  - unfold open. rewrite IHo. destruct (history_open h) eqn:E; [done|].
    rewrite bool_decide_true by (by apply IHe). rewrite andb_false_r. done.
  - unfold close. rewrite IHo. destruct (history_open h) eqn:E; simpl; [done|].
    split; [done|]. rewrite IHe by done. done.
  - unfold put. rewrite IHo. destruct (history_open h) eqn:E; simpl; [|split_and!; [congruence|intros j; by rewrite IHe|auto]].
    split; [done|]. split; [|done]. intros j. case_decide; subst; by rewrite ?lookup_insert_eq, ?lookup_insert_ne.
  - unfold remove. rewrite IHo. destruct (history_open h) eqn:E; simpl; [|split_and!; [congruence|intros j; by rewrite IHe|auto]].
    destruct (data_ (replay h) !! k) eqn:Ek; simpl; (split; [congruence|]); (split; [|done]); intros j; case_decide; subst.
    + by rewrite lookup_delete_eq.
    + by rewrite lookup_delete_ne.
    + by rewrite Ek.
    + done.
  - unfold write. rewrite IHo. destruct (history_open h) eqn:E; simpl; [|split_and!; [congruence|intros j; by rewrite IHe|auto]].
    split; [done|]. split; [|done]. intros j. rewrite batch_last_spec. by rewrite IHd.
  - unfold write. rewrite IHo. by destruct (history_open h).
Qed.

(** *** The iterator's key list *)

Lemma bytes_ltb_weak_order : weak_order_on bytes_ltb (fun _ => True).
Proof.
  split; [intros ?? _ _; apply bytes_ltb_asym|]. intros a b c _ _ _ Hba Hcb.
  destruct (bytes_ltb c a) eqn:E; [|done].
  destruct (bytes_ltb a b) eqn:F; [|by rewrite (bytes_ltb_total _ _ F Hba), Hcb in E].
  pose proof (bytes_ltb_trans _ _ _ E F). congruence.
Qed.

Section Keys.
Context {io : IterOrder}.
Implicit Types m : gmap (list Z) (list Z).

Lemma iterator_keys_perm m : keys_ (MemoryIterator_of m) ≡ₚ map fst (map_to_list m).
Proof. simpl. rewrite sort_by_perm. by rewrite iter_perm. Qed.

Lemma iterator_keys_sorted m : ordered bytes_ltb (keys_ (MemoryIterator_of m)).
Proof. apply (sort_by_ordered _ (fun _ => True)); [apply bytes_ltb_weak_order|]. by apply Forall_true. Qed.

Lemma iterator_keys_elem m k : k ∈ keys_ (MemoryIterator_of m) <-> is_Some (m !! k).
Proof.
  rewrite iterator_keys_perm, list_elem_of_fmap. split.
  - intros ([k' v] & -> & Hv%elem_of_map_to_list). eauto.
  - intros [v Hv]. exists (k, v). split; [done|]. by apply elem_of_map_to_list.
Qed.

Lemma iterator_keys_nodup m : NoDup (keys_ (MemoryIterator_of m)).
Proof. rewrite iterator_keys_perm. apply NoDup_fst_map_to_list. Qed.

(** The iteration order of the hash table leaves no trace. *)
Lemma iterator_keys_unique m keys :
  ordered bytes_ltb keys -> keys ≡ₚ map fst (map_to_list m) -> keys_ (MemoryIterator_of m) = keys.
Proof.
  intros Ho Hp. apply (ordered_perm_eq bytes_ltb (fun _ => True)).
  - intros a b _ _. apply bytes_ltb_total.
  - by apply Forall_true.
  - apply iterator_keys_sorted.
  - done.
  - by rewrite iterator_keys_perm.
Qed.
End Keys.

Lemma lower_bound_found keys k :
  ordered bytes_ltb keys -> k ∈ keys -> keys !! lower_bound k keys = Some k.
Proof.
  induction 1 as [|x keys Ho IH Hf]; intros Hk; [by apply not_elem_of_nil in Hk|]. simpl.
  apply elem_of_cons in Hk. destruct (bytes_ltb x k) eqn:E.
  - destruct Hk as [->|Hk]; [by rewrite bytes_ltb_irrefl in E|]. by apply IH.
  - destruct Hk as [->|Hk]; [done|]. rewrite Forall_forall in Hf. simpl. f_equal. apply bytes_ltb_total; [done|]. by apply Hf.
Qed.

Lemma scan_forward_drop fuel keys i :
  (i <= length keys)%nat -> Z.of_nat (length keys) < U64_MOD -> (length keys - i < fuel)%nat ->
  scan_forward fuel (mkMemoryIterator keys (if decide (i = length keys) then -1 else Z.of_nat i)) = drop i keys.
Proof.
  revert i. induction fuel as [|fuel IH]; intros i Hi Hb Hf; [lia|].
  destruct (decide (i = length keys)) as [->|Hne]; [by rewrite drop_all|].
  destruct (lookup_lt_is_Some_2 keys i) as [k Hk]; [lia|].
  rewrite (drop_S _ _ _ Hk). cbn [scan_forward].
  assert (Hv : valid (mkMemoryIterator keys (Z.of_nat i)) = true).
  { unfold valid, num_keys. simpl. apply andb_true_iff. rewrite Z.leb_le, Z.ltb_lt. lia. }
  unfold iter_key. rewrite Hv. simpl negb. cbv iota. cbn [current_index_ keys_]. rewrite Nat2Z.id, Hk. simpl default. f_equal.
  rewrite <- IH by lia. f_equal. unfold next, num_keys, u64_sub, move_to. cbn [current_index_ keys_].
  rewrite u64_small by (unfold is_u64; lia). rewrite (proj2 (Z.leb_le 0 (Z.of_nat i))) by lia. simpl.
  destruct (decide (S i = length keys)) as [He|He].
  - rewrite (proj2 (Z.ltb_ge _ _)) by lia. done.
  - rewrite (proj2 (Z.ltb_lt _ _)) by lia. f_equal. lia.
Qed.

Lemma scan_backward_take fuel keys i :
  (i <= length keys)%nat -> (i < fuel)%nat ->
  scan_backward fuel (mkMemoryIterator keys (Z.of_nat i - 1)) = rev (take i keys).
Proof.
  revert i. induction fuel as [|fuel IH]; intros i Hi Hf; [lia|]. cbn [scan_backward].
  destruct i as [|i]; [done|].
  destruct (lookup_lt_is_Some_2 keys i) as [k Hk]; [lia|].
  assert (Hv : valid (mkMemoryIterator keys (Z.of_nat (S i) - 1)) = true).
  { unfold valid, num_keys. simpl current_index_. simpl keys_. apply andb_true_iff. rewrite Z.leb_le, Z.ltb_lt. lia. }
  unfold iter_key. rewrite Hv. simpl negb. cbv iota. cbn [current_index_ keys_].
  replace (Z.to_nat (Z.of_nat (S i) - 1)) with i by lia. rewrite Hk. simpl default.
  rewrite (take_S_r _ _ _ Hk), rev_app_distr. simpl. f_equal.
  rewrite <- IH by lia. f_equal. unfold prev, move_to. cbn [current_index_ keys_].
  destruct (Z.ltb_spec 0 (Z.of_nat (S i) - 1)); f_equal; lia.
Qed.

(** ** Properties *)

(** C7: reads return the last write.  After any history of calls on a fresh
    database, [get k] answers IO_ERROR when the database is closed, and otherwise
    the value of the last successful put or batch entry for [k] since the last
    close, or NOT_FOUND when the last one was a removal or there was none. *)
Theorem database_reads_last_write (h : list db_op) (k : list Z) :
  get k (replay h)
  = if history_open h
    then match last_write k h with Some v => mkStorageResult v SUCCESS | None => mkStorageResult [] NOT_FOUND end
    else mkStorageResult [] IO_ERROR.
Proof.
  destruct (replay_spec h) as (Ho & Hd & _). unfold get. rewrite Ho.
  destruct (history_open h); simpl; [|done]. by rewrite Hd.
Qed.

(** On every store that keeps the interface's promises a batch has the effect
    of its entries done one after the other, and reports success exactly when the
    store is open. *)
Theorem batch_is_sequential {S : Type} {store : KVStore S} (b : MemoryWriteBatch) (s : S) (k : list Z) :
  kv_get k (snd (kv_write b s)) = kv_get k (fold_left kv_apply (operations_ b) s)
  /\ fst (kv_write b s) = match kv_view s with None => IO_ERROR | Some _ => SUCCESS end.
Proof.
  destruct (kv_write_law b s) as [Hv Hr]. split; [|done].
  by rewrite !kv_get_law, Hv, kv_apply_all_view.
Qed.

(** A full scan in either direction visits every key exactly once, in
    lexicographic order (its reverse for the backward scan), whatever order the
    hash table enumerates its contents in, and the loops end. *)
Theorem iterator_scans_all {io : IterOrder} (m : gmap (list Z) (list Z)) :
  Z.of_nat (base.size m) < 2147483648 ->
  let it := MemoryIterator_of m in
  let keys := scan_forward (S (base.size m)) (seek_to_first it) in
  keys ≡ₚ map fst (map_to_list m) /\ ordered bytes_ltb keys /\ NoDup keys
  /\ scan_backward (S (base.size m)) (seek_to_last it) = rev keys.
Proof.
  intros Hsz it keys.
  assert (Hl : length (keys_ it) = base.size m).
  { unfold it. rewrite iterator_keys_perm, length_map. apply length_map_to_list. }
  assert (Hk : keys = keys_ it).
  { unfold keys. rewrite <- (drop_0 (keys_ it)).
    rewrite <- (scan_forward_drop (S (base.size m)) (keys_ it) 0) by lia. f_equal.
    unfold seek_to_first, move_to. by destruct (keys_ it). }
  rewrite Hk. split; [apply iterator_keys_perm|]. split; [apply iterator_keys_sorted|].
  split; [apply iterator_keys_nodup|].
  transitivity (rev (take (length (keys_ it)) (keys_ it))); [|by rewrite firstn_all].
  rewrite <- (scan_backward_take (S (base.size m))) by lia. f_equal.
  unfold seek_to_last, move_to, num_keys, u64_sub. rewrite Hl. destruct (keys_ it); simpl in Hl; [by rewrite <- Hl|].
  rewrite u64_small by (unfold is_u64; lia). by rewrite s32_small by lia.
Qed.

(** Seeking positions the iterator on a key exactly when the key is there,
    and the value read through it is the live one: an overwrite shows, and after
    a removal the iterator is still valid and reads an empty value. *)
Theorem iterator_seek_live {io : IterOrder} (m : gmap (list Z) (list Z)) (k v : list Z) :
  Z.of_nat (base.size m) < 2147483648 ->
  let it := seek k (MemoryIterator_of m) in
  (valid it = true <-> is_Some (m !! k))
  /\ (is_Some (m !! k) -> iter_key it = k /\ iter_value m it = default [] (m !! k)
        /\ iter_value (<[ k := v ]> m) it = v /\ iter_value (delete k m) it = []).
Proof.
  intros Hsz it. set (keys := keys_ (MemoryIterator_of m)).
  assert (Hl : length keys = base.size m).
  { unfold keys. rewrite iterator_keys_perm, length_map. apply length_map_to_list. }
  destruct (decide (is_Some (m !! k))) as [Hin|Hout].
  - assert (Hlb : keys !! lower_bound k keys = Some k).
    { apply lower_bound_found; [apply iterator_keys_sorted|]. by apply iterator_keys_elem. }
    apply lookup_lt_Some in Hlb as Hlt.
    assert (Hit : it = mkMemoryIterator keys (Z.of_nat (lower_bound k keys))).
    { unfold it, seek. fold keys. rewrite Hlb. unfold bytes_eqb. rewrite bool_decide_true by done.
      rewrite s32_small by lia. done. }
    assert (Hv : valid it = true).
    { rewrite Hit. unfold valid, num_keys. simpl. apply andb_true_iff. rewrite Z.leb_le, Z.ltb_lt. lia. }
    assert (Hkey : iter_key it = k).
    { unfold iter_key. rewrite Hv, Hit. simpl. by rewrite Nat2Z.id, Hlb. }
    split; [done|]. intros _. unfold iter_value. rewrite Hv, Hkey. simpl.
    by rewrite lookup_insert_eq, lookup_delete_eq.
  - split; [|done]. split; [|done]. intros Hv. exfalso. revert Hv. unfold it, seek. fold keys.
    destruct (keys !! lower_bound k keys) as [k'|] eqn:E; [|done]. unfold bytes_eqb. case_bool_decide as Hk; [|done].
    subst k'. apply list_elem_of_lookup_2, iterator_keys_elem in E. done.
Qed.

(** ** Witnesses *)

Definition demo_map : gmap (list Z) (list Z) := <[ [2] := [20] ]> (<[ [1] := [10] ]> ∅).

Lemma iterator_scans_all_witness :
  scan_backward 3 (seek_to_last (@MemoryIterator_of map_order demo_map))
  = rev (scan_forward 3 (seek_to_first (@MemoryIterator_of map_order demo_map))).
Proof. apply (@iterator_scans_all map_order demo_map). vm_compute. reflexivity. Defined.

Lemma iterator_seek_live_witness :
  iter_value (delete [1] demo_map) (seek [1] (@MemoryIterator_of map_order demo_map)) = [].
Proof.
  apply (@iterator_seek_live map_order demo_map [1] [7]); [vm_compute; reflexivity|]. vm_compute. eexists. reflexivity.
Defined.
