(* ===== verification/PeerAddress.v ===== *)
(** * Peer addresses (p2p/peer_address.hpp, peer_address.cpp)

    [boost::asio::ip::make_address] and the predicates of the address it returns
    are code the repository only calls: the class [AddressLib] is the parameter
    that stands for them ([make_address] returns [None] where it throws).  Time
    points are nanoseconds; a function that reads the clock takes the reading. *)

From stdpp Require Import base list numbers strings.
From Stdlib Require Import ZArith Lia Ascii.
From S2P Require Import Prelude CString Sorting.

Class AddressLib : Type := {
  ip_address : Type;
  make_address : list ascii -> option ip_address;
  is_loopback : ip_address -> bool;
  is_multicast : ip_address -> bool;
  is_unspecified : ip_address -> bool;
  (** [Some] of the four bytes for a v4 address, [None] for a v6 one *)
  v4_bytes : ip_address -> option (list Z);
  is_site_local : ip_address -> bool;
  is_link_local : ip_address -> bool
}.

Record PeerAddress : Type := mkPeerAddress {
  ip : list ascii;
  port : Z;
  last_seen : Z;
  services : Z
}.

#[export] Instance PeerAddress_eq_dec : EqDecision PeerAddress.
Proof. solve_decision. Defined.

(** The two constructors read the clock. *)
Definition PeerAddress_of (ip_ : list ascii) (port_ now : Z) : PeerAddress := mkPeerAddress ip_ port_ now 0.
Definition PeerAddress_of_services (ip_ : list ascii) (port_ services_ now : Z) : PeerAddress :=
  mkPeerAddress ip_ port_ now services_.

Definition to_string (a : PeerAddress) : list ascii := ip a ++ $":" ++ print_dec (port a).
Definition update_last_seen (now : Z) (a : PeerAddress) : PeerAddress := mkPeerAddress (ip a) (port a) now (services a).

(** [duration_cast<seconds>(now - last_seen).count()]. *)
Definition age_seconds (now : Z) (a : PeerAddress) : Z := Z.quot (now - last_seen a) 1000000000.

Definition peer_eqb (a b : PeerAddress) : bool := bool_decide (ip a = ip b) && (port a =? port b).
Definition peer_neqb (a b : PeerAddress) : bool := negb (peer_eqb a b).
Definition peer_ltb (a b : PeerAddress) : bool :=
  if bool_decide (ip a <> ip b) then bytes_ltb (bytes_of_cstr (ip a)) (bytes_of_cstr (ip b)) else port a <? port b.

Definition NODE_NETWORK : Z := Z.shiftl 1 0.
Definition NODE_BLOOM : Z := Z.shiftl 1 1.
Definition NODE_WITNESS : Z := Z.shiftl 1 2.
Definition NODE_COMPACT : Z := Z.shiftl 1 3.
Definition NODE_NETWORK_LIMITED : Z := Z.shiftl 1 4.

(** ** Peer state *)

Record PeerInfo : Type := mkPeerInfo {
  address : PeerAddress;
  version : list ascii;
  peer_height : Z;
  ping_time_ms : Z;
  connected : bool;
  connection_attempts : Z;
  last_attempt : Z;
  connected_since : Z
}.
Definition PeerInfo_of (a : PeerAddress) : PeerInfo := mkPeerInfo a [] 0 (-1) false 0 0 0.

Definition is_stale (now max_age : Z) (p : PeerInfo) : bool := max_age <? age_seconds now (address p).
Definition should_retry (now retry_interval : Z) (p : PeerInfo) : bool :=
  if connected p then false else retry_interval <=? Z.quot (now - last_attempt p) 1000000000.
Definition record_attempt (now : Z) (p : PeerInfo) : PeerInfo :=
  mkPeerInfo (address p) (version p) (peer_height p) (ping_time_ms p) (connected p) (u32 (connection_attempts p + 1)) now (connected_since p).
Definition mark_connected (now now' : Z) (p : PeerInfo) : PeerInfo :=
  mkPeerInfo (update_last_seen now' (address p)) (version p) (peer_height p) (ping_time_ms p) true (connection_attempts p) (last_attempt p) now.
Definition mark_disconnected (p : PeerInfo) : PeerInfo :=
  mkPeerInfo (address p) (version p) (peer_height p) (ping_time_ms p) false (connection_attempts p) (last_attempt p) (connected_since p).

(** ** Validation *)

Section Validation.
Context {lib : AddressLib}.

Definition is_valid_ip (s : list ascii) : bool := match make_address s with Some _ => true | None => false end.

Definition is_localhost (s : list ascii) : bool :=
  if bool_decide (s = $"127.0.0.1") || bool_decide (s = $"::1") || bool_decide (s = $"localhost") then true
  else match make_address s with Some a => is_loopback a | None => false end.

(** The four v4 ranges, byte by byte. *)
Definition private_v4 (bytes : list Z) : bool :=
  let b0 := bytes !!! 0%nat in let b1 := bytes !!! 1%nat in
  (b0 =? 10) || ((b0 =? 172) && ((16 <=? b1) && (b1 <=? 31))) || ((b0 =? 192) && (b1 =? 168)) || ((b0 =? 169) && (b1 =? 254)).

Definition is_private_ip (s : list ascii) : bool :=
  match make_address s with
  | None => false
  | Some a => match v4_bytes a with
              | Some bytes => private_v4 bytes
              | None => is_site_local a || is_link_local a
              end
  end.

Definition is_routable_ip (s : list ascii) : bool :=
  match make_address s with
  | None => false
  | Some a => if is_loopback a || is_multicast a || is_unspecified a then false
              else if is_private_ip s then false else true
  end.

Definition is_valid_port (p : Z) : bool := 0 <? p.

Definition is_valid_peer_address (a : PeerAddress) (allow_private : bool) : bool :=
  if negb (is_valid_ip (ip a)) then false
  else if negb (is_valid_port (port a)) then false
  else if negb allow_private && negb (is_routable_ip (ip a)) then false
  else true.

Definition is_valid (a : PeerAddress) : bool := is_valid_peer_address a false.
Definition is_local (a : PeerAddress) : bool := is_localhost (ip a) || is_private_ip (ip a).
Definition is_routable (a : PeerAddress) : bool := is_routable_ip (ip a).
End Validation.

(** ** Lemmas *)

Lemma peer_eqb_eq a b : peer_eqb a b = true <-> ip a = ip b /\ port a = port b.
Proof. unfold peer_eqb. by rewrite andb_true_iff, bool_decide_eq_true, Z.eqb_eq. Qed.

Lemma peer_ltb_irrefl a : peer_ltb a a = false.
Proof. unfold peer_ltb. rewrite bool_decide_false by tauto. apply Z.ltb_irrefl. Qed.

Lemma peer_ltb_ne a b : ip a <> ip b -> peer_ltb a b = bytes_ltb (bytes_of_cstr (ip a)) (bytes_of_cstr (ip b)).
Proof. intros H. unfold peer_ltb. by rewrite bool_decide_true. Qed.
Lemma peer_ltb_same a b : ip a = ip b -> peer_ltb a b = (port a <? port b).
Proof. intros H. unfold peer_ltb. by rewrite bool_decide_false by tauto. Qed.

Lemma peer_ltb_trans a b c : peer_ltb a b = true -> peer_ltb b c = true -> peer_ltb a c = true.
Proof.
  destruct (decide (ip a = ip b)) as [Eab|Nab], (decide (ip b = ip c)) as [Ebc|Nbc].
  - rewrite !peer_ltb_same by congruence. rewrite !Z.ltb_lt. lia.
  - rewrite (peer_ltb_ne b), (peer_ltb_ne a c) by congruence. by rewrite Eab.
  - rewrite (peer_ltb_ne a b), (peer_ltb_ne a c) by congruence. by rewrite Ebc.
  - rewrite (peer_ltb_ne a b), (peer_ltb_ne b c) by done. intros H1 H2.
    pose proof (bytes_ltb_trans _ _ _ H1 H2) as H. destruct (decide (ip a = ip c)) as [Eac|Nac].
    + rewrite Eac, bytes_ltb_irrefl in H. done.
    + by rewrite peer_ltb_ne.
Qed.

(** Elements neither of which is below the other are the same endpoint. *)
Lemma peer_ltb_total a b : peer_ltb a b = false -> peer_ltb b a = false -> peer_eqb a b = true.
Proof.
  rewrite peer_eqb_eq. destruct (decide (ip a = ip b)) as [E|N].
  - rewrite !peer_ltb_same, !Z.ltb_ge by done. intros. split; [done|lia].
  - rewrite !peer_ltb_ne by congruence. intros H1 H2. apply bytes_ltb_total in H1; [|done]. by apply bytes_of_cstr_inj in H1.
Qed.

Lemma peer_ltb_eqb_l a b c : peer_eqb a b = true -> peer_ltb a c = peer_ltb b c.
Proof. intros [E1 E2]%peer_eqb_eq. unfold peer_ltb. by rewrite E1, E2. Qed.
Lemma peer_ltb_eqb_r a b c : peer_eqb a b = true -> peer_ltb c a = peer_ltb c b.
Proof. intros [E1 E2]%peer_eqb_eq. unfold peer_ltb. by rewrite E1, E2. Qed.

Lemma is_valid_spec {lib : AddressLib} a :
  is_valid a = true <-> 0 < port a /\ exists x, make_address (ip a) = Some x
    /\ is_loopback x = false /\ is_multicast x = false /\ is_unspecified x = false /\ is_private_ip (ip a) = false.
Proof.
  unfold is_valid, is_valid_peer_address, is_valid_ip, is_valid_port, is_routable_ip.
  destruct (make_address (ip a)) as [x|]; simpl; [|split; [done|by intros (_ & y & ? & _)]].
  destruct (Z.ltb_spec 0 (port a)); simpl; [|split; [done|intros [? _]; lia]].
  destruct (is_loopback x) eqn:E1, (is_multicast x) eqn:E2, (is_unspecified x) eqn:E3, (is_private_ip (ip a)) eqn:E4; simpl;
    (split; [intros Hv; by eauto 10|intros (_ & y & [= <-] & ? & ? & ? & ?); congruence]).
Qed.
