(* ===== verification/PeerDiscovery.v ===== *)
(** * Peer discovery (p2p/peer_discovery.hpp, peer_discovery.cpp)

    The peer table of [PeerDiscovery], the discovery messages it handles, the
    DNS seeds and the peer-exchange (PEX) wire format.  [std::set<PeerAddress>] is
    the list of its elements in set order.  The user callback runs while
    [peers_mutex_] is held and may call back into the object, so it is a
    computation on the same state; it is taken not to throw.  DNS resolution and
    [std::shuffle] are parameters.  The UDP socket and the timer are in
    [DiscoveryNode]. *)

From stdpp Require Import base list numbers strings sorting sets.
From Stdlib Require Import ZArith Lia Ascii.
From S2P Require Import Prelude CString Sorting Effects PeerAddress.

Inductive DiscoveryError : Type :=
  | INVALID_ADDRESS
  | NO_PEERS_FOUND
  | DNS_RESOLUTION_FAILED
  | BROADCAST_FAILED
  | ALREADY_RUNNING
  | NOT_RUNNING.

Record BootstrapConfig : Type := mkBootstrapConfig {
  static_nodes : list PeerAddress;
  dns_seeds : list (list ascii);
  enable_mdns : bool;
  enable_peer_exchange : bool;
  discovery_port : Z;
  discovery_interval : Z;
  max_peers : Z
}.
Definition default_BootstrapConfig : BootstrapConfig := mkBootstrapConfig [] [] true true 8333 30 125.

Record Discovery : Type := mkDiscovery {
  config_ : BootstrapConfig;
  peers_ : list PeerAddress;
  running_ : bool;
  discovery_callback_ : bool
}.
Definition PeerDiscovery_of (config : BootstrapConfig) : Discovery := mkDiscovery config [] false false.

Definition set_peers (ps : list PeerAddress) (d : Discovery) : Discovery :=
  mkDiscovery (config_ d) ps (running_ d) (discovery_callback_ d).

(** ** [std::set] *)

Definition set_mem (a : PeerAddress) (ps : list PeerAddress) : bool := existsb (peer_eqb a) ps.
(** [insert] leaves an equivalent element in place. *)
Definition set_insert (a : PeerAddress) (ps : list PeerAddress) : list PeerAddress * bool :=
  if set_mem a ps then (ps, false) else (insert_by peer_ltb a ps, true).
Definition set_erase (a : PeerAddress) (ps : list PeerAddress) : list PeerAddress :=
  List.filter (fun b => negb (peer_eqb a b)) ps.

(** ** Peer exchange *)

Definition serialize_peer (p : PeerAddress) : list Z :=
  u8 (Z.of_nat (length (ip p))) :: bytes_of_cstr (ip p) ++ be_bytes 2 (port p) ++ be_bytes 4 (services p).
Definition serialize_peers (ps : list PeerAddress) : list Z :=
  be_bytes 4 (u32 (Z.of_nat (length ps))) ++ concat (map serialize_peer ps).

(** An element access of the vector. *)
Definition byte_at (data : list Z) (pos : nat) : outcome Z :=
  match data !! pos with Some b => Ret b | None => Undefined end.
(** [(a << 24) | (b << 16) | (c << 8) | d] on [uint32_t], and its 16-bit form. *)
Definition read_u32 (data : list Z) (pos : nat) : outcome Z :=
  a ← byte_at data pos; b ← byte_at data (pos + 1); c ← byte_at data (pos + 2); d ← byte_at data (pos + 3);
  Ret (u32 (Z.lor (Z.lor (Z.lor (u32 (Z.shiftl a 24)) (u32 (Z.shiftl b 16))) (u32 (Z.shiftl c 8))) d)).
Definition read_u16 (data : list Z) (pos : nat) : outcome Z :=
  a ← byte_at data pos; b ← byte_at data (pos + 1);
  Ret (u16 (Z.lor (Z.shiftl a 8) b)).

Record peer_fields : Type := mkFields { f_ip : list ascii; f_port : Z; f_services : Z }.

(** [std::string(data.begin() + first, data.begin() + last)]: an iterator past the end of
    the data is undefined behaviour. *)
Definition string_range (data : list Z) (first last : nat) : outcome (list ascii) :=
  if Nat.leb first last && Nat.leb last (length data) then Ret (cstr_of_bytes (take (last - first) (drop first data))) else Undefined.

(** The loop of [deserialize_peers]; [remaining] is [count - i].  Running out of
    fuel would be a non-terminating loop. *)
Fixpoint parse_loop (data : list Z) (fuel : nat) (remaining : Z) (pos : nat) : outcome (list peer_fields) :=
  match fuel with
  | O => Undefined
  | S fuel' =>
      let n := length data in
      if (0 <? remaining) && Nat.ltb pos n then
        if Nat.leb n pos then Ret [] else
        ip_len ← byte_at data pos;
        let pos := (pos + 1)%nat in
        let len := Z.to_nat ip_len in
        if Nat.ltb n (pos + len) then Ret []
        else
          ip ← string_range data pos (pos + len);
          let pos := (pos + len)%nat in
          if Nat.ltb n (pos + 2) then Ret []
          else
            port ← read_u16 data pos;
            let pos := (pos + 2)%nat in
            if Nat.ltb n (pos + 4) then Ret []
            else
              services ← read_u32 data pos;
              let pos := (pos + 4)%nat in
              rest ← parse_loop data fuel' (remaining - 1) pos;
              Ret (mkFields ip port services :: rest)
      else Ret []
  end.

Definition deserialize_fields (data : list Z) : outcome (list peer_fields) :=
  if Nat.ltb (length data) 4 then Ret []
  else count ← read_u32 data 0; parse_loop data (S (length data)) count 4.

(** Most recently seen first. *)
Definition select_peers_to_share (all_peers : list PeerAddress) (max_count : nat) : list PeerAddress :=
  if Nat.leb (length all_peers) max_count then all_peers
  else take max_count (sort_by (fun a b => last_seen b <? last_seen a) all_peers).

(** [std::unique]: drop an element equal to the one kept before it. *)
Fixpoint unique (ps : list PeerAddress) : list PeerAddress :=
  match ps with
  | a :: ps' =>
      match unique ps' with
      | b :: rest => if peer_eqb a b then a :: rest else a :: b :: rest
      | [] => [a]
      end
  | [] => []
  end.

Section Discovery.
Context {env : Env} {lib : AddressLib}.
Abbreviation disc_eff := (eff Discovery PeerAddress) (only parsing).
Context (callback : PeerAddress -> disc_eff ()).
(** The addresses a seed resolves to; [None] when the resolver throws. *)
Context (dns : list ascii -> option (list (list ascii))).
Context (shuffle : list PeerAddress -> list PeerAddress).

(** [peers.emplace_back(ip, port, services)]: each constructor reads the clock. *)
Fixpoint construct_peers (fs : list peer_fields) : disc_eff (list PeerAddress) :=
  match fs with
  | [] => mret []
  | f :: fs' =>
      now ← read_clock;
      rest ← construct_peers fs';
      mret (PeerAddress_of_services (f_ip f) (f_port f) (f_services f) now :: rest)
  end.
Definition deserialize_peers (data : list Z) : disc_eff (list PeerAddress) :=
  fs ← lift (deserialize_fields data); construct_peers fs.

(** ** The peer table *)

Definition get_peers : disc_eff (list PeerAddress) := with_lock Exclusive (d ← get; mret (peers_ d)).
Definition peer_count : disc_eff Z := with_lock Exclusive (d ← get; mret (Z.of_nat (length (peers_ d)))).
Definition has_peer (a : PeerAddress) : disc_eff bool := with_lock Exclusive (d ← get; mret (set_mem a (peers_ d))).

Definition add_peer (a : PeerAddress) : disc_eff bool :=
  if negb (is_valid a) then mret false
  else with_lock Exclusive (
    d ← get;
    if max_peers (config_ d) <=? Z.of_nat (length (peers_ d)) then mret false
    else
      let '(ps, inserted) := set_insert a (peers_ d) in
      modify (set_peers ps);;
      (if inserted && discovery_callback_ d then callback a else mret tt);;
      mret inserted).

Definition remove_peer (a : PeerAddress) : disc_eff bool :=
  with_lock Exclusive (
    d ← get;
    modify (set_peers (set_erase a (peers_ d)));;
    mret (set_mem a (peers_ d))).

Definition get_random_peers (count : nat) : disc_eff (list PeerAddress) :=
  with_lock Exclusive (
    d ← get;
    mret (if Nat.leb (length (peers_ d)) count then peers_ d else take count (shuffle (peers_ d)))).

Definition set_discovery_callback (installed : bool) : disc_eff () :=
  modify (fun d => mkDiscovery (config_ d) (peers_ d) (running_ d) installed).

(** The erase loop of [cleanup_stale_peers]: one clock reading per peer. *)
Fixpoint cleanup_loop (max_age : Z) (ps : list PeerAddress) : disc_eff (list PeerAddress) :=
  match ps with
  | [] => mret []
  | a :: ps' =>
      now ← read_clock;
      rest ← cleanup_loop max_age ps';
      mret (if max_age <? age_seconds now a then rest else a :: rest)
  end.
Definition cleanup_stale_peers (max_age : Z) : disc_eff () :=
  with_lock Exclusive (d ← get; ps ← cleanup_loop max_age (peers_ d); modify (set_peers ps)).

Definition load_bootstrap_nodes : disc_eff () :=
  d ← get; for_each (fun a => add_peer a;; mret tt) (static_nodes (config_ d)).

Definition exchange_peers (their_peers : list PeerAddress) : disc_eff (list PeerAddress) :=
  for_each (fun a => add_peer a;; mret tt) their_peers;;
  ps ← get_peers;
  mret (select_peers_to_share ps 10).

(** ** DNS seeds *)

Definition resolve (dns_seed : list ascii) (default_port : Z) : disc_eff (list PeerAddress) :=
  match dns dns_seed with
  | Some addrs => construct_peers (map (fun s => mkFields s default_port NODE_NETWORK) addrs)
  | None => mret []
  end.

Fixpoint resolve_all (seeds : list (list ascii)) (default_port : Z) : disc_eff (list PeerAddress) :=
  match seeds with
  | [] => mret []
  | seed :: seeds' => ps ← resolve seed default_port; rest ← resolve_all seeds' default_port; mret (ps ++ rest)
  end.
Definition resolve_multiple (seeds : list (list ascii)) (default_port : Z) : disc_eff (list PeerAddress) :=
  all ← resolve_all seeds default_port; mret (unique (sort_by peer_ltb all)).

(** The peers of the list that were added. *)
Fixpoint add_all (ps : list PeerAddress) : disc_eff (list PeerAddress) :=
  match ps with
  | [] => mret []
  | a :: ps' => added ← add_peer a; rest ← add_all ps'; mret (if (added : bool) then a :: rest else rest)
  end.
Fixpoint resolve_seeds (seeds : list (list ascii)) (prt : Z) : disc_eff (list PeerAddress) :=
  match seeds with
  | [] => mret []
  | seed :: seeds' => ps ← resolve seed prt; added ← add_all ps; rest ← resolve_seeds seeds' prt; mret (added ++ rest)
  end.
Definition resolve_dns_seeds : disc_eff (DiscoveryError + list PeerAddress) :=
  d ← get;
  discovered ← resolve_seeds (dns_seeds (config_ d)) (discovery_port (config_ d));
  mret (match discovered with [] => inl NO_PEERS_FOUND | _ => inr discovered end).

(** ** Messages *)

(** The text [broadcast_discovery] sends. *)
Definition discovery_message (prt : Z) : list Z := bytes_of_cstr ($"DISCOVER:" ++ print_dec prt).

Definition handle_discovery_message (data : list Z) (sender_address : list ascii) : disc_eff () :=
  let message := cstr_of_bytes data in
  if starts_with ($"DISCOVER:") message then
    match stoi 10 (drop 9 message) with
    | Ret v => now ← read_clock; add_peer (PeerAddress_of sender_address (u16 v) now);; mret tt
    | Throw _ => mret tt
    | Undefined => lift Undefined
    end
  else if starts_with ($"PEERLIST:") message then
    ps ← deserialize_peers (drop 9 data);
    for_each (fun a => add_peer a;; mret tt) ps
  else mret tt.
End Discovery.

(** ** Lemmas: the wire format *)

Lemma length_serialize_peer p : length (serialize_peer p) = (7 + length (ip p))%nat.
Proof. unfold serialize_peer, bytes_of_cstr. simpl. rewrite !length_app, length_map. simpl. lia. Qed.

Lemma byte_at_app l1 l2 i : (length l1 <= i)%nat -> byte_at (l1 ++ l2) i = byte_at l2 (i - length l1).
Proof. intros. unfold byte_at. by rewrite lookup_app_r. Qed.

Lemma byte_at_defined data pos : (pos < length data)%nat -> exists b, byte_at data pos = Ret b /\ data !! pos = Some b.
Proof. intros H. unfold byte_at. destruct (lookup_lt_is_Some_2 data pos H) as [b Hb]. exists b. by rewrite Hb. Qed.

Lemma shift_lor_4 a b c d :
  is_u8 a -> is_u8 b -> is_u8 c -> is_u8 d ->
  u32 (Z.lor (Z.lor (Z.lor (u32 (Z.shiftl a 24)) (u32 (Z.shiftl b 16))) (u32 (Z.shiftl c 8))) d) = be_value [a; b; c; d].
Proof.
  intros Ha Hb Hc Hd. unfold is_u8 in *.
  assert (S : forall x k, 0 <= x < 256 -> 0 <= k <= 24 -> u32 (Z.shiftl x k) = Z.shiftl x k).
  { intros x k Hx Hk. apply u32_small. rewrite Z.shiftl_mul_pow2 by lia.
    assert (2 ^ k <= 2 ^ 24) by (apply Z.pow_le_mono_r; lia). assert (0 < 2 ^ k) by (apply Z.pow_pos_nonneg; lia).
    unfold is_u32. nia. }
  rewrite !S by lia.
  replace (Z.shiftl a 24) with (Z.shiftl (Z.shiftl (Z.shiftl a 8) 8) 8) by (by rewrite !Z.shiftl_shiftl by lia).
  replace (Z.shiftl b 16) with (Z.shiftl (Z.shiftl b 8) 8) by (by rewrite !Z.shiftl_shiftl by lia).
  rewrite <- !Z.shiftl_lor.
  rewrite (lor_shift_byte a b), (lor_shift_byte (a * 256 + b) c), lor_shift_byte by (unfold is_u8; lia).
  unfold be_value. simpl. apply u32_small. unfold is_u32. lia.
Qed.

Lemma read_u32_at data pos :
  bytes_ok data -> (pos + 4 <= length data)%nat -> read_u32 data pos = Ret (be_value (take 4 (drop pos data))).
Proof.
  intros Hok Hl. unfold read_u32.
  destruct (byte_at_defined data pos) as (a & -> & Ha); [lia|]. destruct (byte_at_defined data (pos + 1)) as (b & -> & Hb); [lia|].
  destruct (byte_at_defined data (pos + 2)) as (c & -> & Hc); [lia|]. destruct (byte_at_defined data (pos + 3)) as (d & -> & Hd); [lia|].
  simpl. unfold bytes_ok in Hok. rewrite Forall_lookup in Hok. rewrite shift_lor_4 by eauto. do 2 f_equal.
  rewrite (drop_S _ _ _ Ha). replace (S pos) with (pos + 1)%nat by lia. rewrite (drop_S _ _ _ Hb).
  replace (S (pos + 1)) with (pos + 2)%nat by lia. rewrite (drop_S _ _ _ Hc).
  replace (S (pos + 2)) with (pos + 3)%nat by lia. rewrite (drop_S _ _ _ Hd). done.
Qed.

Lemma read_u16_at data pos :
  bytes_ok data -> (pos + 2 <= length data)%nat -> read_u16 data pos = Ret (be_value (take 2 (drop pos data))).
Proof.
  intros Hok Hl. unfold read_u16.
  destruct (byte_at_defined data pos) as (a & -> & Ha); [lia|]. destruct (byte_at_defined data (pos + 1)) as (b & -> & Hb); [lia|].
  simpl. unfold bytes_ok in Hok. rewrite Forall_lookup in Hok.
  pose proof (Hok _ _ Ha) as Ra. pose proof (Hok _ _ Hb) as Rb. unfold is_u8 in *.
  rewrite lor_shift_byte by (unfold is_u8; lia). rewrite u16_small by (unfold is_u16; lia).
  rewrite (drop_S _ _ _ Ha). replace (S pos) with (pos + 1)%nat by lia. rewrite (drop_S _ _ _ Hb). done.
Qed.

Lemma be_value_take_u n data k :
  bytes_ok data -> 0 <= be_value (take n (drop k data)) < 256 ^ Z.of_nat n.
Proof.
  intros Hok. pose proof (be_value_range (take n (drop k data))) as H.
  assert (Hl : (length (take n (drop k data)) <= n)%nat) by (rewrite length_take; lia).
  assert (256 ^ Z.of_nat (length (take n (drop k data))) <= 256 ^ Z.of_nat n) by (apply Z.pow_le_mono_r; lia).
  assert (bytes_ok (take n (drop k data))) by (apply Forall_take, Forall_drop, Hok). specialize (H H1). lia.
Qed.

Lemma string_range_at data pos len :
  (pos + len <= length data)%nat -> string_range data pos (pos + len) = Ret (cstr_of_bytes (take len (drop pos data))).
Proof.
  intros H. unfold string_range. rewrite (proj2 (Nat.leb_le pos (pos + len))), (proj2 (Nat.leb_le (pos + len) (length data))) by lia. cbn [andb].
  by replace (pos + len - pos)%nat with len by lia.
Qed.

Definition fields_ok (f : peer_fields) : Prop :=
  (length (f_ip f) <= 255)%nat /\ is_u16 (f_port f) /\ is_u32 (f_services f).

(** One iteration of the parser, past its bounds checks. *)
Lemma parse_loop_step data fuel remaining pos b :
  bytes_ok data -> 0 < remaining -> data !! pos = Some b -> (pos + 1 + Z.to_nat b + 6 <= length data)%nat ->
  parse_loop data (S fuel) remaining pos
  = (rest ← parse_loop data fuel (remaining - 1) (pos + 1 + Z.to_nat b + 2 + 4);
     Ret (mkFields (cstr_of_bytes (take (Z.to_nat b) (drop (pos + 1) data)))
            (be_value (take 2 (drop (pos + 1 + Z.to_nat b) data)))
            (be_value (take 4 (drop (pos + 1 + Z.to_nat b + 2) data))) :: rest)).
Proof.
  intros Hok Hr Hb Hl. cbn [parse_loop]. apply lookup_lt_Some in Hb as Hlt.
  rewrite (proj2 (Z.ltb_lt 0 remaining)) by done. rewrite (proj2 (Nat.ltb_lt pos (length data))) by done. cbn [andb].
  rewrite (proj2 (Nat.leb_gt (length data) pos)) by done. unfold byte_at. rewrite Hb. simpl.
  rewrite (proj2 (Nat.ltb_ge (length data) (pos + 1 + Z.to_nat b))) by lia. rewrite string_range_at by lia. simpl.
  rewrite (proj2 (Nat.ltb_ge (length data) (pos + 1 + Z.to_nat b + 2))) by lia.
  rewrite read_u16_at by (done || lia). simpl.
  rewrite (proj2 (Nat.ltb_ge (length data) (pos + 1 + Z.to_nat b + 2 + 4))) by lia.
  rewrite read_u32_at by (done || lia). done.
Qed.

(** Cut short: less than a whole record is left. *)
Lemma parse_loop_short data fuel remaining pos b :
  bytes_ok data -> data !! pos = Some b -> (length data < pos + 1 + Z.to_nat b + 6)%nat ->
  parse_loop data (S fuel) remaining pos = Ret [].
Proof.
  intros Hok Hb Hl. cbn [parse_loop]. destruct ((0 <? remaining) && _); [|done]. destruct (Nat.leb (length data) pos); [done|]. unfold byte_at. rewrite Hb. simpl.
  destruct (Nat.ltb_spec (length data) (pos + 1 + Z.to_nat b)); [done|]. rewrite string_range_at by lia. simpl.
  destruct (Nat.ltb_spec (length data) (pos + 1 + Z.to_nat b + 2)); [done|].
  rewrite read_u16_at by (done || lia). simpl.
  by rewrite (proj2 (Nat.ltb_lt (length data) (pos + 1 + Z.to_nat b + 2 + 4))) by lia.
Qed.

Lemma parse_loop_total data fuel remaining pos :
  bytes_ok data -> (length data - pos < fuel)%nat ->
  exists l, parse_loop data fuel remaining pos = Ret l /\ Forall fields_ok l
    /\ (7 * length l <= length data - pos)%nat /\ Z.of_nat (length l) <= Z.max 0 remaining.
Proof.
  intros Hok. revert remaining pos. induction fuel as [|fuel IH]; intros remaining pos Hf; [lia|].
  destruct (decide (0 < remaining /\ (pos < length data)%nat)) as [[Hr Hp]|Hout].
  2: { exists []. split_and!; simpl; [|constructor|lia|lia].
       destruct (Z.ltb_spec 0 remaining); simpl; [|done]. destruct (Nat.ltb_spec pos (length data)); [tauto|done]. }
  destruct (byte_at_defined data pos Hp) as (b & _ & Hb).
  assert (Rb : is_u8 b) by (unfold bytes_ok in Hok; rewrite Forall_lookup in Hok; eauto). unfold is_u8 in Rb.
  destruct (decide (length data < pos + 1 + Z.to_nat b + 6)%nat) as [Hs|Hl].
  - exists []. rewrite (parse_loop_short _ _ _ _ b) by done. split_and!; simpl; [done|constructor|lia|lia].
  - rewrite (parse_loop_step _ _ _ _ b) by (done || lia).
    destruct (IH (remaining - 1) (pos + 1 + Z.to_nat b + 2 + 4)%nat) as (l & -> & Hfo & Hlen & Hrem); [lia|].
    eexists. split; [reflexivity|]. simpl length. split_and!; [|lia|lia].
    constructor; [|done]. unfold fields_ok, is_u16, is_u32. simpl. split_and!.
    + unfold cstr_of_bytes. rewrite length_map, length_take. lia.
    + apply (be_value_take_u 2 data). done.
    + apply (be_value_take_u 2 data). done.
    + apply (be_value_take_u 4 data). done.
    + apply (be_value_take_u 4 data). done.
Qed.

(** What a peer looks like on the wire. *)
Definition fields_of (p : PeerAddress) : peer_fields := mkFields (ip p) (port p) (services p).
Definition wire_ok (p : PeerAddress) : Prop := (length (ip p) < 256)%nat /\ is_u16 (port p) /\ is_u32 (services p).

#[export] Instance wire_ok_dec p : Decision (wire_ok p).
Proof. unfold wire_ok. apply _. Defined.

Lemma serialize_peer_ok p : bytes_ok (serialize_peer p).
Proof.
  constructor; [apply u8_range|]. apply Forall_app_2; [apply bytes_of_cstr_ok|]. apply Forall_app_2; apply be_bytes_ok.
Qed.

Lemma serialize_all_ok ps : bytes_ok (concat (map serialize_peer ps)).
Proof.
  induction ps as [|q qs IH]; [constructor|]. cbn [map concat].
  apply Forall_app_2; [apply serialize_peer_ok|apply IH].
Qed.

Lemma length_serialize_all ps : (7 * length ps <= length (concat (map serialize_peer ps)))%nat.
Proof.
  induction ps as [|q qs IH]; [simpl; lia|]. cbn [map concat length]. rewrite length_app, length_serialize_peer. lia.
Qed.

Lemma parse_loop_roundtrip ps pre fuel :
  bytes_ok pre -> Forall wire_ok ps -> (length ps < fuel)%nat ->
  parse_loop (pre ++ concat (map serialize_peer ps)) fuel (Z.of_nat (length ps)) (length pre) = Ret (map fields_of ps).
Proof.
  revert pre fuel. induction ps as [|p ps IH]; intros pre fuel Hpre Hps Hf.
  { destruct fuel; [simpl in Hf; lia|]. done. }
  apply Forall_cons_1 in Hps as [(Hlen & Hport & Hserv) Hps]. destruct fuel as [|fuel]; [simpl in Hf; lia|].
  set (n := length (ip p)) in *. set (tail := concat (map serialize_peer ps)).
  assert (Hdata : pre ++ concat (map serialize_peer (p :: ps))
    = pre ++ Z.of_nat n :: bytes_of_cstr (ip p) ++ be_bytes 2 (port p) ++ be_bytes 4 (services p) ++ tail).
  { simpl map. simpl concat. unfold serialize_peer at 1. rewrite u8_small by (unfold is_u8; lia).
    simpl. by rewrite <- !app_assoc. }
  assert (Hok : bytes_ok (pre ++ concat (map serialize_peer (p :: ps)))).
  { apply Forall_app_2; [done|apply serialize_all_ok]. }
  assert (Hip : length (bytes_of_cstr (ip p)) = n) by (unfold bytes_of_cstr; apply length_map).
  rewrite (parse_loop_step _ _ _ _ (Z.of_nat n)); [|done|simpl; lia| |].
  2: { rewrite Hdata. by rewrite lookup_app_r, Nat.sub_diag by lia. }
  2: { rewrite Hdata, length_app. simpl. rewrite !length_app, Hip. simpl. lia. }
  rewrite Nat2Z.id.
  assert (D1 : drop (length pre + 1) (pre ++ concat (map serialize_peer (p :: ps)))
    = bytes_of_cstr (ip p) ++ be_bytes 2 (port p) ++ be_bytes 4 (services p) ++ tail).
  { rewrite Hdata, drop_app_ge by lia. by replace (length pre + 1 - length pre)%nat with 1%nat by lia. }
  assert (D2 : drop (length pre + 1 + n) (pre ++ concat (map serialize_peer (p :: ps)))
    = be_bytes 2 (port p) ++ be_bytes 4 (services p) ++ tail).
  { rewrite <- drop_drop, D1. by apply drop_app_length'. }
  assert (D3 : drop (length pre + 1 + n + 2) (pre ++ concat (map serialize_peer (p :: ps)))
    = be_bytes 4 (services p) ++ tail).
  { rewrite <- drop_drop, D2. by apply drop_app_length'. }
  rewrite D1, D2, D3.
  rewrite (take_app_length' (bytes_of_cstr (ip p))), (take_app_length' (be_bytes 2 (port p))),
    (take_app_length' (be_bytes 4 (services p))) by done.
  rewrite cstr_of_bytes_of_cstr, !be_value_be_bytes, !Z.mod_small by (unfold is_u16, is_u32 in *; lia).
  specialize (IH (pre ++ serialize_peer p) fuel). rewrite length_app, length_serialize_peer in IH.
  replace (length pre + 1 + n + 2 + 4)%nat with (length pre + (7 + length (ip p)))%nat by (unfold n; lia).
  replace (Z.of_nat (length (p :: ps)) - 1) with (Z.of_nat (length ps)) by (simpl; lia).
  cbn [map concat]. rewrite (app_assoc pre). rewrite IH; [done| |done|simpl in Hf; lia].
  apply Forall_app_2; [done|apply serialize_peer_ok].
Qed.

Lemma deserialize_fields_roundtrip ps :
  Forall wire_ok ps -> Z.of_nat (length ps) < U32_MOD -> deserialize_fields (serialize_peers ps) = Ret (map fields_of ps).
Proof.
  intros Hps Hn. unfold deserialize_fields.
  assert (Hpre : bytes_ok (be_bytes 4 (u32 (Z.of_nat (length ps))))) by apply be_bytes_ok.
  assert (Hok : bytes_ok (serialize_peers ps)).
  { apply Forall_app_2; [done|apply serialize_all_ok]. }
  assert (Hl : (4 + 7 * length ps <= length (serialize_peers ps))%nat).
  { unfold serialize_peers. rewrite length_app, length_be_bytes. pose proof (length_serialize_all ps). lia. }
  rewrite (proj2 (Nat.ltb_ge _ _)) by lia. rewrite read_u32_at by (done || lia).
  unfold mbind, outcome_bind.
  assert (Hc : be_value (take 4 (drop 0 (serialize_peers ps))) = Z.of_nat (length ps)).
  { unfold serialize_peers. rewrite drop_0, take_app_length' by (symmetry; apply length_be_bytes).
    rewrite be_value_be_bytes, u32_small by (unfold is_u32; lia). apply Z.mod_small. lia. }
  rewrite Hc. apply (parse_loop_roundtrip ps (be_bytes 4 (u32 (Z.of_nat (length ps))))); [done|done|lia].
Qed.

(** ** Lemmas: the peer table *)

Definition strictly_sorted (ps : list PeerAddress) : Prop := StronglySorted (fun a b => peer_ltb a b = true) ps.

Lemma set_mem_spec a ps : set_mem a ps = true <-> exists b, b ∈ ps /\ peer_eqb a b = true.
Proof.
  unfold set_mem. rewrite existsb_exists. split; intros (b & Hb & E); exists b; split; try done; by apply list_elem_of_In.
Qed.

Lemma insert_strictly_sorted a ps :
  set_mem a ps = false -> strictly_sorted ps -> strictly_sorted (insert_by peer_ltb a ps).
Proof.
  intros Hm Hs. induction Hs as [|b ps Hs IH Hf]; [by repeat constructor|].
  simpl in Hm. apply orb_false_iff in Hm as [Hab Hm]. simpl. destruct (peer_ltb b a) eqn:E.
  - constructor; [by apply IH|]. rewrite insert_by_perm. by constructor.
  - assert (Hlt : peer_ltb a b = true).
    { destruct (peer_ltb a b) eqn:F; [done|]. by rewrite (peer_ltb_total _ _ F E) in Hab. }
    constructor; [by constructor|]. constructor; [done|].
    rewrite Forall_forall in Hf |- *. intros c Hc. by eapply peer_ltb_trans; [|apply Hf].
Qed.

Lemma strictly_sorted_sublist ps qs : qs `sublist_of` ps -> strictly_sorted ps -> strictly_sorted qs.
Proof.
  intros Hs. induction Hs as [|x l k Hs IH|x l k Hs IH]; intros Ho; [done| |]; inversion_clear Ho as [|? ? Hk Hf].
  - constructor; [by apply IH|]. rewrite Forall_forall in Hf |- *. intros y Hy. apply Hf. by eapply elem_of_sublist.
  - by apply IH.
Qed.

(** The table is a set, holds valid addresses only and respects its bound. *)
Record table_inv {lib : AddressLib} (d : Discovery) : Prop := {
  table_sorted : strictly_sorted (peers_ d);
  table_valid : Forall (fun a => is_valid a = true) (peers_ d);
  table_bounded : Z.of_nat (length (peers_ d)) <= Z.max 0 (max_peers (config_ d))
}.

Lemma table_inv_shrink {lib : AddressLib} d qs :
  qs `sublist_of` peers_ d -> table_inv d -> table_inv (set_peers qs d).
Proof.
  intros Hs [H1 H2 H3]. split; simpl.
  - by eapply strictly_sorted_sublist.
  - rewrite Forall_forall in H2 |- *. intros y Hy. apply H2. by eapply elem_of_sublist.
  - apply sublist_length in Hs. lia.
Qed.

Lemma set_erase_sublist a ps : set_erase a ps `sublist_of` ps.
Proof. unfold set_erase. induction ps as [|b ps IH]; simpl; [constructor|]. case_match; by constructor. Qed.

Section Table.
Context {env : Env} {lib : AddressLib} (callback : PeerAddress -> eff Discovery PeerAddress ()).
Implicit Types w : world Discovery PeerAddress.

(** A callback that returns and leaves the object alone. *)
Definition quiet : Prop := forall a w, twp (callback a) (fun _ w' => obj w' = obj w /\ held w' = held w) w.

Lemma twp_add_peer a (Q : bool -> world Discovery PeerAddress -> Prop) w :
  quiet -> held w = [] ->
  (is_valid a = false \/ max_peers (config_ (obj w)) <= Z.of_nat (length (peers_ (obj w))) \/ set_mem a (peers_ (obj w)) = true -> Q false w) ->
  (is_valid a = true -> Z.of_nat (length (peers_ (obj w))) < max_peers (config_ (obj w)) -> set_mem a (peers_ (obj w)) = false ->
     forall tk lg, Q true (mkWorld (set_peers (insert_by peer_ltb a (peers_ (obj w))) (obj w)) [] tk lg)) ->
  twp (add_peer callback a) Q w.
Proof.
  intros Hq Hh H1 H2. destruct w as [d hs tk lg]. simpl in *. subst hs. unfold add_peer.
  destruct (is_valid a) eqn:V; simpl; [|twp_go; auto].
  apply twp_lock; [done|]. cbn [obj ticks log]. twp_go.
  destruct (Z.leb_spec (max_peers (config_ d)) (Z.of_nat (length (peers_ d)))); [twp_go; auto|].
  unfold set_insert. destruct (set_mem a (peers_ d)) eqn:M; simpl.
  - twp_go. replace (set_peers (peers_ d) d) with d by (by destruct d). auto.
  - twp_go. destruct (discovery_callback_ d); [|twp_go; auto].
    eapply twp_mono; [apply Hq|]. simpl. intros [] [o hs tk' lg'] [Ho Hh]. simpl in *. subst. twp_go. auto.
Qed.

(** What every operation of the table keeps: the invariant, the mutex free, and
    every field of [d] but the peers. *)
Definition table_ok (d : Discovery) w : Prop :=
  table_inv (obj w) /\ held w = [] /\ set_peers [] (obj w) = set_peers [] d.

Lemma add_peer_keeps d a w : quiet -> table_ok d w -> twp (add_peer callback a) (fun _ w' => table_ok d w') w.
Proof.
  intros Hq ([H1 H2 H3] & Hh & Hd). apply twp_add_peer; [done|done|done|].
  intros Hv Hl Hm tk lg. split; [|done]. split; simpl.
  - by apply insert_strictly_sorted.
  - rewrite insert_by_perm. by constructor.
  - rewrite insert_by_perm. simpl. lia.
Qed.

Lemma add_each_keeps d ps w :
  quiet -> table_ok d w -> twp (for_each (fun a => add_peer callback a;; mret tt) ps) (fun _ w' => table_ok d w') w.
Proof.
  intros Hq Hw. apply twp_for_each; [|done]. intros a v _ Hv. twp_step.
  eapply twp_mono; [by apply add_peer_keeps|]. intros b w' Hw'. by twp_go.
Qed.

(** Reading the clock while constructing peers touches nothing else. *)
Lemma twp_construct fs (Q : list PeerAddress -> world Discovery PeerAddress -> Prop) w :
  (forall ps, map fields_of ps = fs ->
     (forall i p, ps !! i = Some p -> last_seen p = clock (ticks w + i)) ->
     Q ps (mkWorld (obj w) (held w) (ticks w + length fs) (log w))) ->
  twp (construct_peers fs) Q w.
Proof.
  revert Q w. induction fs as [|f fs IH]; intros Q w HQ; cbn [construct_peers].
  - twp_go. specialize (HQ [] eq_refl). simpl in HQ. rewrite Nat.add_0_r in HQ. destruct w. apply HQ. done.
  - twp_step. twp_step. twp_step. apply IH. intros ps Hps Hseen. twp_go. cbn [ticks length] in *.
    rewrite Nat.add_succ_comm. apply HQ; [simpl; rewrite Hps; by destruct f|].
    intros [|i] p Hp; simpl in Hp; [injection Hp as <-; simpl; by rewrite Nat.add_0_r|].
    rewrite (Hseen i p Hp). f_equal. lia.
Qed.

Lemma deserialize_total data : bytes_ok data -> exists fs, deserialize_fields data = Ret fs /\ Forall fields_ok fs.
Proof.
  intros Hok. unfold deserialize_fields. destruct (Nat.ltb_spec (length data) 4); [by exists []|].
  rewrite read_u32_at by (done || lia). unfold mbind, outcome_bind.
  destruct (parse_loop_total data (S (length data)) (be_value (take 4 (drop 0 data))) 4 Hok) as (l & -> & Hl & _); [lia|].
  by exists l.
Qed.

Lemma handle_message_keeps d data sender w :
  quiet -> bytes_ok data -> table_ok d w -> twp (handle_discovery_message callback data sender) (fun _ w' => table_ok d w') w.
Proof.
  intros Hq Hok Hw. unfold handle_discovery_message. destruct (starts_with _ _).
  - assert (Hs : stoi 10 (drop 9 (cstr_of_bytes data)) <> Undefined) by (unfold stoi; repeat case_match; done).
    destruct (stoi 10 (drop 9 (cstr_of_bytes data))) as [v|e|]; [|by twp_go|done].
    twp_go. eapply twp_mono; [by apply add_peer_keeps|]. intros b w' Hw'. by twp_go.
  - destruct (starts_with _ _); [|by twp_go]. unfold deserialize_peers. twp_go.
    destruct (deserialize_total (drop 9 data)) as (fs & Hfs & _); [by apply Forall_drop|].
    eapply twp_lift; [exact Hfs|]. apply twp_construct. intros ps _ _. by apply add_each_keeps.
Qed.

Lemma add_all_keeps d ps w : quiet -> table_ok d w -> twp (add_all callback ps) (fun _ w' => table_ok d w') w.
Proof.
  intros Hq. revert w. induction ps as [|a ps IH]; intros w Hw; cbn [add_all]; [by twp_go|].
  twp_step. eapply twp_mono; [by apply add_peer_keeps|]. intros b w1 H1. twp_step.
  eapply twp_mono; [by apply IH|]. intros l w2 H2. by twp_go.
Qed.

Lemma resolve_seeds_keeps dns d seeds prt w :
  quiet -> table_ok d w -> twp (resolve_seeds callback dns seeds prt) (fun _ w' => table_ok d w') w.
Proof.
  intros Hq. revert w. induction seeds as [|seed seeds IH]; intros w Hw; cbn [resolve_seeds]; [by twp_go|].
  twp_step. unfold resolve. eapply (twp_mono _ (fun _ w' => table_ok d w')).
  { destruct (dns seed); [|by twp_go]. by apply twp_construct. }
  intros ps w1 H1. twp_step. eapply twp_mono; [by apply add_all_keeps|]. intros b w2 H2. twp_step.
  eapply twp_mono; [by apply IH|]. intros l w3 H3. by twp_go.
Qed.

Lemma resolve_dns_keeps dns d w :
  quiet -> table_ok d w -> twp (resolve_dns_seeds callback dns) (fun _ w' => table_ok d w') w.
Proof.
  intros Hq Hw. unfold resolve_dns_seeds. do 3 twp_step.
  eapply twp_mono; [by apply resolve_seeds_keeps|]. intros ps w1 H1. by twp_go.
Qed.

Lemma twp_cleanup max_age ps (Q : list PeerAddress -> world Discovery PeerAddress -> Prop) w :
  (forall qs tk, qs `sublist_of` ps -> Q qs (mkWorld (obj w) (held w) tk (log w))) -> twp (cleanup_loop max_age ps) Q w.
Proof.
  revert Q w. induction ps as [|a ps IH]; intros Q w HQ; cbn [cleanup_loop].
  - twp_go. specialize (HQ [] (ticks w)). destruct w. apply HQ. constructor.
  - do 3 twp_step. apply IH. intros qs tk Hqs. twp_go. apply HQ. case_match; by constructor.
Qed.
End Table.

(** ** The calls of the table *)

Inductive disc_op : Type :=
  | DAdd (a : PeerAddress)
  | DRemove (a : PeerAddress)
  | DCleanup (max_age : Z)
  | DBootstrap
  | DExchange (their_peers : list PeerAddress)
  | DResolve
  | DMessage (data : list Z) (sender : list ascii)
  | DCallback (installed : bool).

Definition disc_run {env : Env} {lib : AddressLib} (callback : PeerAddress -> eff Discovery PeerAddress ())
    (dns : list ascii -> option (list (list ascii))) (op : disc_op) : eff Discovery PeerAddress () :=
  match op with
  | DAdd a => add_peer callback a;; mret tt
  | DRemove a => remove_peer a;; mret tt
  | DCleanup n => cleanup_stale_peers n
  | DBootstrap => load_bootstrap_nodes callback
  | DExchange ps => exchange_peers callback ps;; mret tt
  | DResolve => resolve_dns_seeds callback dns;; mret tt
  | DMessage data sender => handle_discovery_message callback data sender
  | DCallback b => set_discovery_callback b
  end.

(** A datagram is made of bytes. *)
Definition disc_op_ok (op : disc_op) : Prop := match op with DMessage data _ => bytes_ok data | _ => True end.

(** What a call leaves of the fields other than the peers. *)
Definition disc_frame (op : disc_op) (d : Discovery) : Discovery :=
  match op with DCallback b => mkDiscovery (config_ d) (peers_ d) (running_ d) b | _ => d end.

Lemma disc_run_keeps {env : Env} {lib : AddressLib} callback dns op (w : world Discovery PeerAddress) :
  quiet callback -> table_inv (obj w) -> held w = [] -> disc_op_ok op ->
  twp (disc_run callback dns op) (fun _ w' => table_ok (disc_frame op (obj w)) w') w.
Proof.
  intros Hq Ht Hh Hop. assert (Hw : table_ok (obj w) w) by done.
  destruct op as [a|a|n| |ps| |data sender|b]; simpl disc_run; cbn [disc_frame].
  - twp_step. eapply twp_mono; [by apply add_peer_keeps|]. intros x w' Hw'. by twp_go.
  - unfold remove_peer. twp_step. apply twp_lock; [done|]. twp_go. split; [|done]. apply table_inv_shrink; [apply set_erase_sublist|done].
  - unfold cleanup_stale_peers. apply twp_lock; [done|]. twp_go. apply twp_cleanup. intros qs tk Hqs. twp_go.
    split; [|done]. by apply table_inv_shrink.
  - unfold load_bootstrap_nodes. twp_go. by apply add_each_keeps.
  - unfold exchange_peers. do 2 twp_step. eapply twp_mono; [by apply (add_each_keeps _ (obj w))|]. intros x w' (Ht' & Hh' & Hd').
    unfold get_peers. twp_step. apply twp_lock; [done|]. twp_go. done.
  - twp_step. eapply twp_mono; [by apply resolve_dns_keeps|]. intros x w' Hw'. by twp_go.
  - by apply handle_message_keeps.
  - unfold set_discovery_callback. twp_go. split; [|done]. destruct Ht as [H1 H2 H3]. by split.
Qed.

(** ** Properties *)

Section Properties.
Context {env : Env} {lib : AddressLib} (callback : PeerAddress -> eff Discovery PeerAddress ()).
Implicit Types w : world Discovery PeerAddress.

(** C9: peer exchange round trip.  Parsing a serialised list gives back the
    addresses, ports and services in order; the time stamps are the clock
    readings of the parse. *)
Theorem pex_roundtrip (ps : list PeerAddress) (w : world Discovery PeerAddress) :
  Forall wire_ok ps -> Z.of_nat (length ps) < U32_MOD ->
  exists qs, deserialize_peers (serialize_peers ps) w
      = Ret (qs, mkWorld (obj w) (held w) (ticks w + length ps) (log w))
    /\ map fields_of qs = map fields_of ps
    /\ (forall i q, qs !! i = Some q -> last_seen q = clock (ticks w + i)).
Proof.
  intros Hps Hn.
  assert (H : twp (deserialize_peers (serialize_peers ps))
    (fun qs w' => w' = mkWorld (obj w) (held w) (ticks w + length ps) (log w)
       /\ map fields_of qs = map fields_of ps /\ (forall i q, qs !! i = Some q -> last_seen q = clock (ticks w + i))) w).
  { unfold deserialize_peers. twp_step. eapply twp_lift; [by apply deserialize_fields_roundtrip|].
    apply twp_construct. intros qs Hqs Hseen. by rewrite length_map. }
  destruct H as (qs & w' & Hrun & -> & H1 & H2). exists qs. done.
Qed.

(** C8: the parser is safe on arbitrary input: whatever bytes arrive it ends
    without reading past them (reading a byte, or building a string from a range, beyond
    the data would be undefined), consumes at least seven bytes per peer, and every field
    it produces is in range. *)
Theorem pex_parser_safe (data : list Z) :
  bytes_ok data ->
  exists fs, deserialize_fields data = Ret fs /\ Forall fields_ok fs /\ (7 * length fs <= length data)%nat.
Proof.
  intros Hok. unfold deserialize_fields. destruct (Nat.ltb_spec (length data) 4); [exists []; split_and!; simpl; done || lia|].
  rewrite read_u32_at by (done || lia). unfold mbind, outcome_bind.
  destruct (parse_loop_total data (S (length data)) (be_value (take 4 (drop 0 data))) 4 Hok) as (l & -> & Hl & Hlen & _); [lia|].
  exists l. split_and!; [done|done|lia].
Qed.

(** The peer table.  Every call, with any datagram and any answer of the
    resolver as input, returns under any locking rule when the callback leaves the
    object alone, releases the mutex, and keeps the table a set of valid addresses
    of at most [max_peers] elements. *)
Theorem peer_table_safe (dns : list ascii -> option (list (list ascii))) (w : world Discovery PeerAddress) (op : disc_op) :
  quiet callback -> table_inv (obj w) -> held w = [] -> disc_op_ok op ->
  exists w', disc_run callback dns op w = Ret (tt, w') /\ table_inv (obj w') /\ held w' = [].
Proof.
  intros Hq Ht Hh Hop. destruct (disc_run_keeps callback dns op w) as ([] & w' & Hrun & Ht' & Hh' & _); [done..|].
  exists w'. done.
Qed.

(** Adding a peer answers [true] exactly when the address is valid, new and
    within the bound, and then the table gains exactly that peer; otherwise
    nothing changes, so seeing a known peer again does not refresh it. *)
Theorem add_peer_outcome (a : PeerAddress) (w : world Discovery PeerAddress) :
  quiet callback -> held w = [] ->
  exists r w', add_peer callback a w = Ret (r, w')
    /\ (r = true <-> is_valid a = true /\ Z.of_nat (length (peers_ (obj w))) < max_peers (config_ (obj w))
                    /\ set_mem a (peers_ (obj w)) = false)
    /\ peers_ (obj w') ≡ₚ (if r then a :: peers_ (obj w) else peers_ (obj w)) /\ (r = false -> w' = w).
Proof.
  intros Hq Hh.
  assert (H : twp (add_peer callback a) (fun r w' =>
    (r = true <-> is_valid a = true /\ Z.of_nat (length (peers_ (obj w))) < max_peers (config_ (obj w))
                    /\ set_mem a (peers_ (obj w)) = false)
    /\ peers_ (obj w') ≡ₚ (if r then a :: peers_ (obj w) else peers_ (obj w)) /\ (r = false -> w' = w)) w).
  { apply twp_add_peer; [done|done| |].
    - intros Hor. split; [|done]. split; [done|]. intros (H1 & H2 & H3). destruct Hor as [?|[?|?]]; [congruence|lia|congruence].
    - intros Hv Hl Hm tk lg. split; [done|]. split; [apply insert_by_perm|done]. }
  destruct H as (r & w' & H). by exists r, w'.
Qed.

(** The announcement a node broadcasts is understood by its peers: handling it
    adds the sender with the announced port. *)
Theorem discovery_message_roundtrip (prt : Z) (sender : list ascii) (w : world Discovery PeerAddress) :
  is_u16 prt ->
  handle_discovery_message callback (discovery_message prt) sender w
  = (now ← read_clock; add_peer callback (PeerAddress_of sender prt now);; mret tt) w.
Proof.
  intros Hp. unfold handle_discovery_message, discovery_message. rewrite cstr_of_bytes_of_cstr, starts_with_app.
  rewrite (drop_app_length' ($"DISCOVER:")) by done. unfold is_u16 in Hp.
  rewrite stoi_print_dec by lia. by rewrite u16_small by (unfold is_u16; lia).
Qed.
End Properties.

(** A callback that asks the object for its peers locks the mutex
    [add_peer] still holds: under the standard's rule adding any new valid peer is
    then undefined. *)
Theorem callback_relocks (clk : nat -> Z) {lib : AddressLib} (a : PeerAddress) (w : world Discovery PeerAddress) :
  held w = [] -> discovery_callback_ (obj w) = true -> is_valid a = true ->
  Z.of_nat (length (peers_ (obj w))) < max_peers (config_ (obj w)) -> set_mem a (peers_ (obj w)) = false ->
  @add_peer (std_env clk) lib (fun _ => @peer_count (std_env clk);; mret tt) a w = Undefined.
Proof.
  destruct w as [d hs tk lg]. simpl. intros -> Hc Hv Hl Hm. unfold add_peer. rewrite Hv. simpl.
  unfold with_lock, mbind, eff_bind, Effects.get, modify. simpl.
  rewrite (proj2 (Z.leb_gt _ _)) by done. unfold set_insert. by rewrite Hm, Hc.
Qed.

(** ** Witnesses *)

(** A library that knows two public addresses. *)
Definition demo_lib : AddressLib := {|
  ip_address := list Z;
  make_address := fun s => if bool_decide (s = $"8.8.8.8") then Some [8; 8; 8; 8]
                           else if bool_decide (s = $"1.1.1.1") then Some [1; 1; 1; 1] else None;
  is_loopback := fun a => bool_decide (head a = Some 127);
  is_multicast := fun a => false;
  is_unspecified := fun a => bool_decide (a = [0; 0; 0; 0]);
  v4_bytes := fun a => Some a;
  is_site_local := fun a => false;
  is_link_local := fun a => false
|}.
Definition demo_disc_env : Env := std_env (fun n => Z.of_nat n).
Definition demo_discovery : Discovery := mkDiscovery default_BootstrapConfig [] true true.
Definition demo_peer : PeerAddress := mkPeerAddress ($"8.8.8.8") 8333 5 1.

Lemma emit_quiet : @quiet emit.
Proof. intros a w. by twp_go. Qed.

Lemma demo_table : @table_inv demo_lib demo_discovery.
Proof. split; [constructor|constructor|vm_compute; discriminate]. Qed.

Lemma pex_roundtrip_witness :
  exists qs, @deserialize_peers demo_disc_env (serialize_peers [demo_peer; demo_peer]) (idle demo_discovery)
      = Ret (qs, mkWorld demo_discovery [] 2 [])
    /\ map fields_of qs = [fields_of demo_peer; fields_of demo_peer].
Proof.
  destruct (@pex_roundtrip demo_disc_env [demo_peer; demo_peer] (idle demo_discovery)) as (qs & H1 & H2 & _);
    [decide_now|simpl; lia|]. exists qs. split; [exact H1|exact H2].
Defined.

Lemma pex_parser_safe_witness :
  exists fs, deserialize_fields [0; 0; 255; 255; 3; 49; 46] = Ret fs /\ (7 * length fs <= 7)%nat.
Proof.
  destruct (pex_parser_safe [0; 0; 255; 255; 3; 49; 46]) as (fs & H1 & _ & H2); [decide_now|].
  exists fs. split; [exact H1|exact H2].
Defined.

Lemma peer_table_safe_witness :
  exists w', @disc_run demo_disc_env demo_lib emit (fun _ => None) (DMessage (discovery_message 8333) ($"8.8.8.8")) (idle demo_discovery)
    = Ret (tt, w') /\ @table_inv demo_lib (obj w') /\ held w' = [].
Proof.
  apply (@peer_table_safe demo_disc_env demo_lib emit (fun _ => None) (idle demo_discovery));
    [apply emit_quiet|apply demo_table|reflexivity|simpl; decide_now].
Defined.

Lemma add_peer_outcome_witness :
  exists r w', @add_peer demo_disc_env demo_lib emit demo_peer (idle demo_discovery) = Ret (r, w')
    /\ (r = true <-> @is_valid demo_lib demo_peer = true /\ Z.of_nat (length (peers_ demo_discovery)) < max_peers (config_ demo_discovery)
                    /\ set_mem demo_peer (peers_ demo_discovery) = false).
Proof.
  destruct (@add_peer_outcome demo_disc_env demo_lib emit demo_peer (idle demo_discovery)) as (r & w' & H1 & H2 & _);
    [apply emit_quiet|reflexivity|]. exists r, w'. split; [exact H1|exact H2].
Defined.

Lemma discovery_message_roundtrip_witness :
  @handle_discovery_message demo_disc_env demo_lib emit (discovery_message 8333) ($"8.8.8.8") (idle demo_discovery)
  = (now ← @read_clock _ _ demo_disc_env; @add_peer demo_disc_env demo_lib emit (PeerAddress_of ($"8.8.8.8") 8333 now);; mret tt) (idle demo_discovery).
Proof. apply (@discovery_message_roundtrip demo_disc_env demo_lib emit 8333). unfold is_u16. lia. Defined.

Lemma callback_relocks_witness :
  @add_peer (std_env (fun n => Z.of_nat n)) demo_lib (fun _ => @peer_count (std_env (fun n => Z.of_nat n));; mret tt) demo_peer (idle demo_discovery) = Undefined.
Proof. apply (@callback_relocks (fun n => Z.of_nat n) demo_lib demo_peer (idle demo_discovery)); vm_compute; reflexivity. Defined.

(** The port of an announcement is reduced modulo 2^16: "73869" is read as 8333. *)
Lemma announced_port_wraps :
  @handle_discovery_message demo_disc_env demo_lib emit (bytes_of_cstr ($"DISCOVER:73869")) ($"8.8.8.8") (idle demo_discovery)
  = @handle_discovery_message demo_disc_env demo_lib emit (discovery_message 8333) ($"8.8.8.8") (idle demo_discovery).
Proof. vm_compute. reflexivity. Qed.
