(* ===== verification/TcpConnection.v ===== *)
(** * TcpConnection: one TCP connection

    p2p/src/tcp_connection.cpp as a state machine.  Calls of boost::asio are inputs:
    a synchronous call answers at once ([io]), an asynchronous one is pending until
    its completion handler runs.  The state keeps the flags of the class, the number
    of reads and connects that are pending, and whether the socket is open; the
    callbacks that run are the events of a step.  A callback may call the connection
    again.  The receive callback runs in the middle of its handler, so its calls are
    part of that step; a connection callback and the handler of [async_connect] run last
    in theirs, so their calls are the next steps of a history.  The text of an error code
    is a parameter ([ec_message]). *)

From stdpp Require Import base list gmap numbers strings.
From Stdlib Require Import ZArith Lia Ascii.
From S2P Require Import Prelude CString.

Inductive TcpError : Type :=
  | CONNECTION_FAILED | CONNECTION_CLOSED | WRITE_FAILED | READ_FAILED
  | TIMEOUT | INVALID_ADDRESS | ALREADY_CONNECTED | NOT_CONNECTED.
Definition tcp_error_code (e : TcpError) : Z :=
  match e with
  | CONNECTION_FAILED => 1 | CONNECTION_CLOSED => 2 | WRITE_FAILED => 3 | READ_FAILED => 4
  | TIMEOUT => 5 | INVALID_ADDRESS => 6 | ALREADY_CONNECTED => 7 | NOT_CONNECTED => 8
  end.

(** The code and the message of an [ErrorInfo]; category, file and line are fixed. *)
Record tcp_failure : Type := make_tcp_error { failure : TcpError; failure_message : cstr }.
Abbreviation TcpResult A := (tcp_failure + A)%type (only parsing).

(** [boost::system::error_code]: the values the code tests for, and the others. *)
Inductive error_code : Type := eof | connection_reset | operation_aborted | other_error (n : Z).
#[export] Instance error_code_eq_dec : EqDecision error_code.
Proof. solve_decision. Defined.

(** What a synchronous call of the library answers. *)
Inductive io (A : Type) : Type := IoOk (a : A) | IoError (ec : error_code) | IoThrow (what : cstr).
Arguments IoOk {A} a.
Arguments IoError {A} ec.
Arguments IoThrow {A} what.

(** Who set [connection_callback_]. *)
Inductive callback_owner : Type := no_callback | user_callback | server_callback | client_callback.
#[export] Instance callback_owner_eq_dec : EqDecision callback_owner.
Proof. solve_decision. Defined.

Record TcpConnection : Type := mkTcpConnection {
  connection_id_ : Z;
  socket_open : bool;
  connected_ : bool;
  receiving_ : bool;
  receive_callback_ : bool;
  connection_callback_ : callback_owner;
  pending_reads : nat;
  pending_resolves : nat;
  pending_connects : nat
}.

(** [TcpConnection(io_context)] and [TcpConnection(socket)]. *)
Definition TcpConnection_new (id : Z) : TcpConnection :=
  mkTcpConnection id false false false false no_callback 0 0 0.
Definition TcpConnection_accepted (id : Z) : TcpConnection :=
  mkTcpConnection id true true false false no_callback 0 0 0.

Inductive conn_event : Type :=
  | OnConnection (connected : bool)      (* connection_callback_ *)
  | OnData (data : list Z)               (* receive_callback_ *)
  | OnHandler (ec : option error_code).  (* the handler of async_connect *)

Definition set_connected (open b : bool) (c : TcpConnection) : TcpConnection :=
  mkTcpConnection (connection_id_ c) open b (receiving_ c) (receive_callback_ c) (connection_callback_ c)
    (pending_reads c) (pending_resolves c) (pending_connects c).
Definition set_receiving (b cb : bool) (c : TcpConnection) : TcpConnection :=
  mkTcpConnection (connection_id_ c) (socket_open c) (connected_ c) b cb (connection_callback_ c)
    (pending_reads c) (pending_resolves c) (pending_connects c).
Definition set_reads (n : nat) (c : TcpConnection) : TcpConnection :=
  mkTcpConnection (connection_id_ c) (socket_open c) (connected_ c) (receiving_ c) (receive_callback_ c)
    (connection_callback_ c) n (pending_resolves c) (pending_connects c).
Definition set_opening (r k : nat) (c : TcpConnection) : TcpConnection :=
  mkTcpConnection (connection_id_ c) (socket_open c) (connected_ c) (receiving_ c) (receive_callback_ c)
    (connection_callback_ c) (pending_reads c) r k.
Definition set_connection_callback (o : callback_owner) (c : TcpConnection) : TcpConnection :=
  mkTcpConnection (connection_id_ c) (socket_open c) (connected_ c) (receiving_ c) (receive_callback_ c) o
    (pending_reads c) (pending_resolves c) (pending_connects c).

(** [if (connection_callback_) connection_callback_(b)]. *)
Definition notify (c : TcpConnection) (b : bool) : list conn_event :=
  if decide (connection_callback_ c = no_callback) then [] else [OnConnection b].

Section Operations.
Variable ec_message : error_code -> list ascii.

Definition connect (answer : io ()) (c : TcpConnection) : TcpResult () * TcpConnection * list conn_event :=
  if connected_ c then (inl (make_tcp_error ALREADY_CONNECTED $"Already connected"), c, [])
  else
    match answer with
    | IoOk _ => let c := set_connected true true c in (inr tt, c, notify c true)
    | IoError ec => (inl (make_tcp_error CONNECTION_FAILED ($"Failed to connect: " ++ ec_message ec)), c, [])
    | IoThrow w => (inl (make_tcp_error CONNECTION_FAILED ($"Connection exception: " ++ w)), c, [])
    end.

(** [async_connect] and its two completion handlers. *)
Definition async_connect (c : TcpConnection) : TcpConnection :=
  set_opening (S (pending_resolves c)) (pending_connects c) c.
Definition handle_resolve (ec : option error_code) (c : TcpConnection) : TcpConnection * list conn_event :=
  let c := set_opening (pred (pending_resolves c)) (pending_connects c) c in
  match ec with
  | Some _ => (c, [OnHandler ec])
  | None => (set_opening (pending_resolves c) (S (pending_connects c)) c, [])
  end.
Definition handle_connect (ec : option error_code) (c : TcpConnection) : TcpConnection * list conn_event :=
  let c := set_opening (pending_resolves c) (pred (pending_connects c)) c in
  match ec with
  | Some _ => (c, [OnHandler ec])
  | None => let c := set_connected true true c in (c, notify c true ++ [OnHandler None])
  end.

Definition send (answer : io Z) (data : list Z) (c : TcpConnection) : TcpResult Z :=
  if connected_ c then
    match answer with
    | IoOk n => inr n
    | IoError ec => inl (make_tcp_error WRITE_FAILED ($"Write failed: " ++ ec_message ec))
    | IoThrow w => inl (make_tcp_error WRITE_FAILED ($"Write exception: " ++ w))
    end
  else inl (make_tcp_error NOT_CONNECTED $"Not connected").

(** [async_send]: what [asio::async_write] is asked to do, the socket of the connection and
    the caller's vector, by its address: [asio::buffer] does not copy it, and nothing looks
    at [connected_].  The handler passes on what the library reports. *)
Record write_request : Type := mkWriteRequest { write_socket : Z; write_buffer : Z }.
Definition async_send (data : Z) (c : TcpConnection) : write_request := mkWriteRequest (connection_id_ c) data.

(** [receive(max_length)]: the answer is what [read_some] stored. *)
Definition receive (answer : io (list Z)) (c : TcpConnection) : TcpResult (list Z) * TcpConnection :=
  if connected_ c then
    match answer with
    | IoOk buffer => (inr buffer, c)
    | IoError eof =>
        (inl (make_tcp_error CONNECTION_CLOSED $"Connection closed by peer"), set_connected (socket_open c) false c)
    | IoError ec => (inl (make_tcp_error READ_FAILED ($"Read failed: " ++ ec_message ec)), c)
    | IoThrow w => (inl (make_tcp_error READ_FAILED ($"Read exception: " ++ w)), c)
    end
  else (inl (make_tcp_error NOT_CONNECTED $"Not connected"), c).

Definition do_receive (c : TcpConnection) : TcpConnection :=
  if negb (receiving_ c) || negb (connected_ c) then c else set_reads (S (pending_reads c)) c.

Definition start_receive (callback : bool) (c : TcpConnection) : TcpConnection :=
  do_receive (set_receiving true callback c).
Definition stop_receive (c : TcpConnection) : TcpConnection := set_receiving false (receive_callback_ c) c.

(** The completion handler of a read; [inside] is what the receive callback does to the
    connection before it returns. *)
Definition handle_receive (inside : TcpConnection -> TcpConnection * list conn_event) (result : error_code + list Z) (c : TcpConnection)
    : TcpConnection * list conn_event :=
  let c := set_reads (pred (pending_reads c)) c in
  match result with
  | inl (eof | connection_reset) =>
      let c := set_connected (socket_open c) false c in (c, notify c false)
  | inl _ => (c, [])
  | inr data =>
      if receive_callback_ c && negb (bool_decide (data = [])) then
        let '(c', ev) := inside c in (do_receive c', OnData data :: ev)
      else (do_receive c, [])
  end.

Definition close (c : TcpConnection) : TcpConnection * list conn_event :=
  if connected_ c then
    let c := set_connected false false (set_receiving false (receive_callback_ c) c) in (c, notify c false)
  else (set_connected (socket_open c) false c, []).

Definition is_connected (c : TcpConnection) : bool := connected_ c.

(** [local_endpoint] and [remote_endpoint]: address and port of the library's
    answer. *)
Definition endpoint (which Which : cstr) (answer : io (cstr * Z)) : TcpResult cstr :=
  match answer with
  | IoOk (a, p) => inr (a ++ $":" ++ print_dec p)
  | IoError ec => inl (make_tcp_error NOT_CONNECTED ($"Failed to get " ++ which ++ $" endpoint: " ++ ec_message ec))
  | IoThrow w => inl (make_tcp_error NOT_CONNECTED (Which ++ $" endpoint exception: " ++ w))
  end.
Definition local_endpoint (answer : io (cstr * Z)) : TcpResult cstr := endpoint $"local" $"Local" answer.
Definition remote_endpoint (answer : io (cstr * Z)) : TcpResult cstr := endpoint $"remote" $"Remote" answer.

(** ** Histories *)

(** A call of the interface. *)
Inductive conn_call : Type :=
  | Connect (answer : io ())
  | AsyncConnect
  | Receive (answer : io (list Z))
  | StartReceive (callback : bool) | StopReceive
  | SetCallback (o : callback_owner)
  | Close.

Definition call (k : conn_call) (c : TcpConnection) : TcpConnection * list conn_event :=
  match k with
  | Connect a => let '(_, c', ev) := connect a c in (c', ev)
  | AsyncConnect => (async_connect c, [])
  | Receive a => (snd (receive a c), [])
  | StartReceive cb => (start_receive cb c, [])
  | StopReceive => (stop_receive c, [])
  | SetCallback o => (set_connection_callback o c, [])
  | Close => close c
  end.

(** What a callback does: a sequence of calls. *)
Fixpoint calls (ks : list conn_call) (c : TcpConnection) : TcpConnection * list conn_event :=
  match ks with
  | [] => (c, [])
  | k :: ks' => let '(c1, ev1) := call k c in let '(c2, ev2) := calls ks' c1 in (c2, ev1 ++ ev2)
  end.

Inductive conn_step : Type :=
  | Call (k : conn_call)
  | Resolved (ec : option error_code) | Connected (ec : option error_code)
  | ReadDone (result : error_code + list Z) (inside : list conn_call).

(** One step; a completion handler runs only for an operation that is pending. *)
Definition step (l : conn_step) (c : TcpConnection) : option (TcpConnection * list conn_event) :=
  match l with
  | Call k => Some (call k c)
  | Resolved ec => if decide (pending_resolves c = O) then None else Some (handle_resolve ec c)
  | Connected ec => if decide (pending_connects c = O) then None else Some (handle_connect ec c)
  | ReadDone r inside => if decide (pending_reads c = O) then None else Some (handle_receive (calls inside) r c)
  end.

Inductive run : TcpConnection -> list conn_step -> TcpConnection -> list conn_event -> Prop :=
  | run_nil c : run c [] c []
  | run_cons c l c' ev ls c'' ev' :
      step l c = Some (c', ev) -> run c' ls c'' ev' -> run c (l :: ls) c'' (ev ++ ev').

(** Where [start_receive] is called, directly or by the receive callback. *)
Definition is_start (k : conn_call) : bool := match k with StartReceive _ => true | _ => false end.
Definition starts (l : conn_step) : bool :=
  match l with Call k => is_start k | ReadDone _ inside => existsb is_start inside | _ => false end.
Definition data_events (ev : list conn_event) : nat :=
  length (List.filter (fun e => match e with OnData _ => true | _ => false end) ev).

Lemma data_events_app a b : data_events (a ++ b) = (data_events a + data_events b)%nat.
Proof. unfold data_events. by rewrite List.filter_app, length_app. Qed.
Lemma data_events_notify c b : data_events (notify c b) = O.
Proof. unfold notify. by case_decide. Qed.

(** A call other than [start_receive] starts no read, does not start the loop and delivers
    nothing. *)
Lemma call_calm k c c' ev :
  is_start k = false -> call k c = (c', ev) ->
  pending_reads c' = pending_reads c /\ data_events ev = O /\ (receiving_ c = false -> receiving_ c' = false).
Proof.
  destruct k as [a| |a|cb| |o|]; try done; intros _ H; cbn in H.
  - unfold connect in H. destruct (connected_ c); [by simplify_eq|]. destruct a; simplify_eq; cbn; [|done..]. by rewrite data_events_notify.
  - by simplify_eq.
  - simplify_eq. unfold receive. destruct (connected_ c); [|done]. by destruct a as [|[]|].
  - by simplify_eq.
  - by simplify_eq.
  - unfold close in H. destruct (connected_ c); simplify_eq; [|done]. by rewrite data_events_notify.
Qed.

Lemma calls_calm ks c c' ev :
  existsb is_start ks = false -> calls ks c = (c', ev) ->
  pending_reads c' = pending_reads c /\ data_events ev = O /\ (receiving_ c = false -> receiving_ c' = false).
Proof.
  revert c ev. induction ks as [|k ks IH]; intros c ev Hk H; cbn in Hk, H; [by simplify_eq|].
  apply orb_false_iff in Hk as [Hk Hks]. destruct (call k c) as [c1 ev1] eqn:E1. destruct (calls ks c1) as [c2 ev2] eqn:E2. simplify_eq.
  destruct (call_calm k c c1 ev1 Hk E1) as (P1 & D1 & R1). destruct (IH c1 ev2 Hks E2) as (P2 & D2 & R2).
  rewrite data_events_app. split_and!; [congruence|lia|auto].
Qed.

Lemma do_receive_reads c : (pending_reads c <= pending_reads (do_receive c) <= S (pending_reads c))%nat.
Proof. unfold do_receive. destruct (_ || _); cbn; lia. Qed.
Lemma do_receive_off c : receiving_ c = false -> do_receive c = c.
Proof. unfold do_receive. by intros ->. Qed.

(** The handler of a read whose callback does not call [start_receive]. *)
Lemma handle_receive_calm ks r c c' ev :
  existsb is_start ks = false -> handle_receive (calls ks) r c = (c', ev) ->
  (data_events ev <= 1)%nat /\ (pending_reads c' <= S (pred (pending_reads c)))%nat
  /\ (receiving_ c = false -> receiving_ c' = false /\ pending_reads c' = pred (pending_reads c)).
Proof.
  intros Hk H. unfold handle_receive in H. set (c0 := set_reads (pred (pending_reads c)) c) in *.
  assert (Hgo : forall c1 ev1, pending_reads c1 = pending_reads c0 -> (receiving_ c0 = false -> receiving_ c1 = false) -> (data_events ev1 <= 1)%nat ->
    (do_receive c1, ev1) = (c', ev) -> (data_events ev <= 1)%nat /\ (pending_reads c' <= S (pred (pending_reads c)))%nat
    /\ (receiving_ c = false -> receiving_ c' = false /\ pending_reads c' = pred (pending_reads c))).
  { intros c1 ev1 Hp Hr Hd [= <- <-]. pose proof (do_receive_reads c1). cbn in Hp. split_and!; [done|lia|]. intros Hoff.
    rewrite do_receive_off by auto. split; [auto|done]. }
  destruct r as [[]|data]; cbn in H; try (injection H as <- <-; rewrite ?data_events_notify; cbn; split_and!; [lia|lia|done]).
  destruct (receive_callback_ c && _).
  - destruct (calls ks c0) as [c1 ev1] eqn:E. destruct (calls_calm ks c0 c1 ev1 Hk E) as (P & D & R).
    eapply Hgo; [exact P|exact R| |exact H]. change (data_events (OnData data :: ev1)) with (S (data_events ev1)). lia.
  - by eapply (Hgo c0 []); [..|exact H]; [|done|cbn; lia].
Qed.

(** Without [start_receive] no read is added once the loop is stopped, and every
    delivery uses one up. *)
Lemma stopped_step l c c' ev :
  starts l = false -> receiving_ c = false -> step l c = Some (c', ev) ->
  receiving_ c' = false /\ (data_events ev + pending_reads c' <= pending_reads c)%nat.
Proof.
  intros Hl Hr H. destruct l as [k|ec|ec|r ks]; cbn in Hl, H.
  - injection H as H. destruct (call_calm k c c' ev Hl H) as (P & D & R). split; [auto|lia].
  - case_decide; [done|]. unfold handle_resolve in H. destruct ec; simplify_eq/=; split; done || lia.
  - case_decide; [done|]. unfold handle_connect in H. destruct ec; simplify_eq/=; (split; [done|]); rewrite ?data_events_app, ?data_events_notify; cbn; lia.
  - case_decide as Hp; [done|]. injection H as H. destruct (handle_receive_calm ks r c c' ev Hl H) as (D & _ & R). destruct (R Hr). split; [done|lia].
Qed.

Lemma stopped_run c ls c' ev :
  run c ls c' ev -> forallb (fun l => negb (starts l)) ls = true -> receiving_ c = false ->
  (data_events ev + pending_reads c' <= pending_reads c)%nat.
Proof.
  induction 1 as [c|c l c' ev ls c'' ev' Hs Hr IH]; intros Hl Hc; [cbn; lia|].
  cbn in Hl. apply andb_true_iff in Hl as [Hl Hls]. apply negb_true_iff in Hl.
  destruct (stopped_step l c c' ev Hl Hc Hs) as [Hc' Hn]. specialize (IH Hls Hc'). rewrite data_events_app. lia.
Qed.

(** The read count of a connection whose reads are started one at a time. *)
Definition one_reader (c : TcpConnection) : Prop := (pending_reads c <= 1)%nat.

(** [start_receive] is called only when no read is pending, and not by the receive
    callback, whose handler starts the next read itself. *)
Fixpoint disciplined (c : TcpConnection) (ls : list conn_step) : Prop :=
  match ls with
  | [] => True
  | l :: ls' =>
      (starts l = true -> exists k, l = Call k /\ pending_reads c = O)
      /\ match step l c with Some (c', _) => disciplined c' ls' | None => True end
  end.

Lemma step_one_reader l c c' ev :
  (starts l = true -> exists k, l = Call k /\ pending_reads c = O) -> one_reader c -> step l c = Some (c', ev) -> one_reader c'.
Proof.
  unfold one_reader. intros Hd Ho H. destruct l as [k|ec|ec|r ks]; cbn in H, Hd.
  - injection H as H. destruct (is_start k) eqn:E; [|destruct (call_calm k c c' ev E H) as (-> & _); done].
    destruct (Hd eq_refl) as (k' & _ & Hp). destruct k; try done. cbn in H. injection H as <- _.
    pose proof (do_receive_reads (set_receiving true callback c)) as Hr. cbn in Hr. unfold start_receive. lia.
  - case_decide; [done|]. unfold handle_resolve in H. by destruct ec; simplify_eq.
  - case_decide; [done|]. unfold handle_connect in H. by destruct ec; simplify_eq.
  - case_decide as Hp; [done|]. injection H as H. destruct (existsb is_start ks) eqn:E; [by destruct (Hd eq_refl) as (? & ? & _)|].
    destruct (handle_receive_calm ks r c c' ev E H) as (_ & Hr & _). lia.
Qed.

Lemma run_one_reader c ls c' ev : run c ls c' ev -> disciplined c ls -> one_reader c -> one_reader c'.
Proof.
  induction 1 as [c|c l c' ev ls c'' ev' Hs Hr IH]; intros Hd Ho; [done|].
  cbn in Hd. destruct Hd as [Hd1 Hd2]. rewrite Hs in Hd2. apply IH; [done|]. by eapply step_one_reader.
Qed.

(** C26: The receive loop, with a receive callback that may call the connection again.
    When [start_receive] is called only with no read pending, and never by the receive
    callback, at most one read is ever pending, so the one receive buffer is never shared
    by two reads; and once the loop is stopped, by [stop_receive] or by [close] of a live
    connection, the receive callback runs at most once more, whatever happens until the
    next [start_receive].  A receive callback that does call [start_receive] on a live
    connection leaves one read more than it found. *)
Theorem tcp_receive_loop (id : Z) (accepted : bool) ls c ev :
  run (if accepted then TcpConnection_accepted id else TcpConnection_new id) ls c ev ->
  (disciplined (if accepted then TcpConnection_accepted id else TcpConnection_new id) ls ->
   (pending_reads c <= 1)%nat
   /\ forall l c1 ev1 ls' c2 ev2,
        l = StopReceive \/ (l = Close /\ connected_ c = true) -> step (Call l) c = Some (c1, ev1) ->
        run c1 ls' c2 ev2 -> forallb (fun l => negb (starts l)) ls' = true ->
        (data_events (ev1 ++ ev2) <= 1)%nat)
  /\ (forall data cb, pending_reads c <> O -> connected_ c = true -> receive_callback_ c = true -> data <> [] ->
       exists c1, step (ReadDone (inr data) [StartReceive cb]) c = Some (c1, [OnData data]) /\ pending_reads c1 = S (pending_reads c)).
Proof.
  intros Hrun. split.
  - intros Hd. assert (Ho : one_reader c) by (eapply run_one_reader; [done|done|unfold one_reader; destruct accepted; cbn; lia]).
    split; [done|]. intros l c1 ev1 ls' c2 ev2 Hl Hs Hr Hls.
    assert (H1 : receiving_ c1 = false /\ data_events ev1 = O /\ pending_reads c1 = pending_reads c).
    { destruct Hl as [->|[-> Hco]]; cbn in Hs; [by simplify_eq|]. unfold close in Hs. rewrite Hco in Hs. simplify_eq.
      split_and!; [done| |done]. apply data_events_notify. }
    destruct H1 as (H1 & H2 & H3). pose proof (stopped_run c1 ls' c2 ev2 Hr Hls H1) as Hn.
    rewrite data_events_app, H2. unfold one_reader in Ho. lia.
  - intros data cb Hp Hco Hrc Hne. cbn. rewrite decide_False by done. unfold handle_receive. cbn. rewrite Hrc, bool_decide_eq_false_2 by done. cbn.
    eexists. split; [reflexivity|]. unfold start_receive, do_receive. cbn. rewrite !Hco. cbn. rewrite Hco. cbn. lia.
Qed.

(** A connection whose peer closed it during a synchronous [receive] is marked as
    closed without a callback, and [close] then does nothing: the socket stays
    open. *)
Lemma receive_eof_leaks_socket c :
  connected_ c = true -> socket_open c = true ->
  exists c', receive (IoError eof) c = (inl (make_tcp_error CONNECTION_CLOSED $"Connection closed by peer"), c')
  /\ connected_ c' = false /\ close c' = (c', []) /\ socket_open (fst (close c')) = true.
Proof.
  intros Hc Ho. unfold receive. rewrite Hc. eexists. split; [done|]. split; [done|]. by destruct c; cbn in *; subst.
Qed.

(** The end of the connection can be reported twice: by [close], and by a read that
    had met the end of the stream before. *)
Lemma close_reported_twice c :
  connected_ c = true -> connection_callback_ c = user_callback -> pending_reads c = 1%nat ->
  exists c', run c [Call Close; ReadDone (inl eof) []] c' [OnConnection false; OnConnection false].
Proof.
  intros Hc Hu Hp. destruct c as [id so co re rc cc pr ps pc]. cbn in *. subst. eexists.
  by do 2 (eapply (run_cons _ _ _ [OnConnection false]); [reflexivity|]); constructor.
Qed.
End Operations.

(** A loop is started, reads once while its callback calls nothing, and is stopped inside
    the callback of the second read. *)
Lemma tcp_receive_loop_witness :
  let msg := fun _ : error_code => @nil ascii in
  exists c ev, run msg (TcpConnection_accepted 1) [Call (StartReceive true); ReadDone (inr [1]) []; ReadDone (inr [2]) [StopReceive]] c ev
  /\ ev = [OnData [1]; OnData [2]] /\ (pending_reads c <= 1)%nat
  /\ exists c1, step msg (ReadDone (inr [3]) [StartReceive true]) (start_receive true (TcpConnection_accepted 1)) = Some (c1, [OnData [3]])
     /\ pending_reads c1 = 2%nat.
Proof.
  intros msg. eexists _, _. split; [|split; [|split]].
  - eapply (run_cons _ _ _ _ []); [reflexivity|]. eapply (run_cons _ _ _ _ [OnData [1]]); [reflexivity|].
    eapply (run_cons _ _ _ _ [OnData [2]]); [reflexivity|constructor].
  - reflexivity.
  - refine (proj1 (proj1 (tcp_receive_loop msg 1 true [Call (StartReceive true); ReadDone (inr [1]) []; ReadDone (inr [2]) [StopReceive]] _
      ([] ++ [OnData [1]] ++ [OnData [2]] ++ []) _) _)).
    + eapply (run_cons _ _ _ _ []); [reflexivity|]. eapply (run_cons _ _ _ _ [OnData [1]]); [reflexivity|].
      eapply (run_cons _ _ _ _ [OnData [2]]); [reflexivity|constructor].
    + cbn. split; [intros _; by eexists|]. split; [done|]. split; done.
  - refine (proj2 (tcp_receive_loop msg 1 true [Call (StartReceive true)] (start_receive true (TcpConnection_accepted 1)) ([] ++ []) _) [3] true _ _ _ _);
      [eapply run_cons; [reflexivity|constructor]|discriminate|reflexivity|reflexivity|discriminate].
Defined.
