(* ===== verification/TcpServer.v ===== *)
(** * TcpServer: accepted connections

    p2p/src/tcp_server.cpp.  The connections are shared objects: the heap [conns]
    holds them by id and [connections_] is the table of the ids the server tracks.
    The callback the server installs in an accepted connection calls
    [remove_connection]; it runs inside [TcpConnection::close], so the model runs it
    there, under whatever locks are held.

    Two rules of the standard are written out: locking a mutex that the thread owns
    ([Env]), and that erasing an element of an [std::unordered_map] ends the life of
    the iterators to it, so that using one afterwards is undefined. *)

From stdpp Require Import base list gmap numbers strings.
From Stdlib Require Import ZArith Lia Ascii.
From S2P Require Import Prelude CString Effects TcpConnection.

Record TcpServer : Type := mkTcpServer {
  acceptor_open : bool;
  running_ : bool;
  port_ : Z;
  connections_ : gmap Z ();
  accept_callback_ : bool;
  pending_accepts : nat;
  conns : gmap Z TcpConnection;
  next_connection_id_ : Z
}.
Definition TcpServer_new : TcpServer := mkTcpServer false false 0 ∅ false 0 ∅ 1.

Inductive server_event : Type :=
  | UserCallback (id : Z) (connected : bool)
  | Accepted (id : Z)
  | WriteStarted (request : write_request).

Definition set_tracked (f : gmap Z () -> gmap Z ()) (s : TcpServer) : TcpServer :=
  mkTcpServer (acceptor_open s) (running_ s) (port_ s) (f (connections_ s)) (accept_callback_ s) (pending_accepts s)
    (conns s) (next_connection_id_ s).
Definition set_conn (id : Z) (c : TcpConnection) (s : TcpServer) : TcpServer :=
  mkTcpServer (acceptor_open s) (running_ s) (port_ s) (connections_ s) (accept_callback_ s) (pending_accepts s)
    (<[ id := c ]> (conns s)) (next_connection_id_ s).
Definition set_acceptor (open running : bool) (s : TcpServer) : TcpServer :=
  mkTcpServer open running (port_ s) (connections_ s) (accept_callback_ s) (pending_accepts s) (conns s) (next_connection_id_ s).
Definition set_accepts (n : nat) (s : TcpServer) : TcpServer :=
  mkTcpServer (acceptor_open s) (running_ s) (port_ s) (connections_ s) (accept_callback_ s) n (conns s) (next_connection_id_ s).
Definition set_accept_callback (b : bool) (s : TcpServer) : TcpServer :=
  mkTcpServer (acceptor_open s) (running_ s) (port_ s) (connections_ s) b (pending_accepts s) (conns s) (next_connection_id_ s).

Section Operations.
Context {env : Env} {ord : IterOrder}.
Abbreviation srv A := (eff TcpServer server_event A) (only parsing).

Definition undefined {A} : srv A := fun _ => Undefined.

(** The callbacks an event of a connection runs: the server's own calls [removed]. *)
Definition run_callback (removed : Z -> srv ()) (id : Z) (owner : callback_owner) (ev : conn_event) : srv () :=
  match ev, owner with
  | OnConnection false, server_callback => removed id
  | OnConnection true, server_callback => mret tt
  | OnConnection b, _ => emit (UserCallback id b)
  | _, _ => mret tt
  end.

(** [connection->close()], with the callbacks it runs. *)
Definition close_connection (removed : Z -> srv ()) (id : Z) : srv () :=
  s ← get;
  match conns s !! id with
  | None => mret tt
  | Some c =>
      let '(c', ev) := close c in
      modify (set_conn id c');;
      for_each (run_callback removed id (connection_callback_ c)) ev
  end.

(** [remove_connection]: [it->second->close(); connections_.erase(it)], undefined
    when the element was erased in between.  The callback of a connection that is
    closed already does not run, so the nesting ends after two levels
    ([remove_connection_fuel]). *)
Fixpoint remove_connection_at (fuel : nat) (id : Z) : srv () :=
  match fuel with
  | O => mret tt
  | S f =>
      with_lock Exclusive (
        s ← get;
        match connections_ s !! id with
        | None => mret tt
        | Some _ =>
            close_connection (remove_connection_at f) id;;
            s' ← get;
            match connections_ s' !! id with
            | Some _ => modify (set_tracked (delete id))
            | None => undefined
            end
        end)
  end.
Definition remove_connection (id : Z) : srv () := remove_connection_at 2 id.

(** One round of the loop of [stop]; going on from an erased element is undefined. *)
Definition stop_one (id : Z) : srv () :=
  close_connection remove_connection id;;
  s ← get;
  match connections_ s !! id with Some _ => mret tt | None => undefined end.

Definition stop : srv () :=
  s ← get;
  if running_ s then
    modify (set_acceptor false false);;
    with_lock Exclusive (
      s ← get;
      for_each stop_one (map fst (iter (connections_ s)));;
      modify (set_tracked (fun _ => ∅)))
  else mret tt.

Definition do_accept : srv () :=
  s ← get; if running_ s then modify (set_accepts (S (pending_accepts s))) else mret tt.

(** [start]: what the library answers to each call, [Some] text for an exception. *)
Record start_answers : Type := mkStartAnswers {
  address_throws : option cstr;
  open_throws : option cstr;
  option_throws : option cstr;
  bind_error : option error_code;
  listen_error : option error_code
}.

Definition start_failed (w : cstr) : TcpResult () := inl (make_tcp_error CONNECTION_FAILED ($"Server start exception: " ++ w)).

Definition start (ec_message : error_code -> cstr) (port : Z) (address : cstr) (a : start_answers) : srv (TcpResult ()) :=
  s ← get;
  if running_ s then mret (inl (make_tcp_error ALREADY_CONNECTED $"Server is already running"))
  else
    match address_throws a with
    | Some w => mret (start_failed w)
    | None =>
    match open_throws a with
    | Some w => mret (start_failed w)
    | None =>
    modify (set_acceptor true (running_ s));;
    match option_throws a with
    | Some w => mret (start_failed w)
    | None =>
    match bind_error a with
    | Some ec => mret (inl (make_tcp_error CONNECTION_FAILED
                   ($"Failed to bind to " ++ address ++ $":" ++ print_dec port ++ $": " ++ ec_message ec)))
    | None =>
    match listen_error a with
    | Some ec => mret (inl (make_tcp_error CONNECTION_FAILED ($"Failed to listen: " ++ ec_message ec)))
    | None =>
        modify (fun s => mkTcpServer (acceptor_open s) true port (connections_ s) (accept_callback_ s) (pending_accepts s)
                           (conns s) (next_connection_id_ s));;
        do_accept;;
        mret (inr tt)
    end end end end end.

(** The completion handler of [async_accept]. *)
Definition handle_accept (error : bool) : srv () :=
  s ← get;
  modify (set_accepts (pred (pending_accepts s)));;
  if error then (if running_ s then do_accept else mret tt)
  else
    let id := next_connection_id_ s in
    modify (fun s => mkTcpServer (acceptor_open s) (running_ s) (port_ s) (connections_ s) (accept_callback_ s)
                       (pending_accepts s) (<[ id := TcpConnection_accepted id ]> (conns s)) (u64 (id + 1)));;
    with_lock Exclusive (modify (set_tracked (insert id tt)));;
    modify (fun s => set_conn id (set_connection_callback server_callback (default (TcpConnection_accepted id) (conns s !! id))) s);;
    (if accept_callback_ s then emit (Accepted id) else mret tt);;
    do_accept.

Definition is_running : srv bool := s ← get; mret (running_ s).
Definition connection_count : srv Z := with_lock Exclusive (s ← get; mret (Z.of_nat (size (connections_ s)))).
Definition get_connections : srv (list Z) := with_lock Exclusive (s ← get; mret (map fst (iter (connections_ s)))).
Definition get_connection (id : Z) : srv (option Z) :=
  with_lock Exclusive (s ← get; mret (match connections_ s !! id with Some _ => Some id | None => None end)).

(** [broadcast]: [data] is the address of the caller's vector. *)
Definition broadcast (data : Z) : srv () :=
  with_lock Exclusive (
    s ← get;
    for_each (fun id =>
      s ← get;
      match conns s !! id with
      | Some c => if is_connected c then emit (WriteStarted (async_send data c)) else mret tt
      | None => mret tt
      end) (map fst (iter (connections_ s)))).
End Operations.

(** ** Closing connections *)

(** Tracked connections exist and have the server's callback. *)
Definition tracked_ok (s : TcpServer) : Prop :=
  forall id, is_Some (connections_ s !! id) -> exists c, conns s !! id = Some c /\ connection_callback_ c = server_callback.

(** A tracked connection that is still up. *)
Definition live (s : TcpServer) (id : Z) : Prop :=
  is_Some (connections_ s !! id) /\ exists c, conns s !! id = Some c /\ connected_ c = true.

Lemma close_closed c : connected_ c = false -> close c = (c, []).
Proof. destruct c. cbn. by intros ->. Qed.

Lemma close_live c :
  connected_ c = true -> connection_callback_ c = server_callback ->
  exists c', close c = (c', [OnConnection false]) /\ connected_ c' = false /\ connection_callback_ c' = server_callback.
Proof. destruct c. cbn. intros -> ->. by eexists. Qed.

Lemma set_conn_id id c s : conns s !! id = Some c -> set_conn id c s = s.
Proof. intros H. unfold set_conn. rewrite insert_id by done. by destruct s. Qed.

Section Closing.
Context {env : Env} {ord : IterOrder}.
Abbreviation wrld := (world TcpServer server_event) (only parsing).

(** Closing a connection that is closed already changes nothing. *)
Lemma close_connection_closed removed id c (w : wrld) :
  conns (obj w) !! id = Some c -> connected_ c = false -> close_connection removed id w = Ret (tt, w).
Proof.
  intros Hc Hf. unfold close_connection. rewrite (eff_bind_run get _ _ _ _ eq_refl), Hc, close_closed by done.
  unfold mbind, eff_bind, modify. rewrite set_conn_id by done. by destruct w.
Qed.

(** Closing a live one runs the callback, on a state in which it is closed. *)
Lemma close_connection_live removed id c (w : wrld) :
  conns (obj w) !! id = Some c -> connected_ c = true -> connection_callback_ c = server_callback ->
  exists c', connected_ c' = false /\ connection_callback_ c' = server_callback
  /\ close_connection removed id w
     = removed id (mkWorld (set_conn id c' (obj w)) (held w) (ticks w) (log w)) ≫= (fun '(_, w') => Ret (tt, w')).
Proof.
  intros Hc Ht Hs. destruct (close_live c Ht Hs) as (c' & Hcl & Hf & Hs'). exists c'. split_and!; [done|done|].
  unfold close_connection. rewrite (eff_bind_run get _ _ _ _ eq_refl), Hc, Hcl, Hs.
  unfold mbind, eff_bind, modify. cbn [for_each run_callback obj]. unfold mbind, eff_bind.
  destruct (removed id _) as [[[] w']| |]; done.
Qed.

(** With the connection closed, [remove_connection] only erases it. *)
Lemma remove_closed f id c (w : wrld) :
  connections_ (obj w) !! id = Some tt -> conns (obj w) !! id = Some c -> connected_ c = false ->
  (held w = [] \/ on_relock = relock_nested) ->
  remove_connection_at (S f) id w = Ret (tt, mkWorld (set_tracked (delete id) (obj w)) (held w) (ticks w) (log w)).
Proof.
  intros Ht Hc Hf Hh. cbn [remove_connection_at]. set (body := s ← get; _).
  assert (Hb : forall hs, body (mkWorld (obj w) hs (ticks w) (log w))
    = Ret (tt, mkWorld (set_tracked (delete id) (obj w)) hs (ticks w) (log w))).
  { intros hs. unfold body. rewrite (eff_bind_run get _ _ _ _ eq_refl). cbn [obj]. rewrite Ht.
    erewrite eff_bind_run by (by eapply close_connection_closed). rewrite (eff_bind_run get _ _ _ _ eq_refl). cbn [obj].
    by rewrite Ht. }
  unfold with_lock. destruct Hh as [Hh|Hh]; rewrite Hh; [|destruct (held w)]; rewrite ?Hb; try done;
    destruct on_relock; by rewrite ?Hb.
Qed.

(** Under a held lock the callback of a live connection either locks the mutex a
    second time or erases the element. *)
Lemma callback_under_lock id c (w : wrld) :
  connections_ (obj w) !! id = Some tt -> conns (obj w) !! id = Some c -> connected_ c = true ->
  connection_callback_ c = server_callback -> held w <> [] ->
  forall f, close_connection (remove_connection_at (S f)) id w = Undefined
  \/ exists w', close_connection (remove_connection_at (S f)) id w = Ret (tt, w') /\ connections_ (obj w') !! id = None.
Proof.
  intros Ht Hc Hl Hs Hh f. destruct (close_connection_live (remove_connection_at (S f)) id c w Hc Hl Hs) as (c' & Hf & _ & ->).
  destruct on_relock eqn:Hp.
  - left. cbn [remove_connection_at]. unfold with_lock. cbn [held]. rewrite Hp. by destruct (held w).
  - right. rewrite (remove_closed f id c') by (cbn; rewrite ?lookup_insert_eq; auto).
    eexists. split; [done|]. cbn. by rewrite lookup_delete_eq.
Qed.

Lemma remove_unfold f id :
  remove_connection_at (S f) id
  = with_lock Exclusive (
      s ← get;
      match connections_ s !! id with
      | None => mret tt
      | Some _ =>
          close_connection (remove_connection_at f) id;;
          s' ← get;
          match connections_ s' !! id with
          | Some _ => modify (set_tracked (delete id))
          | None => undefined
          end
      end).
Proof. done. Qed.

Lemma elem_of_iter_keys (m : gmap Z ()) id : id ∈ map fst (iter m) <-> is_Some (m !! id).
Proof.
  rewrite (iter_perm _ _ _ _ m), list_elem_of_In, in_map_iff. split.
  - intros ([k v] & <- & H%list_elem_of_In%elem_of_map_to_list). by exists v.
  - intros [v Hv]. exists (id, v). split; [done|]. by apply list_elem_of_In, elem_of_map_to_list.
Qed.

Lemma stop_one_closed id c (w : wrld) :
  connections_ (obj w) !! id = Some tt -> conns (obj w) !! id = Some c -> connected_ c = false ->
  stop_one id w = Ret (tt, w).
Proof.
  intros Ht Hc Hf. unfold stop_one. erewrite eff_bind_run by (by eapply close_connection_closed).
  rewrite (eff_bind_run get _ _ _ _ eq_refl). cbn [obj]. by rewrite Ht.
Qed.

Lemma stop_one_live id c (w : wrld) :
  connections_ (obj w) !! id = Some tt -> conns (obj w) !! id = Some c -> connected_ c = true ->
  connection_callback_ c = server_callback -> held w <> [] -> stop_one id w = Undefined.
Proof.
  intros Ht Hc Hl Hs Hh. unfold stop_one.
  destruct (callback_under_lock id c w Ht Hc Hl Hs Hh 1) as [H|(w' & H & Hn)].
  - by apply eff_bind_undef.
  - rewrite (eff_bind_run _ _ _ _ _ H), (eff_bind_run get _ _ _ _ eq_refl). by rewrite Hn.
Qed.

Lemma stop_loop l (w : wrld) :
  tracked_ok (obj w) -> held w <> [] -> Forall (fun id => is_Some (connections_ (obj w) !! id)) l ->
  (Exists (live (obj w)) l /\ for_each stop_one l w = Undefined)
  \/ (Forall (fun id => ~ live (obj w) id) l /\ for_each stop_one l w = Ret (tt, w)).
Proof.
  intros Hok Hh Hl. induction Hl as [|id l [[] Hid] Hl IH]; [by right|].
  destruct (Hok id) as (c & Hc & Hs); [done|]. cbn [for_each]. destruct (connected_ c) eqn:Hcon.
  - left. split; [left; split; eauto|]. apply eff_bind_undef. by eapply stop_one_live.
  - rewrite (eff_bind_run _ _ _ _ _ (stop_one_closed id c w Hid Hc Hcon)).
    assert (Hnl : ~ live (obj w) id) by (intros (_ & c' & Hc' & Ht); congruence).
    destruct IH as [[He ->]|[Hf ->]]; [left; split; [by right|done]|right; split; [by constructor|done]].
Qed.

(** C25: Stopping a running server and removing a connection are defined exactly when
    the connections concerned are down already, whatever the locking rule: for a
    live connection the close callback calls [remove_connection], which locks
    [connections_mutex_] a second time, and with a mutex that allows that, erases
    the element the caller still uses.  Otherwise stopping empties the table and
    closes the acceptor, and removing erases exactly that id. *)
Theorem tcp_server_close (s : TcpServer) :
  tracked_ok s -> running_ s = true ->
  ((exists id, live s id) /\ stop (idle s) = Undefined
   \/ (forall id, ~ live s id) /\ stop (idle s) = Ret (tt, idle (set_tracked (fun _ => ∅) (set_acceptor false false s))))
  /\ forall id, is_Some (connections_ s !! id) ->
       (live s id /\ remove_connection id (idle s) = Undefined)
       \/ (~ live s id /\ remove_connection id (idle s) = Ret (tt, idle (set_tracked (delete id) s))).
Proof.
  intros Hok Hrun. split.
  - unfold stop. rewrite (eff_bind_run get _ _ _ _ eq_refl). cbn [obj idle]. rewrite Hrun.
    set (s1 := set_acceptor false false s).
    rewrite (eff_bind_run (modify _) _ _ tt (idle s1)) by done.
    set (w1 := mkWorld s1 [Exclusive] 0 [] : wrld).
    set (l := map fst (iter (connections_ s1))).
    assert (Hiter : forall id, id ∈ l <-> is_Some (connections_ s !! id)).
    { intros id. apply elem_of_iter_keys. }
    assert (Hall : Forall (fun id => is_Some (connections_ (obj w1) !! id)) l)
      by (apply Forall_forall; intros id Hid; by apply Hiter).
    destruct (stop_loop l w1) as [[He Hu]|[Hf Hr]]; [done|done|done| |].
    + left. split; [apply Exists_exists in He as (id & _ & Hl); by exists id|].
      unfold with_lock. cbn [held idle obj ticks log]. fold w1. destruct on_relock;
        (rewrite (eff_bind_run get _ _ _ _ eq_refl)); cbn [obj w1]; fold l; by rewrite (eff_bind_undef _ _ _ Hu).
    + right. split.
      * intros id Hl. rewrite Forall_forall in Hf. apply (Hf id); [apply Hiter, Hl|done].
      * unfold with_lock. cbn [held idle obj ticks log]. fold w1. destruct on_relock;
          (rewrite (eff_bind_run get _ _ _ _ eq_refl)); cbn [obj w1]; fold l; by rewrite (eff_bind_run _ _ _ _ _ Hr).
  - intros id [[] Hid]. destruct (Hok id) as (c & Hc & Hs); [done|]. destruct (connected_ c) eqn:Hcon.
    + left. split; [split; eauto|]. unfold remove_connection. rewrite remove_unfold.
      assert (Hcb := callback_under_lock id c (mkWorld s [Exclusive] 0 []) Hid Hc Hcon Hs ltac:(done) 0).
      unfold with_lock. cbn [held idle obj ticks log].
      destruct on_relock; (rewrite (eff_bind_run get _ _ _ _ eq_refl)); cbn [obj]; rewrite Hid;
        destruct Hcb as [H|(w' & H & Hn)];
        first [by rewrite (eff_bind_undef _ _ _ H)
              | rewrite (eff_bind_run _ _ _ _ _ H), (eff_bind_run get _ _ _ _ eq_refl); by rewrite Hn].
    + right. split; [intros (_ & c' & Hc' & Ht); congruence|].
      unfold remove_connection. by rewrite (remove_closed 1 id c) by auto.
Qed.

Lemma remove_closed_fuel f id c (w : wrld) :
  conns (obj w) !! id = Some c -> connected_ c = false ->
  remove_connection_at (S f) id w = remove_connection_at 1 id w.
Proof.
  intros Hc Hf. rewrite (remove_unfold f), (remove_unfold 0). unfold with_lock.
  destruct (held w), on_relock; try done; rewrite !(eff_bind_run get _ _ _ _ eq_refl); cbn [obj];
    destruct (connections_ (obj w) !! id); try done;
    match goal with |- context [mkWorld ?o ?h ?t ?l] => set (ww := mkWorld o h t l) end;
    rewrite (eff_bind_run _ _ _ _ _ (close_connection_closed (remove_connection_at f) id c ww Hc Hf));
    by rewrite (eff_bind_run _ _ _ _ _ (close_connection_closed (remove_connection_at 0) id c ww Hc Hf)).
Qed.

(** The nesting of [remove_connection] ends at the second level. *)
Lemma remove_connection_fuel f id (w : wrld) : remove_connection_at (S (S f)) id w = remove_connection id w.
Proof.
  unfold remove_connection. rewrite (remove_unfold (S f)), (remove_unfold 1).
  assert (Hclose : forall w' : wrld, close_connection (remove_connection_at (S f)) id w' = close_connection (remove_connection_at 1) id w').
  { intros w'. unfold close_connection. rewrite !(eff_bind_run get _ _ _ _ eq_refl).
    destruct (conns (obj w') !! id) as [c|]; [|done]. destruct (connected_ c) eqn:Hc; [|by rewrite close_closed].
    unfold close. rewrite Hc. set (c' := set_connected _ _ _). unfold notify. case_decide; [done|].
    rewrite !(eff_bind_run (modify _) _ _ tt _ eq_refl). cbn [for_each run_callback obj].
    destruct (connection_callback_ c) eqn:Ho; [done|done| |done].
    unfold mbind, eff_bind. rewrite (remove_closed_fuel f id c'); [done|apply lookup_insert_eq|done]. }
  unfold with_lock. destruct (held w), on_relock; try done;
    rewrite !(eff_bind_run get _ _ _ _ eq_refl); cbn [obj]; destruct (connections_ (obj w) !! id); try done;
    unfold mbind, eff_bind; by rewrite Hclose.
Qed.

(** Accepting keeps the table in order. *)
Lemma handle_accept_tracked err (s : TcpServer) :
  tracked_ok s -> exists s' ev, handle_accept err (idle s) = Ret (tt, mkWorld s' [] 0 ev) /\ tracked_ok s'.
Proof.
  intros Hok. unfold handle_accept, do_accept, mbind, eff_bind, get, modify, with_lock, emit, mret, eff_ret, idle.
  destruct err; cbn [obj held ticks log].
  - destruct (running_ s) eqn:Hr; cbn; rewrite ?Hr; do 2 eexists; done.
  - assert (Hok' : forall s' : TcpServer, connections_ s' = <[ next_connection_id_ s := tt ]> (connections_ s) ->
      (exists c, conns s' = <[ next_connection_id_ s := c ]> (conns s) /\ connection_callback_ c = server_callback) -> tracked_ok s').
    { intros s' E1 (c & E2 & Hc) id [u Hu]. rewrite E2. destruct (decide (id = next_connection_id_ s)) as [->|Hne].
      - exists c. by rewrite lookup_insert_eq.
      - rewrite lookup_insert_ne by done. apply Hok. rewrite E1, lookup_insert_ne in Hu by done. eauto. }
    destruct on_relock, (accept_callback_ s), (running_ s) eqn:Hr; cbn; rewrite ?Hr; do 2 eexists; (split; [reflexivity|]);
      apply Hok'; try done; cbn; rewrite lookup_insert_eq, insert_insert_eq; by eexists.
Qed.

(** A start that fails to bind leaves the acceptor open; the library refuses to open
    it again, [stop] does nothing, and every later start fails. *)
Lemma failed_bind_is_permanent msg port address a a' port' address' ec (s : TcpServer) :
  running_ s = false -> address_throws a = None -> open_throws a = None -> option_throws a = None -> bind_error a = Some ec ->
  exists e s', start msg port address a (idle s) = Ret (inl e, idle s') /\ acceptor_open s' = true
  /\ stop (idle s') = Ret (tt, idle s')
  /\ (open_throws a' <> None -> exists e', start msg port' address' a' (idle s') = Ret (inl e', idle s')).
Proof.
  intros Hr H1 H2 H3 H4. unfold start at 1, mbind, eff_bind, get, modify. cbn [obj idle]. rewrite Hr, H1, H2, H3, H4.
  do 2 eexists. split; [reflexivity|]. split_and!; [done|unfold stop, mbind, eff_bind, get; cbn; done|].
  intros Ho. unfold start, mbind, eff_bind, get. cbn [obj idle running_ set_acceptor].
  destruct (address_throws a'); [by eexists|]. destruct (open_throws a'); [by eexists|done].
Qed.

(** The loop of [broadcast] over a list of ids. *)
Definition reached (s : TcpServer) (id : Z) : list TcpConnection :=
  match conns s !! id with Some c => if is_connected c then [c] else [] | None => [] end.

Lemma broadcast_loop data ids (w : wrld) :
  for_each (fun id =>
      s ← get;
      match conns s !! id with
      | Some c => if is_connected c then emit (WriteStarted (async_send data c)) else mret tt
      | None => mret tt
      end) ids w
  = Ret (tt, mkWorld (obj w) (held w) (ticks w) (log w ++ map (fun c => WriteStarted (async_send data c)) (concat (map (reached (obj w)) ids)))).
Proof.
  revert w. induction ids as [|id ids IH]; intros w; cbn [for_each map concat]; [cbn; rewrite app_nil_r; by destruct w|].
  unfold reached at 1. unfold mbind at 1, eff_bind at 1. unfold mbind at 1, eff_bind at 1, get at 1.
  destruct (conns (obj w) !! id) as [c|]; [destruct (is_connected c)|]; cbn [emit mret eff_ret app]; rewrite IH; cbn [obj held ticks log]; [|done..].
  do 2 f_equal. cbn [map]. by rewrite <- app_assoc.
Qed.

(** C29: [broadcast], under any locking rule, starts exactly one write on every connection
    the server tracks that is up, and none on any other, all of them over the caller's
    vector itself; it changes nothing else and returns with the mutex free, whether or not
    the writes have been made. *)
Theorem tcp_broadcast (data : Z) (w : wrld) :
  held w = [] -> (forall id c, conns (obj w) !! id = Some c -> connection_id_ c = id) ->
  exists ids, broadcast data w = Ret (tt, mkWorld (obj w) [] (ticks w) (log w ++ map (fun id => WriteStarted (mkWriteRequest id data)) ids))
  /\ NoDup ids /\ forall id, id ∈ ids <-> live (obj w) id.
Proof.
  intros Hh Hid. set (ks := map fst (iter (connections_ (obj w)))). exists (map connection_id_ (concat (map (reached (obj w)) ks))).
  assert (Hr : forall id c, c ∈ reached (obj w) id <-> conns (obj w) !! id = Some c /\ connected_ c = true).
  { intros id c. unfold reached, is_connected. destruct (conns (obj w) !! id) as [c'|]; [destruct (connected_ c') eqn:E|].
    - rewrite list_elem_of_singleton. split; [by intros ->|by intros [[= ->] _]].
    - split; [intros []%not_elem_of_nil|intros [[= ->] ?]; congruence].
    - split; [intros []%not_elem_of_nil|by intros [? _]]. }
  assert (Hks : NoDup ks /\ forall id, id ∈ ks <-> is_Some (connections_ (obj w) !! id)).
  { unfold ks. split; [rewrite iter_perm; apply NoDup_fst_map_to_list|]. intros id. rewrite list_elem_of_fmap. split.
    - intros ([i u] & -> & H). rewrite iter_perm in H. apply elem_of_map_to_list in H. by eexists.
    - intros [u H]. exists (id, u). split; [done|]. rewrite iter_perm. by apply elem_of_map_to_list. }
  destruct Hks as [Hnd Hin]. split_and!.
  - unfold broadcast, with_lock. rewrite Hh. assert (Hb := broadcast_loop data ks (mkWorld (obj w) [Exclusive] (ticks w) (log w))).
    rewrite map_map. destruct on_relock; rewrite (eff_bind_run get _ _ _ _ eq_refl); cbn [obj]; fold ks; by rewrite Hb.
  - clear Hin. induction Hnd as [|k ks Hk _ IH]; [constructor|]. cbn [map concat]. rewrite map_app. apply list.NoDup_app. split_and!; [| |exact IH].
    + unfold reached. destruct (conns (obj w) !! k); [|constructor]. case_match; [apply NoDup_singleton|constructor].
    + intros i (c & -> & Hc)%list_elem_of_fmap (c' & E & Hc')%list_elem_of_fmap. apply Hr in Hc as [Hc _]. apply Hid in Hc.
      apply list_elem_of_In, in_concat in Hc' as (l & Hl & Hc'). apply in_map_iff in Hl as (k' & <- & Hk'). apply list_elem_of_In, Hr in Hc' as [Hc' _].
      apply Hid in Hc'. apply Hk. rewrite <- Hc, E, Hc'. by apply list_elem_of_In.
  - intros id. rewrite list_elem_of_fmap. split.
    + intros (c & -> & Hc). apply list_elem_of_In, in_concat in Hc as (l & Hl & Hc). apply in_map_iff in Hl as (k & <- & Hk).
      apply list_elem_of_In, Hr in Hc as [Hc Hu]. apply list_elem_of_In, Hin in Hk. rewrite (Hid _ _ Hc). by split; [|exists c].
    + intros [Ht (c & Hc & Hu)]. exists c. split; [by rewrite (Hid _ _ Hc)|]. apply list_elem_of_In, in_concat. exists (reached (obj w) id).
      split; [|by apply list_elem_of_In, Hr]. apply in_map_iff. exists id. split; [done|]. by apply list_elem_of_In, Hin.
Qed.
End Closing.

Definition sample_server : TcpServer :=
  mkTcpServer true true 8333 {[ 1 := tt ]} false 1 {[ 1 := set_connection_callback server_callback (TcpConnection_accepted 1) ]} 2.

Lemma tcp_server_close_witness :
  stop (ord := map_order) (env := std_env (fun _ => 0)) (idle sample_server) = Undefined.
Proof.
  assert (Hok : tracked_ok sample_server).
  { intros id [u Hu]. cbn in Hu. apply lookup_singleton_Some in Hu as [<- _].
    eexists. split; [apply lookup_singleton_eq|done]. }
  destruct (tcp_server_close (ord := map_order) (env := std_env (fun _ => 0)) sample_server Hok eq_refl) as [[[_ H]|[H1 H2]] _];
    [done|].
  destruct (H1 1). split; [by exists tt|].
  exists (set_connection_callback server_callback (TcpConnection_accepted 1)). done.
Defined.

Lemma tcp_broadcast_witness :
  exists ids, broadcast (ord := map_order) (env := std_env (fun _ => 0)) 4096 (idle sample_server)
    = Ret (tt, mkWorld sample_server [] 0 (map (fun id => WriteStarted (mkWriteRequest id 4096)) ids)) /\ 1 ∈ ids.
Proof.
  destruct (tcp_broadcast (ord := map_order) (env := std_env (fun _ => 0)) 4096 (idle sample_server)) as (ids & E & _ & H); [reflexivity| |].
  - intros id c Hc. cbn in Hc. apply lookup_singleton_Some in Hc as [<- <-]. reflexivity.
  - exists ids. split; [exact E|]. apply H. split; [by exists tt|].
    exists (set_connection_callback server_callback (TcpConnection_accepted 1)). done.
Defined.
