(* ===== verification/TcpClient.v ===== *)
(** * TcpClient: an outgoing connection with automatic reconnection

    p2p/src/tcp_client.cpp.  The client owns a connection through a [shared_ptr];
    pending operations of the connection own it too, so a connection the client has
    let go is destroyed (and closed) when it has none.  The callback the client
    installs reports to the user and, when the connection was lost and
    reconnection is enabled, arms the timer.  Completions of the timer, of connects
    and of reads are steps of the environment. *)

From stdpp Require Import base list gmap numbers strings.
From Stdlib Require Import ZArith Lia Ascii.
From S2P Require Import Prelude CString Effects TcpConnection.

(** The handler given to [TcpConnection::async_connect]. *)
Inductive connect_handler : Type := user_handler | reconnect_handler.

Record TcpClient : Type := mkTcpClient {
  connection_ : option Z;
  host_ : cstr;
  port_ : Z;
  auto_reconnect_ : bool;
  reconnect_interval_ : Z;
  has_callback : bool;
  pending_waits : nat;
  conns : gmap Z TcpConnection;
  handlers : gmap Z connect_handler;
  next_connection_id_ : Z
}.
Definition TcpClient_new : TcpClient := mkTcpClient None [] 0 false 5000 false 0 ∅ ∅ 1.

Inductive client_event : Type :=
  | ClientCallback (connected : bool)
  | UserHandler (ec : option error_code)
  | AlreadyConnected.

Definition set_connection (o : option Z) (s : TcpClient) : TcpClient :=
  mkTcpClient o (host_ s) (port_ s) (auto_reconnect_ s) (reconnect_interval_ s) (has_callback s) (pending_waits s)
    (conns s) (handlers s) (next_connection_id_ s).
Definition set_auto (b : bool) (i : Z) (s : TcpClient) : TcpClient :=
  mkTcpClient (connection_ s) (host_ s) (port_ s) b i (has_callback s) (pending_waits s) (conns s) (handlers s) (next_connection_id_ s).
Definition set_waits (n : nat) (s : TcpClient) : TcpClient :=
  mkTcpClient (connection_ s) (host_ s) (port_ s) (auto_reconnect_ s) (reconnect_interval_ s) (has_callback s) n
    (conns s) (handlers s) (next_connection_id_ s).
Definition set_conns (f : gmap Z TcpConnection -> gmap Z TcpConnection) (s : TcpClient) : TcpClient :=
  mkTcpClient (connection_ s) (host_ s) (port_ s) (auto_reconnect_ s) (reconnect_interval_ s) (has_callback s) (pending_waits s)
    (f (conns s)) (handlers s) (next_connection_id_ s).
Definition set_address (host : cstr) (port : Z) (s : TcpClient) : TcpClient :=
  mkTcpClient (connection_ s) host port (auto_reconnect_ s) (reconnect_interval_ s) (has_callback s) (pending_waits s)
    (conns s) (handlers s) (next_connection_id_ s).
Definition set_handler (id : Z) (h : connect_handler) (s : TcpClient) : TcpClient :=
  mkTcpClient (connection_ s) (host_ s) (port_ s) (auto_reconnect_ s) (reconnect_interval_ s) (has_callback s) (pending_waits s)
    (conns s) (<[ id := h ]> (handlers s)) (next_connection_id_ s).
Definition set_connection_callback (b : bool) (s : TcpClient) : TcpClient :=
  mkTcpClient (connection_ s) (host_ s) (port_ s) (auto_reconnect_ s) (reconnect_interval_ s) b (pending_waits s)
    (conns s) (handlers s) (next_connection_id_ s).

Abbreviation cli A := (eff TcpClient client_event A) (only parsing).

Definition is_connected (s : TcpClient) : bool :=
  match connection_ s with
  | Some id => match conns s !! id with Some c => TcpConnection.is_connected c | None => false end
  | None => false
  end.

(** Arming the timer adds one pending wait. *)
Definition schedule_reconnect : cli () :=
  s ← get; if auto_reconnect_ s then modify (set_waits (S (pending_waits s))) else mret tt.

(** The callback installed in every connection of the client. *)
Definition on_connection (b : bool) : cli () :=
  s ← get;
  (if has_callback s then emit (ClientCallback b) else mret tt);;
  if negb b && auto_reconnect_ s then schedule_reconnect else mret tt.

(** The handler of the reconnection attempt. *)
Definition on_reconnected (ec : option error_code) : cli () :=
  match ec with
  | Some _ => modify (set_connection None);; s ← get; if auto_reconnect_ s then schedule_reconnect else mret tt
  | None => mret tt
  end.

Definition run_event (id : Z) (ev : conn_event) : cli () :=
  match ev with
  | OnConnection b => on_connection b
  | OnData _ => mret tt
  | OnHandler ec =>
      s ← get;
      match handlers s !! id with
      | Some reconnect_handler => on_reconnected ec
      | Some user_handler => emit (UserHandler ec)
      | None => mret tt
      end
  end.

(** Run an operation of a connection and the callbacks it makes. *)
Definition on_conn {A} (id : Z) (none : A) (f : TcpConnection -> A * TcpConnection * list conn_event) : cli A :=
  s ← get;
  match conns s !! id with
  | None => mret none
  | Some c => let '(r, c', ev) := f c in modify (set_conns (insert id c'));; for_each (run_event id) ev;; mret r
  end.

Definition unowned (c : TcpConnection) : bool :=
  Nat.eqb (pending_reads c) 0 && Nat.eqb (pending_resolves c) 0 && Nat.eqb (pending_connects c) 0.

Definition close_conn (id : Z) : cli () := on_conn id tt (fun c => let '(c', ev) := close c in (tt, c', ev)).

(** Drop a reference: the connection is destroyed when nothing else owns it. *)
Definition release (o : option Z) : cli () :=
  match o with
  | None => mret tt
  | Some id =>
      s ← get;
      match conns s !! id with
      | Some c =>
          if unowned c && negb (bool_decide (connection_ s = Some id)) then
            close_conn id;; modify (set_conns (delete id))
          else mret tt
      | None => mret tt
      end
  end.

(** [connection_ = TcpConnection::create(io_context_)] with the callback set. *)
Definition new_connection : cli Z :=
  s ← get;
  let id := next_connection_id_ s in
  let c := TcpConnection.set_connection_callback client_callback (TcpConnection_new id) in
  modify (fun s => mkTcpClient (Some id) (host_ s) (port_ s) (auto_reconnect_ s) (reconnect_interval_ s) (has_callback s)
                     (pending_waits s) (<[ id := c ]> (conns s)) (handlers s) (u64 (id + 1)));;
  release (connection_ s);;
  mret id.

Section Operations.
Variable ec_message : error_code -> list ascii.

Definition connect (host : cstr) (port : Z) (answer : io ()) : cli (TcpResult ()) :=
  s ← get;
  if is_connected s then mret (inl (make_tcp_error ALREADY_CONNECTED $"Already connected"))
  else
    modify (set_address host port);;
    id ← new_connection;
    r ← on_conn id (inr tt) (TcpConnection.connect ec_message answer);
    match r with
    | inl e => modify (set_connection None);; release (Some id);; mret (inl e)
    | inr _ => mret (inr tt)
    end.

Definition async_connect (host : cstr) (port : Z) : cli () :=
  s ← get;
  if is_connected s then emit AlreadyConnected
  else
    modify (set_address host port);;
    id ← new_connection;
    modify (set_handler id user_handler);;
    on_conn id tt (fun c => (tt, TcpConnection.async_connect c, [])).

Definition disconnect : cli () :=
  modify (fun s => set_auto false (reconnect_interval_ s) s);;
  s ← get;
  match connection_ s with
  | Some id => close_conn id;; modify (set_connection None);; release (Some id)
  | None => mret tt
  end.

Definition enable_auto_reconnect (interval : Z) : cli () := modify (set_auto true interval).
Definition disable_auto_reconnect : cli () := modify (fun s => set_auto false (reconnect_interval_ s) s).

Definition send (answer : io Z) (data : list Z) : cli (TcpResult Z) :=
  s ← get;
  match connection_ s ≫= (fun id => conns s !! id) with
  | Some c =>
      if TcpConnection.is_connected c then mret (TcpConnection.send ec_message answer data c)
      else mret (inl (make_tcp_error NOT_CONNECTED $"Not connected"))
  | None => mret (inl (make_tcp_error NOT_CONNECTED $"Not connected"))
  end.

Definition start_receive (callback : bool) : cli () :=
  s ← get;
  match connection_ s with
  | Some id => if is_connected s then on_conn id tt (fun c => (tt, TcpConnection.start_receive callback c, [])) else mret tt
  | None => mret tt
  end.
Definition stop_receive : cli () :=
  s ← get;
  match connection_ s with
  | Some id => on_conn id tt (fun c => (tt, TcpConnection.stop_receive c, []))
  | None => mret tt
  end.

Definition do_reconnect : cli () :=
  id ← new_connection;
  modify (set_handler id reconnect_handler);;
  on_conn id tt (fun c => (tt, TcpConnection.async_connect c, [])).

(** ** Completions *)

Inductive completion : Type :=
  | TimerDone (aborted : bool)
  | ResolveDone (id : Z) (ec : option error_code)
  | ConnectDone (id : Z) (ec : option error_code)
  | ReadDone (id : Z) (result : error_code + list Z).

(** A completion handler runs, then the reference it held is dropped. *)
Definition complete (k : completion) : cli () :=
  match k with
  | TimerDone aborted =>
      modify (fun s => set_waits (pred (pending_waits s)) s);;
      s ← get;
      if negb aborted && auto_reconnect_ s then do_reconnect else mret tt
  | ResolveDone id ec => on_conn id tt (fun c => let '(c', ev) := handle_resolve ec c in (tt, c', ev));; release (Some id)
  | ConnectDone id ec => on_conn id tt (fun c => let '(c', ev) := handle_connect ec c in (tt, c', ev));; release (Some id)
  | ReadDone id r => on_conn id tt (fun c => let '(c', ev) := handle_receive (fun c => (c, [])) r c in (tt, c', ev));; release (Some id)
  end.
End Operations.

(** ** After disconnect *)

Definition idle_client (s : TcpClient) : Prop := connection_ s = None /\ auto_reconnect_ s = false.

(** A computation returns and keeps a property of the client. *)
Definition keeps {A} (P : TcpClient -> Prop) (m : cli A) : Prop :=
  forall w, P (obj w) -> exists a w', m w = Ret (a, w') /\ P (obj w').

Section Keeps.
Context (P : TcpClient -> Prop).
Lemma keeps_ret {A} (a : A) : keeps P (mret a).
Proof. intros w H. eauto. Qed.
Lemma keeps_bind {A B} (m : cli A) (f : A -> cli B) : keeps P m -> (forall a, keeps P (f a)) -> keeps P (m ≫= f).
Proof.
  intros Hm Hf w H. destruct (Hm w H) as (a & w' & E & H'). rewrite (eff_bind_run _ _ _ _ _ E). by apply Hf.
Qed.
Lemma keeps_get {B} (f : TcpClient -> cli B) : (forall s, P s -> keeps P (f s)) -> keeps P (get ≫= f).
Proof. intros Hf w H. rewrite (eff_bind_run get _ _ _ _ eq_refl). by apply Hf. Qed.
Lemma keeps_modify f : (forall s, P s -> P (f s)) -> keeps P (modify f).
Proof. intros Hf w H. do 2 eexists. split; [reflexivity|]. by apply Hf. Qed.
Lemma keeps_emit e : keeps P (emit e).
Proof. intros w H. do 2 eexists. split; [reflexivity|]. done. Qed.
Lemma keeps_for_each {X} (f : X -> cli ()) l : (forall x, keeps P (f x)) -> keeps P (for_each f l).
Proof. intros Hf. induction l; cbn; [apply keeps_ret|]. by apply keeps_bind. Qed.
End Keeps.
#[local] Hint Resolve keeps_ret keeps_emit : chain.

Lemma schedule_idle : keeps idle_client schedule_reconnect.
Proof. apply keeps_get. intros s [_ ->]. apply keeps_ret. Qed.

Lemma on_connection_idle b : keeps idle_client (on_connection b).
Proof.
  apply keeps_get. intros s Hs. apply keeps_bind; [destruct (has_callback s); auto with chain|].
  intros _. destruct (negb b && auto_reconnect_ s); [apply schedule_idle|apply keeps_ret].
Qed.

Lemma run_event_idle id ev : keeps idle_client (run_event id ev).
Proof.
  destruct ev as [b|d|ec]; cbn; [apply on_connection_idle|apply keeps_ret|].
  apply keeps_get. intros s Hs. destruct (handlers s !! id) as [[]|]; auto with chain.
  destruct ec; cbn; [|apply keeps_ret]. apply keeps_bind; [apply keeps_modify; intros ? [? ?]; done|]. intros _.
  apply keeps_get. intros s' [_ ->]. apply keeps_ret.
Qed.

Lemma on_conn_idle {A} id (none : A) f : keeps idle_client (on_conn id none f).
Proof.
  apply keeps_get. intros s Hs. destruct (conns s !! id); [|apply keeps_ret]. destruct (f t) as [[r c'] ev].
  apply keeps_bind; [by apply keeps_modify|]. intros _.
  apply keeps_bind; [apply keeps_for_each; intros; apply run_event_idle|]. intros _. apply keeps_ret.
Qed.

Lemma release_idle o : keeps idle_client (release o).
Proof.
  destruct o as [id|]; [|apply keeps_ret]. apply keeps_get. intros s Hs. destruct (conns s !! id); [|apply keeps_ret].
  destruct (_ && _); [|apply keeps_ret]. apply keeps_bind; [apply on_conn_idle|]. intros _. by apply keeps_modify.
Qed.

Lemma complete_idle k : keeps idle_client (complete k).
Proof.
  destruct k as [ab|id ec|id ec|id r]; cbn [complete];
    try (apply keeps_bind; [apply on_conn_idle|intros _; apply release_idle]).
  apply keeps_bind; [by apply keeps_modify|]. intros _. apply keeps_get. intros s [_ ->].
  rewrite andb_false_r. apply keeps_ret.
Qed.

Fixpoint complete_all (ks : list completion) : cli () :=
  match ks with [] => mret tt | k :: ks' => complete k;; complete_all ks' end.

(** [disconnect] leaves the client without a connection and without reconnection. *)
Lemma disconnect_idle w : exists w', disconnect w = Ret (tt, w') /\ idle_client (obj w').
Proof.
  unfold disconnect. rewrite (eff_bind_run (modify _) _ _ tt _ eq_refl), (eff_bind_run get _ _ _ _ eq_refl). cbn [obj].
  set (s := set_auto false _ (obj w)). assert (Ha : auto_reconnect_ s = false) by done.
  set (Q := fun s : TcpClient => auto_reconnect_ s = false).
  assert (Hclose : forall id, keeps Q (close_conn id)).
  { intros id. apply keeps_get. intros s' Hs'. destruct (conns s' !! id) as [c|]; [|apply keeps_ret].
    destruct (close c) as [c' ev]. apply keeps_bind; [by apply keeps_modify|]. intros _.
    apply keeps_bind; [|intros; apply keeps_ret]. apply keeps_for_each. intros [b|d|ec]; cbn; [|apply keeps_ret|].
    - apply keeps_get. intros s1 Hs1. apply keeps_bind; [destruct (has_callback s1); [apply keeps_emit|apply keeps_ret]|].
      intros _. unfold Q in Hs1. rewrite Hs1, andb_false_r. apply keeps_ret.
    - apply keeps_get. intros s1 Hs1. destruct (handlers s1 !! id) as [[]|]; [apply keeps_emit| |apply keeps_ret].
      destruct ec; cbn; [|apply keeps_ret]. apply keeps_bind; [by apply keeps_modify|]. intros _.
      apply keeps_get. intros s2 Hs2. unfold Q in Hs2. rewrite Hs2. apply keeps_ret. }
  destruct (connection_ s) as [id|] eqn:Hc.
  - destruct (Hclose id (mkWorld s (held w) (ticks w) (log w)) Ha) as ([] & w1 & E1 & H1).
    rewrite (eff_bind_run _ _ _ _ _ E1), (eff_bind_run (modify _) _ _ tt _ eq_refl).
    destruct (release_idle (Some id) (mkWorld (set_connection None (obj w1)) (held w1) (ticks w1) (log w1))) as ([] & w2 & E2 & H2);
      [done|]. by exists w2.
  - eexists. split; [reflexivity|]. done.
Qed.

(** C27: [disconnect] is final: it returns in every state, and whatever timers,
    connects and reads complete afterwards, in any order and with any result, every
    handler returns and the client stays without a connection and does not try to
    reconnect. *)
Theorem tcp_client_disconnect_final (w : world TcpClient client_event) (ks : list completion) :
  exists w1 w2, disconnect w = Ret (tt, w1) /\ complete_all ks w1 = Ret (tt, w2)
  /\ connection_ (obj w2) = None /\ auto_reconnect_ (obj w2) = false /\ is_connected (obj w2) = false.
Proof.
  destruct (disconnect_idle w) as (w1 & E1 & H1). exists w1.
  assert (Hk : keeps idle_client (complete_all ks)).
  { clear. induction ks as [|k ks IH]; cbn; [apply keeps_ret|]. apply keeps_bind; [apply complete_idle|done]. }
  destruct (Hk w1 H1) as ([] & w2 & E2 & H2 & H3). exists w2. split_and!; try done. unfold is_connected. by rewrite H2.
Qed.

(** ** Reports that come too late, and a reconnection too many *)

Definition with_callback : TcpClient := set_connection_callback true TcpClient_new.

(** A connect that is under way when [disconnect] is called is not cancelled: it
    completes, and the user is told that the client is connected. *)
Lemma late_connected_report :
  exists w, (async_connect $"peer" 8333;; complete (ResolveDone 1 None);; disconnect;; complete (ConnectDone 1 None))
              (idle with_callback) = Ret (tt, w)
  /\ log w = [ClientCallback true; UserHandler None; ClientCallback false] /\ is_connected (obj w) = false.
Proof. eexists. split; [vm_compute; reflexivity|]. vm_compute. done. Qed.

(** The timer armed by a lost connection replaces whatever connection the client has
    when it fires: one the user made in the meantime is closed. *)
Lemma reconnect_drops_live_connection msg :
  exists w, (enable_auto_reconnect 5000;; connect msg $"peer" 8333 (IoOk tt);; start_receive true;;
             complete (ReadDone 1 (inl eof)) ;; connect msg $"peer" 8333 (IoOk tt);; complete (TimerDone false))
              (idle with_callback) = Ret (tt, w)
  /\ log w = [ClientCallback true; ClientCallback false; ClientCallback true; ClientCallback false]
  /\ is_connected (obj w) = false.
Proof. eexists. split; [vm_compute; reflexivity|]. vm_compute. done. Qed.
