(* ===== verification/UdpTransport.v ===== *)
(** * UdpTransport: datagrams

    p2p/src/udp_transport.cpp as a state machine, in the manner of [TcpConnection]:
    the answers of boost::asio are inputs, asynchronous receives are pending until
    their handler runs, and callbacks are events. *)

From stdpp Require Import base list gmap numbers strings.
From Stdlib Require Import ZArith Lia Ascii.
From S2P Require Import Prelude CString TcpConnection.

Inductive UdpError : Type := BIND_FAILED | SEND_FAILED | RECEIVE_FAILED | INVALID_ADDRESS | NOT_BOUND.
Definition udp_error_code (e : UdpError) : Z :=
  match e with BIND_FAILED => 1 | SEND_FAILED => 2 | RECEIVE_FAILED => 3 | INVALID_ADDRESS => 4 | NOT_BOUND => 5 end.

Record udp_failure : Type := make_udp_error { udp_code : UdpError; udp_message : cstr }.
Abbreviation UdpResult A := (udp_failure + A)%type (only parsing).

Record UdpEndpoint : Type := mkUdpEndpoint { udp_address : cstr; udp_port : Z }.
Definition endpoint_to_string (e : UdpEndpoint) : cstr := udp_address e ++ $":" ++ print_dec (udp_port e).

Record UdpTransport : Type := mkUdpTransport {
  socket_open : bool;
  bound_ : bool;
  receiving_ : bool;
  port_ : Z;
  receive_callback_ : bool;
  pending_reads : nat
}.
Definition UdpTransport_new : UdpTransport := mkUdpTransport false false false 0 false 0.

(** What the library answers while binding; the error of [set_option] is overwritten
    by that of [bind]. *)
Record bind_answers : Type := mkBindAnswers {
  address_throws : option cstr;
  open_error : option error_code;
  bind_error : option error_code
}.

Inductive udp_event : Type := OnDatagram (data : list Z) (sender : UdpEndpoint).

Section Operations.
Variable ec_message : error_code -> list ascii.

Definition bind_failed {A} (text : cstr) : UdpResult A := inl (make_udp_error BIND_FAILED text).
Definition not_bound {A} : UdpResult A := inl (make_udp_error NOT_BOUND $"Socket not bound").

Definition bind (port : Z) (address : cstr) (a : bind_answers) (t : UdpTransport) : UdpResult () * UdpTransport :=
  if bound_ t then (bind_failed $"Already bound", t)
  else
    match address_throws a with
    | Some w => (bind_failed ($"Bind exception: " ++ w), t)
    | None =>
    match open_error a with
    | Some ec => (bind_failed ($"Failed to open socket: " ++ ec_message ec), t)
    | None =>
        let t := mkUdpTransport true (bound_ t) (receiving_ t) (port_ t) (receive_callback_ t) (pending_reads t) in
        match bind_error a with
        | Some ec =>
            (bind_failed ($"Failed to bind to " ++ address ++ $":" ++ print_dec port ++ $": " ++ ec_message ec), t)
        | None => (inr tt, mkUdpTransport true true (receiving_ t) port (receive_callback_ t) (pending_reads t))
        end
    end end.

Definition close (t : UdpTransport) : UdpTransport :=
  if bound_ t then mkUdpTransport false false false (port_ t) (receive_callback_ t) (pending_reads t)
  else t.

Definition is_bound (t : UdpTransport) : bool := bound_ t.

(** A library call guarded by [bound_]: its failures are results. *)
Definition guarded {A} (t : UdpTransport) (code : UdpError) (failed thrown : cstr) (answer : io A) : UdpResult A :=
  if bound_ t then
    match answer with
    | IoOk a => inr a
    | IoError ec => inl (make_udp_error code (failed ++ ec_message ec))
    | IoThrow w => inl (make_udp_error code (thrown ++ w))
    end
  else not_bound.

Definition send_to (answer : io Z) (t : UdpTransport) : UdpResult Z :=
  guarded t SEND_FAILED $"Send failed: " $"Send exception: " answer.

(** The handler gets what the library reports, or an error when the address is bad. *)
Definition async_send_to (address_throws : bool) (answer : option error_code * Z) : option error_code * Z :=
  if address_throws then (Some (other_error 22), 0) else answer.

(** [broadcast]: enabling the option can fail before the datagram is sent. *)
Definition broadcast (enable_error : option error_code) (answer : io Z) (t : UdpTransport) : UdpResult Z :=
  if bound_ t then
    match enable_error with
    | Some ec => inl (make_udp_error SEND_FAILED ($"Failed to enable broadcast: " ++ ec_message ec))
    | None => guarded t SEND_FAILED $"Broadcast failed: " $"Broadcast exception: " answer
    end
  else not_bound.

Definition join_multicast (answer : io ()) (t : UdpTransport) : UdpResult () :=
  guarded t BIND_FAILED $"Failed to join multicast group: " $"Multicast join exception: " answer.
Definition leave_multicast (answer : io ()) (t : UdpTransport) : UdpResult () :=
  guarded t BIND_FAILED $"Failed to leave multicast group: " $"Multicast leave exception: " answer.

Definition local_endpoint (answer : io UdpEndpoint) : UdpResult UdpEndpoint :=
  match answer with
  | IoOk e => inr e
  | IoError ec => inl (make_udp_error NOT_BOUND ($"Failed to get local endpoint: " ++ ec_message ec))
  | IoThrow w => inl (make_udp_error NOT_BOUND ($"Local endpoint exception: " ++ w))
  end.

Definition set_receiving (b cb : bool) (t : UdpTransport) : UdpTransport :=
  mkUdpTransport (socket_open t) (bound_ t) b (port_ t) cb (pending_reads t).
Definition set_reads (n : nat) (t : UdpTransport) : UdpTransport :=
  mkUdpTransport (socket_open t) (bound_ t) (receiving_ t) (port_ t) (receive_callback_ t) n.

Definition do_receive (t : UdpTransport) : UdpTransport :=
  if negb (receiving_ t) || negb (bound_ t) then t else set_reads (S (pending_reads t)) t.
Definition start_receive (callback : bool) (t : UdpTransport) : UdpTransport := do_receive (set_receiving true callback t).
Definition stop_receive (t : UdpTransport) : UdpTransport := set_receiving false (receive_callback_ t) t.

(** The completion handler of a receive. *)
Definition handle_receive (result : error_code + list Z * UdpEndpoint) (t : UdpTransport) : UdpTransport * list udp_event :=
  let t := set_reads (pred (pending_reads t)) t in
  match result with
  | inl _ => (t, [])
  | inr (data, sender) =>
      let ev := if receive_callback_ t && negb (bool_decide (data = [])) then [OnDatagram data sender] else [] in
      (do_receive t, ev)
  end.

(** ** Histories *)

Inductive udp_step : Type :=
  | Bind (port : Z) (address : cstr) (a : bind_answers)
  | Close | StartReceive (callback : bool) | StopReceive
  | ReceiveDone (result : error_code + list Z * UdpEndpoint).

Definition step (l : udp_step) (t : UdpTransport) : UdpTransport * list udp_event :=
  match l with
  | Bind p addr a => (snd (bind p addr a t), [])
  | Close => (close t, [])
  | StartReceive cb => (start_receive cb t, [])
  | StopReceive => (stop_receive t, [])
  | ReceiveDone r => if decide (pending_reads t = O) then (t, []) else handle_receive r t
  end.

(** The library refuses to open a socket that is open. *)
Definition answers_ok (l : udp_step) (t : UdpTransport) : Prop :=
  match l with Bind _ _ a => socket_open t = true -> open_error a <> None | _ => True end.

Inductive run : UdpTransport -> list udp_step -> UdpTransport -> list udp_event -> Prop :=
  | run_nil t : run t [] t []
  | run_cons t l t' ev ls t'' ev' :
      answers_ok l t -> step l t = (t', ev) -> run t' ls t'' ev' -> run t (l :: ls) t'' (ev ++ ev').

(** Open but not bound: what a bind that fails leaves behind. *)
Definition stuck (t : UdpTransport) : Prop := socket_open t = true /\ bound_ t = false.

Lemma bind_when_stuck p addr a t :
  stuck t -> open_error a <> None -> exists e, bind p addr a t = (inl e, t) /\ udp_code e = BIND_FAILED.
Proof.
  intros [Ho Hb] Ha. unfold bind. rewrite Hb. destruct (address_throws a); [by eexists|].
  destruct (open_error a); [by eexists|done].
Qed.

Lemma do_receive_flags t :
  socket_open (do_receive t) = socket_open t /\ bound_ (do_receive t) = bound_ t /\ receiving_ (do_receive t) = receiving_ t.
Proof. unfold do_receive. by destruct (_ || _). Qed.

Lemma step_stuck l t : stuck t -> answers_ok l t -> stuck (fst (step l t)).
Proof.
  intros Hs Ha. destruct l as [p addr a| |cb| |r]; cbn.
  - destruct (bind_when_stuck p addr a t Hs) as (e & -> & _); [apply Ha, Hs|done].
  - unfold close. destruct Hs as [? Hb]. by rewrite Hb.
  - unfold start_receive, stuck. destruct (do_receive_flags (set_receiving true cb t)) as (-> & -> & _). done.
  - done.
  - case_decide; [done|]. unfold handle_receive. destruct r as [ec|[d s]]; [done|]. cbn. unfold stuck.
    destruct (do_receive_flags (set_reads (pred (pending_reads t)) t)) as (-> & -> & _). done.
Qed.

(** Open exactly when bound, or stuck. *)
Definition socket_ok (t : UdpTransport) : Prop := socket_open t = bound_ t \/ stuck t.

Lemma step_socket_ok l t : socket_ok t -> answers_ok l t -> socket_ok (fst (step l t)).
Proof.
  intros [Hs|Hs] Ha; [|right; by apply step_stuck]. unfold socket_ok, stuck.
  destruct l as [p addr a| |cb| |r]; cbn.
  - unfold bind. destruct (bound_ t) eqn:Hb; [left; cbn; congruence|].
    destruct (address_throws a), (open_error a), (bind_error a); cbn; try (left; congruence); auto.
  - unfold close. destruct (bound_ t) eqn:Hb; left; cbn; congruence.
  - unfold start_receive. destruct (do_receive_flags (set_receiving true cb t)) as (-> & -> & _). by left.
  - by left.
  - case_decide; [by left|]. unfold handle_receive. destruct r as [ec|[d s]]; [by left|]. cbn.
    destruct (do_receive_flags (set_reads (pred (pending_reads t)) t)) as (-> & -> & _). by left.
Qed.

Lemma run_stuck t ls t' ev : run t ls t' ev -> stuck t -> stuck t'.
Proof.
  induction 1 as [|t l t' ev ls t'' ev' Ha Hs _ IH]; intros Hst; [done|]. apply IH.
  pose proof (step_stuck l t Hst Ha) as H. by rewrite Hs in H.
Qed.

Lemma run_ok t ls t' ev : run t ls t' ev -> socket_ok t -> socket_ok t'.
Proof.
  induction 1 as [|t l t' ev ls t'' ev' Ha Hs _ IH]; intros Hst; [done|]. apply IH.
  pose proof (step_socket_ok l t Hst Ha) as H. by rewrite Hs in H.
Qed.

(** The life of a UDP transport, for a library that refuses to open an open
    socket: in every reachable state the socket is open exactly while the transport
    is bound, except after a bind that failed once the socket was open; then the
    transport is unusable for good, since [close] does nothing and every later bind
    fails, whatever happens in between.  From any other unbound state a bind to
    which the library agrees succeeds. *)
Theorem udp_bind_lifecycle ls t ev :
  run UdpTransport_new ls t ev ->
  (socket_open t = bound_ t \/ stuck t)
  /\ (forall p addr a ec, bound_ t = false -> address_throws a = None -> open_error a = None -> bind_error a = Some ec ->
        stuck (snd (bind p addr a t)))
  /\ (stuck t -> forall ls' t' ev', run t ls' t' ev' ->
        close t' = t' /\ forall p addr a, answers_ok (Bind p addr a) t' ->
          exists e, bind p addr a t' = (inl e, t') /\ udp_code e = BIND_FAILED)
  /\ (bound_ t = false -> forall p addr a, address_throws a = None -> open_error a = None -> bind_error a = None ->
        exists t', bind p addr a t = (inr tt, t') /\ bound_ t' = true /\ port_ t' = p).
Proof.
  intros Hr. split_and!.
  - eapply run_ok; [done|]. by left.
  - intros p addr a ec Hb H1 H2 H3. unfold bind. rewrite Hb, H1, H2, H3. done.
  - intros Hst ls' t' ev' Hr'. pose proof (run_stuck _ _ _ _ Hr' Hst) as [Ho Hb]. split; [unfold close; by rewrite Hb|].
    intros p addr a Ha. apply bind_when_stuck; [done|]. by apply Ha.
  - intros Hb p addr a H1 H2 H3. unfold bind. rewrite Hb, H1, H2, H3. by eexists.
Qed.

(** Once stopped, the callback runs at most as often as receives were pending. *)
Lemma stopped_receives t ls t' ev :
  run t ls t' ev -> receiving_ t = false -> (forall cb, StartReceive cb ∉ ls) -> (length ev <= pending_reads t)%nat.
Proof.
  intros Hrun Hrec Hno. assert (G : (length ev + pending_reads t' <= pending_reads t)%nat); [|lia]. revert Hrec Hno.
  induction Hrun as [|t l t' ev ls t'' ev' Ha Hs _ IH]; intros Hrec Hno; [cbn; lia|].
  assert (Hls : forall cb, StartReceive cb ∉ ls) by (intros cb Hin; apply (Hno cb); by right).
  assert (Hl : receiving_ t' = false /\ (length ev + pending_reads t' <= pending_reads t)%nat).
  { destruct l as [p addr a| |cb| |r]; cbn in Hs.
    - simplify_eq. unfold bind. destruct (bound_ t), (address_throws a), (open_error a), (bind_error a); cbn; done.
    - simplify_eq. unfold close. destruct (bound_ t); cbn; done.
    - destruct (Hno cb). by left.
    - simplify_eq. done.
    - case_decide; [by simplify_eq|]. unfold handle_receive in Hs. destruct r as [ec|[d s]]; simplify_eq/=; [split; [done|lia]|].
      destruct (do_receive_flags (set_reads (pred (pending_reads t)) t)) as (_ & _ & ->). split; [done|].
      unfold do_receive. cbn. rewrite Hrec. cbn. destruct (_ && _); cbn; lia. }
  destruct Hl as [Hr' Hlen]. specialize (IH Hr' Hls). rewrite length_app. lia.
Qed.
End Operations.

Definition bad_bind : bind_answers := mkBindAnswers None None (Some (other_error 98)).
Lemma udp_bind_lifecycle_witness :
  let t := mkUdpTransport true false false 0 false 0 in
  run (fun _ => []) UdpTransport_new [Bind 30303 $"0.0.0.0" bad_bind] t [] /\ stuck t
  /\ exists e, bind (fun _ => []) 30304 $"0.0.0.0" (mkBindAnswers None (Some (other_error 1)) None) t = (inl e, t).
Proof.
  intros t. assert (Hr : run (fun _ => []) UdpTransport_new [Bind 30303 $"0.0.0.0" bad_bind] t [])
    by (eapply (run_cons _ _ _ _ []); [done|reflexivity|constructor]).
  destruct (udp_bind_lifecycle (fun _ => []) _ _ _ Hr) as (_ & _ & H & _).
  destruct (H ltac:(done) [] t [] ltac:(constructor)) as [_ Hb]. split_and!; [done|done|].
  destruct (Hb 30304 $"0.0.0.0" (mkBindAnswers None (Some (other_error 1)) None)) as (e & He & _); [done|]. by exists e.
Defined.
