(* ===== verification/DiscoveryNode.v ===== *)
(** * DiscoveryNode: starting, running and stopping peer discovery

    The life cycle of [PeerDiscovery] (p2p/src/peer_discovery.cpp): the peer table
    of [PeerDiscovery] together with the UDP transport it owns and its timer.
    Receives and timer waits are pending until their handler runs; what the network
    and the timer answer are arguments.  The datagrams handed to the transport, the
    waits that are set and the user callbacks are events. *)

From stdpp Require Import base list numbers strings.
From Stdlib Require Import ZArith Lia Ascii.
From S2P Require Import Prelude CString Sorting Effects PeerAddress PeerDiscovery TcpConnection UdpTransport.

Record discovery_failure : Type := make_discovery_error { disc_code : DiscoveryError; disc_message : list ascii }.
Abbreviation DiscoveryResult A := (discovery_failure + A)%type (only parsing).

Record Node : Type := mkNode {
  table : Discovery;
  udp_transport_ : UdpTransport;
  timer_waits : nat
}.
Definition Node_of (config : BootstrapConfig) : Node := mkNode (PeerDiscovery_of config) UdpTransport_new 0.

Inductive node_event : Type :=
  | Discovered (a : PeerAddress)
  | Sent (data : list Z) (port : Z)
  | WaitSet (seconds : Z).

Definition set_table (d : Discovery) (n : Node) : Node := mkNode d (udp_transport_ n) (timer_waits n).
Definition set_udp (t : UdpTransport) (n : Node) : Node := mkNode (table n) t (timer_waits n).
Definition set_waits (k : nat) (n : Node) : Node := mkNode (table n) (udp_transport_ n) k.
Definition set_running (b : bool) (n : Node) : Node :=
  set_table (mkDiscovery (config_ (table n)) (peers_ (table n)) b (discovery_callback_ (table n))) n.

Definition is_running (n : Node) : bool := running_ (table n).

(** What the transport answers to a broadcast. *)
Record broadcast_answers : Type := mkBroadcastAnswers { enable_error : option error_code; broadcast_answer : io Z }.

Section Node.
Context {env : Env} {lib : AddressLib}.
Context (callback : PeerAddress -> eff Discovery PeerAddress ()).
Context (dns : list ascii -> option (list (list ascii))).
Context (ec_message : error_code -> list ascii).
Abbreviation node A := (eff Node node_event A) (only parsing).

(** A method of the peer table, run on the node. *)
Definition on_table {A} (m : eff Discovery PeerAddress A) : node A := fun w =>
  match m (mkWorld (table (obj w)) (held w) (ticks w) []) with
  | Ret (a, w') => Ret (a, mkWorld (set_table (obj w') (obj w)) (held w') (ticks w') (log w ++ map Discovered (log w')))
  | Throw e => Throw e
  | Undefined => Undefined
  end.

Definition failed {A} (code : DiscoveryError) (message : list ascii) : node (DiscoveryResult A) :=
  mret (inl (make_discovery_error code message)).

Definition broadcast_discovery (b : broadcast_answers) : node (DiscoveryResult ()) :=
  n ← get;
  if is_running n then
    let prt := discovery_port (config_ (table n)) in
    (if bound_ (udp_transport_ n) && negb (bool_decide (is_Some (enable_error b)))
     then emit (Sent (discovery_message prt) prt) else mret tt);;
    match broadcast ec_message (enable_error b) (broadcast_answer b) (udp_transport_ n) with
    | inl e => failed BROADCAST_FAILED ($"Broadcast failed: " ++ udp_message e)
    | inr _ => mret (inr tt)
    end
  else failed NOT_RUNNING $"Discovery not running".

Definition start_discovery_loop (b : broadcast_answers) : node () :=
  n ← get;
  if is_running n then
    broadcast_discovery b;;
    modify (fun n => set_waits (S (timer_waits n)) n);;
    emit (WaitSet (discovery_interval (config_ (table n))))
  else mret tt.

(** The handler of the timer: [expired] is false when the wait was cancelled. *)
Definition handle_timer (expired : bool) (b : broadcast_answers) : node () :=
  modify (fun n => set_waits (pred (timer_waits n)) n);;
  n ← get;
  if expired && is_running n then start_discovery_loop b else mret tt.

(** The handler of a receive; the transport calls [handle_discovery_message]. *)
Definition handle_receive (result : error_code + list Z * UdpEndpoint) : node () :=
  n ← get;
  let '(t, evs) := UdpTransport.handle_receive result (udp_transport_ n) in
  for_each (fun '(OnDatagram data sender) =>
    on_table (handle_discovery_message callback data (udp_address sender))) evs;;
  modify (set_udp t).

(** The part of [start] after the socket is set up. *)
Definition start_tail (config : BootstrapConfig) (b : broadcast_answers) : node (DiscoveryResult ()) :=
  (if decide (dns_seeds config = []) then mret tt else on_table (resolve_dns_seeds callback dns);; mret tt);;
  modify (set_running true);;
  (if enable_mdns config then start_discovery_loop b else mret tt);;
  on_table peer_count;;
  mret (inr tt).

Definition start (a : bind_answers) (b : broadcast_answers) : node (DiscoveryResult ()) :=
  n ← get;
  if is_running n then failed ALREADY_RUNNING $"Discovery already running"
  else
    on_table (load_bootstrap_nodes callback);;
    let config := config_ (table n) in
    n ← get;
    let '(bind_result, t) :=
      if enable_mdns config then UdpTransport.bind ec_message (discovery_port config) $"0.0.0.0" a (udp_transport_ n)
      else (inr tt, udp_transport_ n) in
    modify (set_udp t);;
    match bind_result with
    | inl e => failed BROADCAST_FAILED ($"Failed to bind UDP for discovery: " ++ udp_message e)
    | inr _ =>
        (if enable_mdns config then modify (fun n => set_udp (UdpTransport.start_receive true (udp_transport_ n)) n)
         else mret tt);;
        start_tail config b
    end.

(** Cancelling the timer only decides how its handler is called later. *)
Definition stop : node () :=
  n ← get;
  if is_running n then
    modify (set_running false);;
    modify (fun n => set_udp (UdpTransport.close (UdpTransport.stop_receive (udp_transport_ n))) n)
  else mret tt.

(** ** Histories *)

Inductive node_op : Type :=
  | NStart (a : bind_answers) (b : broadcast_answers)
  | NStop
  | NBroadcast (b : broadcast_answers)
  | NTable (op : disc_op)
  | NTimer (expired : bool) (b : broadcast_answers)
  | NReceive (result : error_code + list Z * UdpEndpoint).

Definition node_run (op : node_op) : node () :=
  match op with
  | NStart a b => start a b;; mret tt
  | NStop => stop
  | NBroadcast b => broadcast_discovery b;; mret tt
  | NTable op => on_table (disc_run callback dns op)
  | NTimer expired b => n ← get; if decide (timer_waits n = O) then mret tt else handle_timer expired b
  | NReceive r => n ← get; if decide (pending_reads (udp_transport_ n) = O) then mret tt else handle_receive r
  end.

(** Datagrams are bytes, and the library does not open a socket twice. *)
Definition node_op_ok (op : node_op) (n : Node) : Prop :=
  match op with
  | NStart a _ => socket_open (udp_transport_ n) = true -> open_error a <> None
  | NTable op => disc_op_ok op
  | NReceive (inr (data, _)) => bytes_ok data
  | _ => True
  end.

Inductive node_steps : Node -> list node_op -> Node -> list node_event -> Prop :=
  | steps_nil n : node_steps n [] n []
  | steps_cons n op tk w ops n'' ev :
      node_op_ok op n -> node_run op (mkWorld n [] tk []) = Ret (tt, w) -> node_steps (obj w) ops n'' ev ->
      node_steps n (op :: ops) n'' (log w ++ ev).

(** ** Lemmas *)

Lemma twp_on_table {A} (m : eff Discovery PeerAddress A) (Q : A -> world Node node_event -> Prop) (w : world Node node_event) :
  twp m (fun a w' => Q a (mkWorld (set_table (obj w') (obj w)) (held w') (ticks w') (log w ++ map Discovered (log w'))))
    (mkWorld (table (obj w)) (held w) (ticks w) []) ->
  twp (on_table m) Q w.
Proof. intros (a & w' & H & HQ). exists a. eexists. split; [|exact HQ]. unfold on_table. by rewrite H. Qed.

Lemma same_fields d d' :
  set_peers [] d = set_peers [] d' ->
  config_ d = config_ d' /\ running_ d = running_ d' /\ discovery_callback_ d = discovery_callback_ d'.
Proof. destruct d, d'. unfold set_peers. cbn. by intros [= -> -> ->]. Qed.

(** The invariant: the table is well formed, the socket is bound and read exactly
    while discovery runs with mDNS enabled, and every pending read has its
    callback. *)
Record node_ok (n : Node) : Prop := {
  node_table : table_inv (table n);
  node_bound : bound_ (udp_transport_ n) = is_running n && enable_mdns (config_ (table n));
  node_receiving : receiving_ (udp_transport_ n) = bound_ (udp_transport_ n);
  node_socket : socket_ok (udp_transport_ n);
  node_callback : pending_reads (udp_transport_ n) <> O -> receive_callback_ (udp_transport_ n) = true
}.

Definition is_discovered (e : node_event) : bool := match e with Discovered _ => true | _ => false end.
Definition sent_nothing (evs : list node_event) : Prop := Forall (fun e => is_discovered e = true) evs.

Lemma discovered_only l : sent_nothing (map Discovered l).
Proof. by induction l; constructor. Qed.

(** A call of the table keeps the rest of the node and sends nothing. *)
Lemma on_table_keeps {A} (m : eff Discovery PeerAddress A) d (w : world Node node_event) :
  twp m (fun _ w' => table_ok d w') (mkWorld (table (obj w)) (held w) (ticks w) []) ->
  twp (on_table m) (fun _ w' => table_inv (table (obj w')) /\ set_peers [] (table (obj w')) = set_peers [] d
    /\ udp_transport_ (obj w') = udp_transport_ (obj w) /\ timer_waits (obj w') = timer_waits (obj w) /\ held w' = []
    /\ exists evs, log w' = log w ++ evs /\ sent_nothing evs) w.
Proof.
  intros H. apply twp_on_table. eapply twp_mono; [exact H|]. intros a w' (H1 & H2 & H3). cbn.
  split_and!; try done. eexists. split; [done|]. apply discovered_only.
Qed.

Implicit Types w : world Node node_event.

(** The announcement of a node. *)
Definition announcement (n : Node) : node_event :=
  let prt := discovery_port (config_ (table n)) in Sent (discovery_message prt) prt.

Lemma broadcast_run b w :
  exists r evs, broadcast_discovery b w = Ret (r, mkWorld (obj w) (held w) (ticks w) (log w ++ evs))
  /\ (is_running (obj w) = false -> evs = [])
  /\ (is_running (obj w) = true -> bound_ (udp_transport_ (obj w)) = true -> enable_error b = None ->
      evs = [announcement (obj w)]).
Proof.
  destruct w as [n hs tk lg]. unfold broadcast_discovery, failed, broadcast, guarded, announcement.
  unfold mbind, eff_bind, Effects.get, emit. cbn.
  destruct (is_running n); [|exists (inl (make_discovery_error NOT_RUNNING $"Discovery not running")), []; by rewrite app_nil_r].
  destruct (bound_ (udp_transport_ n)); [destruct (enable_error b)|]; cbn.
  - eexists _, []. rewrite app_nil_r. split_and!; done.
  - destruct (broadcast_answer b); eexists _, [_]; split_and!; done.
  - eexists _, []. rewrite app_nil_r. split_and!; done.
Qed.

Lemma loop_run b w :
  is_running (obj w) = true ->
  exists evs, start_discovery_loop b w
    = Ret (tt, mkWorld (set_waits (S (timer_waits (obj w))) (obj w)) (held w) (ticks w) (log w ++ evs))
  /\ (bound_ (udp_transport_ (obj w)) = true -> enable_error b = None -> announcement (obj w) ∈ evs).
Proof.
  intros Hr. destruct (broadcast_run b w) as (r & evs & Hb & _ & He). unfold start_discovery_loop.
  rewrite (eff_bind_run Effects.get _ w (obj w) w) by done. rewrite Hr, (eff_bind_run _ _ _ _ _ Hb).
  eexists (evs ++ [_]). split; [cbn; by rewrite app_assoc|]. intros H1 H2. rewrite He by done. by left.
Qed.

(** What [start] answers and leaves. *)
Definition started (n : Node) (a : bind_answers) (b : broadcast_answers) (r : DiscoveryResult ()) (n' : Node) (evs : list node_event) : Prop :=
  let mdns := enable_mdns (config_ (table n)) in
  let bound := UdpTransport.bind ec_message (discovery_port (config_ (table n))) $"0.0.0.0" a (udp_transport_ n) in
  if is_running n then
    n' = n /\ evs = [] /\ exists m, r = inl (make_discovery_error ALREADY_RUNNING m)
  else match (if mdns then fst bound else inr tt) with
       | inl e => is_running n' = false /\ udp_transport_ n' = snd bound /\ timer_waits n' = timer_waits n
                  /\ sent_nothing evs /\ exists m, r = inl (make_discovery_error BROADCAST_FAILED m)
       | inr _ => is_running n' = true /\ r = inr tt
                  /\ timer_waits n' = (timer_waits n + if mdns then 1 else 0)%nat
                  /\ udp_transport_ n' = (if mdns then UdpTransport.start_receive true (snd bound) else udp_transport_ n)
                  /\ (mdns = true -> enable_error b = None -> announcement n ∈ evs)
       end.

Lemma bind_bound p addr a t t' u :
  UdpTransport.bind ec_message p addr a t = (inr u, t') -> bound_ t' = true /\ socket_open t' = true.
Proof. unfold UdpTransport.bind. intros H. repeat case_match; simplify_eq/=; done. Qed.

Lemma bind_refused p addr a t t' e :
  UdpTransport.bind ec_message p addr a t = (inl e, t') -> bound_ t' = bound_ t /\ receiving_ t' = receiving_ t
  /\ pending_reads t' = pending_reads t /\ receive_callback_ t' = receive_callback_ t.
Proof. unfold UdpTransport.bind. intros H. repeat case_match; simplify_eq/=; done. Qed.

Hypothesis Hquiet : quiet callback.

Lemma start_tail_keeps b w :
  table_inv (table (obj w)) -> held w = [] ->
  let config := config_ (table (obj w)) in
  (enable_mdns config = true -> bound_ (udp_transport_ (obj w)) = true) ->
  twp (start_tail config b) (fun r w' => r = inr tt /\ is_running (obj w') = true /\ table_inv (table (obj w'))
    /\ held w' = [] /\ config_ (table (obj w')) = config /\ udp_transport_ (obj w') = udp_transport_ (obj w)
    /\ timer_waits (obj w') = (timer_waits (obj w) + if enable_mdns config then 1 else 0)%nat
    /\ exists evs, log w' = log w ++ evs /\ (enable_mdns config = true -> enable_error b = None -> announcement (obj w) ∈ evs)) w.
Proof.
  intros Ht Hh config Hb. unfold start_tail. twp_step.
  apply (twp_mono _ (fun _ w' => table_inv (table (obj w')) /\ set_peers [] (table (obj w')) = set_peers [] (table (obj w))
    /\ udp_transport_ (obj w') = udp_transport_ (obj w) /\ timer_waits (obj w') = timer_waits (obj w) /\ held w' = []
    /\ exists evs, log w' = log w ++ evs /\ sent_nothing evs)).
  { case_decide; twp_step.
    - split_and!; try done. exists []. rewrite app_nil_r. split; [done|constructor].
    - eapply twp_mono; [apply (on_table_keeps _ (table (obj w))); apply resolve_dns_keeps; [done|by split_and!]|].
      intros r w1 H1. twp_go. done. }
  intros [] w1 (Ht1 & Hf1 & Hu1 & Hw1 & Hh1 & evs1 & Hl1 & _). destruct (same_fields _ _ Hf1) as (Hc1 & _).
  do 2 twp_step. twp_step.
  set (n2 := set_running true (obj w1)).
  apply (twp_mono _ (fun _ w' => exists evs, obj w' = set_waits (timer_waits n2 + if enable_mdns config then 1 else 0) n2 /\ held w' = []
    /\ log w' = log w1 ++ evs /\ (enable_mdns config = true -> enable_error b = None -> announcement (obj w) ∈ evs))).
  { destruct (enable_mdns config) eqn:Em.
    - destruct (loop_run b (mkWorld n2 (held w1) (ticks w1) (log w1))) as (evs & Hrun & Hann); [done|].
      exists tt. eexists. split; [exact Hrun|]. exists evs. cbn. rewrite Nat.add_1_r. split_and!; try done. intros _ He.
      assert (announcement (obj w) = announcement n2) as ->; [unfold announcement; cbn; by rewrite Hc1|].
      apply Hann; [|done]. cbn. rewrite Hu1. by apply Hb.
    - twp_go. exists []. rewrite app_nil_r, Nat.add_0_r. by destruct n2. }
  intros [] w2 (evs2 & Ho2 & Hh2 & Hl2 & Hann). twp_step. apply twp_on_table. unfold peer_count. twp_go.
  rewrite Ho2. cbn. rewrite Hc1, Hw1, Hu1. split_and!; try done.
  - destruct Ht1 as [T1 T2 T3]. split; [done|done|]. cbn. by rewrite <- Hc1.
  - eexists. rewrite Hl2, Hl1. rewrite <- !app_assoc. split; [done|]. intros H1 H2.
    rewrite !elem_of_app. right. left. by apply Hann.
Qed.

Lemma start_spec a b w :
  node_ok (obj w) -> held w = [] -> (socket_open (udp_transport_ (obj w)) = true -> open_error a <> None) ->
  twp (start a b) (fun r w' => node_ok (obj w') /\ held w' = [] /\ config_ (table (obj w')) = config_ (table (obj w))
    /\ exists evs, log w' = log w ++ evs /\ started (obj w) a b r (obj w') evs) w.
Proof.
  intros Hn Hh Ha. unfold start, started. do 2 twp_step. destruct (is_running (obj w)) eqn:Hr.
  { unfold failed. twp_go. split_and!; try done. exists []. rewrite app_nil_r. by eauto. }
  destruct Hn as [Ht Hb Hrc Hs Hcb]. rewrite Hr in Hb. cbn in Hb.
  twp_step. eapply twp_mono; [apply (on_table_keeps _ (table (obj w))); unfold load_bootstrap_nodes; twp_go; apply add_each_keeps; [done|by split_and!]|].
  intros [] w1 (Ht1 & Hf1 & Hu1 & Hw1 & Hh1 & evs1 & Hl1 & Hs1). destruct (same_fields _ _ Hf1) as (Hc1 & Hr1 & _).
  cbv zeta. do 2 twp_step. rewrite Hu1. set (t := udp_transport_ (obj w)) in *. set (cfg := config_ (table (obj w))) in *.
  assert (Htail : forall u, (enable_mdns cfg = true -> bound_ u = true) -> receiving_ u = bound_ u -> bound_ u = enable_mdns cfg -> socket_ok u ->
    (pending_reads u <> O -> receive_callback_ u = true) ->
    twp (start_tail cfg b) (fun r w' => node_ok (obj w') /\ held w' = [] /\ config_ (table (obj w')) = cfg /\ exists evs, log w' = log w ++ evs
      /\ is_running (obj w') = true /\ r = inr tt /\ timer_waits (obj w') = (timer_waits (obj w) + if enable_mdns cfg then 1 else 0)%nat
      /\ udp_transport_ (obj w') = u /\ (enable_mdns cfg = true -> enable_error b = None -> announcement (obj w) ∈ evs))
      (mkWorld (set_udp u (obj w1)) (held w1) (ticks w1) (log w1))).
  { intros u Hub Hur Hue Hus Huc. pose proof (start_tail_keeps b (mkWorld (set_udp u (obj w1)) (held w1) (ticks w1) (log w1)) Ht1 Hh1) as H.
    cbn in H. rewrite !Hc1 in H. eapply twp_mono; [by apply H|].
    cbn. intros r w2 (-> & R2 & T2 & H2 & C2 & U2 & W2 & evs2 & L2 & An2). split_and!; try done.
    - split; [done|rewrite U2, R2, C2; done|by rewrite U2..].
    - exists (evs1 ++ evs2). rewrite L2, Hl1, app_assoc, W2, Hw1. split_and!; try done. intros H1 H3.
        apply elem_of_app. right. assert (announcement (obj w) = announcement (set_udp u (obj w1))) as ->
          by (unfold announcement; cbn; by rewrite Hc1). by apply An2. }
  destruct (enable_mdns cfg) eqn:Em; cbn [fst snd].
  - destruct (UdpTransport.bind ec_message (discovery_port cfg) $"0.0.0.0" a t) as [[e|[]] t'] eqn:Eb; cbn [fst snd].
    + destruct (bind_refused _ _ _ _ _ _ Eb) as (B1 & B2 & B3 & B4). twp_step. unfold failed. twp_go. cbn. split_and!; try done.
      * assert (Hso : socket_ok t').
        { pose proof (step_socket_ok ec_message (Bind (discovery_port cfg) $"0.0.0.0" a) t Hs Ha) as H. cbn [UdpTransport.step fst] in H. by rewrite Eb in H. }
        split; cbn; [done|rewrite B1, Hb; unfold is_running in *; cbn; by rewrite Hr1, Hr|by rewrite B1, B2|done|by rewrite B3, B4].
      * exists evs1. unfold is_running in *. cbn. rewrite Hr1. split_and!; eauto.
    + destruct (bind_bound _ _ _ _ _ _ Eb) as [B1 B2]. do 3 twp_step. twp_step.
      destruct (do_receive_flags (UdpTransport.set_receiving true true t')) as (F1 & F2 & F3).
      assert (Hbnd : bound_ (UdpTransport.start_receive true t') = true) by (unfold UdpTransport.start_receive; by rewrite F2).
      apply Htail; [done| |done| |].
      * unfold UdpTransport.start_receive. rewrite F3, F2. cbn. by rewrite B1.
      * left. unfold UdpTransport.start_receive. rewrite F1, F2. cbn. by rewrite B1, B2.
      * intros _. unfold UdpTransport.start_receive, UdpTransport.do_receive. by destruct (_ || _).
  - twp_step. twp_step. twp_step. twp_step. apply Htail; [done| | |done|done]; congruence.
Qed.

(** What a call other than [start] does: it does not start anything, and reads only
    end; a stopped node sends nothing and sets no timer; without a pending read only
    the calls of the table change the peers. *)
Definition calm (op : node_op) (n n' : Node) (evs : list node_event) : Prop :=
  (is_running n' = true -> is_running n = true)
  /\ (pending_reads (udp_transport_ n') <= pending_reads (udp_transport_ n))%nat
  /\ (is_running n = false -> sent_nothing evs /\ (timer_waits n' <= timer_waits n)%nat)
  /\ ((forall o, op <> NTable o) -> pending_reads (udp_transport_ n) = O -> peers_ (table n') = peers_ (table n)).

Definition is_start (op : node_op) : bool := match op with NStart _ _ => true | _ => false end.

(** The postcondition of every call. *)
Definition node_post (op : node_op) w (w' : world Node node_event) : Prop :=
  node_ok (obj w') /\ held w' = [] /\ config_ (table (obj w')) = config_ (table (obj w))
  /\ exists evs, log w' = log w ++ evs /\ (is_start op = false -> calm op (obj w) (obj w') evs).

Lemma node_post_refl op w : node_ok (obj w) -> held w = [] -> node_post op w w.
Proof.
  intros Hn Hh. split_and!; try done. exists []. rewrite app_nil_r. split; [done|]. intros _. split_and!; try done.
  intros _. split; [constructor|lia].
Qed.

Lemma stop_post w : node_ok (obj w) -> held w = [] -> twp stop (fun _ w' => node_post NStop w w') w.
Proof.
  intros Hn Hh. unfold stop. do 2 twp_step. destruct (is_running (obj w)) eqn:Hr; [|twp_go; by apply node_post_refl].
  destruct Hn as [[T1 T2 T3] Hb Hrc Hs Hcb]. rewrite Hr in Hb. twp_go. split_and!; cbn; try done.
  - set (t := udp_transport_ (obj w)) in *. split; cbn; [by split| | | |].
    + unfold UdpTransport.close. cbn. by destruct (bound_ t) eqn:E; cbn.
    + unfold UdpTransport.close. cbn. by destruct (bound_ t) eqn:E; cbn.
    + pose proof (step_socket_ok ec_message Close _ (step_socket_ok ec_message StopReceive t Hs I) I) as H. exact H.
    + unfold UdpTransport.close. cbn. by destruct (bound_ t) eqn:E; cbn.
  - exists []. rewrite app_nil_r. split; [done|]. intros _. unfold calm. rewrite Hr. split_and!; try done.
    unfold UdpTransport.close. cbn. by destruct (bound_ _).
Qed.

Lemma broadcast_post b w :
  node_ok (obj w) -> held w = [] -> twp (node_run (NBroadcast b)) (fun _ w' => node_post (NBroadcast b) w w') w.
Proof.
  intros Hn Hh. destruct (broadcast_run b w) as (r & evs & Hrun & Hno & _). cbn [node_run]. twp_step.
  exists r. eexists. split; [exact Hrun|]. twp_go. split_and!; try done. exists evs. split; [done|]. intros _.
  split_and!; try done. intros H. rewrite Hno by done. split; [constructor|cbn; lia].
Qed.

Lemma node_ok_waits k n : node_ok n -> node_ok (set_waits k n).
Proof. intros [H1 H2 H3 H4 H5]. by split. Qed.

Lemma timer_post e b w :
  node_ok (obj w) -> held w = [] -> twp (node_run (NTimer e b)) (fun _ w' => node_post (NTimer e b) w w') w.
Proof.
  intros Hn Hh. cbn [node_run]. do 2 twp_step. case_decide; [twp_go; by apply node_post_refl|].
  unfold handle_timer. do 4 twp_step.
  destruct (is_running (set_waits (pred (timer_waits (obj w))) (obj w))) eqn:Hr; [destruct e|rewrite andb_false_r]; cbn [andb].
  - destruct (loop_run b (mkWorld (set_waits (pred (timer_waits (obj w))) (obj w)) (held w) (ticks w) (log w))) as (evs & Hrun & _);
      [done|]. exists tt. eexists. split; [exact Hrun|]. split_and!; cbn; try done; [by apply (node_ok_waits _ (obj w))|].
    exists evs. split; [done|]. intros _. unfold calm. unfold is_running in *. cbn in *. rewrite Hr. by split_and!.
  - twp_go. split_and!; cbn; try done; [by apply (node_ok_waits _ (obj w))|]. exists []. rewrite app_nil_r. split; [done|].
    intros _. split_and!; try done. intros _. split; [constructor|cbn; lia].
  - twp_go. split_and!; cbn; try done; [by apply (node_ok_waits _ (obj w))|]. exists []. rewrite app_nil_r. split; [done|].
    intros _. split_and!; try done. intros _. split; [constructor|cbn; lia].
Qed.

(** A node whose table changed by one of the table's calls. *)
Lemma node_ok_table d n :
  node_ok n -> table_inv d -> config_ d = config_ (table n) -> running_ d = running_ (table n) -> node_ok (set_table d n).
Proof.
  intros [H1 H2 H3 H4 H5] Hd Hc Hr. split; cbn; try done. unfold is_running in *. cbn. by rewrite Hr, Hc.
Qed.

Lemma table_post op w :
  node_ok (obj w) -> held w = [] -> disc_op_ok op -> twp (node_run (NTable op)) (fun _ w' => node_post (NTable op) w w') w.
Proof.
  intros Hn Hh Hop. cbn [node_run]. eapply twp_mono.
  { apply on_table_keeps. apply disc_run_keeps; [done|apply Hn|done|done]. }
  cbn. intros [] w' (Ht & Hf & Hu & Hw & Hh' & evs & Hl & Hs). apply same_fields in Hf as (Hc & Hr & _).
  assert (Hc' : config_ (table (obj w')) = config_ (table (obj w))) by (rewrite Hc; by destruct op).
  assert (Hr' : running_ (table (obj w')) = running_ (table (obj w))) by (rewrite Hr; by destruct op).
  split_and!; try done.
  - assert (obj w' = set_table (table (obj w')) (obj w)) as -> by (destruct (obj w'); cbn in *; by subst). by apply node_ok_table.
  - exists evs. split; [done|]. intros _. unfold calm, is_running. rewrite Hr', Hu, Hw. split_and!; try done.
    intros H. by destruct (H op).
Qed.

(** A receive keeps the flags of the socket and does not add reads. *)
Lemma receive_udp r t t' evs :
  UdpTransport.handle_receive r t = (t', evs) -> pending_reads t <> O ->
  bound_ t' = bound_ t /\ receiving_ t' = receiving_ t /\ socket_open t' = socket_open t
  /\ (pending_reads t' <= pending_reads t)%nat /\ receive_callback_ t' = receive_callback_ t.
Proof.
  intros H Hp. unfold UdpTransport.handle_receive in H. destruct r as [e|[data sender]]; simplify_eq; [cbn; split_and!; done || lia|].
  destruct (do_receive_flags (UdpTransport.set_reads (pred (pending_reads t)) t)) as (-> & -> & ->). split_and!; try done.
  - unfold UdpTransport.do_receive. destruct (_ || _); cbn; lia.
  - unfold UdpTransport.do_receive. by destruct (_ || _).
Qed.

Lemma receive_post r w :
  node_ok (obj w) -> held w = [] -> node_op_ok (NReceive r) (obj w) ->
  twp (node_run (NReceive r)) (fun _ w' => node_post (NReceive r) w w') w.
Proof.
  intros Hn Hh Hop. cbn [node_run]. do 2 twp_step. case_decide as Hp; [twp_go; by apply node_post_refl|].
  unfold handle_receive. do 2 twp_step.
  destruct (UdpTransport.handle_receive r (udp_transport_ (obj w))) as [t evs] eqn:Eh.
  destruct (receive_udp _ _ _ _ Eh Hp) as (Eb & Er & Eo & Ep & Ec). twp_step.
  apply (twp_mono _ (fun _ w1 => table_inv (table (obj w1)) /\ set_peers [] (table (obj w1)) = set_peers [] (table (obj w))
    /\ udp_transport_ (obj w1) = udp_transport_ (obj w) /\ timer_waits (obj w1) = timer_waits (obj w) /\ held w1 = []
    /\ exists l, log w1 = log w ++ l /\ sent_nothing l)).
  { apply twp_for_each.
    - intros [data sender] w1 Hin (T1 & F1 & U1 & W1 & H1 & l1 & L1 & S1).
      assert (Hok : bytes_ok data).
      { unfold UdpTransport.handle_receive in Eh. destruct r as [e|[data' s']]; simplify_eq; [by apply elem_of_nil in Hin|].
        destruct (_ && _); [|by apply elem_of_nil in Hin]. apply list_elem_of_singleton in Hin. by simplify_eq. }
      eapply twp_mono; [apply (on_table_keeps _ (table (obj w1))); apply handle_message_keeps; [done|done|by split_and!]|].
      cbn. intros [] w2 (T2 & F2 & U2 & W2 & H2 & l2 & L2 & S2). rewrite F2, U2, W2. split_and!; try done.
      exists (l1 ++ l2). rewrite L2, L1, app_assoc. split; [done|]. by apply Forall_app.
    - split_and!; try done; [apply Hn|]. exists []. rewrite app_nil_r. split; [done|constructor]. }
  intros [] w1 (T1 & F1 & U1 & W1 & H1 & l1 & L1 & S1). twp_go. apply same_fields in F1 as (C1 & R1 & _).
  destruct Hn as [Ht Hb Hrc Hs Hcb]. split_and!; cbn; try done.
  - split; cbn; [done| | | |].
    + unfold is_running in *. cbn. by rewrite Eb, Hb, R1, C1.
    + congruence.
    + unfold socket_ok, stuck in *. by rewrite Eb, Eo.
    + intros _. rewrite Ec. by apply Hcb.
  - exists l1. split; [done|]. intros _. unfold calm, is_running. cbn. rewrite R1, W1. split_and!; done.
Qed.

(** Every call on a well-formed node returns to a well-formed node. *)
Lemma node_run_post op w :
  node_ok (obj w) -> held w = [] -> node_op_ok op (obj w) -> twp (node_run op) (fun _ w' => node_post op w w') w.
Proof.
  intros Hn Hh Hop. destruct op as [a b| |b|op|e b|r].
  - cbn [node_run]. twp_step. eapply twp_mono; [by apply start_spec|]. intros r w' (H1 & H2 & H3 & evs & H4 & _).
    twp_go. split_and!; try done. by exists evs.
  - by apply stop_post.
  - by apply broadcast_post.
  - by apply table_post.
  - by apply timer_post.
  - by apply receive_post.
Qed.

Lemma Node_of_ok config : node_ok (Node_of config).
Proof. split; [split; [constructor|constructor|cbn; lia]|done|done|by left|done]. Qed.

Lemma node_steps_ok n ops n' ev :
  node_ok n -> node_steps n ops n' ev -> node_ok n' /\ config_ (table n') = config_ (table n).
Proof.
  intros Hn Hs. induction Hs as [n|n op tk w ops n'' ev Hok Hrun _ IH]; [done|].
  destruct (node_run_post op (mkWorld n [] tk []) Hn eq_refl Hok) as ([] & w' & Hrun' & H1 & _ & H2 & _).
  rewrite Hrun in Hrun'. injection Hrun' as <-. destruct (IH H1) as [I1 I2]. split; [done|]. by rewrite I2.
Qed.

Lemma node_lifecycle config ops n ev :
  node_steps (Node_of config) ops n ev ->
  (table_inv (table n) /\ bound_ (udp_transport_ n) = is_running n && enable_mdns config
   /\ receiving_ (udp_transport_ n) = bound_ (udp_transport_ n))
  /\ (forall op tk, node_op_ok op n -> exists w, node_run op (mkWorld n [] tk []) = Ret (tt, w) /\ held w = [])
  /\ (forall a b tk, node_op_ok (NStart a b) n ->
       exists r w, start a b (mkWorld n [] tk []) = Ret (r, w) /\ started n a b r (obj w) (log w)).
Proof.
  intros Hs. destruct (node_steps_ok _ _ _ _ (Node_of_ok config) Hs) as [Hn Hc]. split_and!.
  - apply Hn.
  - rewrite (node_bound n Hn). by rewrite Hc.
  - apply Hn.
  - intros op tk Hop. destruct (node_run_post op (mkWorld n [] tk []) Hn eq_refl Hop) as ([] & w & H1 & _ & H2 & _). eauto.
  - intros a b tk Hop. destruct (start_spec a b (mkWorld n [] tk []) Hn eq_refl Hop) as (r & w & H1 & _ & _ & _ & evs & H2 & H3).
    cbn in H2. subst evs. eauto.
Qed.

(** A stopped node stays silent: until the next [start], whatever calls are made
    and whatever handlers complete, it does not run, broadcasts nothing and sets no
    timer.  And a node without a pending read, running or not (a receive that fails
    ends the receive loop), is deaf until the next [start]: no datagram changes its
    peers any more. *)
Theorem discovery_silence config ops n ev ops' n' ev' :
  node_steps (Node_of config) ops n ev -> node_steps n ops' n' ev' -> Forall (fun op => is_start op = false) ops' ->
  (is_running n = false -> is_running n' = false /\ sent_nothing ev' /\ (timer_waits n' <= timer_waits n)%nat)
  /\ (pending_reads (udp_transport_ n) = O ->
       pending_reads (udp_transport_ n') = O /\ ((forall o, NTable o ∉ ops') -> peers_ (table n') = peers_ (table n))).
Proof.
  intros Hs Hs'. destruct (node_steps_ok _ _ _ _ (Node_of_ok config) Hs) as [Hn _]. clear Hs.
  induction Hs' as [n|n op tk w ops' n'' ev' Hok Hrun _ IH]; intros Hno.
  { split; [|done]. intros Hr. split_and!; [done|constructor|done]. }
  inversion_clear Hno as [|? ? Hop Hno'].
  destruct (node_run_post op (mkWorld n [] tk []) Hn eq_refl Hok) as ([] & w' & Hrun' & Hn' & _ & _ & evs & Hl & Hcalm).
  rewrite Hrun in Hrun'. injection Hrun' as <-. cbn in Hl. subst evs. destruct (Hcalm Hop) as (C1 & C2 & C3 & C4). cbn in *.
  destruct (IH Hn' Hno') as [I1 I2]. split.
  - intros Hr. destruct (C3 Hr) as [S1 W1]. assert (Hr' : is_running (obj w) = false) by (destruct (is_running (obj w)); [|done]; by rewrite C1 in Hr).
    destruct (I1 Hr') as (R2 & S2 & W2). split_and!; [done|by apply Forall_app|lia].
  - intros Hp. destruct I2 as [P2 T2]; [lia|]. split; [done|]. intros Hnt. rewrite T2.
    + apply C4; [|done]. intros o ->. apply (Hnt o). by left.
    + intros o Hin. apply (Hnt o). by right.
Qed.

(** A bound node that handles an announcement from [addr] has that peer afterwards. *)
Lemma announcement_received n prt addr sp tk :
  node_ok n -> is_u16 prt -> pending_reads (udp_transport_ n) <> O ->
  let p := PeerAddress_of addr prt (clock tk) in
  is_valid p = true -> Z.of_nat (length (peers_ (table n))) < max_peers (config_ (table n)) ->
  exists w, node_run (NReceive (inr (discovery_message prt, mkUdpEndpoint addr sp))) (mkWorld n [] tk []) = Ret (tt, w)
  /\ set_mem p (peers_ (table (obj w))) = true.
Proof.
  intros Hn Hprt Hp p Hv Hroom.
  enough (H : twp (node_run (NReceive (inr (discovery_message prt, mkUdpEndpoint addr sp))))
    (fun _ w => set_mem p (peers_ (table (obj w))) = true) (mkWorld n [] tk [])) by (destruct H as ([] & w & H1 & H2); eauto).
  cbn [node_run]. do 2 twp_step. rewrite decide_False by done. unfold handle_receive. do 2 twp_step.
  unfold UdpTransport.handle_receive. cbn [receive_callback_ UdpTransport.set_reads]. rewrite (node_callback n Hn Hp).
  rewrite bool_decide_false by done. cbn [andb negb for_each]. twp_step. twp_step. apply twp_on_table. cbn [obj held ticks log udp_address].
  eexists tt. enough (H : twp (now ← read_clock; add_peer callback (PeerAddress_of addr prt now);; mret tt)
    (fun _ v => set_mem p (peers_ (obj v)) = true) (mkWorld (table n) [] tk [])).
  { destruct H as ([] & w & H1 & H2). eexists. rewrite discovery_message_roundtrip by done. split; [exact H1|]. by twp_go. }
  do 2 twp_step. twp_step. apply twp_add_peer; [done|done| |]; cbn [obj].
  - intros [H|[H|H]]; [unfold p in Hv; rewrite Hv in H; done|lia|]. by twp_go.
  - intros _ _ _ tk' lg'. twp_go. cbn. apply set_mem_spec. exists p. rewrite insert_by_perm. split; [by left|].
    apply peer_eqb_eq. done.
Qed.

Lemma nodes_meet configA configB opsA opsB nA nB evA evB a b tkA :
  node_steps (Node_of configA) opsA nA evA -> node_steps (Node_of configB) opsB nB evB ->
  enable_mdns configA = true -> is_u16 (discovery_port configA) -> is_running nA = false ->
  socket_open (udp_transport_ nA) = false -> a = mkBindAnswers None None None -> enable_error b = None ->
  exists wA data, start a b (mkWorld nA [] tkA []) = Ret (inr tt, wA) /\ Sent data (discovery_port configA) ∈ log wA
  /\ forall addr sp tkB, pending_reads (udp_transport_ nB) <> O ->
     let p := PeerAddress_of addr (discovery_port configA) (clock tkB) in
     is_valid p = true -> Z.of_nat (length (peers_ (table nB))) < max_peers configB ->
     exists wB, node_run (NReceive (inr (data, mkUdpEndpoint addr sp))) (mkWorld nB [] tkB []) = Ret (tt, wB)
     /\ set_mem p (peers_ (table (obj wB))) = true.
Proof.
  intros HA HB Hm Hp Hr Ho -> He.
  destruct (node_steps_ok _ _ _ _ (Node_of_ok configA) HA) as [HnA HcA].
  destruct (node_steps_ok _ _ _ _ (Node_of_ok configB) HB) as [HnB HcB]. cbn in HcA, HcB.
  destruct (start_spec (mkBindAnswers None None None) b (mkWorld nA [] tkA []) HnA eq_refl) as (r & wA & Hrun & _ & _ & _ & evs & Hl & Hst);
    [cbn; congruence|]. cbn [log obj app] in Hl, Hst. unfold started in Hst. rewrite Hr, HcA, Hm in Hst.
  assert (Hb : bound_ (udp_transport_ nA) = false) by (rewrite (node_bound nA HnA); by rewrite Hr).
  unfold UdpTransport.bind in Hst. rewrite Hb in Hst. cbn in Hst. destruct Hst as (_ & -> & _ & _ & Hann).
  exists wA, (discovery_message (discovery_port configA)). split_and!; [done| |].
  - rewrite Hl. specialize (Hann eq_refl He). unfold announcement in Hann. by rewrite HcA in Hann.
  - intros addr sp tkB Hpend p Hv Hroom. apply announcement_received; [done..|]. by rewrite HcB.
Qed.

(** Restarting before the handler of the old read has run gives two reads that
    share the buffer, and then the old handler keeps its own loop. *)
Lemma restart_two_readers config b tk :
  enable_mdns config = true ->
  let ok := mkBindAnswers None None None in
  exists w, (start ok b;; stop;; start ok b) (mkWorld (Node_of config) [] tk []) = Ret (inr tt, w)
  /\ pending_reads (udp_transport_ (obj w)) = 2%nat.
Proof.
  intros Hm ok.
  assert (G : forall n, node_ok n -> config_ (table n) = config -> is_running n = false -> socket_open (udp_transport_ n) = false ->
    forall tk lg, exists w, start ok b (mkWorld n [] tk lg) = Ret (inr tt, w) /\ is_running (obj w) = true /\ held w = []
    /\ node_ok (obj w) /\ config_ (table (obj w)) = config
    /\ pending_reads (udp_transport_ (obj w)) = S (pending_reads (udp_transport_ n))).
  { intros n Hn Hc Hr Ho tk' lg. destruct (start_spec ok b (mkWorld n [] tk' lg) Hn eq_refl) as (r & w & H1 & H2 & H3 & H4 & evs & _ & Hs);
      [cbn; congruence|]. cbn [obj] in *. unfold started in Hs. rewrite Hr, Hc, Hm in Hs.
    assert (Hb : bound_ (udp_transport_ n) = false) by (rewrite (node_bound n Hn); by rewrite Hr).
    unfold UdpTransport.bind in Hs. rewrite Hb in Hs. cbn in Hs. destruct Hs as (R & -> & _ & U & _).
    exists w. rewrite U, <- Hc. split_and!; done. }
  destruct (G (Node_of config) (Node_of_ok config) eq_refl eq_refl eq_refl tk []) as (w1 & E1 & R1 & H1 & N1 & C1 & P1).
  rewrite (eff_bind_run _ _ _ _ _ E1). destruct w1 as [n1 hs1 tk1 lg1]. cbn in H1. subst hs1. cbn [obj] in *.
  set (n2 := set_udp (UdpTransport.close (UdpTransport.stop_receive (udp_transport_ n1))) (set_running false n1)).
  assert (E2 : stop (mkWorld n1 [] tk1 lg1) = Ret (tt, mkWorld n2 [] tk1 lg1))
    by (unfold stop; rewrite (eff_bind_run get _ _ n1 (mkWorld n1 [] tk1 lg1)) by done; by rewrite R1).
  rewrite (eff_bind_run _ _ _ _ _ E2).
  destruct (stop_post (mkWorld n1 [] tk1 lg1) N1 eq_refl) as ([] & w2 & E2' & N2 & _). rewrite E2 in E2'. injection E2' as <-.
  assert (Hb1 : bound_ (udp_transport_ n1) = true) by (rewrite (node_bound n1 N1); by rewrite R1, C1).
  destruct (G n2 N2 C1 eq_refl) with (tk := tk1) (lg := lg1) as (w3 & E3 & _ & _ & _ & _ & P3).
  { cbn. unfold UdpTransport.close. cbn. by rewrite Hb1. }
  exists w3. split; [exact E3|]. rewrite P3. cbn. unfold UdpTransport.close. cbn. rewrite Hb1. cbn. by rewrite P1.
Qed.
End Node.

(** ** Properties *)

Section Properties.
Context {env : Env} {lib : AddressLib}.

(** C12: The life of peer discovery, for any configuration and any answers of the
    network, the resolver and the timer, when the discovery callback returns without
    touching the object (one that calls back into it locks the mutex a second time,
    [callback_relocks]): in every reachable state every call and handler returns with
    the mutex free; the table is a bounded set of valid addresses; and the socket is
    bound and read exactly while discovery runs with mDNS enabled.  [start] refuses a
    running object without effect, fails and stays stopped when the socket cannot be
    bound, and otherwise runs, with one more timer wait and the announcement broadcast.
    Datagrams are bytes, and the library refuses to open a socket that is open. *)
Theorem discovery_lifecycle (callback : PeerAddress -> eff Discovery PeerAddress ()) (dns : list ascii -> option (list (list ascii)))
    (ec_message : error_code -> list ascii) (config : BootstrapConfig) (ops : list node_op) (n : Node) (ev : list node_event) :
  quiet callback -> node_steps callback dns ec_message (Node_of config) ops n ev ->
  (table_inv (table n) /\ bound_ (udp_transport_ n) = is_running n && enable_mdns config
   /\ receiving_ (udp_transport_ n) = bound_ (udp_transport_ n))
  /\ (forall op tk, node_op_ok op n -> exists w, node_run callback dns ec_message op (mkWorld n [] tk []) = Ret (tt, w) /\ held w = [])
  /\ (forall a b tk, node_op_ok (NStart a b) n ->
       exists r w, start callback dns ec_message a b (mkWorld n [] tk []) = Ret (r, w) /\ started ec_message n a b r (obj w) (log w)).
Proof. intros Hq. by apply node_lifecycle. Qed.

(** C33: Two nodes find each other, when their callbacks return without touching them.
    Starting a stopped node with mDNS, whose socket is closed and can be opened, bound and
    set to broadcast, broadcasts its announcement; any node with a pending read that
    receives these bytes from an address that is valid with the first node's port, and has
    room for a peer, has that address with that port in its table afterwards. *)
Theorem discovery_end_to_end (callback : PeerAddress -> eff Discovery PeerAddress ()) (dns : list ascii -> option (list (list ascii)))
    (ec_message : error_code -> list ascii) (configA configB : BootstrapConfig) (opsA opsB : list node_op) (nA nB : Node)
    (evA evB : list node_event) (a : bind_answers) (b : broadcast_answers) (tkA : nat) :
  quiet callback ->
  node_steps callback dns ec_message (Node_of configA) opsA nA evA -> node_steps callback dns ec_message (Node_of configB) opsB nB evB ->
  enable_mdns configA = true -> is_u16 (discovery_port configA) -> is_running nA = false ->
  socket_open (udp_transport_ nA) = false -> a = mkBindAnswers None None None -> enable_error b = None ->
  exists wA data, start callback dns ec_message a b (mkWorld nA [] tkA []) = Ret (inr tt, wA) /\ Sent data (discovery_port configA) ∈ log wA
  /\ forall addr sp tkB, pending_reads (udp_transport_ nB) <> O ->
     let p := PeerAddress_of addr (discovery_port configA) (clock tkB) in
     is_valid p = true -> Z.of_nat (length (peers_ (table nB))) < max_peers configB ->
     exists wB, node_run callback dns ec_message (NReceive (inr (data, mkUdpEndpoint addr sp))) (mkWorld nB [] tkB []) = Ret (tt, wB)
     /\ set_mem p (peers_ (table (obj wB))) = true.
Proof. intros Hq. by apply nodes_meet. Qed.
End Properties.

(** ** Witnesses *)

Definition ok_bind : bind_answers := mkBindAnswers None None None.
Definition ok_cast : broadcast_answers := mkBroadcastAnswers None (IoOk 13).
Definition demo_started : Node :=
  mkNode (mkDiscovery default_BootstrapConfig [] true false) (mkUdpTransport true true true 8333 true 1) 1.
Definition demo_stopped : Node :=
  mkNode (mkDiscovery default_BootstrapConfig [] false false) (mkUdpTransport false false false 8333 true 1) 1.
Definition demo_no_dns (seed : list ascii) : option (list (list ascii)) := None.
Definition demo_no_text (ec : error_code) : list ascii := [].

Lemma demo_start_steps :
  @node_steps demo_disc_env demo_lib emit demo_no_dns demo_no_text (Node_of default_BootstrapConfig) [NStart ok_bind ok_cast]
    demo_started [Sent (discovery_message 8333) 8333; WaitSet 30].
Proof.
  apply (steps_cons _ _ _ _ _ 0 (mkWorld demo_started [] 0 [Sent (discovery_message 8333) 8333; WaitSet 30]) [] demo_started []);
    [done|vm_compute; reflexivity|constructor].
Qed.

Lemma demo_stop_steps :
  @node_steps demo_disc_env demo_lib emit demo_no_dns demo_no_text (Node_of default_BootstrapConfig) [NStart ok_bind ok_cast; NStop]
    demo_stopped [Sent (discovery_message 8333) 8333; WaitSet 30].
Proof.
  apply (steps_cons _ _ _ _ _ 0 (mkWorld demo_started [] 0 [Sent (discovery_message 8333) 8333; WaitSet 30]) [NStop] demo_stopped []);
    [done|vm_compute; reflexivity|].
  apply (steps_cons _ _ _ _ _ 0 (mkWorld demo_stopped [] 0 []) [] demo_stopped []); [done|vm_compute; reflexivity|constructor].
Qed.

Lemma discovery_lifecycle_witness :
  @table_inv demo_lib (table demo_started)
  /\ exists w, @node_run demo_disc_env demo_lib emit demo_no_dns demo_no_text NStop (idle demo_started) = Ret (tt, w) /\ held w = [].
Proof.
  destruct (@discovery_lifecycle demo_disc_env demo_lib emit demo_no_dns demo_no_text _ _ _ _ emit_quiet demo_start_steps)
    as ((H1 & _) & H2 & _). split; [exact H1|]. apply (H2 NStop O). exact I.
Defined.

Lemma discovery_silence_witness :
  exists ev, @node_steps demo_disc_env demo_lib emit demo_no_dns demo_no_text demo_stopped [NTimer true ok_cast] (set_waits 0 demo_stopped) ev
  /\ is_running (set_waits 0 demo_stopped) = false /\ sent_nothing ev.
Proof.
  assert (Hs : @node_steps demo_disc_env demo_lib emit demo_no_dns demo_no_text demo_stopped [NTimer true ok_cast] (set_waits 0 demo_stopped) []).
  { apply (steps_cons _ _ _ _ _ 0 (mkWorld (set_waits 0 demo_stopped) [] 0 []) [] (set_waits 0 demo_stopped) []);
      [done|vm_compute; reflexivity|constructor]. }
  exists []. split; [exact Hs|].
  destruct (@discovery_silence demo_disc_env demo_lib emit demo_no_dns demo_no_text emit_quiet _ _ _ _ _ _ _ demo_stop_steps Hs) as [H _];
    [repeat constructor|]. destruct (H eq_refl) as (H1 & H2 & _). split; [exact H1|exact H2].
Defined.

Lemma discovery_end_to_end_witness :
  exists wA data, @start demo_disc_env demo_lib emit demo_no_dns demo_no_text ok_bind ok_cast (idle demo_stopped) = Ret (inr tt, wA)
  /\ exists wB, @node_run demo_disc_env demo_lib emit demo_no_dns demo_no_text
       (NReceive (inr (data, mkUdpEndpoint $"8.8.8.8" 5000))) (idle demo_started) = Ret (tt, wB)
     /\ set_mem (PeerAddress_of $"8.8.8.8" 8333 0) (peers_ (table (obj wB))) = true.
Proof.
  destruct (@discovery_end_to_end demo_disc_env demo_lib emit demo_no_dns demo_no_text default_BootstrapConfig default_BootstrapConfig
    _ _ _ _ _ _ ok_bind ok_cast O emit_quiet demo_stop_steps demo_start_steps) as (wA & data & H1 & _ & H2);
    [reflexivity|unfold is_u16; cbn; lia|reflexivity..|].
  exists wA, data. split; [exact H1|]. apply (H2 $"8.8.8.8" 5000 O); [discriminate|vm_compute; reflexivity|cbn; lia].
Defined.
