(* ===== verification/Lifetimes.v ===== *)
(** * Lifetimes: what still runs when an object is destroyed

    The destructors of the network objects (tcp_client.cpp, peer_discovery.cpp,
    udp_transport.cpp, tcp_server.cpp) stop the object, but the handlers given to
    boost::asio run later, from the event loop, and most of them hold the bare pointer
    of the object.  A handler that runs after the destructor and uses that pointer is
    undefined behaviour.  The connections of a client live on, since their own handlers
    own them; so the state that is left is that of the client, without the right to
    touch its members. *)

From stdpp Require Import base list gmap numbers strings.
From Stdlib Require Import ZArith Lia Ascii.
From S2P Require Import Prelude CString Effects PeerAddress PeerDiscovery UdpTransport DiscoveryNode TcpServer TcpConnection TcpClient.

(** ** TcpClient *)

Module ClientLife.
Abbreviation cli A := (eff TcpClient client_event A) (only parsing).

(** A use of the destroyed client. *)
Definition dangling {A} : cli A := fun _ => Undefined.

(** [~TcpClient]. *)
Definition TcpClient_end : cli () := TcpClient.disconnect.

(** The lambda in a connection uses the client whatever it is told, and so does the
    handler of a reconnection attempt: it resets [connection_] or logs [host_]. *)
Definition run_event_after (id : Z) (ev : conn_event) : cli () :=
  match ev with
  | OnConnection _ => dangling
  | OnData _ => mret tt
  | OnHandler ec =>
      s ← get;
      match handlers s !! id with
      | Some reconnect_handler => dangling
      | Some user_handler => emit (UserHandler ec)
      | None => mret tt
      end
  end.

Definition on_conn_after (id : Z) (f : TcpConnection -> TcpConnection * list conn_event) : cli () :=
  s ← get;
  match conns s !! id with
  | None => mret tt
  | Some c => let '(c', ev) := f c in modify (set_conns (insert id c'));; for_each (run_event_after id) ev
  end.

(** The last owner of a connection lets it go. *)
Definition release_after (id : Z) : cli () :=
  s ← get;
  match conns s !! id with
  | Some c => if unowned c then on_conn_after id close;; modify (set_conns (delete id)) else mret tt
  | None => mret tt
  end.

(** A handler that runs after the destructor.  The wait of the timer looks at the
    client only when it was not cancelled. *)
Definition complete_after (k : completion) : cli () :=
  match k with
  | TimerDone aborted => modify (fun s => set_waits (pred (pending_waits s)) s);; if aborted then mret tt else dangling
  | ResolveDone id ec => on_conn_after id (handle_resolve ec);; release_after id
  | ConnectDone id ec => on_conn_after id (handle_connect ec);; release_after id
  | ReadDone id r => on_conn_after id (TcpConnection.handle_receive (fun c => (c, [])) r);; release_after id
  end.

(** Only handlers of pending operations run. *)
Definition pending (s : TcpClient) (k : completion) : bool :=
  let count f id := match conns s !! id with Some c => Nat.ltb 0 (f c) | None => false end in
  match k with
  | TimerDone _ => Nat.ltb 0 (pending_waits s)
  | ResolveDone id _ => count pending_resolves id
  | ConnectDone id _ => count pending_connects id
  | ReadDone id _ => count TcpConnection.pending_reads id
  end.
Fixpoint drain (ks : list completion) : cli () :=
  match ks with
  | [] => mret tt
  | k :: ks' => s ← get; (if pending s k then complete_after k else mret tt);; drain ks'
  end.

(** The wait was cancelled by the destructor, and a read was too or had brought data:
    it did not report the end of the stream. *)
Definition orderly (k : completion) : bool :=
  match k with TimerDone aborted => aborted | ReadDone _ (inl (eof | connection_reset)) => false | _ => true end.

Lemma close_conn_run id c w :
  auto_reconnect_ (obj w) = false -> conns (obj w) !! id = Some c ->
  exists lg, close_conn id w = Ret (tt, mkWorld (set_conns (insert id (fst (close c))) (obj w)) (held w) (ticks w) (log w ++ lg)).
Proof.
  intros Ha Hc. unfold close_conn, on_conn, mbind, eff_bind, get, modify, mret, eff_ret. rewrite Hc.
  unfold close. destruct (connected_ c); cbn [fst]; [|exists []; rewrite app_nil_r; reflexivity].
  unfold notify. cbn [connection_callback_]. case_decide; cbn; [exists []; rewrite app_nil_r; reflexivity|].
  unfold on_connection, mbind, eff_bind, get, mret, eff_ret. cbn. rewrite ?Ha, ?andb_false_r.
  destruct (has_callback (obj w)); cbn; [by eexists|exists []; rewrite app_nil_r; reflexivity].
Qed.

(** What is left of a connection: the one in use is closed, the others are as they
    were, and one with pending operations is still there. *)
Definition left_over (s s' : TcpClient) : Prop :=
  (handlers s' = handlers s /\ pending_waits s' = pending_waits s)
  /\ (forall i c', conns s' !! i = Some c' -> exists c, conns s !! i = Some c
        /\ ((connection_ s <> Some i /\ c' = c) \/ (connection_ s = Some i /\ connected_ c' = false
             /\ pending_resolves c' = pending_resolves c /\ pending_connects c' = pending_connects c)))
  /\ (forall i c, connection_ s = Some i -> conns s !! i = Some c -> unowned c = false -> exists c', conns s' !! i = Some c'
        /\ pending_resolves c' = pending_resolves c /\ pending_connects c' = pending_connects c).

Lemma close_pending c : connected_ (fst (close c)) = false /\ pending_resolves (fst (close c)) = pending_resolves c
  /\ pending_connects (fst (close c)) = pending_connects c /\ unowned (fst (close c)) = unowned c.
Proof. unfold close. by destruct (connected_ c) eqn:E. Qed.

Lemma end_leaves w : exists w1, TcpClient_end w = Ret (tt, w1) /\ left_over (obj w) (obj w1).
Proof.
  unfold TcpClient_end, disconnect. rewrite (eff_bind_run (modify _) _ _ tt _ eq_refl), (eff_bind_run get _ _ _ _ eq_refl). cbn [obj].
  set (s := set_auto false _ (obj w)). set (w0 := mkWorld s (held w) (ticks w) (log w)).
  change (connection_ s) with (connection_ (obj w)). destruct (connection_ (obj w)) as [id|] eqn:Hid.
  2: { exists w0. split; [done|]. split_and!; [done|done| |congruence]. intros i c' Hc'. exists c'. split; [done|]. left. by rewrite Hid. }
  destruct (conns (obj w) !! id) as [c|] eqn:Hc.
  2: { rewrite (eff_bind_run _ _ w0 tt w0).
    2: { unfold close_conn, on_conn, mbind, eff_bind, get. cbn. change (conns s) with (conns (obj w)). by rewrite Hc. }
    rewrite (eff_bind_run (modify _) _ _ tt _ eq_refl). eexists. split.
    { unfold release, mbind, eff_bind, get. cbn. rewrite Hc. reflexivity. }
    split_and!; [done|done| |].
    - intros i c' Hc'. exists c'. split; [done|]. left. split; [|done].
      rewrite Hid. intros [= ->]. cbn in Hc'. congruence.
    - intros i c' Hi Hc'. rewrite Hid in Hi. congruence. }
  destruct (close_conn_run id c w0 eq_refl Hc) as (lg & E1). rewrite (eff_bind_run _ _ _ _ _ E1), (eff_bind_run (modify _) _ _ tt _ eq_refl).
  destruct (close_pending c) as (P1 & P2 & P3 & P4). cbn [obj held ticks log w0].
  set (s1 := set_connection None (set_conns (insert id (fst (close c))) s)). set (w1 := mkWorld s1 (held w) (ticks w) (log w ++ lg)).
  assert (Hc1 : conns s1 !! id = Some (fst (close c))) by (apply lookup_insert_eq).
  unfold release. rewrite (eff_bind_run get _ _ _ _ eq_refl). cbn [obj w1]. rewrite Hc1, bool_decide_false, andb_true_r, P4 by done.
  assert (Hrest : forall i c', i <> id -> conns s1 !! i = Some c' -> conns (obj w) !! i = Some c').
  { intros i c' Hne. unfold s1. cbn. by rewrite lookup_insert_ne. }
  destruct (unowned c) eqn:Hu.
  - destruct (close_conn_run id _ w1 eq_refl Hc1) as (lg2 & E2). rewrite (eff_bind_run _ _ _ _ _ E2). eexists. split; [reflexivity|].
    split_and!; [done|done| |intros i c' Hi Hc'; rewrite Hid in Hi; injection Hi as <-; congruence].
    intros i c' Hc'. cbn in Hc'. apply lookup_delete_Some in Hc' as [Hne Hc']. rewrite lookup_insert_ne in Hc' by done.
    exists c'. split; [by apply Hrest|]. left. split; [congruence|done].
  - exists w1. split; [done|]. split_and!; [done|done| |].
    + intros i c' Hc'. destruct (decide (i = id)) as [->|Hne].
      * cbn [obj w1] in Hc'. rewrite Hc1 in Hc'. injection Hc' as <-. exists c. split; [done|]. right. done.
      * exists c'. split; [by apply Hrest|]. left. split; [congruence|done].
    + intros i c' Hi Hc' _. rewrite Hid in Hi. injection Hi as <-. rewrite Hc in Hc'. injection Hc' as <-. by exists (fst (close c)).
Qed.

(** No resolution or connection under way, and only the connection in use is up. *)
Definition quiet (s : TcpClient) : Prop := forall id c, conns s !! id = Some c ->
  pending_resolves c = 0%nat /\ pending_connects c = 0%nat /\ (connected_ c = true -> connection_ s = Some id).
Definition settled (s : TcpClient) : Prop := forall id c, conns s !! id = Some c ->
  pending_resolves c = 0%nat /\ pending_connects c = 0%nat /\ connected_ c = false.

Lemma quiet_settles s s' : left_over s s' -> quiet s -> settled s'.
Proof.
  intros (_ & H & _) Hq i c' Hc'. destruct (H i c' Hc') as (c & Hc & [[Hne ->]|(Hi & Hd & H1 & H2)]); destruct (Hq i c Hc) as (R & K & C).
  - split_and!; [done|done|]. destruct (connected_ c); [by destruct (Hne (C eq_refl))|done].
  - split_and!; congruence.
Qed.

Lemma settled_insert s id c : settled s -> pending_resolves c = 0%nat -> pending_connects c = 0%nat -> connected_ c = false ->
  settled (set_conns (insert id c) s).
Proof. intros Hs R K C i c'. cbn. destruct (decide (i = id)) as [->|]; rewrite ?lookup_insert_eq, ?lookup_insert_ne by congruence; [by intros [= <-]|apply Hs]. Qed.

Lemma release_settled id : keeps settled (release_after id).
Proof.
  apply keeps_get. intros s Hs. destruct (conns s !! id) as [c|] eqn:Hc; [|apply keeps_ret]. destruct (unowned c); [|apply keeps_ret].
  apply keeps_bind.
  - apply keeps_get. intros s' Hs'. destruct (conns s' !! id) as [c'|] eqn:Hc'; [|apply keeps_ret]. destruct (Hs' id c' Hc') as (R & K & C).
    unfold close. rewrite C. apply keeps_bind; [|intros; apply keeps_ret]. apply keeps_modify. intros s1 H1. by apply settled_insert.
  - intros _. apply keeps_modify. intros s1 H1 i c'. cbn. intros [_ ?]%lookup_delete_Some. by apply (H1 i).
Qed.

Lemma read_settled id r : orderly (ReadDone id r) = true -> keeps settled (complete_after (ReadDone id r)).
Proof.
  intros Ho. apply keeps_bind; [|intros; apply release_settled]. apply keeps_get. intros s Hs.
  destruct (conns s !! id) as [c|] eqn:Hc; [|apply keeps_ret]. destruct (Hs id c Hc) as (R & K & C).
  assert (Hh : exists c' ev, TcpConnection.handle_receive (fun c => (c, [])) r c = (c', ev) /\ pending_resolves c' = 0%nat /\ pending_connects c' = 0%nat
    /\ connected_ c' = false /\ Forall (fun e => exists d, e = OnData d) ev).
  { unfold TcpConnection.handle_receive, TcpConnection.do_receive. destruct r as [[]|d]; try done; cbn; try (by eauto 10).
    rewrite C, orb_true_r. destruct (_ && _); eauto 15. }
  destruct Hh as (c' & ev & -> & R' & K' & C' & Hev). apply keeps_bind; [apply keeps_modify; intros s1 H1; by apply settled_insert|].
  intros _. clear -Hev. induction Hev as [|e ev [d ->] _ IH]; cbn; [apply keeps_ret|]. apply keeps_bind; [apply keeps_ret|done].
Qed.

Lemma drain_settled ks : forallb orderly ks = true -> keeps settled (drain ks).
Proof.
  induction ks as [|k ks IH]; cbn [drain forallb]; [intros; apply keeps_ret|]. intros [Ho Hks]%andb_true_iff.
  apply keeps_get. intros s Hs. apply keeps_bind; [|intros; by apply IH]. destruct (pending s k) eqn:Hp; [|apply keeps_ret].
  destruct k as [ab|id ec|id ec|id r]; cbn in Hp; [| | |by apply read_settled].
  - cbn in Ho. subst ab. apply keeps_bind; [by apply keeps_modify|]. intros; apply keeps_ret.
  - destruct (conns s !! id) as [c|] eqn:Hc; [|done]. destruct (Hs id c Hc) as (R & _). by rewrite R in Hp.
  - destruct (conns s !! id) as [c|] eqn:Hc; [|done]. destruct (Hs id c Hc) as (_ & K & _). by rewrite K in Hp.
Qed.

Lemma dangling_event id f c c' ec evs w :
  conns (obj w) !! id = Some c -> handlers (obj w) !! id = Some reconnect_handler -> f c = (c', evs) ->
  Exists (fun e => e = OnHandler ec \/ exists b, e = OnConnection b) evs -> on_conn_after id f w = Undefined.
Proof.
  intros Hc Hh Hf He. unfold on_conn_after. rewrite (eff_bind_run get _ _ _ _ eq_refl), Hc, Hf, (eff_bind_run (modify _) _ _ tt _ eq_refl).
  set (w1 := mkWorld _ _ _ _). assert (Hh1 : handlers (obj w1) !! id = Some reconnect_handler) by done. clearbody w1. clear -Hh1 He.
  revert w1 Hh1. induction evs as [|e evs IH]; intros w Hh; [by apply Exists_nil in He|]. cbn [for_each].
  destruct e as [b|d|ec']; cbn [run_event_after]; try reflexivity.
  - rewrite (eff_bind_run (mret tt) _ _ tt w eq_refl). apply IH; [|done]. apply Exists_cons in He as [[|[? ?]]|]; done.
  - apply eff_bind_undef. rewrite (eff_bind_run get _ _ _ _ eq_refl), Hh. done.
Qed.

Lemma drain_undefined k w : pending (obj w) k = true -> complete_after k w = Undefined -> drain [k] w = Undefined.
Proof. intros Hp Hu. cbn [drain]. rewrite (eff_bind_run get _ _ _ _ eq_refl), Hp. by apply eff_bind_undef. Qed.

(** C28: Destroying a client.  The destructor returns in every state.  What runs later
    is safe only under conditions, which the theorem names:
    - if no name resolution and no connection attempt is under way and no connection
      but the one in use is up, then all handlers that run later return, in any order,
      as long as the timer's wait reports that it was cancelled and no read reports
      the end of the stream or a reset;
    - if a wait of the reconnection timer is under way and completes without having
      been cancelled (its time had already come), its handler uses the destroyed client;
    - if the connection in use is a reconnection attempt under way, its completion
      uses the destroyed client whatever it reports, so even when it reports that it
      was cancelled. *)
Theorem client_destruction (w : world TcpClient client_event) :
  exists w1, TcpClient_end w = Ret (tt, w1)
  /\ (quiet (obj w) -> forall ks, forallb orderly ks = true -> exists w2, drain ks w1 = Ret (tt, w2))
  /\ ((0 < pending_waits (obj w))%nat -> drain [TimerDone false] w1 = Undefined)
  /\ (forall id c, connection_ (obj w) = Some id -> conns (obj w) !! id = Some c -> handlers (obj w) !! id = Some reconnect_handler ->
        ((0 < pending_connects c)%nat -> forall ec, drain [ConnectDone id ec] w1 = Undefined)
        /\ ((0 < pending_resolves c)%nat -> forall ec, drain [ResolveDone id (Some ec)] w1 = Undefined)).
Proof.
  destruct (end_leaves w) as (w1 & E & L). exists w1. split; [done|]. split_and!.
  - intros Hq ks Ho. destruct (drain_settled ks Ho w1) as ([] & w2 & E2 & _); [by apply (quiet_settles _ _ L)|]. by exists w2.
  - intros Hp. destruct L as ((_ & Hw) & _). apply drain_undefined; [unfold pending; by rewrite Hw; apply Nat.ltb_lt|reflexivity].
  - intros id c Hid Hc Hh. destruct L as ((Hhs & _) & _ & L).
    assert (Hu : (0 < pending_connects c \/ 0 < pending_resolves c)%nat -> exists c', conns (obj w1) !! id = Some c'
      /\ pending_resolves c' = pending_resolves c /\ pending_connects c' = pending_connects c).
    { intros Hp. apply (L id c Hid Hc). unfold unowned. destruct (Nat.eqb_spec (pending_resolves c) 0), (Nat.eqb_spec (pending_connects c) 0);
        cbn; rewrite ?andb_false_r; try done. lia. }
    split; intros Hp ec; destruct Hu as (c' & Hc' & R & K); try tauto; apply drain_undefined;
      try (unfold pending; rewrite Hc'; apply Nat.ltb_lt; lia); cbn [complete_after]; apply eff_bind_undef.
    + destruct (handle_connect ec c') as [c2 evs] eqn:Hf. apply (dangling_event id _ c' c2 ec evs); [done|by rewrite Hhs|done|].
      unfold handle_connect in Hf. destruct ec; injection Hf as <- <-; [by repeat constructor|]. apply Exists_app. right. by repeat constructor.
    + eapply (dangling_event id _ c' _ (Some ec) [OnHandler (Some ec)]); [done|by rewrite Hhs|reflexivity|by repeat constructor].
Qed.

(** A client that lost its connection and is reconnecting. *)
Definition reconnecting : cli () :=
  enable_auto_reconnect 5000;; connect (fun _ => []) $"peer" 8333 (IoOk tt);; start_receive true;;
  complete (ReadDone 1 (inl eof));; complete (TimerDone false);; complete (ResolveDone 2 None).

Lemma client_destruction_witness :
  exists w w1, reconnecting (idle TcpClient_new) = Ret (tt, w) /\ TcpClient_end w = Ret (tt, w1)
  /\ drain [ConnectDone 2 (Some operation_aborted)] w1 = Undefined /\ drain [ConnectDone 2 None] w1 = Undefined.
Proof.
  destruct (reconnecting (idle TcpClient_new)) as [[[] w]| |] eqn:E; [|vm_compute in E; discriminate|vm_compute in E; discriminate].
  exists w. destruct (client_destruction w) as (w1 & E1 & _ & _ & H). exists w1. vm_compute in E. injection E as <-.
  destruct (H 2 _ eq_refl eq_refl eq_refl) as [Hu _]; cbn in Hu.
  split; [reflexivity|]. split; [exact E1|]. split; apply Hu; lia.
Defined.
End ClientLife.

(** ** PeerDiscovery and UdpTransport *)

Module NodeLife.
Section Node.
Abbreviation node A := (eff Node node_event A) (only parsing).

(** [~UdpTransport] and [~PeerDiscovery]; the latter also destroys the transport and
    the timer, which cancels what they wait for. *)
Definition UdpTransport_end (t : UdpTransport) : UdpTransport := UdpTransport.close t.
Definition PeerDiscovery_end : node () :=
  DiscoveryNode.stop;; modify (fun n => set_udp (UdpTransport_end (udp_transport_ n)) n).

Inductive node_handler : Type :=
  | TimerFired (expired : bool)
  | Received (result : error_code + list Z * UdpEndpoint).

(** A handler that runs after the destructor.  The one of a receive reads
    [sender_endpoint_] whatever it is told; the one of the timer looks at [running_]
    only when the wait was not cancelled. *)
Definition handler_after (k : node_handler) (n : Node) : outcome Node :=
  match k with
  | TimerFired expired =>
      if decide (timer_waits n = O) then Ret n
      else if expired then Undefined else Ret (DiscoveryNode.set_waits (pred (timer_waits n)) n)
  | Received _ => if decide (UdpTransport.pending_reads (udp_transport_ n) = O) then Ret n else Undefined
  end.
Fixpoint handlers_after (ks : list node_handler) (n : Node) : outcome Node :=
  match ks with [] => Ret n | k :: ks' => n' ← handler_after k n; handlers_after ks' n' end.

Definition cancelled (k : node_handler) : bool := match k with TimerFired e => negb e | Received (inl operation_aborted) => true | _ => false end.

Lemma handlers_after_safe ks n :
  UdpTransport.pending_reads (udp_transport_ n) = O -> forallb cancelled ks = true -> exists n', handlers_after ks n = Ret n'.
Proof.
  revert n. induction ks as [|k ks IH]; intros n Hn Hk; cbn [handlers_after forallb] in *; [by eexists|].
  apply andb_true_iff in Hk as [Hk Hks]. destruct k as [e|r]; cbn [handler_after].
  - apply negb_true_iff in Hk. subst e. case_decide; cbn [mbind outcome_bind]; by apply IH.
  - rewrite decide_True by done. cbn [mbind outcome_bind]. by apply IH.
Qed.

(** C34: Destroying the discovery object.  The destructor returns in every state, with
    discovery stopped and the socket closed if it was bound, but it does not take back
    the pending receive.  The handlers that run afterwards, all of them told that their
    operation was cancelled, are defined in every order exactly when no receive was
    pending: an object that listens must be stopped and the event loop must run before
    it is destroyed. *)
Theorem discovery_destruction (n : Node) (w : world Node node_event) :
  obj w = n ->
  exists w1, PeerDiscovery_end w = Ret (tt, w1)
  /\ DiscoveryNode.is_running (obj w1) = false /\ UdpTransport.bound_ (udp_transport_ (obj w1)) = false
  /\ ((forall ks, forallb cancelled ks = true -> exists n', handlers_after ks (obj w1) = Ret n')
      <-> UdpTransport.pending_reads (udp_transport_ n) = O).
Proof.
  intros <-. unfold PeerDiscovery_end, DiscoveryNode.stop.
  assert (Hreads : forall t, UdpTransport.pending_reads (UdpTransport.close t) = UdpTransport.pending_reads t /\ UdpTransport.bound_ (UdpTransport.close t) = false).
  { intros t. unfold UdpTransport.close. by destruct (UdpTransport.bound_ t) eqn:E. }
  assert (Hiff : forall n' : Node, UdpTransport.pending_reads (udp_transport_ n') = UdpTransport.pending_reads (udp_transport_ (obj w)) ->
    ((forall ks, forallb cancelled ks = true -> exists n2, handlers_after ks n' = Ret n2) <-> UdpTransport.pending_reads (udp_transport_ (obj w)) = O)).
  { intros n' E. rewrite <- E. split; [|intros H0 ks; by apply handlers_after_safe].
    intros H. destruct (H [Received (inl operation_aborted)] eq_refl) as (n2 & E2). cbn in E2. case_decide; [done|discriminate]. }
  destruct (DiscoveryNode.is_running (obj w)) eqn:Hr.
  - eexists. split; [unfold mbind, eff_bind, get, modify, mret; rewrite Hr; reflexivity|].
    cbn -[UdpTransport.close]. split_and!; [done|apply Hreads|]. apply Hiff. cbn -[UdpTransport.close]. unfold UdpTransport_end.
    by rewrite (proj1 (Hreads _)), (proj1 (Hreads _)).
  - eexists. split; [unfold mbind, eff_bind, get, modify, mret; rewrite Hr; reflexivity|].
    cbn -[UdpTransport.close]. split_and!; [done|apply Hreads|]. apply Hiff. cbn -[UdpTransport.close]. unfold UdpTransport_end. apply Hreads.
Qed.
End Node.

(** A started node is not safe to destroy; after [stop] and the cancelled receive it is. *)
Definition demo_drained : Node := set_udp (fst (UdpTransport.handle_receive (inl operation_aborted) (udp_transport_ demo_stopped))) demo_stopped.

Lemma discovery_destruction_witness :
  (exists w1, PeerDiscovery_end (idle demo_started) = Ret (tt, w1)
     /\ ~ (forall ks, forallb cancelled ks = true -> exists n', handlers_after ks (obj w1) = Ret n'))
  /\ (exists w1, PeerDiscovery_end (idle demo_drained) = Ret (tt, w1)
     /\ forall ks, forallb cancelled ks = true -> exists n', handlers_after ks (obj w1) = Ret n').
Proof.
  split.
  - destruct (discovery_destruction demo_started (idle demo_started) eq_refl) as (w1 & E & _ & _ & H). exists w1.
    split; [exact E|]. intros Hks. apply H in Hks. vm_compute in Hks. discriminate.
  - destruct (discovery_destruction demo_drained (idle demo_drained) eq_refl) as (w1 & E & _ & _ & H). exists w1.
    split; [exact E|]. apply H. vm_compute. reflexivity.
Defined.
End NodeLife.

(** ** TcpServer *)

(** [~TcpServer].  The handler of an accept looks at [running_] or at the table
    whatever it is told. *)
Definition TcpServer_end {env : Env} {ord : IterOrder} : eff TcpServer server_event () := TcpServer.stop.
Definition accept_after (s : TcpServer) : outcome TcpServer := if decide (pending_accepts s = O) then Ret s else Undefined.

(** A server without connections: destroying it while it accepts leaves a handler that
    uses it. *)
Lemma server_destruction {env : Env} {ord : IterOrder} (s : TcpServer) (w : world TcpServer server_event) :
  obj w = s -> held w = [] -> connections_ s = ∅ ->
  exists w1, TcpServer_end w = Ret (tt, w1) /\ TcpServer.running_ (obj w1) = false /\ pending_accepts (obj w1) = pending_accepts s
  /\ (accept_after (obj w1) = Undefined <-> pending_accepts s <> O).
Proof.
  intros <- Hh Hc. unfold TcpServer_end, TcpServer.stop.
  assert (Hu : forall s', pending_accepts s' = pending_accepts (obj w) -> (accept_after s' = Undefined <-> pending_accepts (obj w) <> O)).
  { intros s' <-. unfold accept_after. case_decide; split; intros; done. }
  rewrite (eff_bind_run get _ _ _ _ eq_refl). destruct (TcpServer.running_ (obj w)) eqn:Hr.
  - rewrite (eff_bind_run (modify _) _ _ tt _ eq_refl). unfold with_lock. cbn [held]. rewrite Hh.
    unfold mbind, eff_bind, get, modify. cbn [obj set_acceptor connections_]. rewrite Hc.
    assert (Hi : iter (∅ : gmap Z ()) = []).
    { apply Permutation_nil. symmetry. pose proof (iter_perm Z _ _ () ∅) as Hp. by rewrite map_to_list_empty in Hp. }
    rewrite Hi. eexists. split; [reflexivity|]. cbn. split_and!; [done|done|]. by apply Hu.
  - eexists. split; [reflexivity|]. split_and!; [done|done|]. by apply Hu.
Qed.

(** ** Serializers *)

(** [ProtobufSerializer] (serialization/src/serializer.cpp): the constructor checks the
    version of the protobuf library, the destructor shuts the library down for the whole
    process.  Its documentation forbids any use after that: [usable h] says whether
    messages may be built after the calls [h]. *)
Inductive proto_call : Type := VerifyVersion | ShutdownProtobufLibrary.
Inductive ser_op : Type := NewSerializer | EndSerializer | UseSerializer.

Section Serializers.
Context (usable : list proto_call -> bool).

Definition ser_step (op : ser_op) (h : list proto_call) : outcome (list proto_call) :=
  match op with
  | NewSerializer => Ret (h ++ [VerifyVersion])
  | EndSerializer => Ret (h ++ [ShutdownProtobufLibrary])
  | UseSerializer => if usable h then Ret h else Undefined
  end.
Fixpoint ser_run (ops : list ser_op) (h : list proto_call) : outcome (list proto_call) :=
  match ops with [] => Ret h | op :: ops' => h' ← ser_step op h; ser_run ops' h' end.

(** No serializer is used once one has been destroyed. *)
Fixpoint used_first (ended : bool) (ops : list ser_op) : bool :=
  match ops with
  | [] => true
  | UseSerializer :: ops' => negb ended && used_first ended ops'
  | EndSerializer :: ops' => used_first true ops'
  | NewSerializer :: ops' => used_first ended ops'
  end.

Hypothesis usable_until_shutdown : forall h, usable h = negb (existsb (fun c => match c with ShutdownProtobufLibrary => true | _ => false end) h).

(** Serializers share the library: destroying any one of them makes every later use of
    another undefined, and nothing else does. *)
Lemma serializers_share_library ops h :
  (exists h', ser_run ops h = Ret h') <-> used_first (negb (usable h)) ops = true.
Proof.
  revert h. induction ops as [|[] ops IH]; intros h; cbn [ser_run ser_step used_first mbind outcome_bind]; [split; [done|by eexists]| | |].
  - rewrite IH, !usable_until_shutdown, existsb_app. cbn. by rewrite orb_false_r.
  - rewrite IH, usable_until_shutdown, existsb_app. cbn. by rewrite orb_true_r.
  - destruct (usable h) eqn:E; cbn [mbind outcome_bind negb andb]; [by rewrite IH, E|]. split; [intros [? ?]; done|done].
Qed.
End Serializers.
