(* ===== verification/ErrorHandling.v ===== *)
(** * Error values and error-handling utilities
    (core/expected.hpp, core/error.hpp, error.cpp, core/error_utils.hpp)

    [expected<T, E>] is a variant; reading the wrong alternative throws.
    [ErrorInfo] chains to its cause through a shared pointer that is set by the
    constructor only, so a chain is a finite list.  The retry helpers and the
    circuit breaker run a function supplied by the caller: a state transformer
    for the former, a computation of the effect monad for the latter. *)

From stdpp Require Import base list gmap numbers strings sorting.
From Stdlib Require Import ZArith Lia Ascii.
From S2P Require Import Prelude CString Floats Effects.

(** ** Codes *)

Inductive ErrorCode : Type :=
  | SUCCESS
  | UNKNOWN_ERROR
  | INVALID_ARGUMENT
  | INVALID_STATE
  | NOT_IMPLEMENTED
  | TIMEOUT
  | CANCELLED
  | IO_ERROR
  | FILE_NOT_FOUND
  | PERMISSION_DENIED
  | DISK_FULL
  | NETWORK_ERROR
  | CONNECTION_REFUSED
  | CONNECTION_TIMEOUT
  | CRYPTO_ERROR
  | INVALID_KEY
  | INVALID_SIGNATURE
  | INVALID_HASH
  | INVALID_CURVE
  | INSUFFICIENT_ENTROPY
  | STORAGE_ERROR
  | DATABASE_ERROR
  | KEY_NOT_FOUND
  | CORRUPTED_DATA
  | TRANSACTION_FAILED
  | CONCURRENT_MODIFICATION
  | P2P_ERROR
  | PEER_NOT_FOUND
  | PROTOCOL_ERROR
  | MESSAGE_TOO_LARGE
  | INVALID_MESSAGE
  | PEER_BANNED
  | CONSENSUS_ERROR
  | INVALID_BLOCK
  | INVALID_TRANSACTION
  | FORK_DETECTED
  | STALE_BLOCK
  | INSUFFICIENT_STAKE
  | EXECUTION_ERROR
  | OUT_OF_GAS
  | INVALID_OPCODE
  | STACK_OVERFLOW
  | STACK_UNDERFLOW
  | INVALID_JUMP
  | MEMPOOL_ERROR
  | TRANSACTION_EXISTS
  | INSUFFICIENT_FEE
  | NONCE_TOO_LOW
  | NONCE_TOO_HIGH
  | GAS_LIMIT_EXCEEDED
  | RPC_ERROR
  | INVALID_REQUEST
  | METHOD_NOT_FOUND
  | INVALID_PARAMS
  | INTERNAL_ERROR
  | RATE_LIMITED
  | NODE_ERROR
  | NODE_NOT_RUNNING
  | CONFIG_ERROR
  | RESOURCE_EXHAUSTED
  | SERVICE_UNAVAILABLE.

#[export] Instance ErrorCode_eq_dec : EqDecision ErrorCode.
Proof. solve_decision. Defined.

(** The underlying [int]. *)
Definition error_code_value (c : ErrorCode) : Z :=
  match c with
  | SUCCESS => 0
  | UNKNOWN_ERROR => 1000
  | INVALID_ARGUMENT => 1001
  | INVALID_STATE => 1002
  | NOT_IMPLEMENTED => 1003
  | TIMEOUT => 1004
  | CANCELLED => 1005
  | IO_ERROR => 2000
  | FILE_NOT_FOUND => 2001
  | PERMISSION_DENIED => 2002
  | DISK_FULL => 2003
  | NETWORK_ERROR => 2004
  | CONNECTION_REFUSED => 2005
  | CONNECTION_TIMEOUT => 2006
  | CRYPTO_ERROR => 3000
  | INVALID_KEY => 3001
  | INVALID_SIGNATURE => 3002
  | INVALID_HASH => 3003
  | INVALID_CURVE => 3004
  | INSUFFICIENT_ENTROPY => 3005
  | STORAGE_ERROR => 4000
  | DATABASE_ERROR => 4001
  | KEY_NOT_FOUND => 4002
  | CORRUPTED_DATA => 4003
  | TRANSACTION_FAILED => 4004
  | CONCURRENT_MODIFICATION => 4005
  | P2P_ERROR => 5000
  | PEER_NOT_FOUND => 5001
  | PROTOCOL_ERROR => 5002
  | MESSAGE_TOO_LARGE => 5003
  | INVALID_MESSAGE => 5004
  | PEER_BANNED => 5005
  | CONSENSUS_ERROR => 6000
  | INVALID_BLOCK => 6001
  | INVALID_TRANSACTION => 6002
  | FORK_DETECTED => 6003
  | STALE_BLOCK => 6004
  | INSUFFICIENT_STAKE => 6005
  | EXECUTION_ERROR => 7000
  | OUT_OF_GAS => 7001
  | INVALID_OPCODE => 7002
  | STACK_OVERFLOW => 7003
  | STACK_UNDERFLOW => 7004
  | INVALID_JUMP => 7005
  | MEMPOOL_ERROR => 8000
  | TRANSACTION_EXISTS => 8001
  | INSUFFICIENT_FEE => 8002
  | NONCE_TOO_LOW => 8003
  | NONCE_TOO_HIGH => 8004
  | GAS_LIMIT_EXCEEDED => 8005
  | RPC_ERROR => 9000
  | INVALID_REQUEST => 9001
  | METHOD_NOT_FOUND => 9002
  | INVALID_PARAMS => 9003
  | INTERNAL_ERROR => 9004
  | RATE_LIMITED => 9005
  | NODE_ERROR => 10000
  | NODE_NOT_RUNNING => 10001
  | CONFIG_ERROR => 10002
  | RESOURCE_EXHAUSTED => 10003
  | SERVICE_UNAVAILABLE => 10004
  end.

Definition error_code_to_string (c : ErrorCode) : list ascii :=
  match c with
  | SUCCESS => $"SUCCESS"
  | UNKNOWN_ERROR => $"UNKNOWN_ERROR"
  | INVALID_ARGUMENT => $"INVALID_ARGUMENT"
  | INVALID_STATE => $"INVALID_STATE"
  | NOT_IMPLEMENTED => $"NOT_IMPLEMENTED"
  | TIMEOUT => $"TIMEOUT"
  | CANCELLED => $"CANCELLED"
  | IO_ERROR => $"IO_ERROR"
  | FILE_NOT_FOUND => $"FILE_NOT_FOUND"
  | PERMISSION_DENIED => $"PERMISSION_DENIED"
  | DISK_FULL => $"DISK_FULL"
  | NETWORK_ERROR => $"NETWORK_ERROR"
  | CONNECTION_REFUSED => $"CONNECTION_REFUSED"
  | CONNECTION_TIMEOUT => $"CONNECTION_TIMEOUT"
  | CRYPTO_ERROR => $"CRYPTO_ERROR"
  | INVALID_KEY => $"INVALID_KEY"
  | INVALID_SIGNATURE => $"INVALID_SIGNATURE"
  | INVALID_HASH => $"INVALID_HASH"
  | INVALID_CURVE => $"INVALID_CURVE"
  | INSUFFICIENT_ENTROPY => $"INSUFFICIENT_ENTROPY"
  | STORAGE_ERROR => $"STORAGE_ERROR"
  | DATABASE_ERROR => $"DATABASE_ERROR"
  | KEY_NOT_FOUND => $"KEY_NOT_FOUND"
  | CORRUPTED_DATA => $"CORRUPTED_DATA"
  | TRANSACTION_FAILED => $"TRANSACTION_FAILED"
  | CONCURRENT_MODIFICATION => $"CONCURRENT_MODIFICATION"
  | P2P_ERROR => $"P2P_ERROR"
  | PEER_NOT_FOUND => $"PEER_NOT_FOUND"
  | PROTOCOL_ERROR => $"PROTOCOL_ERROR"
  | MESSAGE_TOO_LARGE => $"MESSAGE_TOO_LARGE"
  | INVALID_MESSAGE => $"INVALID_MESSAGE"
  | PEER_BANNED => $"PEER_BANNED"
  | CONSENSUS_ERROR => $"CONSENSUS_ERROR"
  | INVALID_BLOCK => $"INVALID_BLOCK"
  | INVALID_TRANSACTION => $"INVALID_TRANSACTION"
  | FORK_DETECTED => $"FORK_DETECTED"
  | STALE_BLOCK => $"STALE_BLOCK"
  | INSUFFICIENT_STAKE => $"INSUFFICIENT_STAKE"
  | EXECUTION_ERROR => $"EXECUTION_ERROR"
  | OUT_OF_GAS => $"OUT_OF_GAS"
  | INVALID_OPCODE => $"INVALID_OPCODE"
  | STACK_OVERFLOW => $"STACK_OVERFLOW"
  | STACK_UNDERFLOW => $"STACK_UNDERFLOW"
  | INVALID_JUMP => $"INVALID_JUMP"
  | MEMPOOL_ERROR => $"MEMPOOL_ERROR"
  | TRANSACTION_EXISTS => $"TRANSACTION_EXISTS"
  | INSUFFICIENT_FEE => $"INSUFFICIENT_FEE"
  | NONCE_TOO_LOW => $"NONCE_TOO_LOW"
  | NONCE_TOO_HIGH => $"NONCE_TOO_HIGH"
  | GAS_LIMIT_EXCEEDED => $"GAS_LIMIT_EXCEEDED"
  | RPC_ERROR => $"RPC_ERROR"
  | INVALID_REQUEST => $"INVALID_REQUEST"
  | METHOD_NOT_FOUND => $"METHOD_NOT_FOUND"
  | INVALID_PARAMS => $"INVALID_PARAMS"
  | INTERNAL_ERROR => $"INTERNAL_ERROR"
  | RATE_LIMITED => $"RATE_LIMITED"
  | NODE_ERROR => $"NODE_ERROR"
  | NODE_NOT_RUNNING => $"NODE_NOT_RUNNING"
  | CONFIG_ERROR => $"CONFIG_ERROR"
  | RESOURCE_EXHAUSTED => $"RESOURCE_EXHAUSTED"
  | SERVICE_UNAVAILABLE => $"SERVICE_UNAVAILABLE"
  end.

Definition get_user_friendly_message (c : ErrorCode) : list ascii :=
  match c with
  | SUCCESS => $"Operation completed successfully"
  | UNKNOWN_ERROR => $"An unexpected error occurred"
  | INVALID_ARGUMENT => $"Invalid argument provided"
  | INVALID_STATE => $"System is in an invalid state"
  | NOT_IMPLEMENTED => $"This feature is not yet implemented"
  | TIMEOUT => $"Operation timed out"
  | CANCELLED => $"Operation was cancelled"
  | IO_ERROR => $"Input/output error occurred"
  | FILE_NOT_FOUND => $"File not found"
  | PERMISSION_DENIED => $"Permission denied"
  | DISK_FULL => $"Disk is full"
  | NETWORK_ERROR => $"Network error occurred"
  | CONNECTION_REFUSED => $"Connection was refused"
  | CONNECTION_TIMEOUT => $"Connection timed out"
  | CRYPTO_ERROR => $"Cryptographic operation failed"
  | INVALID_KEY => $"Invalid cryptographic key"
  | INVALID_SIGNATURE => $"Invalid signature"
  | INVALID_HASH => $"Invalid hash"
  | INVALID_CURVE => $"Invalid elliptic curve"
  | INSUFFICIENT_ENTROPY => $"Insufficient entropy for secure operation"
  | STORAGE_ERROR => $"Storage operation failed"
  | DATABASE_ERROR => $"Database operation failed"
  | KEY_NOT_FOUND => $"Key not found in storage"
  | CORRUPTED_DATA => $"Data corruption detected"
  | TRANSACTION_FAILED => $"Database transaction failed"
  | CONCURRENT_MODIFICATION => $"Concurrent modification detected"
  | P2P_ERROR => $"Peer-to-peer communication error"
  | PEER_NOT_FOUND => $"Peer not found"
  | PROTOCOL_ERROR => $"Protocol error"
  | MESSAGE_TOO_LARGE => $"Message too large"
  | INVALID_MESSAGE => $"Invalid message format"
  | PEER_BANNED => $"Peer is banned"
  | CONSENSUS_ERROR => $"Consensus mechanism error"
  | INVALID_BLOCK => $"Invalid block"
  | INVALID_TRANSACTION => $"Invalid transaction"
  | FORK_DETECTED => $"Blockchain fork detected"
  | STALE_BLOCK => $"Block is stale"
  | INSUFFICIENT_STAKE => $"Insufficient stake for operation"
  | EXECUTION_ERROR => $"Transaction execution error"
  | OUT_OF_GAS => $"Out of gas during execution"
  | INVALID_OPCODE => $"Invalid opcode"
  | STACK_OVERFLOW => $"Stack overflow"
  | STACK_UNDERFLOW => $"Stack underflow"
  | INVALID_JUMP => $"Invalid jump destination"
  | MEMPOOL_ERROR => $"Mempool operation failed"
  | TRANSACTION_EXISTS => $"Transaction already exists"
  | INSUFFICIENT_FEE => $"Insufficient transaction fee"
  | NONCE_TOO_LOW => $"Transaction nonce too low"
  | NONCE_TOO_HIGH => $"Transaction nonce too high"
  | GAS_LIMIT_EXCEEDED => $"Gas limit exceeded"
  | RPC_ERROR => $"RPC operation failed"
  | INVALID_REQUEST => $"Invalid RPC request"
  | METHOD_NOT_FOUND => $"RPC method not found"
  | INVALID_PARAMS => $"Invalid RPC parameters"
  | INTERNAL_ERROR => $"Internal server error"
  | RATE_LIMITED => $"Rate limit exceeded"
  | NODE_ERROR => $"Node operation failed"
  | NODE_NOT_RUNNING => $"Node is not running"
  | CONFIG_ERROR => $"Configuration error"
  | RESOURCE_EXHAUSTED => $"System resources exhausted"
  | SERVICE_UNAVAILABLE => $"Service unavailable"
  end.

Definition all_codes : list ErrorCode :=
  [SUCCESS; UNKNOWN_ERROR; INVALID_ARGUMENT; INVALID_STATE; NOT_IMPLEMENTED; TIMEOUT; 
   CANCELLED; IO_ERROR; FILE_NOT_FOUND; PERMISSION_DENIED; DISK_FULL; NETWORK_ERROR; 
   CONNECTION_REFUSED; CONNECTION_TIMEOUT; CRYPTO_ERROR; INVALID_KEY; INVALID_SIGNATURE; INVALID_HASH; 
   INVALID_CURVE; INSUFFICIENT_ENTROPY; STORAGE_ERROR; DATABASE_ERROR; KEY_NOT_FOUND; CORRUPTED_DATA; 
   TRANSACTION_FAILED; CONCURRENT_MODIFICATION; P2P_ERROR; PEER_NOT_FOUND; PROTOCOL_ERROR; MESSAGE_TOO_LARGE; 
   INVALID_MESSAGE; PEER_BANNED; CONSENSUS_ERROR; INVALID_BLOCK; INVALID_TRANSACTION; FORK_DETECTED; 
   STALE_BLOCK; INSUFFICIENT_STAKE; EXECUTION_ERROR; OUT_OF_GAS; INVALID_OPCODE; STACK_OVERFLOW; 
   STACK_UNDERFLOW; INVALID_JUMP; MEMPOOL_ERROR; TRANSACTION_EXISTS; INSUFFICIENT_FEE; NONCE_TOO_LOW; 
   NONCE_TOO_HIGH; GAS_LIMIT_EXCEEDED; RPC_ERROR; INVALID_REQUEST; METHOD_NOT_FOUND; INVALID_PARAMS; 
   INTERNAL_ERROR; RATE_LIMITED; NODE_ERROR; NODE_NOT_RUNNING; CONFIG_ERROR; RESOURCE_EXHAUSTED; 
   SERVICE_UNAVAILABLE].

(** The code with a given value. *)
Definition code_of_value (z : Z) : option ErrorCode := List.find (fun c => error_code_value c =? z) all_codes.

Lemma code_of_error_code_value c : code_of_value (error_code_value c) = Some c.
Proof. by destruct c. Qed.

#[export] Instance ErrorCode_countable : Countable ErrorCode :=
  inj_countable error_code_value code_of_value code_of_error_code_value.

(** ** [expected] *)

Inductive expected (T E : Type) : Type :=
  | Value (v : T)
  | Unexpected (e : E).
Arguments Value {T E}.
Arguments Unexpected {T E}.

#[export] Instance expected_eq_dec `{EqDecision T, EqDecision E} : EqDecision (expected T E).
Proof. solve_decision. Defined.

Section Expected.
Context {T E : Type}.

Definition has_value (x : expected T E) : bool := match x with Value _ => true | Unexpected _ => false end.
Definition value (x : expected T E) : outcome T := match x with Value v => Ret v | Unexpected _ => Throw bad_variant_access end.
Definition error (x : expected T E) : outcome E := match x with Value _ => Throw bad_variant_access | Unexpected e => Ret e end.
Definition value_or (x : expected T E) (default_value : T) : T := match x with Value v => v | Unexpected _ => default_value end.

Definition transform {U} (f : T -> U) (x : expected T E) : expected U E :=
  match x with Value v => Value (f v) | Unexpected e => Unexpected e end.
Definition transform_error {F} (f : E -> F) (x : expected T E) : expected T F :=
  match x with Value v => Value v | Unexpected e => Unexpected (f e) end.
Definition and_then {U} (f : T -> expected U E) (x : expected T E) : expected U E :=
  match x with Value v => f v | Unexpected e => Unexpected e end.
(** The declared result is [expected<T, invoke_result_t<F, E>>], so what the
    handler returns becomes the error alternative of the result. *)
Definition or_else {F} (f : E -> F) (x : expected T E) : expected T F :=
  match x with Value v => Value v | Unexpected e => Unexpected (f e) end.

(** [operator==], for element types with their own equality. *)
Definition expected_eqb (eqT : T -> T -> bool) (eqE : E -> E -> bool) (x y : expected T E) : bool :=
  if negb (Bool.eqb (has_value x) (has_value y)) then false
  else match x, y with
       | Value a, Value b => eqT a b
       | Unexpected a, Unexpected b => eqE a b
       | _, _ => false
       end.
End Expected.

(** ** [ErrorInfo] *)

Inductive ErrorInfo : Type := mkErrorInfo {
  code : ErrorCode;
  message : list ascii;
  context : list ascii;
  file : list ascii;
  line : Z;
  cause : option ErrorInfo
}.

Abbreviation Result T := (expected T ErrorInfo) (only parsing).

Definition is_success (e : ErrorInfo) : bool := bool_decide (code e = SUCCESS).
Definition is_error (c : ErrorCode) (e : ErrorInfo) : bool := bool_decide (code e = c).

Definition to_string (e : ErrorInfo) : list ascii :=
  $"Error " ++ print_dec (error_code_value (code e)) ++ $": " ++ message e
  ++ (match context e with [] => [] | ctx => $" (Context: " ++ ctx ++ $")" end)
  ++ (if negb (bool_decide (file e = [])) && (0 <? line e) then $" [at " ++ file e ++ $":" ++ print_dec (line e) ++ $"]" else []).

Fixpoint chain_to_string (e : ErrorInfo) : list ascii :=
  to_string e ++ match cause e with Some c => ascii_of_nat 10 :: $"Caused by: " ++ chain_to_string c | None => [] end.

Fixpoint error_eqb (a b : ErrorInfo) : bool :=
  bool_decide (code a = code b) && bool_decide (message a = message b) && bool_decide (context a = context b)
  && bool_decide (file a = file b) && (line a =? line b)
  && match cause a, cause b with
     | None, None => true
     | Some x, Some y => error_eqb x y
     | _, _ => false
     end.

Definition make_error (c : ErrorCode) (msg ctx : list ascii) : ErrorInfo := mkErrorInfo c msg ctx [] 0 None.
Definition make_chained_error (c : ErrorCode) (msg ctx : list ascii) (cau : option ErrorInfo) : ErrorInfo :=
  mkErrorInfo c msg ctx [] 0 cau.

(** *** Propagation *)

Definition map_error_code {T} (r : Result T) (new_code : ErrorCode) : Result T :=
  match r with
  | Value v => Value v
  | Unexpected e => Unexpected (mkErrorInfo new_code (message e) (context e) [] 0 None)
  end.
Definition add_context {T} (r : Result T) (ctx : list ascii) : Result T :=
  match r with
  | Value v => Value v
  | Unexpected e => Unexpected (mkErrorInfo (code e) (message e)
      (match ctx with [] => context e | _ => context e ++ $" -> " ++ ctx end) [] 0 None)
  end.
Definition chain_error {T} (r : Result T) (new_code : ErrorCode) (new_message : list ascii) : Result T :=
  match r with
  | Value v => Value v
  | Unexpected e => Unexpected (mkErrorInfo new_code new_message [] [] 0 (Some e))
  end.

(** ** Retrying

    [func] acts on a state [St]; the sleeps are recorded in order. *)

Definition retry_failure : ErrorInfo :=
  make_error TIMEOUT ($"Operation failed after maximum retry attempts") [].

(** [static_cast<long long>(d)]. *)
Definition d_to_s64 (d : double) : outcome Z :=
  match d_trunc d with
  | Some z => if (- S64_MOD <=? z) && (z <? S64_MOD) then Ret z else Undefined
  | None => Undefined
  end.

Section Retry.
Context {St T : Type} (func : St -> Result T * St).

(** The loop, [left] attempts to go.  [pause k d] is what happens between two
    attempts: the delay slept and the delay kept for the next round. *)
Fixpoint retry_loop (pause : nat -> Z -> outcome (Z * Z)) (k left : nat) (d : Z) (s : St) (sleeps : list Z) : outcome (Result T * St * list Z) :=
  match left with
  | O => Ret (Unexpected retry_failure, s, sleeps)
  | S left' =>
      let '(result, s') := func s in
      if has_value result then Ret (result, s', sleeps)
      else match left' with
           | O => retry_loop pause (S k) left' d s' sleeps
           | S _ => '(slept, d') ← pause k d; retry_loop pause (S k) left' d' s' (sleeps ++ [slept])
           end
  end.

(** Sleep for the current delay, then multiply it. *)
Definition backoff_pause (backoff_multiplier : double) (k : nat) (d : Z) : outcome (Z * Z) :=
  d' ← d_to_s64 (dmul (d_of_Z d) backoff_multiplier); Ret (d, d').
Definition retry_with_backoff (max_attempts initial_delay : Z) (backoff_multiplier : double) (s : St) : outcome (Result T * St * list Z) :=
  retry_loop (backoff_pause backoff_multiplier) 0 (Z.to_nat max_attempts) initial_delay s [].

(** [dis k] is the k-th draw of the distribution. *)
Definition jitter_pause (base_delay : Z) (dis : nat -> double) (k : nat) (d : Z) : outcome (Z * Z) :=
  slept ← d_to_s64 (dmul (d_of_Z base_delay) (dis k)); Ret (slept, d).
Definition retry_with_jitter (max_attempts base_delay : Z) (dis : nat -> double) (s : St) : outcome (Result T * St * list Z) :=
  retry_loop (jitter_pause base_delay dis) 0 (Z.to_nat max_attempts) base_delay s [].

(** The functions return a [Result] themselves, so the declared type
    [Result<invoke_result_t<F1>>] wraps theirs: every return builds a value. *)
Definition fallback_chain (secondary tertiary : St -> Result T * St) (s : St) : Result (Result T) * St :=
  let '(result, s) := func s in
  if has_value result then (Value result, s)
  else let '(result, s) := secondary s in
       if has_value result then (Value result, s)
       else let '(result, s) := tertiary s in (Value result, s).
End Retry.

(** ** Circuit breaker *)

Inductive BreakerState : Type := CLOSED | OPEN | HALF_OPEN.

#[export] Instance BreakerState_eq_dec : EqDecision BreakerState.
Proof. solve_decision. Defined.

(** Times are nanoseconds. *)
Record CircuitBreaker : Type := mkCircuitBreaker {
  failure_threshold_ : Z;
  timeout_ : Z;
  failure_count_ : Z;
  last_failure_time_ : Z;
  state_ : BreakerState
}.
Definition CircuitBreaker_of (failure_threshold timeout_ms now : Z) : CircuitBreaker :=
  mkCircuitBreaker failure_threshold (timeout_ms * 1000000) 0 now CLOSED.


Definition set_state (st : BreakerState) (b : CircuitBreaker) : CircuitBreaker :=
  mkCircuitBreaker (failure_threshold_ b) (timeout_ b) (failure_count_ b) (last_failure_time_ b) st.

Definition on_success (b : CircuitBreaker) : CircuitBreaker :=
  mkCircuitBreaker (failure_threshold_ b) (timeout_ b) 0 (last_failure_time_ b) CLOSED.
Definition on_failure (now : Z) (b : CircuitBreaker) : CircuitBreaker :=
  let count := s32 (failure_count_ b + 1) in
  mkCircuitBreaker (failure_threshold_ b) (timeout_ b) count now
    (if failure_threshold_ b <=? count then OPEN else state_ b).

Definition breaker_open : ErrorInfo := make_error SERVICE_UNAVAILABLE ($"Circuit breaker is open") [].

Section Breaker.
Context {env : Env} {E T : Type}.
Abbreviation cb_eff := (eff CircuitBreaker E) (only parsing).

(** The function may throw: the exception leaves [execute] past the bookkeeping, the
    lock guard is released, and a change from open to half-open made before stays. *)
Definition execute (func : cb_eff (exn + Result T)) : cb_eff (exn + Result T) :=
  with_lock Exclusive (
    b ← get;
    refused ← (if decide (state_ b = OPEN) then
                 now ← read_clock;
                 if timeout_ b <=? now - last_failure_time_ b
                 then modify (set_state HALF_OPEN);; mret false
                 else mret true
               else mret false);
    if (refused : bool) then mret (inr (Unexpected breaker_open))
    else
      called ← func;
      match called with
      | inl e => mret (inl e)
      | inr result =>
          (if has_value result then modify on_success else now ← read_clock; modify (on_failure now));;
          mret (inr result)
      end).

Definition get_state : cb_eff BreakerState := with_lock Exclusive (b ← get; mret (state_ b)).
Definition reset : cb_eff () :=
  with_lock Exclusive (modify (fun b => mkCircuitBreaker (failure_threshold_ b) (timeout_ b) 0 (last_failure_time_ b) CLOSED)).
End Breaker.

(** ** Monitoring *)

Record ErrorTracker : Type := mkErrorTracker {
  error_counts_ : gmap ErrorCode Z;
  total_errors_ : Z;
  total_successes_ : Z
}.
Definition ErrorTracker_default : ErrorTracker := mkErrorTracker ∅ 0 0.

(** [++] on an [int]: overflow is undefined. *)
Definition int_incr (z : Z) : outcome Z := if z <? 2147483647 then Ret (z + 1) else Undefined.

Definition record_error (c : ErrorCode) (t : ErrorTracker) : outcome ErrorTracker :=
  n ← int_incr (default 0 (error_counts_ t !! c));
  total ← int_incr (total_errors_ t);
  Ret (mkErrorTracker (<[ c := n ]> (error_counts_ t)) total (total_successes_ t)).
Definition record_success (t : ErrorTracker) : outcome ErrorTracker :=
  total ← int_incr (total_successes_ t);
  Ret (mkErrorTracker (error_counts_ t) (total_errors_ t) total).
Definition get_error_rate (t : ErrorTracker) : outcome double :=
  let total := total_errors_ t + total_successes_ t in
  if total <=? 2147483647 then
    Ret (if 0 <? total then ddiv (d_of_Z (total_errors_ t)) (d_of_Z total) else dlit 0 1)
  else Undefined.
Definition get_error_count (c : ErrorCode) (t : ErrorTracker) : Z := default 0 (error_counts_ t !! c).
Definition tracker_reset (t : ErrorTracker) : ErrorTracker := mkErrorTracker ∅ 0 0.

Record ErrorRateLimiter : Type := mkErrorRateLimiter {
  max_error_rate_ : double;
  window_size_ms_ : Z;
  error_times_ : list Z
}.

(** [while (!empty() && front() < window_start) pop_front()]. *)
Fixpoint drop_old (window_start : Z) (times : list Z) : list Z :=
  match times with
  | t :: times' => if t <? window_start then drop_old window_start times' else times
  | [] => []
  end.

Definition should_allow_operation (now : Z) (l : ErrorRateLimiter) : bool * ErrorRateLimiter :=
  let window_start := now - window_size_ms_ l * 1000000 in
  let times := drop_old window_start (error_times_ l) in
  let current_rate := ddiv (d_of_Z (Z.of_nat (length times))) (ddiv (d_of_Z (window_size_ms_ l)) (dlit 1000 1)) in
  (dleb current_rate (max_error_rate_ l), mkErrorRateLimiter (max_error_rate_ l) (window_size_ms_ l) times).
Definition limiter_record_error (now : Z) (l : ErrorRateLimiter) : ErrorRateLimiter :=
  mkErrorRateLimiter (max_error_rate_ l) (window_size_ms_ l) (error_times_ l ++ [now]).

(** ** Lemmas *)

(** The state after [n] calls, and the result of the call made there. *)
Fixpoint state_after {St T} (func : St -> Result T * St) (n : nat) (s : St) : St :=
  match n with O => s | S n' => state_after func n' (snd (func s)) end.
Definition result_at {St T} (func : St -> Result T * St) (n : nat) (s : St) : Result T := fst (func (state_after func n s)).

(** The delay in force after [k] multiplications. *)
Fixpoint backoff_delay (d : Z) (m : double) (k : nat) : outcome Z :=
  match k with
  | O => Ret d
  | S k' => d' ← d_to_s64 (dmul (d_of_Z d) m); backoff_delay d' m k'
  end.

(** What the loop returns when every pause on the way is defined ([delays] lists
    the sleeps, [St]ates and attempts as above). *)
Lemma retry_loop_spec {St T} (func : St -> Result T * St) pause left k d s sleeps (I : nat -> Z -> Prop) :
  (forall j d, (j < k + left)%nat -> I j d -> exists slept d', pause j d = Ret (slept, d') /\ I (S j) d') -> I k d ->
  exists r s' n extra, retry_loop func pause k left d s sleeps = Ret (r, s', sleeps ++ extra)
    /\ (n <= left)%nat /\ s' = state_after func n s /\ length extra = pred n
    /\ (forall i, (i < pred n)%nat -> has_value (result_at func i s) = false)
    /\ (if has_value r then (0 < n)%nat /\ r = result_at func (pred n) s
        else n = left /\ r = Unexpected retry_failure /\ forall i, (i < n)%nat -> has_value (result_at func i s) = false).
Proof.
  revert k d s sleeps. induction left as [|left IH]; intros k d s sleeps Hp Hi; cbn [retry_loop].
  { exists (Unexpected retry_failure), s, 0%nat, []. rewrite app_nil_r. repeat split; simpl; intros; try done; lia. }
  destruct (func s) as [result s1] eqn:F.
  assert (R0 : result_at func 0 s = result) by (unfold result_at; simpl; by rewrite F).
  assert (RS : forall i, result_at func (S i) s = result_at func i s1) by (intros; unfold result_at; simpl; by rewrite F).
  destruct (has_value result) eqn:V.
  { exists result, s1, 1%nat, []. rewrite app_nil_r. split_and!; [done|lia|simpl; by rewrite F|done|simpl; intros; lia|]. rewrite V. simpl. by split; [lia|]. }
  destruct left as [|left].
  { cbn [retry_loop]. exists (Unexpected retry_failure), s1, 1%nat, []. rewrite app_nil_r.
    split_and!; [done|lia|simpl; by rewrite F|done|simpl; intros; lia|].
    simpl has_value. cbv iota. split_and!; [done|done|]. intros [|i] Hlt; [by rewrite R0|lia]. }
  destruct (Hp k d) as (slept & d' & Hpause & Hi'); [lia|done|]. rewrite Hpause. unfold mbind, outcome_bind.
  destruct (IH (S k) d' s1 (sleeps ++ [slept])) as (r & s' & n & extra & Hrun & Hn & Hs & Hl & Hfail & Hend); [|done|].
  { intros j dj Hj. apply Hp. lia. }
  destruct n as [|n].
  { (* the rest of the loop makes at least one call *)
    exfalso. destruct (has_value r); [lia|]. destruct Hend as [Hend _]. lia. }
  exists r, s', (S (S n)), (slept :: extra). rewrite Hrun. split_and!; try (simpl in *; lia).
  - by rewrite <- app_assoc.
  - rewrite Hs. simpl. by rewrite F.
  - intros [|i] Hlt; [by rewrite R0|]. rewrite RS. apply Hfail. simpl in *. lia.
  - simpl pred in *. destruct (has_value r).
    + destruct Hend as [_ ->]. split; [lia|]. by rewrite RS.
    + destruct Hend as (He & -> & Hall). split_and!; [lia|done|]. intros [|i] Hlt; [by rewrite R0|]. rewrite RS. apply Hall. lia.
Qed.

Lemma backoff_delay_step d m k d' : backoff_delay d m (S k) = Ret d' ->
  exists dk, backoff_delay d m k = Ret dk /\ d_to_s64 (dmul (d_of_Z dk) m) = Ret d'.
Proof.
  revert d. induction k as [|k IH]; intros d.
  - simpl. destruct (d_to_s64 _) eqn:E; simpl; intros [= <-]. by exists d.
  - intros H. change (backoff_delay d m (S (S k))) with (d1 ← d_to_s64 (dmul (d_of_Z d) m); backoff_delay d1 m (S k)) in H.
    change (backoff_delay d m (S k)) with (d1 ← d_to_s64 (dmul (d_of_Z d) m); backoff_delay d1 m k).
    destruct (d_to_s64 (dmul (d_of_Z d) m)) as [d1| |]; simpl in H |- *; try done. by apply IH.
Qed.

Lemma ErrorInfo_rect' (P : ErrorInfo -> Prop) :
  (forall c m x f l, P (mkErrorInfo c m x f l None)) ->
  (forall c m x f l e, P e -> P (mkErrorInfo c m x f l (Some e))) -> forall e, P e.
Proof. intros H0 H1. fix IH 1. intros [c m x f l [e|]]; [apply H1, IH|apply H0]. Qed.

Lemma error_eqb_spec a b : error_eqb a b = true <-> a = b.
Proof.
  revert b. induction a as [c m x f l|c m x f l e IH] using ErrorInfo_rect'; intros [c' m' x' f' l' [e'|]]; simpl;
    rewrite ?andb_false_r, ?andb_true_r, ?andb_true_iff, ?bool_decide_eq_true, ?Z.eqb_eq; try (split; [done|congruence]).
  - split; [by intros [[[[-> ->] ->] ->] ->]|intros [= -> -> -> -> ->]; done].
  - rewrite IH. split; [by intros [[[[[-> ->] ->] ->] ->] ->]|intros [= -> -> -> -> -> ->]; done].
Qed.

(** Between calls the breaker is closed exactly when its count is zero or below the
    threshold; above it the breaker is open, or half-open after an exception. *)
Definition breaker_inv (b : CircuitBreaker) : Prop :=
  0 <= failure_count_ b <= 2147483647 /\ (state_ b = CLOSED <-> failure_count_ b < failure_threshold_ b \/ failure_count_ b = 0).

Lemma new_breaker_inv threshold timeout_ms now : breaker_inv (CircuitBreaker_of threshold timeout_ms now).
Proof. unfold breaker_inv. cbn. split; [lia|]. split; [by right|done]. Qed.
Lemma reset_breaker_inv {env : Env} {E : Type} (w : world CircuitBreaker E) :
  held w = [] -> exists w', reset w = Ret (tt, w') /\ breaker_inv (obj w') /\ state_ (obj w') = CLOSED.
Proof.
  intros Hh. destruct w as [b hs tk lg]. cbn in Hh. subst hs. unfold reset, with_lock. cbn [held]. unfold breaker_inv.
  destruct on_relock; (eexists; split; [reflexivity|]; cbn; split; [|done]; split; [lia|]; split; [by right|done]).
Qed.

(** The breaker once a call has been let through. *)
Definition passed (b : CircuitBreaker) : CircuitBreaker := if decide (state_ b = OPEN) then set_state HALF_OPEN b else b.

Lemma passed_inv b : breaker_inv b -> breaker_inv (passed b).
Proof. unfold passed. case_decide as Ho; [|done]. unfold breaker_inv. cbn. rewrite Ho. intros [H1 H2]. split; [done|]. split; [done|]. intros H. by apply H2 in H. Qed.

(** The breaker after a call that reported success, or failure at the time [now]. *)
Definition settled_at (now : Z) (ok : bool) (b : CircuitBreaker) : CircuitBreaker :=
  if ok then mkCircuitBreaker (failure_threshold_ b) (timeout_ b) 0 (last_failure_time_ b) CLOSED
  else mkCircuitBreaker (failure_threshold_ b) (timeout_ b) (failure_count_ b + 1) now
         (if failure_threshold_ b <=? failure_count_ b + 1 then OPEN else CLOSED).

Lemma settled_inv now ok b : 0 <= failure_count_ b < 2147483647 -> breaker_inv (settled_at now ok b).
Proof.
  intros Hc. unfold breaker_inv, settled_at. destruct ok; cbn; [split; [lia|]; split; [by right|done]|].
  split; [lia|]. destruct (Z.leb_spec (failure_threshold_ b) (failure_count_ b + 1)); split; try done; lia.
Qed.

(** The bookkeeping after a call. *)
Lemma failure_settles now b : breaker_inv b -> failure_count_ b < 2147483647 -> on_failure now (passed b) = settled_at now false b.
Proof.
  intros [Hc Hs] Hlt. unfold passed, on_failure, settled_at. rewrite s32_small by (case_decide; cbn; lia).
  case_decide as Ho; cbn [set_state failure_threshold_ timeout_ failure_count_ state_]; f_equal;
    destruct (Z.leb_spec (failure_threshold_ b) (failure_count_ b + 1)); try done; apply Hs || (exfalso; assert (state_ b = CLOSED) by (apply Hs; lia); congruence); lia.
Qed.
Lemma success_settles now b : on_success (passed b) = settled_at now true b.
Proof. unfold passed. by case_decide. Qed.

(** A function that does not touch the breaker that runs it (a call of the breaker
    from inside would take its mutex again): it returns or throws, and leaves the
    breaker and its lock as they are. *)
Definition minds_own {E T : Type} (func : eff CircuitBreaker E (exn + Result T)) : Prop :=
  forall w, exists r tk lg, func w = Ret (r, mkWorld (obj w) (held w) tk lg).

(** What [execute] does, step by step. *)
Lemma execute_run {env : Env} {E T : Type} (func : eff CircuitBreaker E (exn + Result T)) (w : world CircuitBreaker E) :
  minds_own func -> held w = [] ->
  let b := obj w in
  let was_open := bool_decide (state_ b = OPEN) in
  exists res w', execute func w = Ret (res, w') /\ held w' = []
    /\ if was_open && (clock (ticks w) - last_failure_time_ b <? timeout_ b)
       then res = inr (Unexpected breaker_open) /\ obj w' = b /\ Effects.log w' = Effects.log w
       else exists w1, func (mkWorld (passed b) [Exclusive] (if was_open then S (ticks w) else ticks w) (Effects.log w)) = Ret (res, w1)
              /\ Effects.log w' = Effects.log w1
              /\ obj w' = match res with
                          | inl _ => passed b
                          | inr r => if has_value r then on_success (passed b) else on_failure (clock (ticks w1)) (passed b)
                          end.
Proof.
  intros Hf Hh b was_open. destruct w as [b0 hs tk lg]. cbn [obj held ticks Effects.log] in *. subst hs b was_open.
  assert (Hlet : forall tk', exists r w1, func (mkWorld (passed b0) [Exclusive] tk' lg) = Ret (r, w1) /\ held w1 = [Exclusive] /\ obj w1 = passed b0).
  { intros tk'. destruct (Hf (mkWorld (passed b0) [Exclusive] tk' lg)) as (r & t & l & E1). rewrite E1. by do 2 eexists. }
  unfold execute, with_lock, mbind, eff_bind, get, read_clock, modify, mret, eff_ret. cbn [held obj ticks Effects.log].
  unfold passed in *. case_decide as Ho; [rewrite bool_decide_true by done|rewrite bool_decide_false by done]; cbn [andb obj held ticks Effects.log];
    [rewrite Z.ltb_antisym; destruct (timeout_ b0 <=? _); cbn [negb]|].
  2: { destruct on_relock; do 2 eexists; by split_and!. }
  all: [> destruct (Hlet (S tk)) as (r & w1 & E1 & H1 & O1)|destruct (Hlet tk) as (r & w1 & E1 & H1 & O1)];
    destruct w1 as [o1 h1 t1 l1]; cbn in O1, H1; subst o1 h1; destruct on_relock; cbn [obj held ticks Effects.log]; rewrite E1;
    (destruct r as [e|r]; [|destruct (has_value r) eqn:V]); do 2 eexists; (split; [reflexivity|]); (split; [done|]);
    eexists; (split; [reflexivity|]); cbn; by rewrite ?V.
Qed.

Definition count_sum (m : gmap ErrorCode Z) : Z := map_fold (fun _ n s => n + s) 0 m.

Lemma count_sum_insert m c n :
  count_sum (<[ c := n ]> m) = count_sum m - default 0 (m !! c) + n.
Proof.
  unfold count_sum. rewrite <- insert_delete_eq.
  rewrite map_fold_insert_L by (lia || apply lookup_delete_eq).
  destruct (m !! c) as [v|] eqn:E; simpl.
  - assert (H : map_fold (fun _ n s => n + s) 0 m = v + map_fold (fun _ n s => n + s) 0 (delete c m))
      by (apply (map_fold_delete_L (fun _ n s => n + s) 0 c v m); [lia|done]). lia.
  - rewrite delete_id by done. lia.
Qed.

Lemma drop_old_filter start times :
  StronglySorted Z.le times -> drop_old start times = List.filter (fun t => start <=? t) times.
Proof.
  induction 1 as [|t times Hs IH Hf]; simpl; [done|]. destruct (Z.ltb_spec t start).
  - rewrite (proj2 (Z.leb_gt start t)) by lia. apply IH.
  - rewrite (proj2 (Z.leb_le start t)) by lia. f_equal. symmetry.
    rewrite Forall_forall in Hf. apply forallb_filter_id, forallb_forall. intros x Hx%list_elem_of_In. apply Z.leb_le. specialize (Hf x Hx). lia.
Qed.

(** ** Properties *)

(** [expected] with [and_then] is a monad, [transform] is its functor map, and
    reading the alternative that is not there throws. *)
Theorem expected_monad_laws {T U V E : Type} (v : T) (x : expected T E) (f : T -> expected U E) (g : U -> expected V E) :
  and_then f (Value v) = f v
  /\ and_then Value x = x
  /\ and_then g (and_then f x) = and_then (fun t => and_then g (f t)) x
  /\ (forall h : T -> U, transform h x = and_then (fun t => Value (h t)) x)
  /\ (returns (value x) = has_value x /\ returns (error x) = negb (has_value x)).
Proof. by destruct x. Qed.

(** [or_else] cannot recover: its result has a value exactly when its argument
    has, and it is the same function as [transform_error]. *)
Theorem or_else_never_recovers {T E F : Type} (f : E -> F) (x : expected T E) :
  or_else f x = transform_error f x /\ has_value (or_else f x) = has_value x.
Proof. by destruct x. Qed.

(** The codes are told apart by their numbers and by their names, and a code
    can be recovered from its number. *)
Theorem error_codes_distinct (c d : ErrorCode) :
  code_of_value (error_code_value c) = Some c
  /\ (error_code_value c = error_code_value d -> c = d)
  /\ (error_code_to_string c = error_code_to_string d -> c = d).
Proof.
  split; [apply code_of_error_code_value|]. split.
  - intros H. apply (f_equal code_of_value) in H. rewrite !code_of_error_code_value in H. by injection H.
  - intros H. enough (Hall : forallb (fun x => forallb (fun y => bool_decide (error_code_to_string x = error_code_to_string y -> x = y)) all_codes) all_codes = true).
    { assert (Hin : forall x, In x all_codes) by (intros []; cbv; tauto).
      rewrite forallb_forall in Hall. specialize (Hall c (Hin c)). rewrite forallb_forall in Hall.
      specialize (Hall d (Hin d)). by apply bool_decide_eq_true in Hall; apply Hall. }
    vm_compute. reflexivity.
Qed.

(** Retrying with back-off calls the function until its first success, at most
    [max_attempts] times, sleeps once between two calls and never after the last,
    and reports a time-out, not the last error, when every attempt failed. *)
Theorem retry_until_first_success {St T : Type} (func : St -> expected T ErrorInfo * St) (max_attempts delay : Z) (m : double) (s : St) :
  (forall k, (k <= Z.to_nat max_attempts)%nat -> exists d, backoff_delay delay m k = Ret d) ->
  exists r s' n sleeps, retry_with_backoff func max_attempts delay m s = Ret (r, s', sleeps)
    /\ (n <= Z.to_nat max_attempts)%nat /\ s' = state_after func n s /\ length sleeps = pred n
    /\ (forall i, (i < pred n)%nat -> has_value (result_at func i s) = false)
    /\ (if has_value r then (0 < n)%nat /\ r = result_at func (pred n) s
        else n = Z.to_nat max_attempts /\ r = Unexpected retry_failure
             /\ forall i, (i < n)%nat -> has_value (result_at func i s) = false).
Proof.
  intros Hd. unfold retry_with_backoff.
  apply (retry_loop_spec func (backoff_pause m) (Z.to_nat max_attempts) 0 delay s [] (fun j d => backoff_delay delay m j = Ret d)); [|done].
  intros j d Hj Hdj. destruct (Hd (S j)) as [d' Hd']; [lia|]. apply backoff_delay_step in Hd' as Hs. destruct Hs as (dk & Hk & Hconv).
  rewrite Hdj in Hk. injection Hk as <-. exists d, d'. unfold backoff_pause. by rewrite Hconv.
Qed.

(** C37: the circuit breaker, for a function that returns a value or an error or
    throws, and does not call the breaker itself.  While the breaker is open and the
    time-out has not passed since the last failure, the function is not called and the
    call is refused.  Otherwise the function is called once, under the lock, and what
    it gives is handed on: a value clears the count and closes the breaker; an error
    adds one to the count, sets the time of the last failure, and opens the breaker
    exactly when the count has reached the threshold; an exception is recorded
    nowhere, but a breaker that was open stays half-open, so that the next call is let
    through at once.  In each case the breaker is closed afterwards exactly when the
    count is zero or below the threshold.  The count is an [int]: fewer than 2^31 - 1
    failures in a row have happened before. *)
Theorem circuit_breaker_execute {env : Env} {E T : Type} (func : eff CircuitBreaker E (exn + Result T)) (w : world CircuitBreaker E) :
  minds_own func -> breaker_inv (obj w) -> failure_count_ (obj w) < 2147483647 -> held w = [] ->
  let b := obj w in
  let was_open := bool_decide (state_ b = OPEN) in
  let tk := if was_open then S (ticks w) else ticks w in
  exists res w', execute func w = Ret (res, w') /\ breaker_inv (obj w') /\ held w' = []
    /\ if was_open && (clock (ticks w) - last_failure_time_ b <? timeout_ b)
       then res = inr (Unexpected breaker_open) /\ obj w' = b /\ Effects.log w' = Effects.log w
       else exists w1, func (mkWorld (passed b) [Exclusive] tk (Effects.log w)) = Ret (res, w1) /\ Effects.log w' = Effects.log w1
              /\ obj w' = match res with inl _ => passed b | inr r => settled_at (clock (ticks w1)) (has_value r) b end.
Proof.
  intros Hf Hinv Hlt Hh b was_open tk. destruct w as [b0 hs tk0 lg]. cbn [obj held ticks Effects.log] in *. subst hs b.
  destruct (execute_run func (mkWorld b0 [] tk0 lg) Hf eq_refl) as (res & w' & -> & Hh' & Hrun). exists res, w'.
  cbn [obj ticks Effects.log] in Hrun. split; [done|]. split; [|split; [done|]].
  - destruct (_ && _); [by destruct Hrun as (_ & -> & _)|]. destruct Hrun as (w1 & _ & _ & ->).
    destruct res as [e|r]; [by apply passed_inv|]. destruct (has_value r) eqn:V; [rewrite (success_settles 0)|rewrite failure_settles by done];
      apply settled_inv; destruct Hinv; lia.
  - destruct (_ && _); [done|]. destruct Hrun as (w1 & ? & ? & Ho). exists w1. split_and!; [done..|]. rewrite Ho.
    destruct res as [e|r]; [done|]. by destruct (has_value r); [apply success_settles|apply failure_settles].
Qed.

(** The error tracker's total is the sum of its per-code counts, and recording
    raises exactly the count of the recorded code. *)
Theorem tracker_total_is_sum (t t' : ErrorTracker) (c d : ErrorCode) :
  count_sum (error_counts_ t) = total_errors_ t -> record_error c t = Ret t' ->
  count_sum (error_counts_ t') = total_errors_ t'
  /\ get_error_count d t' = get_error_count d t + (if decide (d = c) then 1 else 0).
Proof.
  intros Hs. unfold record_error, int_incr. destruct (default 0 (error_counts_ t !! c) <? 2147483647); simpl; [|done].
  destruct (total_errors_ t <? 2147483647); simpl; [|done]. intros [= <-]. simpl. rewrite count_sum_insert. split; [lia|].
  unfold get_error_count. simpl. case_decide as Hd; subst; rewrite ?lookup_insert_eq, ?lookup_insert_ne by congruence; simpl; lia.
Qed.

(** On a clock that does not go back, the rate limiter forgets exactly the
    errors that are older than the window. *)
Theorem rate_limiter_window (now : Z) (l : ErrorRateLimiter) :
  StronglySorted Z.le (error_times_ l) ->
  error_times_ (snd (should_allow_operation now l))
  = List.filter (fun t => now - window_size_ms_ l * 1000000 <=? t) (error_times_ l).
Proof. intros H. simpl. by apply drop_old_filter. Qed.

(** Equality of errors compares the whole chain of causes, while adding context
    or mapping the code of an error drops its location and its cause. *)
Theorem propagation_drops_cause {T : Type} (e : ErrorInfo) (ctx : list ascii) (c : ErrorCode) :
  (forall e', error_eqb e e' = true <-> e = e')
  /\ (exists e1, @add_context T (Unexpected e) ctx = Unexpected e1 /\ cause e1 = None /\ file e1 = [] /\ line e1 = 0
        /\ code e1 = code e /\ message e1 = message e)
  /\ (exists e2, @map_error_code T (Unexpected e) c = Unexpected e2 /\ cause e2 = None /\ file e2 = [] /\ line e2 = 0
        /\ code e2 = c /\ message e2 = message e)
  /\ (exists e3, @chain_error T (Unexpected e) c ctx = Unexpected e3 /\ cause e3 = Some e).
Proof. split; [apply error_eqb_spec|]. split_and!; by eexists. Qed.

(** ** Witnesses *)

(** Fails twice, then returns the number of the call. *)
Definition demo_func (n : nat) : expected nat ErrorInfo * nat :=
  (if Nat.ltb n 2 then Unexpected (make_error NETWORK_ERROR [] []) else Value n, S n).

Lemma retry_until_first_success_witness :
  exists r s' n sleeps, retry_with_backoff demo_func 5 100 (dlit 2 1) 0%nat = Ret (r, s', sleeps) /\ (n <= 5)%nat
    /\ length sleeps = pred n.
Proof.
  destruct (retry_until_first_success demo_func 5 100 (dlit 2 1) 0%nat) as (r & s' & n & sleeps & H1 & H2 & _ & H3 & _).
  - intros k Hk. do 6 (destruct k as [|k]; [vm_compute; eexists; reflexivity|]). exfalso. vm_compute in Hk. lia.
  - exists r, s', n, sleeps. split; [exact H1|]. split; [exact H2|exact H3].
Defined.

(** An open breaker refuses; once the time-out has passed, a function that throws
    leaves it half-open. *)
Definition thrower : eff CircuitBreaker nat (exn + Result nat) := emit 1%nat;; mret (inl (runtime_error "down")).
Lemma circuit_breaker_execute_witness :
  (exists res w', @execute (std_env (fun n => 5)) nat nat thrower (idle (mkCircuitBreaker 3 100 3 0 OPEN)) = Ret (res, w')
    /\ res = inr (Unexpected breaker_open) /\ Effects.log w' = [])
  /\ exists e w', @execute (std_env (fun n => 500)) nat nat thrower (idle (mkCircuitBreaker 3 100 3 0 OPEN)) = Ret (inl e, w')
    /\ breaker_inv (obj w') /\ obj w' = mkCircuitBreaker 3 100 3 0 HALF_OPEN /\ Effects.log w' = [1%nat].
Proof.
  assert (Hm : minds_own thrower) by (intros w; by do 3 eexists).
  assert (Hi : breaker_inv (mkCircuitBreaker 3 100 3 0 OPEN)) by (unfold breaker_inv; cbn; split; [lia|]; split; [done|lia]).
  split.
  - destruct (@circuit_breaker_execute (std_env (fun n => 5)) nat nat thrower (idle (mkCircuitBreaker 3 100 3 0 OPEN)) Hm Hi)
      as (res & w' & H1 & _ & _ & H2 & _ & H3); [cbn; lia|reflexivity|]. exists res, w'. split; [exact H1|]. split; [exact H2|exact H3].
  - destruct (@circuit_breaker_execute (std_env (fun n => 500)) nat nat thrower (idle (mkCircuitBreaker 3 100 3 0 OPEN)) Hm Hi)
      as (res & w' & H1 & H2 & _ & w1 & H3 & H4 & H5); [cbn; lia|reflexivity|]. cbn in H3. injection H3 as <- <-.
    do 2 eexists. split; [exact H1|]. split; [exact H2|]. split; [exact H5|exact H4].
Defined.

Lemma tracker_total_is_sum_witness :
  exists t', record_error TIMEOUT ErrorTracker_default = Ret t' /\ count_sum (error_counts_ t') = total_errors_ t'.
Proof.
  exists (mkErrorTracker {[ TIMEOUT := 1 ]} 1 0). split; [vm_compute; reflexivity|].
  apply (tracker_total_is_sum ErrorTracker_default _ TIMEOUT TIMEOUT); vm_compute; reflexivity.
Defined.

Lemma rate_limiter_window_witness :
  error_times_ (snd (should_allow_operation 5000000 (mkErrorRateLimiter (dlit 1 1) 2 [1000000; 4000000])))
  = List.filter (fun t => 5000000 - 2 * 1000000 <=? t) [1000000; 4000000].
Proof.
  apply (rate_limiter_window 5000000 (mkErrorRateLimiter (dlit 1 1) 2 [1000000; 4000000])).
  repeat constructor; simpl; lia.
Defined.
