(* ===== verification/ErrorRecovery.v ===== *)
(** * Error results and recovery helpers

    The rest of core/expected.hpp, core/error.hpp and core/error_utils.hpp:
    [expected<void, E>], the functions that build results, the conversions, and the
    recovery helpers that wrap what their function returns ([retry], [fallback],
    [with_bulkhead]) or run it in another thread ([with_timeout]). *)

From stdpp Require Import base list numbers strings.
From Stdlib Require Import ZArith Lia Ascii.
From S2P Require Import Prelude CString ErrorHandling.

(** ** [expected<void, E>]: the value alternative is [std::monostate] *)

Abbreviation VoidResult := (expected () ErrorInfo) (only parsing).

Section Void.
Context {E : Type}.

Definition void_default : expected () E := Value tt.
Definition void_has_value (x : expected () E) : bool := match x with Value _ => true | Unexpected _ => false end.
Definition void_value (x : expected () E) : outcome () := if negb (void_has_value x) then Throw bad_variant_access else Ret tt.
Definition void_error (x : expected () E) : outcome E :=
  match x with Value _ => Throw bad_variant_access | Unexpected e => Ret e end.
Definition void_transform {U} (f : () -> U) (x : expected () E) : expected U E :=
  match x with Value _ => Value (f tt) | Unexpected e => Unexpected e end.
Definition void_transform_error {F} (f : E -> F) (x : expected () E) : expected () F :=
  match x with Value _ => Value tt | Unexpected e => Unexpected (f e) end.
Definition void_and_then {U} (f : () -> expected U E) (x : expected () E) : expected U E :=
  match x with Value _ => f tt | Unexpected e => Unexpected e end.
Definition void_or_else {F} (f : E -> F) (x : expected () E) : expected () F :=
  match x with Value _ => Value tt | Unexpected e => Unexpected (f e) end.
Definition void_eqb (eqE : E -> E -> bool) (x y : expected () E) : bool :=
  if negb (Bool.eqb (void_has_value x) (void_has_value y)) then false
  else match x, y with
       | Unexpected a, Unexpected b => eqE a b
       | _, _ => true
       end.
End Void.

(** ** Building results *)

Definition success {T} (v : T) : Result T := Value v.
Definition error_result {T} (code : ErrorCode) (message context : list ascii) : Result T :=
  Unexpected (mkErrorInfo code message context [] 0 None).
Definition error_of {T} (error_info : ErrorInfo) : Result T := Unexpected error_info.

(** [propagation::transform_error]. *)
Definition propagate_transform {T} (result : Result T) (transform_func : ErrorInfo -> ErrorInfo) : Result T :=
  match result with Value v => Value v | Unexpected e => Unexpected (transform_func e) end.

(** ** Conversions *)

(** A [std::error_code]: whether its category is [std::system_category()], its value
    and its message. *)
Record std_error_code : Type := mkStdError { in_system_category : bool; ec_value : Z; ec_text : list ascii }.

(** The POSIX numbers of Linux. *)
Definition ENOENT : Z := 2.
Definition EACCES : Z := 13.
Definition ENOSPC : Z := 28.
Definition ETIMEDOUT : Z := 110.
Definition ECONNREFUSED : Z := 111.

Definition from_std_error (ec : std_error_code) (context : list ascii) : ErrorInfo :=
  let code :=
    if in_system_category ec then
      if ec_value ec =? ENOENT then FILE_NOT_FOUND
      else if ec_value ec =? EACCES then PERMISSION_DENIED
      else if ec_value ec =? ENOSPC then DISK_FULL
      else if ec_value ec =? ECONNREFUSED then CONNECTION_REFUSED
      else if ec_value ec =? ETIMEDOUT then CONNECTION_TIMEOUT
      else IO_ERROR
    else UNKNOWN_ERROR in
  mkErrorInfo code (ec_text ec) context [] 0 None.

Definition from_exception (what : list ascii) (context : list ascii) : ErrorInfo :=
  mkErrorInfo UNKNOWN_ERROR what context [] 0 None.

(** ** Recovery

    [retry] and [with_bulkhead] build their own failure with [errors::error], whose
    only viable overload returns a [VoidResult]; they compile for functions that
    return [VoidResult], and then the failure becomes a value of the result. *)

Section Recovery.
Context {St : Type}.

Definition fixed_pause (k : nat) (d : Z) : outcome (Z * Z) := Ret (d, d).
Definition retry (func : St -> VoidResult * St) (max_attempts delay : Z) (s : St)
    : outcome (Result VoidResult * St * list Z) :=
  '(result, s', sleeps) ← retry_loop func fixed_pause 0 (Z.to_nat max_attempts) delay s [];
  Ret (Value result, s', sleeps).

Definition fallback {T} (primary fallback_func : St -> Result T * St) (s : St) : Result (Result T) * St :=
  let '(result, s) := primary s in
  if has_value result then (Value result, s)
  else let '(result, s) := fallback_func s in (Value result, s).

(** The function may throw; the state after the call is kept either way.  The
    semaphore counts the free permits ([try_acquire] is taken to fail only when
    there is none). *)
Definition with_bulkhead (func : St -> outcome VoidResult * St) (permits : Z) (s : St)
    : outcome (Result VoidResult) * St * Z :=
  if permits <=? 0 then (Ret (Value (error_result RESOURCE_EXHAUSTED $"Bulkhead capacity exceeded" [])), s, permits)
  else
    let permits := permits - 1 in
    let '(result, s) := func s in
    match result with
    | Ret r => (Ret (Value r), s, permits + 1)
    | Throw e => (Throw e, s, permits)
    | Undefined => (Undefined, s, permits)
    end.

(** A sequence of calls, each with its own function. *)
Fixpoint bulkhead_calls (funcs : list (St -> outcome VoidResult * St)) (permits : Z) (s : St)
    : list (outcome (Result VoidResult)) * St * Z :=
  match funcs with
  | [] => ([], s, permits)
  | f :: fs =>
      let '(r, s, permits) := with_bulkhead f permits s in
      let '(rs, s, permits) := bulkhead_calls fs permits s in (r :: rs, s, permits)
  end.
End Recovery.

(** [with_timeout]: the function runs in a thread of its own and takes [duration],
    or never ends ([None]).  When the wait ends first, the result is a time-out, but
    the destructor of the future then waits for the thread.  The result comes with
    the time after which the call returns; [None] is a call that does not return. *)
Definition with_timeout {T} (timeout : Z) (run : option (Z * outcome (Result T))) : option (outcome (Result T) * Z) :=
  match run with
  | Some (duration, result) =>
      if timeout <? duration then Some (Ret (error_result TIMEOUT $"Operation timed out" []), duration)
      else Some (result, duration)
  | None => None
  end.

(** ** Properties *)

(** The specialisation for [void] is the general template at the unit type. *)
Lemma expected_void_agrees {E F U : Type} (x y : expected () E) (f : () -> U) (g : E -> F) (h : () -> expected U E) eqE :
  void_has_value x = has_value x /\ void_value x = value x /\ void_error x = error x
  /\ void_transform f x = transform f x /\ void_transform_error g x = transform_error g x
  /\ void_and_then h x = and_then h x /\ void_or_else g x = or_else g x
  /\ void_eqb eqE x y = expected_eqb (fun _ _ => true) eqE x y.
Proof. by destruct x as [[]|], y as [[]|]. Qed.

Lemma fixed_retry_spec {St : Type} (func : St -> VoidResult * St) (left : nat) (delay : Z) (s : St) :
  exists r s' n, retry_loop func fixed_pause 0 left delay s [] = Ret (r, s', replicate (pred n) delay)
    /\ (n <= left)%nat /\ s' = state_after func n s
    /\ (forall i, (i < pred n)%nat -> has_value (result_at func i s) = false)
    /\ (if has_value r then (0 < n)%nat /\ r = result_at func (pred n) s
        else n = left /\ r = Unexpected retry_failure /\ forall i, (i < n)%nat -> has_value (result_at func i s) = false).
Proof.
  assert (G : forall k d s sleeps r s' out, retry_loop func fixed_pause k left d s sleeps = Ret (r, s', out) ->
    exists m, out = sleeps ++ replicate m d).
  { induction left as [|left IH]; intros k d s0 sleeps r s' out; cbn [retry_loop].
    - intros [= <- <- <-]. exists O. by rewrite app_nil_r.
    - destruct (func s0) as [res s1]. destruct (has_value res); [intros [= <- <- <-]; exists O; by rewrite app_nil_r|].
      destruct left as [|left]; [apply IH|]. cbn [fixed_pause mbind outcome_bind]. intros (m & ->)%IH. exists (S m).
      by rewrite <- app_assoc. }
  destruct (retry_loop_spec func fixed_pause left 0 delay s [] (fun _ _ => True)) as (r & s' & n & extra & Hrun & Hn & Hs & Hl & H1 & H2);
    [by eauto|done|]. destruct (G _ _ _ _ _ _ _ Hrun) as [m Hm]. cbn in Hm. subst extra. rewrite length_replicate in Hl. subst m.
  exists r, s', n. done.
Qed.

(** Recovery hides failure.  [retry], [fallback], [fallback_chain] and
    [with_bulkhead] wrap the result of their function in another result, and that
    outer result has a value whenever the call returns, also when every attempt
    failed; the failure is in the value.  Apart from the wrapping, [retry] calls the
    function until its first success, at most [max_attempts] times, with the same
    pause between two calls. *)
Theorem recovery_hides_failure {St T : Type} (func : St -> expected () ErrorInfo * St)
    (f1 f2 f3 : St -> expected T ErrorInfo * St) (g : St -> outcome (expected () ErrorInfo) * St) (max_attempts delay permits : Z) (s : St) :
  (exists r s' n, retry func max_attempts delay s = Ret (Value r, s', replicate (pred n) delay)
    /\ (n <= Z.to_nat max_attempts)%nat /\ s' = state_after func n s
    /\ (forall i, (i < pred n)%nat -> has_value (result_at func i s) = false)
    /\ (if has_value r then (0 < n)%nat /\ r = result_at func (pred n) s
        else n = Z.to_nat max_attempts /\ r = Unexpected retry_failure
             /\ forall i, (i < n)%nat -> has_value (result_at func i s) = false))
  /\ has_value (fst (fallback f1 f2 s)) = true
  /\ has_value (fst (fallback_chain f1 f2 f3 s)) = true
  /\ (forall r s' p, with_bulkhead g permits s = (Ret r, s', p) -> has_value r = true).
Proof.
  split_and!.
  - destruct (fixed_retry_spec func (Z.to_nat max_attempts) delay s) as (r & s' & n & Hrun & H). exists r, s', n.
    split; [unfold retry; by rewrite Hrun|done].
  - unfold fallback. destruct (f1 s) as [r s1], (has_value r); [done|]. by destruct (f2 s1).
  - unfold fallback_chain. destruct (f1 s) as [r s1], (has_value r); [done|]. destruct (f2 s1) as [r2 s2], (has_value r2); [done|].
    by destruct (f3 s2).
  - intros r s' p. unfold with_bulkhead. destruct (permits <=? 0); [by intros [= <- _ _]|].
    destruct (g s) as [[res|e|] s1]; [by intros [= <- _ _]|done|done].
Qed.

(** The permits of a bulkhead: whatever is called, a call that returns gives its
    permit back and a call that throws keeps it for good, so the permits left are
    the capacity less the calls that did not return, never below zero; with none
    left the function is not called and the answer is the refusal. *)
Theorem bulkhead_permits {St : Type} (funcs : list (St -> outcome (expected () ErrorInfo) * St)) (capacity : Z) (s : St) :
  0 <= capacity ->
  let '(rs, s', permits) := bulkhead_calls funcs capacity s in
  permits = capacity - Z.of_nat (length (List.filter (fun r => negb (returns r)) rs)) /\ 0 <= permits
  /\ (permits = 0 -> forall f, with_bulkhead f permits s'
       = (Ret (Value (error_result RESOURCE_EXHAUSTED $"Bulkhead capacity exceeded" [])), s', 0)).
Proof.
  revert capacity s. induction funcs as [|f fs IH]; intros capacity s Hc; cbn [bulkhead_calls].
  { cbn. split_and!; [lia|lia|]. by intros ->. }
  unfold with_bulkhead at 1. destruct (Z.leb_spec capacity 0).
  - specialize (IH capacity s Hc). destruct (bulkhead_calls fs capacity s) as [[rs s'] p]. done.
  - destruct (f s) as [[r|e|] s1].
    + specialize (IH (capacity - 1 + 1) s1 ltac:(lia)). destruct (bulkhead_calls fs _ s1) as [[rs s'] p]. cbn.
      destruct IH as (H1 & H2 & H3). split_and!; [lia|lia|done].
    + specialize (IH (capacity - 1) s1 ltac:(lia)). destruct (bulkhead_calls fs _ s1) as [[rs s'] p]. cbn.
      destruct IH as (H1 & H2 & H3). split_and!; [lia|lia|done].
    + specialize (IH (capacity - 1) s1 ltac:(lia)). destruct (bulkhead_calls fs _ s1) as [[rs s'] p]. cbn.
      destruct IH as (H1 & H2 & H3). split_and!; [lia|lia|done].
Qed.

(** A time-out does not end the call: it returns when the function does, and not
    at all when the function does not. *)
Lemma timeout_waits {T : Type} (timeout : Z) (run : option (Z * outcome (expected T ErrorInfo))) :
  snd <$> with_timeout timeout run = fst <$> run.
Proof. destruct run as [[d r]|]; [|done]. cbn. by destruct (timeout <? d). Qed.

(** A function that always throws, and counts its calls. *)
Definition demo_failing (n : nat) : outcome (expected () ErrorInfo) * nat := (Throw (runtime_error "down"), S n).

Lemma bulkhead_permits_witness :
  bulkhead_calls [demo_failing; demo_failing] 2 O
    = ([Throw (runtime_error "down"); Throw (runtime_error "down")], 2%nat, 0)
  /\ forall f, with_bulkhead f 0 2%nat = (Ret (Value (error_result RESOURCE_EXHAUSTED $"Bulkhead capacity exceeded" [])), 2%nat, 0).
Proof.
  split; [reflexivity|]. destruct (bulkhead_permits [demo_failing; demo_failing] 2 O) as (_ & _ & H); [lia|]. apply H. reflexivity.
Defined.
