(* ===== verification/Serialization.v ===== *)
(** * Protobuf serialisation
    (serialization/serializer.hpp, serializer.cpp, proto/*.proto)

    The messages are records with the fields of the .proto files; a sub-message
    is the value its accessor shows, the default one when it is absent, and a
    [bytes] field is a list of bytes.  The classes protoc generates and the
    protobuf runtime are not part of the repository: the class [Message] is the
    parameter that stands for a message type's wire functions, and [MessageLaws]
    states what the runtime documents, that a message whose size fits an [int] is
    written in that many bytes and read back.

    A function that can throw and also returns [Result<T>] has the type
    [outcome (Result T)].  A const argument whose hash cache is filled comes back
    with the result. *)

From stdpp Require Import base list gmap numbers strings.
From Stdlib Require Import ZArith Lia Ascii.
From S2P Require Import Prelude CString ErrorHandling Hash Address Amount Timestamp Transaction Merkle Block.

(** ** Results *)

Inductive SerializationError : Type :=
  | INVALID_DATA | BUFFER_TOO_SMALL | UNSUPPORTED_VERSION | CORRUPTED_DATA | ENCODING_ERROR.

#[export] Instance SerializationError_eq_dec : EqDecision SerializationError.
Proof. solve_decision. Defined.

(** What [make_serialization_error] records besides the place in the file. *)
Record SerError : Type := make_serialization_error {
  ser_code : SerializationError;
  ser_message : list ascii
}.

#[export] Instance SerError_eq_dec : EqDecision SerError.
Proof. solve_decision. Defined.

Abbreviation SerializationResult T := (expected T SerError).

Declare Scope ser_scope.
Delimit Scope ser_scope with ser.
#[local] Open Scope ser_scope.

(** [auto r = m; if (!r.has_value()) return r.error(); k(r.value())]. *)
Definition try_result {A B} (m : outcome (SerializationResult A)) (k : A -> outcome (SerializationResult B)) : outcome (SerializationResult B) :=
  r ← m; match r with Value a => k a | Unexpected e => Ret (Unexpected e) end.
Notation "x ⇐ m ; k" := (try_result m (fun x => k))
  (at level 20, m at level 100, k at level 200, right associativity) : ser_scope.

Definition exn_what (e : exn) : string :=
  match e with
  | invalid_argument w | out_of_range w | overflow_error w | underflow_error w | domain_error w
  | length_error w | runtime_error w | library_error w => w
  | bad_alloc => "std::bad_alloc"
  | bad_function_call => "bad_function_call"
  | bad_variant_access => "bad_variant_access"
  end.

(** ** Messages *)

Record ProtoHash : Type := mkProtoHash { ph_data : list Z }.
Record ProtoAddress : Type := mkProtoAddress { pa_data : list Z }.
Record ProtoAmount : Type := mkProtoAmount { pm_value : list Z }.
Record ProtoTimestamp : Type := mkProtoTimestamp { pt_seconds : Z; pt_nanoseconds : Z }.
Record ProtoPublicKey : Type := mkProtoPublicKey { pk_data : list Z }.
Record ProtoSignature : Type := mkProtoSignature { ps_data : list Z }.

Record ProtoTxInput : Type := mkProtoTxInput {
  in_prev_tx_hash : list Z;
  in_output_index : Z;
  in_signature : ProtoSignature;
  in_pubkey : ProtoPublicKey
}.

Record ProtoTxOutput : Type := mkProtoTxOutput { out_amount : ProtoAmount; out_recipient : ProtoAddress }.

Record ProtoTransaction : Type := mkProtoTransaction {
  px_version : Z;
  px_inputs : list ProtoTxInput;
  px_outputs : list ProtoTxOutput;
  px_gas_limit : Z;
  px_gas_price : ProtoAmount;
  px_data : list Z;
  px_nonce : Z;
  px_timestamp : ProtoTimestamp;
  px_tx_hash : ProtoHash
}.

Record ProtoBlockHeader : Type := mkProtoBlockHeader {
  ph_version : Z;
  ph_prev_block_hash : ProtoHash;
  ph_merkle_root : ProtoHash;
  ph_timestamp : ProtoTimestamp;
  ph_difficulty : Z;
  ph_nonce : Z;
  ph_height : Z;
  ph_extra_data : list Z
}.

Record ProtoBlock : Type := mkProtoBlock {
  pb_header : ProtoBlockHeader;
  pb_transactions : list ProtoTransaction;
  pb_block_hash : ProtoHash;
  pb_tx_count : Z
}.

(** The values a message of the C++ classes can have. *)
Definition proto_timestamp_ok (m : ProtoTimestamp) : Prop := is_u64 (pt_seconds m) /\ is_u32 (pt_nanoseconds m).
Definition proto_input_ok (m : ProtoTxInput) : Prop :=
  bytes_ok (in_prev_tx_hash m) /\ is_u32 (in_output_index m)
  /\ bytes_ok (ps_data (in_signature m)) /\ bytes_ok (pk_data (in_pubkey m)).
Definition proto_output_ok (m : ProtoTxOutput) : Prop :=
  bytes_ok (pm_value (out_amount m)) /\ bytes_ok (pa_data (out_recipient m)).
Definition proto_tx_ok (m : ProtoTransaction) : Prop :=
  is_u64 (px_version m) /\ Forall proto_input_ok (px_inputs m) /\ Forall proto_output_ok (px_outputs m)
  /\ is_u64 (px_gas_limit m) /\ bytes_ok (pm_value (px_gas_price m)) /\ bytes_ok (px_data m)
  /\ is_u64 (px_nonce m) /\ proto_timestamp_ok (px_timestamp m) /\ bytes_ok (ph_data (px_tx_hash m)).
Definition proto_header_ok (m : ProtoBlockHeader) : Prop :=
  is_u64 (ph_version m) /\ bytes_ok (ph_data (ph_prev_block_hash m)) /\ bytes_ok (ph_data (ph_merkle_root m))
  /\ proto_timestamp_ok (ph_timestamp m) /\ is_u64 (ph_difficulty m) /\ is_u64 (ph_nonce m)
  /\ is_u32 (ph_height m) /\ bytes_ok (ph_extra_data m).
Definition proto_block_ok (m : ProtoBlock) : Prop :=
  proto_header_ok (pb_header m) /\ Forall proto_tx_ok (pb_transactions m)
  /\ bytes_ok (ph_data (pb_block_hash m)) /\ is_u32 (pb_tx_count m).

(** ** The wire functions of a message type *)

Class Message (M : Type) : Type := {
  ByteSizeLong : M -> Z;
  (** [SerializeToArray(buffer, size)]: the bytes written, [None] for [false]. *)
  SerializeToArray : M -> Z -> option (list Z);
  (** [ParseFromArray(data, size)]: the message read, [None] for [false]. *)
  ParseFromArray : list Z -> Z -> option M
}.

Class MessageLaws (M : Type) {msg : Message M} (ok : M -> Prop) : Prop := {
  size_nonneg : forall m, 0 <= ByteSizeLong m;
  write_read : forall m, ok m -> ByteSizeLong m < 2147483648 ->
    exists bs, SerializeToArray m (ByteSizeLong m) = Some bs /\ Z.of_nat (length bs) = ByteSizeLong m
      /\ ParseFromArray bs (ByteSizeLong m) = Some m;
  read_ok : forall bs n m, ParseFromArray bs n = Some m -> ok m
}.

Definition serialize_to_bytes {M} `{Message M} (message : M) : SerializationResult (list Z) :=
  match SerializeToArray message (s32 (ByteSizeLong message)) with
  | Some result => Value result
  | None => Unexpected (make_serialization_error ENCODING_ERROR ($"Failed to serialize protobuf message"))
  end.

Definition parse_bytes {M} `{Message M} (what : string) (data : list Z) : SerializationResult M :=
  match ParseFromArray data (s32 (Z.of_nat (length data))) with
  | Some m => Value m
  | None => Unexpected (make_serialization_error CORRUPTED_DATA ($ what))
  end.

Definition deserialize_from_bytes {M} `{Message M} (data : list Z) : SerializationResult M :=
  parse_bytes "Failed to parse protobuf message" data.

(** ** Addresses, amounts, timestamps and hashes *)

Section Values.
Context `{Message ProtoAddress, Message ProtoAmount, Message ProtoTimestamp, Message ProtoHash}.

Definition serialize_address (addr : Address) : SerializationResult (list Z) :=
  serialize_to_bytes (mkProtoAddress (Address.to_bytes addr)).
Definition deserialize_address (data : list Z) : outcome (SerializationResult Address) :=
  proto_addr ⇐ Ret (parse_bytes "Failed to parse address protobuf" data);
  let addr_bytes := pa_data proto_addr in
  if negb (Nat.eqb (length addr_bytes) ADDRESS_SIZE) then
    Ret (Unexpected (make_serialization_error INVALID_DATA ($"Invalid address size")))
  else a ← Address_of_vector addr_bytes; Ret (Value a).

Definition serialize_amount (amount : Amount) : SerializationResult (list Z) :=
  serialize_to_bytes (mkProtoAmount (bytes_of_cstr (print_dec (wei amount)))).
Definition deserialize_amount (data : list Z) : outcome (SerializationResult Amount) :=
  proto_amount ⇐ Ret (parse_bytes "Failed to parse amount protobuf" data);
  try_catch (wei ← stoull 10 (cstr_of_bytes (pm_value proto_amount)); Ret (Value (from_wei wei)))
    (fun e => Ret (Unexpected (make_serialization_error INVALID_DATA ($"Failed to parse amount: " ++ $(exn_what e))))).

Definition serialize_timestamp (ts : Timestamp) : SerializationResult (list Z) :=
  serialize_to_bytes (mkProtoTimestamp (seconds ts) 0).
Definition deserialize_timestamp (data : list Z) : outcome (SerializationResult Timestamp) :=
  proto_ts ⇐ Ret (parse_bytes "Failed to parse timestamp protobuf" data);
  t ← from_seconds (pt_seconds proto_ts); Ret (Value t).

Definition serialize_hash (hash : Hash) : SerializationResult (list Z) :=
  serialize_to_bytes (mkProtoHash (Hash.to_bytes hash)).
Definition deserialize_hash (data : list Z) : outcome (SerializationResult Hash) :=
  proto_hash ⇐ Ret (parse_bytes "Failed to parse hash protobuf" data);
  let hash_bytes := ph_data proto_hash in
  if negb (Nat.eqb (length hash_bytes) HASH_SIZE) then
    Ret (Unexpected (make_serialization_error INVALID_DATA ($"Invalid hash size")))
  else h ← Hash_of_vector hash_bytes; Ret (Value h).
End Values.

(** ** Transactions *)

(** The message built for a transaction: one input that carries the sender, one
    output with the recipient and the amount in wei as text. *)
Definition transaction_message (tx : Transaction) (now : Timestamp) (tx_hash : Hash) : ProtoTransaction :=
  mkProtoTransaction 1
    [mkProtoTxInput [] 0 (mkProtoSignature []) (mkProtoPublicKey (Address.to_bytes (get_from tx)))]
    [mkProtoTxOutput (mkProtoAmount (bytes_of_cstr (print_dec (wei (get_value tx)))))
                     (mkProtoAddress (Address.to_bytes (get_to tx)))]
    (get_gas_limit tx)
    (mkProtoAmount (bytes_of_cstr (print_dec (get_gas_price tx))))
    (payload tx) (get_nonce tx)
    (mkProtoTimestamp (seconds now) 0)
    (mkProtoHash (Hash.to_bytes tx_hash)).

Section Transactions.
Context `{Message ProtoTransaction}.

(** [clock] is the reading of [Timestamp::now()]. *)
Definition serialize_transaction (clock : Z) (tx : Transaction) : outcome (SerializationResult (list Z) * Transaction) :=
  now ← now_timestamp clock;
  let '(tx_hash, tx) := Transaction.calculate_hash tx in
  Ret (serialize_to_bytes (transaction_message tx now tx_hash), tx).

Definition deserialize_transaction (data : list Z) : outcome (SerializationResult Transaction) :=
  proto_tx ⇐ Ret (parse_bytes "Failed to parse transaction protobuf" data);
  match px_inputs proto_tx with
  | [] => Ret (Unexpected (make_serialization_error INVALID_DATA ($"Transaction must have at least one input")))
  | input :: _ =>
      from ← Address_of_vector (pk_data (in_pubkey input));
      match px_outputs proto_tx with
      | [] => Ret (Unexpected (make_serialization_error INVALID_DATA ($"Transaction must have at least one output")))
      | output :: _ =>
          to ← Address_of_vector (pa_data (out_recipient output));
          amount ← from_string (cstr_of_bytes (pm_value (out_amount output)));
          let tx := Transaction_of from to amount in
          let tx := Transaction.set_nonce (px_nonce proto_tx) tx in
          let tx := Transaction.set_gas_limit (px_gas_limit proto_tx) tx in
          gas_price ← stoull 10 (cstr_of_bytes (pm_value (px_gas_price proto_tx)));
          let tx := Transaction.set_gas_price gas_price tx in
          let tx := match px_data proto_tx with [] => tx | _ => set_data (px_data proto_tx) tx end in
          Ret (Value tx)
      end
  end.
End Transactions.

(** ** Blocks *)

Section Blocks.
Context `{Message ProtoTransaction, Message ProtoBlock}.

(** The loop over the block's transactions: each one is serialised and parsed
    back into the message that is added to the block. *)
Fixpoint serialize_transactions (clock : nat -> Z) (i : nat) (txs : list Transaction) : outcome (SerializationResult (list ProtoTransaction) * list Transaction) :=
  match txs with
  | [] => Ret (Value [], [])
  | tx :: rest =>
      '(tx_result, tx) ← serialize_transaction (clock i) tx;
      match tx_result with
      | Unexpected e => Ret (Unexpected e, tx :: rest)
      | Value bytes =>
          match ParseFromArray bytes (s32 (Z.of_nat (length bytes))) with
          | None => Ret (Unexpected (make_serialization_error ENCODING_ERROR ($"Failed to parse transaction for block")), tx :: rest)
          | Some proto_tx =>
              '(proto_txs, rest) ← serialize_transactions clock (S i) rest;
              Ret (transform (cons proto_tx) proto_txs, tx :: rest)
          end
      end
  end.

Definition block_header_message (b : Block) (ts : Timestamp) : ProtoBlockHeader :=
  mkProtoBlockHeader 1 (mkProtoHash (parent_hash (header_ b))) (mkProtoHash (merkle_root (header_ b)))
    (mkProtoTimestamp (seconds ts) 0) 0 (block_nonce (header_ b)) (u32 (height (header_ b))) [].

Definition serialize_block (clock : nat -> Z) (b : Block) : outcome (SerializationResult (list Z) * Block) :=
  ts ← Timestamp_of_seconds (timestamp (header_ b));
  '(proto_txs, txs) ← serialize_transactions clock 0 (transactions_ b);
  let b := write_transactions (fun _ => txs) b in
  match proto_txs with
  | Unexpected e => Ret (Unexpected e, b)
  | Value proto_txs =>
      let '(block_hash, b) := Block.calculate_hash b in
      Ret (serialize_to_bytes (mkProtoBlock (block_header_message b ts) proto_txs (mkProtoHash (Hash.to_bytes block_hash))
                                 (u32 (Z.of_nat (length (transactions_ b))))), b)
  end.

Fixpoint deserialize_transactions (proto_txs : list ProtoTransaction) (b : Block) : outcome (SerializationResult Block) :=
  match proto_txs with
  | [] => Ret (Value b)
  | proto_tx :: rest =>
      match SerializeToArray proto_tx (s32 (ByteSizeLong proto_tx)) with
      | None => Ret (Unexpected (make_serialization_error ENCODING_ERROR ($"Failed to serialize transaction in block")))
      | Some tx_data =>
          tx ⇐ deserialize_transaction tx_data;
          deserialize_transactions rest (Block.add_transaction tx b)
      end
  end.

Definition deserialize_block (data : list Z) : outcome (SerializationResult Block) :=
  proto_block ⇐ Ret (parse_bytes "Failed to parse block protobuf" data);
  let proto_header := pb_header proto_block in
  parent ← Hash_of_vector (ph_data (ph_prev_block_hash proto_header));
  ts ← Timestamp_of_seconds (pt_seconds (ph_timestamp proto_header));
  let b := Block_of (ph_height proto_header) parent ts in
  let b := Block.set_nonce (ph_nonce proto_header) b in
  let b := Block.set_gas_limit 21000 b in
  let b := Block.set_gas_price 1000000000 b in
  let b := Block.set_chain_id 1 b in
  deserialize_transactions (pb_transactions proto_block) b.
End Blocks.

(** ** Lemmas *)

Lemma wire_roundtrip {M} {msg : Message M} (ok : M -> Prop) `{!MessageLaws M ok} (m : M) (what : string) :
  ok m -> ByteSizeLong m < 2147483648 ->
  exists bs, serialize_to_bytes m = Value bs /\ parse_bytes what bs = Value m
    /\ SerializeToArray m (s32 (ByteSizeLong m)) = Some bs
    /\ ParseFromArray bs (s32 (Z.of_nat (length bs))) = Some m.
Proof.
  intros Hok Hsz. destruct (write_read m Hok Hsz) as (bs & Hw & Hl & Hr).
  pose proof (size_nonneg (ok := ok) m) as Hpos. exists bs.
  unfold serialize_to_bytes, parse_bytes. rewrite Hl, !s32_small by lia. by rewrite Hw, Hr.
Qed.

(** A number printed in decimal has no decimal point, so [Amount::from_string]
    takes it for whole coins. *)
Lemma from_string_print_dec v : is_u64 v -> from_string (print_dec v) = Ret (mkAmount (v * WEI_PER_ETHER)%u64).
Proof.
  intros Hv. unfold from_string.
  assert (find_char "." (print_dec v) = None) as ->.
  { apply eq_None_not_Some. intros [n Hn]. apply (dot_not_digit v); [apply Hv|].
    revert n Hn. induction (print_dec v) as [|c s IH]; intros n Hn; [done|]. cbn [find_char] in Hn.
    destruct (Ascii.eqb_spec "." c) as [<-|]; [by left|].
    apply fmap_Some in Hn as (k & Hk & _). right. by apply (IH k). }
  by rewrite stoull_print_dec.
Qed.

(** What a transaction's fields become on the wire: the value is multiplied by
    10^18, modulo 2^64. *)
Definition wire_data (d : TransactionData) : TransactionData :=
  mkTransactionData (from d) (to d) (u64 (value d * WEI_PER_ETHER)) (gas_limit d) (gas_price d) (data d) (nonce d).

Lemma wire_data_exact d : is_u64 (value d) -> wire_data d = d <-> value d = 0.
Proof.
  intros Hv. unfold wire_data, is_u64, u64 in *. split.
  - intros H. apply (f_equal value) in H. cbn [value] in H.
    assert (Hdiv : (U64_MOD | (WEI_PER_ETHER - 1) * value d)).
    { exists (value d * WEI_PER_ETHER / U64_MOD). pose proof (Z.div_mod (value d * WEI_PER_ETHER) U64_MOD). lia. }
    apply Z.gauss in Hdiv; [|vm_compute; reflexivity]. destruct Hdiv as [k Hk]. lia.
  - intros H. destruct d; simpl in *. by subst.
Qed.

Lemma tx_message_ok tx now h : txdata_wf (Transaction.data_ tx) -> timestamp_wf now -> bytes_ok (Hash.data_ h) ->
  proto_tx_ok (transaction_message tx now h).
Proof.
  intros (Hfl & Hf & Htl & Ht & Hv & Hg & Hp & Hd & Hn) Hts Hh.
  unfold proto_tx_ok, transaction_message, proto_timestamp_ok. simpl.
  split_and!; try done; try (repeat constructor); try apply bytes_of_cstr_ok; try done.
Qed.

Lemma timestamp_of_u64 s : is_u64 s -> Timestamp_of_seconds s = Ret (mkTimestamp s).
Proof.
  intros Hs. unfold is_u64 in Hs. unfold Timestamp_of_seconds, validate_timestamp, is_valid_timestamp.
  rewrite (proj2 (Z.leb_le MIN_VALUE s)) by (unfold MIN_VALUE; lia).
  by rewrite (proj2 (Z.leb_le s MAX_VALUE)) by (unfold MAX_VALUE; lia).
Qed.

(** The clock reading as a timestamp. *)
Definition reading (clock : Z) : Timestamp := mkTimestamp (seconds_of_ns clock).

Lemma reading_wf clock : timestamp_wf (reading clock).
Proof. apply u64_range. Qed.
Lemma now_timestamp_ret clock : now_timestamp clock = Ret (reading clock).
Proof. apply timestamp_of_u64, u64_range. Qed.

Lemma address_of_vector_ret l : length l = ADDRESS_SIZE -> Address_of_vector l = Ret (mkAddress l).
Proof. intros H. unfold Address_of_vector. by rewrite H, Nat.eqb_refl. Qed.
Lemma hash_of_vector_ret l : length l = HASH_SIZE -> Hash_of_vector l = Ret (mkHash l).
Proof. intros H. unfold Hash_of_vector. by rewrite H, Nat.eqb_refl. Qed.

Section TransactionLemmas.
Context {msg : Message ProtoTransaction} `{!MessageLaws ProtoTransaction proto_tx_ok}.

(** Reading the message of a transaction back. *)
Lemma deserialize_message tx now h bs :
  txdata_wf (Transaction.data_ tx) ->
  parse_bytes "Failed to parse transaction protobuf" bs = Value (transaction_message tx now h) ->
  deserialize_transaction bs = Ret (Value (Transaction_of_data (wire_data (Transaction.data_ tx)))).
Proof.
  intros (Hfl & Hf & Htl & Ht & Hv & Hg & Hp & Hd & Hn) Hparse. unfold deserialize_transaction, try_result. rewrite Hparse. simpl.
  unfold get_from, get_to, get_value, get_gas_price, Address.to_bytes. simpl.
  rewrite !address_of_vector_ret by done. simpl.
  rewrite !cstr_of_bytes_of_cstr, from_string_print_dec, stoull_print_dec by done. simpl.
  unfold payload, get_gas_limit, get_nonce. destruct (Transaction.data_ tx) as [f t v g p [|c dt] n]; done.
Qed.

(** The message of a transaction, with the clock reading it is stamped with. *)
Definition tx_message (clock : Z) (tx : Transaction) : ProtoTransaction :=
  transaction_message tx (reading clock) (digest tx).

Lemma tx_message_wf clock tx : txdata_wf (Transaction.data_ tx) -> proto_tx_ok (tx_message clock tx).
Proof. intros Hwf. apply tx_message_ok; [done|apply reading_wf|by apply digest_wf]. Qed.

Lemma serialize_transaction_spec clock tx :
  cache_ok tx ->
  serialize_transaction clock tx = Ret (serialize_to_bytes (tx_message clock tx), snd (Transaction.calculate_hash tx)).
Proof.
  intros Hc. unfold serialize_transaction. rewrite now_timestamp_ret. simpl.
  pose proof (calculate_hash_cached tx Hc) as Hh. pose proof (calculate_hash_data tx) as Hd.
  destruct (Transaction.calculate_hash tx) as [h tx']. simpl in *. subst h. unfold tx_message.
  unfold transaction_message, get_from, get_to, get_value, get_gas_limit, get_gas_price, payload, get_nonce. by rewrite Hd.
Qed.

Lemma tx_wire clock tx :
  txdata_wf (Transaction.data_ tx) -> ByteSizeLong (tx_message clock tx) < 2147483648 ->
  exists bs, serialize_to_bytes (tx_message clock tx) = Value bs
    /\ SerializeToArray (tx_message clock tx) (s32 (ByteSizeLong (tx_message clock tx))) = Some bs
    /\ ParseFromArray bs (s32 (Z.of_nat (length bs))) = Some (tx_message clock tx)
    /\ deserialize_transaction bs = Ret (Value (Transaction_of_data (wire_data (Transaction.data_ tx)))).
Proof.
  intros Hwf Hsz.
  destruct (wire_roundtrip proto_tx_ok _ "Failed to parse transaction protobuf" (tx_message_wf clock tx Hwf) Hsz) as (bs & H1 & H2 & H3 & H4).
  exists bs. split_and!; try done. by eapply deserialize_message.
Qed.

(** ** The block's transactions *)

Fixpoint tx_messages (clock : nat -> Z) (i : nat) (txs : list Transaction) : list ProtoTransaction :=
  match txs with [] => [] | tx :: rest => tx_message (clock i) tx :: tx_messages clock (S i) rest end.

(** The transactions that can be written, and messages the runtime can write. *)
Definition tx_ready (tx : Transaction) : Prop := txdata_wf (Transaction.data_ tx) /\ cache_ok tx.
Definition fits (m : ProtoTransaction) : Prop := ByteSizeLong m < 2147483648.

Lemma tx_messages_ok clock i txs : Forall tx_ready txs -> Forall proto_tx_ok (tx_messages clock i txs).
Proof. intros H. revert i. induction H as [|tx txs [Hwf _] H IH]; intros i; constructor; [by apply tx_message_wf|apply IH]. Qed.

Lemma serialize_transactions_spec clock i txs :
  Forall tx_ready txs -> Forall fits (tx_messages clock i txs) ->
  serialize_transactions clock i txs
  = Ret (Value (tx_messages clock i txs), map (fun tx => snd (Transaction.calculate_hash tx)) txs).
Proof.
  intros H. revert i. induction H as [|tx txs (Hwf & Hc) H IH]; intros i Hsz; [done|].
  apply Forall_cons in Hsz as [Hsz Hrest].
  cbn [serialize_transactions]. rewrite serialize_transaction_spec by done.
  destruct (tx_wire (clock i) tx Hwf Hsz) as (bs & H1 & _ & H3 & _). simpl. rewrite H1, H3. simpl. by rewrite IH by done.
Qed.

Lemma deserialize_transactions_spec clock i txs b :
  Forall tx_ready txs -> Forall fits (tx_messages clock i txs) ->
  deserialize_transactions (tx_messages clock i txs) b
  = Ret (Value (fold_left (fun b tx => Block.add_transaction (Transaction_of_data (wire_data (Transaction.data_ tx))) b) txs b)).
Proof.
  intros H. revert i b. induction H as [|tx txs (Hwf & Hc) H IH]; intros i b Hsz; [done|].
  apply Forall_cons in Hsz as [Hsz Hrest].
  cbn [tx_messages deserialize_transactions fold_left].
  destruct (tx_wire (clock i) tx Hwf Hsz) as (bs & _ & H2 & _ & H4). rewrite H2. unfold try_result. rewrite H4. by apply IH.
Qed.
End TransactionLemmas.

(** Adding transactions keeps the header up to its Merkle root. *)
Lemma add_transaction_frame tx b :
  map Transaction.data_ (transactions_ (Block.add_transaction tx b)) = map Transaction.data_ (transactions_ b) ++ [Transaction.data_ tx]
  /\ with_merkle_root [] (header_ (Block.add_transaction tx b)) = with_merkle_root [] (header_ b).
Proof.
  unfold Block.add_transaction, update_merkle_root, calculate_merkle_root. rewrite hash_transactions_spec. simpl.
  split; [|done]. rewrite map_map.
  rewrite (map_ext (fun x => Transaction.data_ (snd (Transaction.calculate_hash x))) Transaction.data_) by (intros; apply calculate_hash_data).
  by rewrite map_app.
Qed.

Lemma add_transactions_frame {A} (f : A -> Transaction) txs b :
  let b' := fold_left (fun b tx => Block.add_transaction (f tx) b) txs b in
  map Transaction.data_ (transactions_ b') = map Transaction.data_ (transactions_ b) ++ map (fun tx => Transaction.data_ (f tx)) txs
  /\ with_merkle_root [] (header_ b') = with_merkle_root [] (header_ b).
Proof.
  revert b. induction txs as [|tx txs IH]; intros b; simpl; [by rewrite app_nil_r|].
  destruct (IH (Block.add_transaction (f tx) b)) as [H1 H2]. destruct (add_transaction_frame (f tx) b) as [H3 H4].
  rewrite H1, H2, H3, H4. by rewrite <- app_assoc.
Qed.

(** ** Reading untrusted bytes *)

(** [safe P m]: the evaluation has a meaning, and a returned value satisfies [P]. *)
Definition safe {A} (P : A -> Prop) (m : outcome A) : Prop :=
  match m with Ret a => P a | Throw _ => True | Undefined => False end.

Lemma safe_bind {A B} (P : A -> Prop) (Q : B -> Prop) (m : outcome A) (k : A -> outcome B) :
  safe P m -> (forall a, P a -> safe Q (k a)) -> safe Q (m ≫= k).
Proof. destruct m; simpl; auto. Qed.

Lemma stoull_safe s : safe is_u64 (stoull 10 s).
Proof.
  unfold stoull, strto. destruct (take_sign (skip_space s)) as [neg s1].
  destruct (lead_digits 10 (skip_prefix 10 s1)) as [|d ds] eqn:E; [done|].
  assert (H : 0 <= digits_value 10 (d :: ds)).
  { apply digits_value_nonneg; [lia|]. rewrite <- E. apply lead_digits_range. }
  destruct (Z.leb_spec (digits_value 10 (d :: ds)) U64_MAX); [|done].
  destruct neg; simpl; [apply u64_range|]. unfold is_u64. simpl in *. lia.
Qed.

Lemma from_string_safe s : safe amount_wf (from_string s).
Proof.
  unfold from_string. destruct (find_char "." s).
  - apply (safe_bind is_u64); [apply stoull_safe|]. intros w _.
    apply (safe_bind (fun _ => True)); [unfold stoul; repeat case_match; done|]. intros f _.
    unfold Amount_of_parts. case_match; [done|]. apply u64_range.
  - apply (safe_bind is_u64); [apply stoull_safe|]. intros w _. apply u64_range.
Qed.

Lemma address_of_vector_safe l : bytes_ok l -> safe address_wf (Address_of_vector l).
Proof.
  intros Hb. unfold Address_of_vector. destruct (Nat.eqb_spec (length l) ADDRESS_SIZE); simpl; [|done]. by split.
Qed.

(** ** Properties *)

Section TransactionProperties.
Context {msg : Message ProtoTransaction} `{!MessageLaws ProtoTransaction proto_tx_ok}.

(** C21: the wire form of a transaction.  Reading back what was written gives the
    sender, the recipient, gas, data and nonce, but the value, written in wei, is
    read as whole coins: it comes back multiplied by 10^18 modulo 2^64, and so
    the round trip is exact for the value 0 only. *)
Theorem tx_wire_roundtrip (clock : Z) (tx : Transaction) :
  txdata_wf (Transaction.data_ tx) -> cache_ok tx -> ByteSizeLong (tx_message clock tx) < 2147483648 ->
  exists bs tx', serialize_transaction clock tx = Ret (Value bs, tx') /\ Transaction.data_ tx' = Transaction.data_ tx
    /\ deserialize_transaction bs = Ret (Value (Transaction_of_data (wire_data (Transaction.data_ tx))))
    /\ (wire_data (Transaction.data_ tx) = Transaction.data_ tx <-> value (Transaction.data_ tx) = 0).
Proof.
  intros Hwf Hc Hsz. destruct (tx_wire clock tx Hwf Hsz) as (bs & H1 & _ & _ & H4).
  exists bs, (snd (Transaction.calculate_hash tx)). rewrite serialize_transaction_spec, H1 by done.
  split_and!; [done|apply calculate_hash_data|done|]. apply wire_data_exact, Hwf.
Qed.

(** Reading a transaction from arbitrary bytes never runs into undefined
    behaviour, and a transaction it returns has all its fields in range; but a
    parsed message whose address has the wrong size makes it throw instead of
    returning an error. *)
Theorem deserialize_transaction_safe (data : list Z) :
  safe (fun r => match r with Value tx => txdata_wf (Transaction.data_ tx) /\ cached_hash_ tx = None | Unexpected _ => True end)
    (deserialize_transaction data)
  /\ (forall m i, parse_bytes "Failed to parse transaction protobuf" data = Value m -> px_inputs m !! 0%nat = Some i ->
        length (pk_data (in_pubkey i)) <> ADDRESS_SIZE ->
        deserialize_transaction data = Throw (invalid_argument "Invalid data size for address")).
Proof.
  unfold deserialize_transaction, try_result. split.
  - unfold parse_bytes. destruct (ParseFromArray data _) as [m|] eqn:E; [|done]. simpl.
    apply read_ok in E as (_ & Hin & Hout & Hg & _ & Hd & Hn & _ & _).
    destruct Hin as [|i ? Hi _]; [done|]. apply (safe_bind address_wf); [apply address_of_vector_safe, Hi|]. intros f [Hf1 Hf2].
    destruct Hout as [|o ? Ho _]; [done|]. apply (safe_bind address_wf); [apply address_of_vector_safe, Ho|]. intros t [Ht1 Ht2].
    apply (safe_bind amount_wf); [apply from_string_safe|]. intros a Ha.
    apply (safe_bind is_u64); [apply stoull_safe|]. intros p Hp. simpl.
    destruct (px_data m); (split; [|done]); unfold txdata_wf; simpl; split_and!; done.
  - intros m i -> Hi Hl. simpl. destruct (px_inputs m) as [|i' l]; [done|]. injection Hi as ->.
    unfold Address_of_vector. by destruct (Nat.eqb_spec (length (pk_data (in_pubkey i))) ADDRESS_SIZE).
Qed.
End TransactionProperties.

Section BlockProperties.
Context {txm : Message ProtoTransaction} `{!MessageLaws ProtoTransaction proto_tx_ok}.
Context {blm : Message ProtoBlock} `{!MessageLaws ProtoBlock proto_block_ok}.

(** The message a block is written as. *)
Definition block_message (clock : nat -> Z) (b : Block) : ProtoBlock :=
  mkProtoBlock (block_header_message b (mkTimestamp (timestamp (header_ b)))) (tx_messages clock 0 (transactions_ b))
    (mkProtoHash (Hash.data_ (fst (Block.calculate_hash b)))) (u32 (Z.of_nat (length (transactions_ b)))).

(** What the header keeps: the rest is replaced by fixed values. *)
Definition wire_header (h : BlockHeader) : BlockHeader :=
  mkBlockHeader (u32 (height h)) (parent_hash h) [] (timestamp h) (block_nonce h) 21000 1000000000 1.

Lemma block_message_ok clock b :
  header_wf (header_ b) -> Forall tx_ready (transactions_ b) -> bytes_ok (Hash.data_ (fst (Block.calculate_hash b))) ->
  proto_block_ok (block_message clock b).
Proof.
  intros (H1 & H2 & H3 & H4 & H5 & H6 & H7 & H8 & H9 & H10) Ht Hh.
  unfold proto_block_ok, proto_header_ok, proto_timestamp_ok, block_message. simpl.
  split_and!; try done; try apply u32_range; [by constructor|by apply tx_messages_ok].
Qed.

Lemma serialize_block_spec clock b :
  is_u64 (timestamp (header_ b)) -> Forall tx_ready (transactions_ b) -> Forall fits (tx_messages clock 0 (transactions_ b)) ->
  exists b', serialize_block clock b = Ret (serialize_to_bytes (block_message clock b), b') /\ header_ b' = header_ b.
Proof.
  intros Ht Hf Hm. unfold serialize_block. rewrite timestamp_of_u64 by done. cbn [mbind outcome_bind].
  rewrite serialize_transactions_spec by done. cbn [mbind outcome_bind].
  unfold block_message, Block.calculate_hash, calculate_hash_with. simpl.
  destruct (block_cached_hash_ b); simpl; eexists; rewrite length_map; split; done.
Qed.

(** C35: the wire form of a block.  Reading back what was written gives the parent
    hash, the time stamp, the nonce and the transactions in order, each as its own
    wire form; the height is cut to 32 bits, and the gas limit, the gas price and
    the chain id are replaced by fixed values. *)
Theorem block_wire_roundtrip (clock : nat -> Z) (b : Block) :
  header_wf (header_ b) -> Forall tx_ready (transactions_ b) -> bytes_ok (Hash.data_ (fst (Block.calculate_hash b))) ->
  Forall fits (tx_messages clock 0 (transactions_ b)) -> ByteSizeLong (block_message clock b) < 2147483648 ->
  exists bs b1 b2, serialize_block clock b = Ret (Value bs, b1) /\ header_ b1 = header_ b
    /\ deserialize_block bs = Ret (Value b2)
    /\ map Transaction.data_ (transactions_ b2) = map (fun tx => wire_data (Transaction.data_ tx)) (transactions_ b)
    /\ with_merkle_root [] (header_ b2) = wire_header (header_ b).
Proof.
  intros Hh Hf Hb Hm Hsz. pose proof Hh as (_ & Hp & _ & _ & _ & Ht & _).
  destruct (wire_roundtrip proto_block_ok _ "Failed to parse block protobuf" (block_message_ok clock b Hh Hf Hb) Hsz) as (bs & H1 & H2 & _).
  destruct (serialize_block_spec clock b Ht Hf Hm) as (b1 & Hs & Hb1). rewrite H1 in Hs.
  exists bs, b1. eapply ex_intro. split_and!; [done|done| | |].
  - unfold deserialize_block, try_result. rewrite H2. simpl. rewrite hash_of_vector_ret, timestamp_of_u64 by done. simpl.
    by rewrite deserialize_transactions_spec.
  - by rewrite (proj1 (add_transactions_frame _ _ _)).
  - by rewrite (proj2 (add_transactions_frame _ _ _)).
Qed.
End BlockProperties.

(** Addresses, amounts, time stamps and hashes survive the wire unchanged. *)
Theorem values_wire_roundtrip
    {ma : Message ProtoAddress} {mm : Message ProtoAmount} {mt : Message ProtoTimestamp} {mh : Message ProtoHash}
    {_ : MessageLaws ProtoAddress (fun m => bytes_ok (pa_data m))} {_ : MessageLaws ProtoAmount (fun m => bytes_ok (pm_value m))}
    {_ : MessageLaws ProtoTimestamp proto_timestamp_ok} {_ : MessageLaws ProtoHash (fun m => bytes_ok (ph_data m))}
    (a : Address) (v : Amount) (t : Timestamp) (h : Hash) :
  (address_wf a -> ByteSizeLong (mkProtoAddress (Address.data_ a)) < 2147483648 ->
     exists bs, serialize_address a = Value bs /\ deserialize_address bs = Ret (Value a))
  /\ (amount_wf v -> ByteSizeLong (mkProtoAmount (bytes_of_cstr (print_dec (wei_ v)))) < 2147483648 ->
        exists bs, serialize_amount v = Value bs /\ deserialize_amount bs = Ret (Value v))
  /\ (timestamp_wf t -> ByteSizeLong (mkProtoTimestamp (seconds_ t) 0) < 2147483648 ->
        exists bs, serialize_timestamp t = Value bs /\ deserialize_timestamp bs = Ret (Value t))
  /\ (hash_wf h -> ByteSizeLong (mkProtoHash (Hash.data_ h)) < 2147483648 ->
        exists bs, serialize_hash h = Value bs /\ deserialize_hash bs = Ret (Value h)).
Proof.
  split_and!.
  - intros [Hl Hb] Hsz. destruct (wire_roundtrip (fun m => bytes_ok (pa_data m)) (mkProtoAddress (Address.data_ a)) "Failed to parse address protobuf" Hb Hsz) as (bs & Ew & Er & _).
    exists bs. split; [done|]. unfold deserialize_address, try_result. rewrite Er. simpl.
    rewrite address_of_vector_ret, Hl by done. by destruct a.
  - intros Hv Hsz. destruct (wire_roundtrip (fun m => bytes_ok (pm_value m)) (mkProtoAmount _) "Failed to parse amount protobuf" (bytes_of_cstr_ok (print_dec (wei_ v))) Hsz) as (bs & Ew & Er & _).
    exists bs. split; [done|]. unfold deserialize_amount, try_result. rewrite Er. simpl.
    rewrite cstr_of_bytes_of_cstr, stoull_print_dec by done. by destruct v.
  - intros Ht Hsz. destruct (wire_roundtrip proto_timestamp_ok (mkProtoTimestamp (seconds_ t) 0) "Failed to parse timestamp protobuf") as (bs & Ew & Er & _); [by split|done|].
    exists bs. split; [done|]. unfold deserialize_timestamp, try_result. rewrite Er. simpl. unfold from_seconds.
    rewrite timestamp_of_u64 by done. by destruct t.
  - intros [Hl Hb] Hsz. destruct (wire_roundtrip (fun m => bytes_ok (ph_data m)) (mkProtoHash (Hash.data_ h)) "Failed to parse hash protobuf" Hb Hsz) as (bs & Ew & Er & _).
    exists bs. split; [done|]. unfold deserialize_hash, try_result. rewrite Er. simpl.
    rewrite hash_of_vector_ret, Hl by done. by destruct h.
Qed.

(** ** A concrete codec

    The laws can hold: numbering the messages and writing the number in binary,
    one digit per byte, satisfies them. *)

Fixpoint pos_bits (p : positive) : list Z :=
  match p with xH => [] | xO p => 0 :: pos_bits p | xI p => 1 :: pos_bits p end.
Fixpoint bits_pos (l : list Z) : positive :=
  match l with [] => xH | b :: l => if b =? 0 then xO (bits_pos l) else xI (bits_pos l) end.

Lemma bits_pos_bits p : bits_pos (pos_bits p) = p.
Proof. induction p; simpl; congruence. Qed.

Definition numbered_message {M} `{Countable M} (ok : M -> Prop) `{forall m, Decision (ok m)} : Message M := {|
  ByteSizeLong m := Z.of_nat (length (pos_bits (encode m)));
  SerializeToArray m n := if n =? Z.of_nat (length (pos_bits (encode m))) then Some (pos_bits (encode m)) else None;
  ParseFromArray bs n := if n =? Z.of_nat (length bs) then m ← decode (bits_pos bs); if decide (ok m) then Some m else None else None
|}.

Lemma numbered_laws {M} `{Countable M} (ok : M -> Prop) `{forall m, Decision (ok m)} :
  MessageLaws (msg := numbered_message ok) M ok.
Proof.
  split; simpl.
  - intros m. lia.
  - intros m Hm _. eexists. rewrite !Z.eqb_refl. split_and!; [done|done|].
    rewrite bits_pos_bits, decode_encode. simpl. by rewrite decide_True.
  - intros bs n m. case_match; [|done]. intros (m' & _ & Hm)%bind_Some. by case_decide; simplify_eq.
Qed.

#[local] Instance ProtoTimestamp_eq_dec : EqDecision ProtoTimestamp.
Proof. solve_decision. Defined.
#[local] Instance ProtoHash_eq_dec : EqDecision ProtoHash.
Proof. solve_decision. Defined.
#[local] Instance ProtoAddress_eq_dec : EqDecision ProtoAddress.
Proof. solve_decision. Defined.
#[local] Instance ProtoAmount_eq_dec : EqDecision ProtoAmount.
Proof. solve_decision. Defined.
#[local] Instance ProtoPublicKey_eq_dec : EqDecision ProtoPublicKey.
Proof. solve_decision. Defined.
#[local] Instance ProtoSignature_eq_dec : EqDecision ProtoSignature.
Proof. solve_decision. Defined.
#[local] Instance ProtoTxInput_eq_dec : EqDecision ProtoTxInput.
Proof. solve_decision. Defined.
#[local] Instance ProtoTxOutput_eq_dec : EqDecision ProtoTxOutput.
Proof. solve_decision. Defined.
#[local] Instance ProtoTransaction_eq_dec : EqDecision ProtoTransaction.
Proof. solve_decision. Defined.
#[local] Instance ProtoBlockHeader_eq_dec : EqDecision ProtoBlockHeader.
Proof. solve_decision. Defined.
#[local] Instance ProtoBlock_eq_dec : EqDecision ProtoBlock.
Proof. solve_decision. Defined.

#[local] Instance ProtoTimestamp_countable : Countable ProtoTimestamp :=
  inj_countable' (fun m => (pt_seconds m, pt_nanoseconds m)) (fun p => mkProtoTimestamp p.1 p.2) ltac:(by intros []).
#[local] Instance ProtoHash_countable : Countable ProtoHash := inj_countable' ph_data mkProtoHash ltac:(by intros []).
#[local] Instance ProtoAddress_countable : Countable ProtoAddress := inj_countable' pa_data mkProtoAddress ltac:(by intros []).
#[local] Instance ProtoAmount_countable : Countable ProtoAmount := inj_countable' pm_value mkProtoAmount ltac:(by intros []).
#[local] Instance ProtoPublicKey_countable : Countable ProtoPublicKey := inj_countable' pk_data mkProtoPublicKey ltac:(by intros []).
#[local] Instance ProtoSignature_countable : Countable ProtoSignature := inj_countable' ps_data mkProtoSignature ltac:(by intros []).
#[local] Instance ProtoTxInput_countable : Countable ProtoTxInput :=
  inj_countable' (fun m => (in_prev_tx_hash m, in_output_index m, in_signature m, in_pubkey m))
    (fun '(a, b, c, d) => mkProtoTxInput a b c d) ltac:(by intros []).
#[local] Instance ProtoTxOutput_countable : Countable ProtoTxOutput :=
  inj_countable' (fun m => (out_amount m, out_recipient m)) (fun '(a, b) => mkProtoTxOutput a b) ltac:(by intros []).
#[local] Instance ProtoTransaction_countable : Countable ProtoTransaction :=
  inj_countable' (fun m => (px_version m, px_inputs m, px_outputs m, px_gas_limit m, px_gas_price m, px_data m, px_nonce m, px_timestamp m, px_tx_hash m))
    (fun '(a, b, c, d, e, f, g, h, i) => mkProtoTransaction a b c d e f g h i) ltac:(by intros []).
#[local] Instance ProtoBlockHeader_countable : Countable ProtoBlockHeader :=
  inj_countable' (fun m => (ph_version m, ph_prev_block_hash m, ph_merkle_root m, ph_timestamp m, ph_difficulty m, ph_nonce m, ph_height m, ph_extra_data m))
    (fun '(a, b, c, d, e, f, g, h) => mkProtoBlockHeader a b c d e f g h) ltac:(by intros []).
#[local] Instance ProtoBlock_countable : Countable ProtoBlock :=
  inj_countable' (fun m => (pb_header m, pb_transactions m, pb_block_hash m, pb_tx_count m))
    (fun '(a, b, c, d) => mkProtoBlock a b c d) ltac:(by intros []).

#[local] Instance proto_tx_ok_dec m : Decision (proto_tx_ok m).
Proof. unfold proto_tx_ok, proto_timestamp_ok, proto_input_ok, proto_output_ok. apply _. Defined.
#[local] Instance proto_block_ok_dec m : Decision (proto_block_ok m).
Proof. unfold proto_block_ok, proto_header_ok, proto_timestamp_ok. apply _. Defined.

#[local] Instance demo_tx_codec : Message ProtoTransaction := numbered_message proto_tx_ok.
#[local] Instance demo_tx_laws : MessageLaws ProtoTransaction proto_tx_ok := numbered_laws proto_tx_ok.
#[local] Instance demo_block_codec : Message ProtoBlock := numbered_message proto_block_ok.
#[local] Instance demo_block_laws : MessageLaws ProtoBlock proto_block_ok := numbered_laws proto_block_ok.
#[local] Instance demo_address_codec : Message ProtoAddress := numbered_message (fun m => bytes_ok (pa_data m)).
#[local] Instance demo_address_laws : MessageLaws ProtoAddress (fun m => bytes_ok (pa_data m)) := numbered_laws _.
#[local] Instance demo_amount_codec : Message ProtoAmount := numbered_message (fun m => bytes_ok (pm_value m)).
#[local] Instance demo_amount_laws : MessageLaws ProtoAmount (fun m => bytes_ok (pm_value m)) := numbered_laws _.
#[local] Instance demo_hash_codec : Message ProtoHash := numbered_message (fun m => bytes_ok (ph_data m)).
#[local] Instance demo_hash_laws : MessageLaws ProtoHash (fun m => bytes_ok (ph_data m)) := numbered_laws _.
#[local] Instance proto_timestamp_ok_dec m : Decision (proto_timestamp_ok m).
Proof. unfold proto_timestamp_ok. apply _. Defined.
#[local] Instance demo_timestamp_codec : Message ProtoTimestamp := numbered_message proto_timestamp_ok.
#[local] Instance demo_timestamp_laws : MessageLaws ProtoTimestamp proto_timestamp_ok := numbered_laws _.

(** A transfer of 5 wei. *)
Definition wire_demo_tx : Transaction :=
  Transaction_of_data (mkTransactionData (replicate 19 0 ++ [1]) (replicate 19 0 ++ [2]) 5 21000 7 [] 3).
Definition wire_demo_block : Block := Block.add_transaction wire_demo_tx (Block_of 4294967297 Hash.zero (mkTimestamp 1609459200)).

(** ** Witnesses *)

Lemma tx_wire_roundtrip_witness :
  exists bs tx', serialize_transaction 1000 wire_demo_tx = Ret (Value bs, tx')
    /\ deserialize_transaction bs = Ret (Value (Transaction_of_data
         (mkTransactionData (replicate 19 0 ++ [1]) (replicate 19 0 ++ [2]) 5000000000000000000 21000 7 [] 3))).
Proof.
  destruct (tx_wire_roundtrip 1000 wire_demo_tx) as (bs & tx' & H1 & _ & H2 & _); [decide_now|exact I|vm_compute; reflexivity|].
  exists bs, tx'. split; [exact H1|]. rewrite H2. vm_compute. reflexivity.
Defined.

Lemma deserialize_transaction_safe_witness :
  deserialize_transaction [] <> Undefined.
Proof. destruct (deserialize_transaction_safe []) as [H _]. intros E. rewrite E in H. exact H. Defined.

Lemma block_wire_roundtrip_witness :
  exists bs b1 b2, serialize_block (fun _ => 1000) wire_demo_block = Ret (Value bs, b1) /\ deserialize_block bs = Ret (Value b2)
    /\ height (header_ b2) = 1.
Proof.
  destruct (block_wire_roundtrip (fun _ => 1000) wire_demo_block) as (bs & b1 & b2 & H1 & _ & H2 & _ & H3);
    [decide_now|constructor; [split; [decide_now|vm_compute; reflexivity]|constructor]|decide_now
    |constructor; [vm_compute; reflexivity|constructor]|vm_compute; reflexivity|].
  exists bs, b1, b2. split; [exact H1|]. split; [exact H2|]. change (height (with_merkle_root [] (header_ b2)) = 1). rewrite H3. vm_compute. reflexivity.
Defined.

Lemma values_wire_roundtrip_witness :
  exists bs, serialize_amount (mkAmount 5) = Value bs /\ deserialize_amount bs = Ret (Value (mkAmount 5)).
Proof.
  apply (values_wire_roundtrip (mkAddress []) (mkAmount 5) (mkTimestamp 0) Hash.zero); [decide_now|vm_compute; reflexivity].
Defined.
