(* ===== verification/Validator.v ===== *)
(** * Validation of received data (serialization/validator.hpp, validator.cpp)

    [ValidationResult] is [Result<void>].  Several checks of the code are stubs
    that accept everything; they are modelled as they are, with their arguments.
    [validate_block] hashes the block, which fills its cache, so the block comes
    back with the result; the clock reading is an argument. *)

From stdpp Require Import base list gmap numbers strings.
From Stdlib Require Import ZArith Lia Ascii.
From S2P Require Import Prelude CString ErrorHandling Hash Address Amount Timestamp Transaction Merkle Block.

Inductive ValidationError : Type :=
  | INVALID_HASH | INVALID_SIGNATURE | INVALID_AMOUNT | INVALID_ADDRESS | INVALID_TIMESTAMP
  | INVALID_BLOCK | INVALID_TRANSACTION | DATA_TOO_LARGE | MISSING_REQUIRED_FIELD.

#[export] Instance ValidationError_eq_dec : EqDecision ValidationError.
Proof. solve_decision. Defined.

Record VError : Type := make_validation_error { v_code : ValidationError; v_message : list ascii }.

#[export] Instance VError_eq_dec : EqDecision VError.
Proof. solve_decision. Defined.

Abbreviation ValidationResult := (expected unit VError).

Definition success : ValidationResult := Value tt.

(** [auto r = a; if (!r.has_value()) return r; b]. *)
Definition check_then (a b : ValidationResult) : ValidationResult :=
  match a with Value _ => b | Unexpected e => Unexpected e end.

Definition MAX_SERIALIZED_SIZE : Z := 10 * 1024 * 1024.

(** ** The checks *)

Definition validate_address_format (addr : Address) : ValidationResult := success.
Definition validate_amount_range (amount : Amount) : ValidationResult := success.
(** The reading and the allowed drift are computed and not used. *)
Definition validate_timestamp_range (now : Z) (ts : Timestamp) : ValidationResult := success.
Definition validate_hash_length (hash : Hash) : ValidationResult := success.

Definition validate_address (addr : Address) : ValidationResult := validate_address_format addr.
Definition validate_amount (amount : Amount) : ValidationResult := validate_amount_range amount.
Definition validate_timestamp (now : Z) (ts : Timestamp) : ValidationResult := validate_timestamp_range now ts.
Definition validate_hash (hash : Hash) : ValidationResult := validate_hash_length hash.

Definition validate_transaction_structure (tx : Transaction) : ValidationResult :=
  if Address.is_zero (get_from tx) then
    Unexpected (make_validation_error INVALID_TRANSACTION ($"Transaction from address cannot be zero"))
  else if negb (Amount.is_valid (get_value tx)) then
    Unexpected (make_validation_error INVALID_AMOUNT ($"Transaction value is invalid"))
  else success.

Definition validate_transaction (tx : Transaction) : ValidationResult :=
  check_then (validate_transaction_structure tx)
    (check_then (validate_address (get_from tx))
       (check_then (validate_address (get_to tx))
          (check_then (validate_amount (get_value tx))
             (if get_gas_limit tx =? 0 then
                Unexpected (make_validation_error INVALID_TRANSACTION ($"Transaction gas limit must be greater than zero"))
              else success)))).

Definition validate_block_header (now : Z) (b : Block) : ValidationResult :=
  check_then (validate_timestamp now (mkTimestamp (timestamp (header_ b))))
    (if block_gas_limit (header_ b) =? 0 then
       Unexpected (make_validation_error INVALID_BLOCK ($"Block gas limit must be greater than zero"))
     else if U32_MOD - 1 <? height (header_ b) then
       Unexpected (make_validation_error INVALID_BLOCK ($"Block height exceeds maximum allowed value"))
     else success).

Fixpoint validate_transactions (txs : list Transaction) : ValidationResult :=
  match txs with
  | [] => success
  | tx :: rest => check_then (validate_transaction tx) (validate_transactions rest)
  end.

Definition validate_block (now : Z) (b : Block) : ValidationResult * Block :=
  match check_then (validate_block_header now b) (validate_transactions (transactions_ b)) with
  | Unexpected e => (Unexpected e, b)
  | Value _ => let '(h, b) := Block.calculate_hash b in (validate_hash h, b)
  end.

Definition validate_serialized_data (data : list Z) (type_name : list ascii) : ValidationResult :=
  match data with
  | [] => Unexpected (make_validation_error MISSING_REQUIRED_FIELD ($"Serialized data cannot be empty for type: " ++ type_name))
  | _ => if MAX_SERIALIZED_SIZE <? Z.of_nat (length data) then
           Unexpected (make_validation_error DATA_TOO_LARGE ($"Serialized data too large for type: " ++ type_name))
         else success
  end.

(** ** Lemmas *)

Lemma has_value_check_then a b : has_value (check_then a b) = has_value a && has_value b.
Proof. by destruct a. Qed.

(** What the checks look at in a transaction. *)
Definition tx_passes (tx : Transaction) : Prop :=
  from (Transaction.data_ tx) <> replicate 20 0 /\ gas_limit (Transaction.data_ tx) <> 0.

Lemma validate_transaction_iff tx :
  length (from (Transaction.data_ tx)) = ADDRESS_SIZE -> has_value (validate_transaction tx) = true <-> tx_passes tx.
Proof.
  intros Hl. unfold validate_transaction, validate_transaction_structure, get_from, get_gas_limit, tx_passes.
  pose proof (is_zero_address_iff _ Hl) as Hz. destruct (Address.is_zero _); simpl.
  - split; [done|]. intros [H _]. by destruct H; apply Hz.
  - destruct (Z.eqb_spec (gas_limit (Transaction.data_ tx)) 0); simpl; (split; [|tauto]); [done|].
    intros _. split; [|done]. intros H. by apply Hz in H.
Qed.

Lemma validate_transactions_iff txs :
  Forall (fun tx => length (from (Transaction.data_ tx)) = ADDRESS_SIZE) txs ->
  has_value (validate_transactions txs) = true <-> Forall tx_passes txs.
Proof.
  induction 1 as [|tx txs Hl H IH]; simpl; [by split|].
  rewrite has_value_check_then, andb_true_iff, IH, validate_transaction_iff, Forall_cons by done. done.
Qed.

(** The first transaction that does not pass decides the error. *)
Lemma validate_transactions_code txs e : validate_transactions txs = Unexpected e -> v_code e = INVALID_TRANSACTION.
Proof.
  induction txs as [|tx txs IH]; simpl; [done|].
  unfold validate_transaction, validate_transaction_structure. repeat case_match; simpl in *; intros; simplify_eq; eauto; done.
Qed.

Lemma validate_block_result now b :
  fst (validate_block now b) = check_then (validate_block_header now b) (validate_transactions (transactions_ b)).
Proof.
  unfold validate_block. destruct (check_then _ _) as [[]|e]; [|done]. by destruct (Block.calculate_hash b).
Qed.

Lemma core_valid_passes tx :
  txdata_wf (Transaction.data_ tx) -> Transaction.is_valid tx = true -> tx_passes tx.
Proof.
  intros (Hl & _) Hv. unfold Transaction.is_valid, validate_addresses, validate_gas in Hv. rewrite !andb_true_iff in Hv.
  destruct Hv as [[[Hz [Hg _]] _] _]. unfold tx_passes. split.
  - intros E%(is_zero_address_iff _ Hl). unfold get_from, Address.is_valid in Hz. simpl in Hz. rewrite E in Hz. simpl in Hz. by destruct Hz.
  - unfold get_gas_limit in Hg. apply Z.leb_le in Hg. lia.
Qed.

(** ** Properties *)

(** Block validation.  It accepts exactly the blocks with a positive gas limit,
    a height of at most 32 bits and transactions with a non-zero sender and a
    non-zero gas limit; its error names the block or a transaction; every block
    the core module finds valid passes if its height fits; and no time stamp is
    ever refused, whatever the clock. *)
Theorem validate_block_spec (now : Z) (b : Block) :
  Forall (fun tx => txdata_wf (Transaction.data_ tx)) (transactions_ b) ->
  (has_value (fst (validate_block now b)) = true
     <-> block_gas_limit (header_ b) <> 0 /\ height (header_ b) < U32_MOD /\ Forall tx_passes (transactions_ b))
  /\ (forall e, fst (validate_block now b) = Unexpected e -> v_code e = INVALID_BLOCK \/ v_code e = INVALID_TRANSACTION)
  /\ (Block.is_valid b = true -> height (header_ b) < U32_MOD -> has_value (fst (validate_block now b)) = true)
  /\ (forall now' ts, fst (validate_block now' (Block.set_timestamp ts b)) = fst (validate_block now b)).
Proof.
  intros Hwf.
  assert (Hiff : has_value (fst (validate_block now b)) = true
     <-> block_gas_limit (header_ b) <> 0 /\ height (header_ b) < U32_MOD /\ Forall tx_passes (transactions_ b)).
  { rewrite validate_block_result, has_value_check_then, andb_true_iff, validate_transactions_iff
      by (eapply Forall_impl; [done|]; intros tx H; apply H).
    unfold validate_block_header. simpl.
    destruct (Z.eqb_spec (block_gas_limit (header_ b)) 0); simpl; [naive_solver|].
    destruct (Z.ltb_spec (U32_MOD - 1) (height (header_ b))); simpl.
    - split; [by intros [? _]|lia].
    - split; [intros [_ ?]; split_and!; done || lia|tauto]. }
  split_and!; [done| | |].
  - intros e. rewrite validate_block_result. unfold validate_block_header. simpl.
    repeat case_match; simpl; intros He; simplify_eq; first [by left | right; by eapply validate_transactions_code].
  - intros Hv Hh. apply Hiff. unfold Block.is_valid, validate_header, is_valid_block_header, Block.validate_transactions in Hv.
    rewrite !andb_true_iff in Hv. destruct Hv as [[[[_ Hg] _] [Ht _]] _]. split; [apply Z.ltb_lt in Hg; lia|]. split; [done|].
    rewrite forallb_forall in Ht. rewrite Forall_forall in Hwf |- *. intros tx Hin.
    apply core_valid_passes; [by apply Hwf|]. by apply Ht, list_elem_of_In.
  - intros now' ts. by rewrite !validate_block_result.
Qed.

Lemma validate_block_spec_witness :
  let tx := Transaction_of_data (mkTransactionData (replicate 20 1) (replicate 20 0) 0 1 0 [] 0) in
  let b := mkBlock (header_ (Block_of 7 Hash.zero (mkTimestamp 0))) [tx] None in
  has_value (fst (validate_block 0 b)) = true /\ Block.is_valid b = false.
Proof.
  intros tx b. split; [|vm_compute; reflexivity].
  destruct (validate_block_spec 0 b) as [H _]; [constructor; [decide_now|constructor]|]. apply H.
  split; [vm_compute; discriminate|]. split; [vm_compute; reflexivity|].
  constructor; [split; vm_compute; discriminate|by apply Forall_nil].
Defined.
