(* ===== verification/Pipeline.v ===== *)
(** * From the pool to a block

    The contract of mempool.hpp as a class: an implementation answers calls
    ([tp_call]) and selects transactions for a block ([tp_select]); its laws relate
    both to the abstract book of [MempoolSpec].  [MempoolImpl] is an instance.  The
    theorems about assembling a block use the class only: what is selected, put into
    a core [Block] with [add_transaction], passes the checks of block.cpp and of
    validator.cpp, and is read back from the wire. *)

From stdpp Require Import base list gmap numbers strings sorting sets relations.
From Stdlib Require Import ZArith Lia Ascii.
From S2P Require Import Prelude CString Floats Sorting Effects Hash Address Amount Timestamp Transaction ErrorHandling.
From S2P Require Import Serialization Validator Block Mempool MempoolInv MempoolProps MempoolSpec.

(** ** The interface *)

Class TxPool (S : Type) : Type := {
  tp_call : pool_op -> eff S pool_event (option MempoolError);
  tp_select : SelectionStrategy -> nat -> Z -> eff S pool_event (list Transaction);
  tp_view : S -> pool_spec;
  tp_ready : world S pool_event -> Prop;
  tp_enabled : pool_op -> Prop
}.

(** A selection may be any pooled transactions that fit: the running gas total, as
    64-bit additions compute it, never passes the limit. *)
Class TxPoolLaws (S : Type) {env : Env} {pool : TxPool S} : Prop := {
  tp_call_law : forall op (w : world S pool_event), tp_ready w -> tp_enabled op ->
    wp (tp_call op) (fun r w' => tp_ready w' /\ spec_step (tp_view (obj w)) op r (tp_view (obj w'))) w;
  tp_select_law : forall strategy n gas (w : world S pool_event), tp_ready w -> exists r,
    tp_select strategy n gas w = Ret (r, w) /\ (length r <= n)%nat /\ gas_loop gas 0 r = true
    /\ Forall (fun tx => sp_book (tp_view (obj w)) !! slot_of tx = Some tx) r;
  tp_spec_law : forall (w : world S pool_event), tp_ready w -> spec_ok (tp_view (obj w))
}.

(** ** The implementation *)

Section Implementation.
Context {env : Env} {io : IterOrder}.

#[export] Instance mempool_pool : TxPool Mempool := {|
  tp_call := call;
  tp_select := select_transactions_for_block;
  tp_view := abstract;
  tp_ready := fun w => pool_ok w /\ held w = [];
  tp_enabled := op_typed
|}.

(** The loop of the pool adds up gas as the check of the block does. *)
Lemma drain_gas_fits txs count maxg total q : gas_loop maxg total (drain_gas txs count maxg total q) = true.
Proof.
  revert count total. induction q as [|[s h] q IH]; intros count total; [by destruct count|].
  destruct count as [|count]; [done|]. cbn [drain_gas]. destruct (txs !! h) as [e|]; [|apply IH].
  destruct ((total + get_gas_limit (transaction e))%u64 <=? maxg) eqn:E; [|apply IH]. cbn [gas_loop].
  apply Z.leb_le in E. rewrite (proj2 (Z.ltb_ge _ _)) by done. apply IH.
Qed.

Lemma picked_book p picks r : pool_core p -> picked (transactions_ p) picks r -> Forall (fun tx => book p !! slot_of tx = Some tx) r.
Proof.
  intros Hp. induction 1 as [|x tx picks r Hx _ IH]; constructor; [|done].
  apply fmap_Some_1 in Hx as (e & He & ->). by apply (book_of_entry _ (snd x)).
Qed.

Lemma abstract_ok p : pool_core p -> spec_ok (abstract p).
Proof.
  intros Hp k tx (h & e & He & <- & <-)%book_lookup; [|done]. destruct (inv_valid _ Hp h e He). split_and!; try done.
  exists h. split; [by apply (inv_key _ Hp)|]. cbn. rewrite claims_slot. by apply (inv_complete _ Hp).
Qed.

#[export] Instance mempool_laws : TxPoolLaws Mempool.
Proof.
  split.
  - intros op w [Hw Hh] Hok. unfold wp. pose proof (call_simulates op w Hw Hok) as Hs. pose proof (call_keeps op w) as Hk. unfold wp in Hs.
    cbn [tp_call mempool_pool]. destruct (call op w) as [[r w']| |]; try done. split; [by eapply Hk|done].
  - intros strategy n gas w [[Hp _] Hh].
    destruct (drain_gas_picks (transactions_ (obj w)) n gas 0 (priority_queue_ (obj w))) as (picks & _ & H2 & H3).
    exists (drain_gas (transactions_ (obj w)) n gas 0 (priority_queue_ (obj w))). split_and!; [|done|apply drain_gas_fits|by eapply picked_book].
    destruct strategy; cbn; unfold get_transactions_for_block; by rewrite query_run.
  - intros w [[Hp _] _]. by apply abstract_ok.
Qed.
End Implementation.

(** ** Assembling a block *)

(** Put the transactions into a new block in order. *)
Definition fill_block (txs : list Transaction) (b : Block) : Block := fold_left (fun b tx => Block.add_transaction tx b) txs b.
Definition new_block (ht : Z) (parent : Hash) (ts : Timestamp) (gas : Z) : Block := Block.set_gas_limit gas (create_block ht parent ts).

(** The checks of a block read the fields of its transactions only. *)
Lemma fill_fields txs b :
  map Transaction.data_ (Block.transactions_ (fill_block txs b)) = map Transaction.data_ (Block.transactions_ b) ++ map Transaction.data_ txs
  /\ with_merkle_root [] (header_ (fill_block txs b)) = with_merkle_root [] (header_ b).
Proof. exact (add_transactions_frame (fun tx => tx) txs b). Qed.

Lemma gas_loop_fields limit total txs txs' :
  map Transaction.data_ txs = map Transaction.data_ txs' -> gas_loop limit total txs = gas_loop limit total txs'.
Proof.
  revert total txs'. induction txs as [|tx txs IH]; intros total [|tx' txs'] E; try done. cbn in E. injection E as E1 E2.
  cbn [gas_loop]. unfold get_gas_limit. rewrite E1. case_match; [done|]. by apply IH.
Qed.

Lemma valid_fields txs txs' :
  map Transaction.data_ txs = map Transaction.data_ txs' -> forallb Transaction.is_valid txs = forallb Transaction.is_valid txs'.
Proof.
  revert txs'. induction txs as [|[d c] txs IH]; intros [|[d' c'] txs'] E; try done. cbn in E. injection E as -> E2.
  cbn [forallb]. f_equal. by apply IH.
Qed.

(** The size of a block whose total does not overflow. *)
Definition bytes_total (txs : list Transaction) : Z := fold_right (fun tx s => Transaction.size tx + s) 0 txs.

Lemma size_of_fields s txs txs' :
  map Transaction.data_ txs = map Transaction.data_ txs' ->
  fold_left (fun s tx => (s + Transaction.size tx)%u64) txs s = fold_left (fun s tx => (s + Transaction.size tx)%u64) txs' s.
Proof.
  revert s txs'. induction txs as [|[d c] txs IH]; intros s [|[d' c'] txs'] E; try done. cbn in E. injection E as -> E2.
  cbn [fold_left]. by apply IH.
Qed.

Lemma size_nonneg tx : 0 <= Transaction.size tx.
Proof. unfold Transaction.size, u64_add. apply u64_range. Qed.

Lemma size_fold s txs :
  0 <= s -> s + bytes_total txs < U64_MOD -> fold_left (fun s tx => (s + Transaction.size tx)%u64) txs s = s + bytes_total txs.
Proof.
  revert s. induction txs as [|tx txs IH]; intros s Hs Ht; cbn [fold_left]; [cbn; lia|]. cbn [bytes_total fold_right] in Ht |- *.
  fold (bytes_total txs) in *. pose proof (size_nonneg tx).
  assert (0 <= bytes_total txs) by (clear; induction txs as [|t txs IH]; cbn; [lia|]; fold (bytes_total txs) in *; pose proof (size_nonneg t); lia).
  unfold u64_add. rewrite u64_small by (unfold is_u64; lia). rewrite IH by lia. lia.
Qed.

Lemma bytes_total_bound txs n :
  Forall (fun tx => is_too_large tx = false) txs -> (length txs <= n)%nat -> bytes_total txs <= Z.of_nat n * MAX_TRANSACTION_SIZE.
Proof.
  intros H. revert n. induction H as [|tx txs Hx _ IH]; intros n Hn; cbn [bytes_total fold_right]; [unfold MAX_TRANSACTION_SIZE; lia|].
  fold (bytes_total txs). destruct n as [|n]; cbn in Hn; [lia|]. specialize (IH n ltac:(lia)).
  unfold is_too_large in Hx. apply Z.ltb_ge in Hx. lia.
Qed.

Lemma fill_merkle txs b : merkle_consistent b -> merkle_consistent (fill_block txs b).
Proof.
  unfold fill_block. revert b. induction txs as [|tx txs IH]; intros b Hb; [done|]. cbn. apply IH.
  exact (merkle_consistent_step _ _ (bstep_add tx b) Hb).
Qed.

Lemma fill_size txs b :
  Block.transactions_ b = [] -> 112 + bytes_total txs < U64_MOD -> Block.size (fill_block txs b) = 112 + bytes_total txs.
Proof.
  intros Hb Ht. unfold Block.size. destruct (fill_fields txs b) as [E _]. rewrite Hb in E. cbn in E.
  rewrite (size_of_fields _ _ _ E). by apply size_fold.
Qed.

(** Seven transactions always fit into a block of [MAX_BLOCK_SIZE], eight of the
    largest size do not. *)
Definition BLOCK_ROOM : nat := 7.
Lemma eight_do_not_fit txs b :
  length txs = 8%nat -> Forall (fun tx => Transaction.size tx = MAX_TRANSACTION_SIZE) txs -> Block.transactions_ b = [] ->
  Block.is_valid (fill_block txs b) = false.
Proof.
  intros Hl Hs Hb. assert (E : bytes_total txs = 8 * MAX_TRANSACTION_SIZE).
  { replace 8 with (Z.of_nat (length txs)) by (by rewrite Hl). clear Hl.
    induction Hs as [|tx txs Hx _ IH]; [done|]. cbn [bytes_total fold_right length]. fold (bytes_total txs). rewrite Hx, IH. lia. }
  assert (Hsz : Block.validate_size (fill_block txs b) = false).
  { unfold Block.validate_size. rewrite fill_size by (done || rewrite E; reflexivity). by rewrite E. }
  unfold Block.is_valid. by rewrite Hsz, andb_false_r.
Qed.

(** *** A block filled with transactions that fit *)

Section Filled.
Context (r : list Transaction) (gas ht : Z) (parent : Hash) (ts : Timestamp).
Let b : Block := fill_block r (new_block ht parent ts gas).

Lemma filled_txs : map Transaction.data_ (Block.transactions_ b) = map Transaction.data_ r.
Proof. exact (proj1 (fill_fields r (new_block ht parent ts gas))). Qed.

Lemma filled_header :
  timestamp (header_ b) = seconds_ ts /\ block_gas_limit (header_ b) = gas /\ chain_id (header_ b) = 1 /\ height (header_ b) = ht.
Proof.
  pose proof (proj2 (fill_fields r (new_block ht parent ts gas))) as E. fold b in E.
  split_and!; [exact (f_equal timestamp E)|exact (f_equal block_gas_limit E)|exact (f_equal chain_id E)|exact (f_equal height E)].
Qed.

Lemma filled_merkle : merkle_consistent b.
Proof. apply fill_merkle. exact (merkle_consistent_step _ _ (bstep_gas_limit gas _) (eq_refl : merkle_consistent (Block_of ht parent ts))). Qed.

Lemma filled_valid :
  Forall (fun tx => Transaction.is_valid tx = true) r -> gas_loop gas 0 r = true -> Timestamp.is_valid ts = true -> 0 < gas ->
  Block.is_valid b = Block.validate_size b.
Proof.
  intros Hok Hfit Hts Hgas. destruct filled_header as (H1 & H2 & H3 & _).
  unfold Block.is_valid, validate_header, is_valid_block_header, Block.validate_transactions, validate_gas_limits.
  rewrite H1, H2, H3, (gas_loop_fields _ _ _ _ filled_txs), (valid_fields _ _ filled_txs), Hfit, (proj2 (Z.ltb_lt 0 gas) Hgas).
  destruct ts as [sec]. cbn [seconds_]. rewrite Hts. cbn [andb]. replace (forallb Transaction.is_valid r) with true; [done|].
  symmetry. apply forallb_forall. intros tx Hin. rewrite Forall_forall in Hok. by apply Hok, list_elem_of_In.
Qed.

Lemma filled_small :
  Forall (fun tx => is_too_large tx = false) r -> (length r <= BLOCK_ROOM)%nat -> Block.validate_size b = true.
Proof.
  intros Hok Hn. unfold Block.validate_size. apply Z.leb_le. pose proof (bytes_total_bound r BLOCK_ROOM Hok Hn) as Hb.
  unfold b. rewrite fill_size by (done || (eapply Z.le_lt_trans; [apply Zplus_le_compat_l, Hb|reflexivity])).
  eapply Z.le_trans; [apply Zplus_le_compat_l, Hb|]. by vm_compute.
Qed.

Lemma filled_accepted now :
  Forall (fun tx => Transaction.is_valid tx = true) r -> Forall (fun tx => txdata_wf (Transaction.data_ tx)) r -> 0 < gas -> ht < U32_MOD ->
  has_value (fst (Validator.validate_block now b)) = true.
Proof.
  intros Hok Hwf Hgas Hht. destruct filled_header as (_ & H2 & _ & H4).
  rewrite validate_block_result, has_value_check_then, andb_true_iff. split.
  - unfold validate_block_header. cbn. rewrite H2, H4. destruct (Z.eqb_spec gas 0); [lia|]. destruct (Z.ltb_spec (U32_MOD - 1) ht); [lia|done].
  - assert (Hall : forall P : TransactionData -> Prop, Forall (fun tx => P (Transaction.data_ tx)) r ->
      Forall (fun tx => P (Transaction.data_ tx)) (Block.transactions_ b)).
    { intros P HP. apply (Forall_map Transaction.data_ P). rewrite filled_txs. by apply Forall_map. }
    apply validate_transactions_iff.
    + apply (Hall (fun d => length (from d) = ADDRESS_SIZE)). eapply Forall_impl; [exact Hwf|]. by intros tx [? _].
    + apply (Hall (fun d => from d <> replicate 20 0 /\ gas_limit d <> 0)). rewrite Forall_forall in Hwf, Hok |- *.
      intros tx Hin. apply core_valid_passes; [by apply Hwf|by apply Hok].
Qed.
End Filled.

Section Client.
Context {S : Type} {env : Env} {pool : TxPool S} {laws : TxPoolLaws S}.

(** Whatever pool implements the interface, the transactions it selects for a block make
    one. *)
Lemma selection_fills (strategy : SelectionStrategy) (n : nat) (gas ht : Z) (parent : Hash) (ts : Timestamp) (w : world S pool_event) :
  tp_ready w -> Timestamp.is_valid ts = true -> 0 < gas ->
  exists r, tp_select strategy n gas w = Ret (r, w)
    /\ let b := fill_block r (new_block ht parent ts gas) in
       map Transaction.data_ (Block.transactions_ b) = map Transaction.data_ r
       /\ merkle_consistent b
       /\ Block.is_valid b = Block.validate_size b
       /\ ((n <= BLOCK_ROOM)%nat -> Block.is_valid b = true)
       /\ (forall now, Forall (fun tx => txdata_wf (Transaction.data_ tx)) r -> ht < U32_MOD ->
           has_value (fst (Validator.validate_block now b)) = true).
Proof.
  intros Hr Hts Hgas. destruct (tp_select_law strategy n gas w Hr) as (r & Hsel & Hlen & Hfit & Hbook). exists r. split; [done|]. cbn zeta.
  assert (Hok : Forall (fun tx => Transaction.is_valid tx = true) r /\ Forall (fun tx => is_too_large tx = false) r).
  { split; (eapply Forall_impl; [exact Hbook|]; intros tx Htx; by apply (tp_spec_law w Hr) in Htx as (_ & ? & ? & _)). }
  destruct Hok as [Hv Hl]. split_and!; [apply filled_txs|apply filled_merkle|by apply filled_valid| |].
  - intros Hn. rewrite filled_valid by done. apply filled_small; [done|lia].
  - intros now Hwf Hht. by apply filled_accepted.
Qed.
End Client.

(** C16: From the pool to a block.  On a pool that keeps its invariant, with the mutex
    free, take the transactions [select_transactions_for_block] returns for a positive gas
    limit and put them, with [Block::add_transaction], into a block made by [create_block]
    with a valid timestamp and that gas limit: they are the block's transactions in order,
    the Merkle root commits to them, and the block passes every check of the core module
    except possibly that of its size, and that one too when at most seven were asked for;
    the serialisation module's validator accepts it when its height fits 32 bits and the
    addresses have 20 bytes. *)
Theorem assembled_block_valid {env : Env} {io : IterOrder} (strategy : SelectionStrategy) (n : nat) (gas ht : Z) (parent : Hash) (ts : Timestamp)
    (w : world Mempool pool_event) :
  pool_core (obj w) -> config_typed (config_ (obj w)) -> held w = [] -> Timestamp.is_valid ts = true -> 0 < gas ->
  exists r, select_transactions_for_block strategy n gas w = Ret (r, w)
    /\ let b := fold_left (fun b tx => Block.add_transaction tx b) r (Block.set_gas_limit gas (create_block ht parent ts)) in
       map Transaction.data_ (Block.transactions_ b) = map Transaction.data_ r
       /\ merkle_consistent b
       /\ Block.is_valid b = Block.validate_size b
       /\ ((n <= BLOCK_ROOM)%nat -> Block.is_valid b = true)
       /\ (forall now, Forall (fun tx => txdata_wf (Transaction.data_ tx)) r -> ht < U32_MOD ->
           has_value (fst (Validator.validate_block now b)) = true).
Proof. intros Hp Hc Hh. exact (selection_fills (pool := mempool_pool) strategy n gas ht parent ts w (conj (conj Hp Hc) Hh)). Qed.

Lemma assembled_block_valid_witness :
  exists r, @get_transactions_for_block demo_env 5 50000 demo_world = Ret (r, demo_world)
    /\ Block.is_valid (fold_left (fun b tx => Block.add_transaction tx b) r (Block.set_gas_limit 50000 (create_block 9 Hash.zero (mkTimestamp 1700000000)))) = true.
Proof.
  destruct (@assembled_block_valid demo_env map_order PRIORITY_SCORE 5 50000 9 Hash.zero (mkTimestamp 1700000000) demo_world) as (r & H1 & _ & _ & _ & H2 & _);
    [apply demo_ok|apply demo_ok|reflexivity|reflexivity|reflexivity|].
  exists r. split; [exact H1|]. apply H2. repeat constructor.
Defined.

(** ** What the placeholder digest does to the pool

    A transaction is known by its hash, and the digest of the core module sees the
    sender and twelve bytes of the recipient only. *)

(** C17: A sender can have one pending transaction per recipient: once a transaction is
    pooled, every other one from the same sender to a recipient with the same first
    twelve bytes is refused as already present, whatever its nonce, value, fee and
    data, and the pool does not change. *)
Theorem second_payment_refused {env : Env} {io : IterOrder} (tx1 tx2 : Transaction) (w : world Mempool pool_event) :
  txdata_wf (Transaction.data_ tx1) -> txdata_wf (Transaction.data_ tx2) -> cache_ok tx1 -> cache_ok tx2 -> held w = [] ->
  is_Some (transactions_ (obj w) !! fst (Transaction.calculate_hash tx1)) ->
  get_from tx1 = get_from tx2 -> take 12 (to (Transaction.data_ tx1)) = take 12 (to (Transaction.data_ tx2)) ->
  add_transaction tx2 w = Ret (TRANSACTION_EXISTS, w).
Proof.
  intros W1 W2 C1 C2 Hh Hp Hf Ht. assert (E : fst (Transaction.calculate_hash tx1) = fst (Transaction.calculate_hash tx2)).
  { rewrite !calculate_hash_cached, !digest_eq by done. injection Hf as ->. by rewrite Ht. }
  rewrite E in Hp. unfold add_transaction. destruct (Transaction.calculate_hash tx2) as [h tx']. cbn [fst] in Hp.
  destruct w as [p hs tk lg]. cbn [held obj] in *. subst hs. unfold mbind, eff_bind, with_lock, get, mret, eff_ret. cbn [held obj].
  rewrite decide_True by done. by destruct on_relock.
Qed.

Lemma second_payment_refused_witness :
  @add_transaction demo_env map_order (demo_tx 1 7 90 6) demo_world = Ret (TRANSACTION_EXISTS, demo_world).
Proof.
  apply (@second_payment_refused demo_env map_order (demo_tx 1 7 10 5) (demo_tx 1 7 90 6) demo_world);
    [decide_now|decide_now|exact I|exact I|reflexivity| |reflexivity|reflexivity].
  vm_compute. by eexists.
Defined.
