(* ===== verification/Crypto.v ===== *)
(** * Cryptography (crypto/types.hpp, hash.cpp, keccak.cpp, keypair.cpp, signature.cpp)

    The digests of OpenSSL, the point arithmetic of OpenSSL and the key parser of
    libsecp256k1 are code the repository only calls: the classes [Digests] and
    [CurveLib] stand for them, with what their documentation states as laws.  What
    the repository builds on them is modelled: the Merkle reduction, hex
    conversions, the Keccak front end with its streaming hasher, key pairs and the
    BLS stubs (ECDSA and Ed25519 signatures are in Signature.v).  A fixed-size array is a list of its length; reading past its end
    is [Undefined]. *)

From stdpp Require Import base list gmap numbers strings.
From Stdlib Require Import ZArith Lia Ascii.
From S2P Require Import Prelude CString Merkle.

(** ** Results *)

Inductive CryptoError : Type :=
  | SUCCESS | INVALID_KEY | INVALID_SIGNATURE | INVALID_MESSAGE | RANDOM_GENERATION_FAILED
  | HASH_FAILED | SIGNATURE_FAILED | VERIFICATION_FAILED | UNSUPPORTED_ALGORITHM | INVALID_LENGTH.

#[export] Instance CryptoError_eq_dec : EqDecision CryptoError.
Proof. solve_decision. Defined.

Record CryptoResult (T : Type) : Type := mkCryptoResult { value : T; error : CryptoError }.
Arguments mkCryptoResult {T}.
Arguments value {T}.
Arguments error {T}.

#[export] Instance CryptoResult_eq_dec `{EqDecision T} : EqDecision (CryptoResult T).
Proof. solve_decision. Defined.

Definition success {T} (r : CryptoResult T) : bool := bool_decide (error r = SUCCESS).

Definition HASH256_SIZE : nat := 32.
Definition RIPEMD160_SIZE : nat := 20.
Definition SECP256K1_PRIVATE_KEY_SIZE : nat := 32.
Definition SECP256K1_PUBLIC_KEY_SIZE : nat := 64.
Definition SECP256K1_COMPRESSED_PUBLIC_KEY_SIZE : nat := 33.
Definition SECP256K1_SIGNATURE_SIZE : nat := 64.
Definition ED25519_PRIVATE_KEY_SIZE : nat := 32.
Definition ED25519_PUBLIC_KEY_SIZE : nat := 32.
Definition ED25519_SIGNATURE_SIZE : nat := 64.
Definition BLS_PRIVATE_KEY_SIZE : nat := 32.
Definition BLS_PUBLIC_KEY_SIZE : nat := 48.
Definition BLS_SIGNATURE_SIZE : nat := 96.

(** A value-initialised array, [T{}]. *)
Definition zeros (n : nat) : list Z := replicate n 0.

(** [std::copy(src.begin(), src.begin() + n, dst.begin())] from an array. *)
Definition copy_first (n : nat) (src : list Z) : outcome (list Z) :=
  if Nat.leb n (length src) then Ret (take n src) else Undefined.

(** ** Digests *)

(** Init, Update and Final in one: [None] when one of the three reports failure. *)
Class Digests : Type := {
  openssl_sha256 : list Z -> option (list Z);
  openssl_ripemd160 : list Z -> option (list Z)
}.

Class DigestLaws {D : Digests} : Prop := {
  sha256_length : forall data d, openssl_sha256 data = Some d -> length d = HASH256_SIZE;
  ripemd160_length : forall data d, openssl_ripemd160 data = Some d -> length d = RIPEMD160_SIZE
}.

Section Hashing.
Context {D : Digests}.

Definition internal_sha256 (data : list Z) : CryptoResult (list Z) :=
  match openssl_sha256 data with
  | Some result => mkCryptoResult result SUCCESS
  | None => mkCryptoResult (zeros HASH256_SIZE) HASH_FAILED
  end.

(** A placeholder in the source too. *)
Definition internal_keccak256 (data : list Z) : CryptoResult (list Z) := internal_sha256 data.

Definition internal_ripemd160 (data : list Z) : CryptoResult (list Z) :=
  match openssl_ripemd160 data with
  | Some result => mkCryptoResult result SUCCESS
  | None => mkCryptoResult (zeros RIPEMD160_SIZE) HASH_FAILED
  end.

Definition sha256 (data : list Z) : CryptoResult (list Z) := internal_sha256 data.
Definition keccak256 (data : list Z) : CryptoResult (list Z) := internal_keccak256 data.
Definition ripemd160 (data : list Z) : CryptoResult (list Z) := internal_ripemd160 data.

Definition double_sha256 (data : list Z) : CryptoResult (list Z) :=
  let first_hash := internal_sha256 data in
  if negb (success first_hash) then mkCryptoResult (zeros HASH256_SIZE) (error first_hash)
  else internal_sha256 (value first_hash).

Definition keccak256_ripemd160 (data : list Z) : CryptoResult (list Z) :=
  let keccak_result := internal_keccak256 data in
  if negb (success keccak_result) then mkCryptoResult (zeros RIPEMD160_SIZE) (error keccak_result)
  else internal_ripemd160 (value keccak_result).

(** *** Merkle reduction *)

Definition hash_pair (l r : list Z) : CryptoResult (list Z) := sha256 (l ++ r).

(** The inner loop; [inl] is the early return with the digest's error. *)
Fixpoint hash_level (l : list (list Z)) : CryptoError + list (list Z) :=
  match l with
  | [] => inr []
  | [a] =>
      let r := hash_pair a a in if negb (success r) then inl (error r) else inr [value r]
  | a :: b :: rest =>
      let r := hash_pair a b in
      if negb (success r) then inl (error r)
      else match hash_level rest with inl e => inl e | inr next => inr (value r :: next) end
  end.

(** The outer loop; [None] when the fuel is spent or the vector is empty. *)
Fixpoint hash_loop (fuel : nat) (l : list (list Z)) : option (CryptoResult (list Z)) :=
  match l with
  | [] => None
  | [h] => Some (mkCryptoResult h SUCCESS)
  | _ => match fuel with
         | O => None
         | S f => match hash_level l with
                  | inl e => Some (mkCryptoResult (zeros HASH256_SIZE) e)
                  | inr next => hash_loop f next
                  end
         end
  end.

Definition hash_many (hashes : list (list Z)) : outcome (CryptoResult (list Z)) :=
  match hashes with
  | [] => Ret (mkCryptoResult (zeros HASH256_SIZE) SUCCESS)
  | [h] => Ret (mkCryptoResult h SUCCESS)
  | _ => match hash_loop (length hashes) hashes with Some r => Ret r | None => Undefined end
  end.
End Hashing.

(** ** Hex text *)

Definition to_hex (l : list Z) : cstr := bytes_to_hex l.

(** [std::isxdigit(c)]: [c] is converted to [int] first and [char] is signed, so
    codes from 128 to 254 are negative and outside the function's domain; 255 is
    [EOF], on which it answers 0. *)
Definition isxdigit (c : ascii) : outcome bool :=
  let z := char_code c in
  if (128 <=? z) && (z <? 255) then Undefined
  else Ret (match is_digit_in 16 c with Some _ => true | None => false end).

Fixpoint all_xdigits (s : cstr) : outcome bool :=
  match s with
  | [] => Ret true
  | c :: s' => b ← isxdigit c; if (b : bool) then all_xdigits s' else Ret false
  end.

Definition is_valid_hex_hash (hex_string : cstr) (expected_size : nat) : outcome bool :=
  if negb (Nat.eqb (length hex_string) (expected_size * 2)) then Ret false else all_xdigits hex_string.

Definition from_hex (hex_string : cstr) : outcome (CryptoResult (list Z)) :=
  ok ← is_valid_hex_hash hex_string HASH256_SIZE;
  if negb ok then Ret (mkCryptoResult (zeros HASH256_SIZE) INVALID_LENGTH)
  else result ← hex_pairs 0 HASH256_SIZE hex_string; Ret (mkCryptoResult result SUCCESS).

(** Keys and signatures of [n] bytes: the length is checked, the digits are not. *)
Definition bytes_from_hex (n : nat) (hex : cstr) : outcome (CryptoResult (list Z)) :=
  if negb (Nat.eqb (length hex) (n * 2)) then Ret (mkCryptoResult (zeros n) INVALID_LENGTH)
  else result ← hex_pairs 0 n hex; Ret (mkCryptoResult result SUCCESS).

Definition secp256k1_private_key_from_hex : cstr -> outcome (CryptoResult (list Z)) := bytes_from_hex SECP256K1_PRIVATE_KEY_SIZE.
Definition secp256k1_public_key_from_hex : cstr -> outcome (CryptoResult (list Z)) := bytes_from_hex SECP256K1_PUBLIC_KEY_SIZE.
Definition secp256k1_compressed_public_key_from_hex : cstr -> outcome (CryptoResult (list Z)) := bytes_from_hex SECP256K1_COMPRESSED_PUBLIC_KEY_SIZE.
Definition ed25519_private_key_from_hex : cstr -> outcome (CryptoResult (list Z)) := bytes_from_hex ED25519_PRIVATE_KEY_SIZE.
Definition ed25519_public_key_from_hex : cstr -> outcome (CryptoResult (list Z)) := bytes_from_hex ED25519_PUBLIC_KEY_SIZE.
Definition bls_private_key_from_hex : cstr -> outcome (CryptoResult (list Z)) := bytes_from_hex BLS_PRIVATE_KEY_SIZE.
Definition bls_public_key_from_hex : cstr -> outcome (CryptoResult (list Z)) := bytes_from_hex BLS_PUBLIC_KEY_SIZE.
Definition signature_from_hex_secp256k1 : cstr -> outcome (CryptoResult (list Z)) := bytes_from_hex SECP256K1_SIGNATURE_SIZE.
Definition signature_from_hex_ed25519 : cstr -> outcome (CryptoResult (list Z)) := bytes_from_hex ED25519_SIGNATURE_SIZE.
Definition signature_from_hex_bls : cstr -> outcome (CryptoResult (list Z)) := bytes_from_hex BLS_SIGNATURE_SIZE.

Definition secp256k1_private_key_to_hex (key : list Z) : cstr := bytes_to_hex key.
Definition secp256k1_public_key_to_hex (key : list Z) : cstr := bytes_to_hex key.
Definition secp256k1_compressed_public_key_to_hex (key : list Z) : cstr := bytes_to_hex key.
Definition ed25519_private_key_to_hex (key : list Z) : cstr := bytes_to_hex key.
Definition ed25519_public_key_to_hex (key : list Z) : cstr := bytes_to_hex key.
Definition bls_private_key_to_hex (key : list Z) : cstr := bytes_to_hex key.
Definition bls_public_key_to_hex (key : list Z) : cstr := bytes_to_hex key.
Definition signature_to_hex (sig : list Z) : cstr := bytes_to_hex sig.
Definition secp256k1_signature_to_hex (sig : list Z) : cstr := signature_to_hex sig.
Definition ed25519_signature_to_hex (sig : list Z) : cstr := signature_to_hex sig.
Definition bls_signature_to_hex (sig : list Z) : cstr := signature_to_hex sig.

(** ** Keccak front end *)

Section Keccak.
Context {D : Digests}.

(** Keccak is SHA-256 in the source; shorter outputs are a zero-padded prefix and
    longer ones are the 32 bytes as they are. *)
Definition internal_keccak (data : list Z) (output_bits : nat) : outcome (CryptoResult (list Z)) :=
  if Nat.eqb output_bits 256 then Ret (sha256 data)
  else
    let sha256_result := sha256 data in
    if negb (success sha256_result) then Ret sha256_result
    else if Nat.ltb output_bits 256 then
      let bytes_to_copy := ((output_bits + 7) / 8)%nat in
      truncated ← copy_first bytes_to_copy (value sha256_result);
      Ret (mkCryptoResult (truncated ++ zeros (HASH256_SIZE - bytes_to_copy)) SUCCESS)
    else Ret sha256_result.

Definition keccak_256 (data : list Z) : outcome (CryptoResult (list Z)) := internal_keccak data 256.
Definition keccak160 (data : list Z) : outcome (CryptoResult (list Z)) :=
  result ← internal_keccak data 160; output ← copy_first 20 (value result); Ret (mkCryptoResult output (error result)).
Definition keccak384 (data : list Z) : outcome (CryptoResult (list Z)) :=
  result ← internal_keccak data 384; output ← copy_first 48 (value result); Ret (mkCryptoResult output (error result)).
Definition keccak512 (data : list Z) : outcome (CryptoResult (list Z)) :=
  result ← internal_keccak data 512; output ← copy_first 64 (value result); Ret (mkCryptoResult output (error result)).

(** [keccak256(data)[12:32]], left-aligned in a 32-byte array. *)
Definition ethereum_address_hash (data : list Z) : outcome (CryptoResult (list Z)) :=
  keccak_result ← keccak_256 data;
  if negb (success keccak_result) then Ret keccak_result
  else Ret (mkCryptoResult (copy_into HASH256_SIZE (drop 12 (value keccak_result))) SUCCESS).

Definition ethereum_signature_hash (data : list Z) : outcome (CryptoResult (list Z)) :=
  let prefix := (char_of 25 :: $"Ethereum Signed Message:") ++ (char_of 10 :: print_dec (Z.of_nat (length data))) in
  keccak_256 (bytes_of_cstr prefix ++ data).

(** *** The streaming hasher: a buffer that is hashed at the end *)

Record StreamHasher : Type := mkStreamHasher { buffer_ : list Z }.

Definition StreamHasher_default : StreamHasher := mkStreamHasher [].
Definition update (data : list Z) (s : StreamHasher) : StreamHasher := mkStreamHasher (buffer_ s ++ data).
Definition reset (s : StreamHasher) : StreamHasher := mkStreamHasher [].
Definition finalize_256 (s : StreamHasher) : outcome (CryptoResult (list Z)) := keccak_256 (buffer_ s).
Definition finalize_160 (s : StreamHasher) : outcome (CryptoResult (list Z)) := keccak160 (buffer_ s).
Definition finalize_384 (s : StreamHasher) : outcome (CryptoResult (list Z)) := keccak384 (buffer_ s).
Definition finalize_512 (s : StreamHasher) : outcome (CryptoResult (list Z)) := keccak512 (buffer_ s).
End Keccak.

(** [Keccak::to_hex], by the size of the digest. *)
Definition keccak256_to_hex (hash : list Z) : cstr := to_hex hash.
Definition keccak160_to_hex (hash : list Z) : cstr := bytes_to_hex hash.
Definition keccak384_to_hex (hash : list Z) : cstr := bytes_to_hex hash.
Definition keccak512_to_hex (hash : list Z) : cstr := bytes_to_hex hash.

(** ** Random bytes *)

(** [rd k] is the k-th draw of [std::random_device], [None] when it throws. *)
Fixpoint draw_bytes (rd : nat -> option Z) (k n : nat) : option (list Z) :=
  match n with
  | O => Some []
  | S n' => match rd k with
            | None => None
            | Some w => match draw_bytes rd (S k) n' with Some l => Some (Z.land w 255 :: l) | None => None end
            end
  end.

Definition generate_array (rd : nat -> option Z) (n : nat) : CryptoResult (list Z) :=
  match draw_bytes rd 0 n with
  | Some l => mkCryptoResult l SUCCESS
  | None => mkCryptoResult (zeros n) RANDOM_GENERATION_FAILED
  end.

Definition generate_bytes (rd : nat -> option Z) (n : nat) : CryptoResult (list Z) :=
  match n with
  | O => mkCryptoResult [] INVALID_LENGTH
  | _ => match draw_bytes rd 0 n with
         | Some l => mkCryptoResult l SUCCESS
         | None => mkCryptoResult [] RANDOM_GENERATION_FAILED
         end
  end.

Definition generate_hash256 (rd : nat -> option Z) : CryptoResult (list Z) := generate_array rd HASH256_SIZE.
Definition generate_secp256k1_private_key (rd : nat -> option Z) : CryptoResult (list Z) := generate_array rd SECP256K1_PRIVATE_KEY_SIZE.
Definition generate_ed25519_private_key (rd : nat -> option Z) : CryptoResult (list Z) := generate_array rd ED25519_PRIVATE_KEY_SIZE.
Definition generate_bls_private_key (rd : nat -> option Z) : CryptoResult (list Z) := generate_array rd BLS_PRIVATE_KEY_SIZE.

(** ** Key pairs *)

(** What is called of OpenSSL, libsecp256k1 and libsodium. *)
Class CurveLib : Type := {
  EC_POINT : Type;
  secp256k1_pubkey : Type;
  (** A fresh key with the private key set, then [EC_KEY_generate_key], which
      draws a key of its own: the public point, or [None] when a call fails. *)
  ec_generate : list Z -> Z -> option EC_POINT;
  (** [EC_POINT_point2oct] in uncompressed form into a buffer of the given size:
      the number of bytes it reports and the bytes. *)
  point2oct : EC_POINT -> nat -> nat * list Z;
  (** [secp256k1_context_create] succeeds. *)
  secp256k1_context : bool;
  ec_seckey_verify : list Z -> bool;
  ec_pubkey_parse : list Z -> option secp256k1_pubkey;
  (** Serialise, compressed or not, into a buffer of the given size. *)
  ec_pubkey_serialize : secp256k1_pubkey -> bool -> nat -> option (list Z);
  sodium_init : bool;
  (** [crypto_sign_ed25519_sk_to_pk] of a 64-byte secret key. *)
  ed25519_sk_to_pk : list Z -> list Z
}.

(** An uncompressed point takes 65 bytes, and a public key is parsed from 33 or
    65 bytes. *)
Class CurveLaws {C : CurveLib} : Prop := {
  point2oct_size : forall p n, (n < 65)%nat -> fst (point2oct p n) = 0%nat;
  pubkey_parse_size : forall bytes k, ec_pubkey_parse bytes = Some k -> length bytes = 33%nat \/ length bytes = 65%nat
}.

Record Secp256k1KeyPair : Type := mkSecp256k1KeyPair {
  sk_private : list Z;
  sk_public : list Z;
  sk_compressed : list Z
}.
Definition Secp256k1KeyPair_zero : Secp256k1KeyPair :=
  mkSecp256k1KeyPair (zeros SECP256K1_PRIVATE_KEY_SIZE) (zeros SECP256K1_PUBLIC_KEY_SIZE) (zeros SECP256K1_COMPRESSED_PUBLIC_KEY_SIZE).

Record Ed25519KeyPair : Type := mkEd25519KeyPair { ed_private : list Z; ed_public : list Z }.
Record BlsKeyPair : Type := mkBlsKeyPair { bls_private : list Z; bls_public : list Z }.

Section KeyPairs.
Context {D : Digests} {C : CurveLib}.

Definition internal_derive_secp256k1_public_key (private_key : list Z) (drawn : Z) : CryptoResult (list Z) :=
  match ec_generate private_key drawn with
  | None => mkCryptoResult (zeros SECP256K1_PUBLIC_KEY_SIZE) INVALID_KEY
  | Some pub_point =>
      let '(key_size, public_key) := point2oct pub_point SECP256K1_PUBLIC_KEY_SIZE in
      if negb (Nat.eqb key_size SECP256K1_PUBLIC_KEY_SIZE) then mkCryptoResult (zeros SECP256K1_PUBLIC_KEY_SIZE) INVALID_KEY
      else mkCryptoResult public_key SUCCESS
  end.

Definition derive_secp256k1_public_key (private_key : list Z) (drawn : Z) : CryptoResult (list Z) :=
  internal_derive_secp256k1_public_key private_key drawn.

(** Parse a key and write it in the other form. *)
Definition convert_public_key (key : list Z) (compressed : bool) (n : nat) : CryptoResult (list Z) :=
  if negb secp256k1_context then mkCryptoResult (zeros n) INVALID_KEY
  else match ec_pubkey_parse key with
       | None => mkCryptoResult (zeros n) INVALID_KEY
       | Some pubkey =>
           match ec_pubkey_serialize pubkey compressed n with
           | None => mkCryptoResult (zeros n) INVALID_KEY
           | Some out => mkCryptoResult out SUCCESS
           end
       end.

Definition compress_secp256k1_public_key (public_key : list Z) : CryptoResult (list Z) :=
  convert_public_key public_key true SECP256K1_COMPRESSED_PUBLIC_KEY_SIZE.
Definition decompress_secp256k1_public_key (compressed_key : list Z) : CryptoResult (list Z) :=
  convert_public_key compressed_key false SECP256K1_PUBLIC_KEY_SIZE.

Definition from_secp256k1_private_key (private_key : list Z) (drawn : Z) : CryptoResult Secp256k1KeyPair :=
  let public_key_result := derive_secp256k1_public_key private_key drawn in
  if negb (success public_key_result) then mkCryptoResult Secp256k1KeyPair_zero (error public_key_result)
  else
    let compressed_result := compress_secp256k1_public_key (value public_key_result) in
    if negb (success compressed_result) then mkCryptoResult Secp256k1KeyPair_zero (error compressed_result)
    else mkCryptoResult (mkSecp256k1KeyPair private_key (value public_key_result) (value compressed_result)) SUCCESS.

Definition generate_secp256k1 (rd : nat -> option Z) (drawn : Z) : CryptoResult Secp256k1KeyPair :=
  let private_key_result := generate_secp256k1_private_key rd in
  if negb (success private_key_result) then mkCryptoResult Secp256k1KeyPair_zero (error private_key_result)
  else from_secp256k1_private_key (value private_key_result) drawn.

Definition is_valid_secp256k1_private_key (private_key : list Z) : bool :=
  secp256k1_context && ec_seckey_verify private_key.
Definition is_valid_secp256k1_public_key (public_key : list Z) : bool :=
  secp256k1_context && match ec_pubkey_parse public_key with Some _ => true | None => false end.
Definition is_valid_secp256k1_compressed_public_key (compressed_key : list Z) : bool :=
  secp256k1_context && match ec_pubkey_parse compressed_key with Some _ => true | None => false end.

(** The secret key of libsodium has 64 bytes; the array passed has 32. *)
Definition internal_derive_ed25519_public_key (private_key : list Z) : outcome (CryptoResult (list Z)) :=
  if negb sodium_init then Ret (mkCryptoResult (zeros ED25519_PUBLIC_KEY_SIZE) INVALID_KEY)
  else if Nat.ltb (length private_key) 64 then Undefined
  else Ret (mkCryptoResult (ed25519_sk_to_pk private_key) SUCCESS).
Definition derive_ed25519_public_key (private_key : list Z) : outcome (CryptoResult (list Z)) :=
  internal_derive_ed25519_public_key private_key.
Definition from_ed25519_private_key (private_key : list Z) : outcome (CryptoResult Ed25519KeyPair) :=
  public_key_result ← derive_ed25519_public_key private_key;
  if negb (success public_key_result) then
    Ret (mkCryptoResult (mkEd25519KeyPair (zeros ED25519_PRIVATE_KEY_SIZE) (zeros ED25519_PUBLIC_KEY_SIZE)) (error public_key_result))
  else Ret (mkCryptoResult (mkEd25519KeyPair private_key (value public_key_result)) SUCCESS).
Definition generate_ed25519 (rd : nat -> option Z) : outcome (CryptoResult Ed25519KeyPair) :=
  let private_key_result := generate_ed25519_private_key rd in
  if negb (success private_key_result) then
    Ret (mkCryptoResult (mkEd25519KeyPair (zeros ED25519_PRIVATE_KEY_SIZE) (zeros ED25519_PUBLIC_KEY_SIZE)) (error private_key_result))
  else from_ed25519_private_key (value private_key_result).

Definition derive_ethereum_address (public_key : list Z) : CryptoResult (list Z) :=
  let keccak_result := keccak256 public_key in
  if negb (success keccak_result) then mkCryptoResult (zeros HASH256_SIZE) (error keccak_result)
  else mkCryptoResult (copy_into HASH256_SIZE (drop 12 (value keccak_result))) SUCCESS.

Definition derive_bitcoin_address (public_key : list Z) : CryptoResult (list Z) :=
  let compressed_result := compress_secp256k1_public_key public_key in
  if negb (success compressed_result) then mkCryptoResult (zeros HASH256_SIZE) (error compressed_result)
  else
    let ripemd_result := keccak256_ripemd160 (value compressed_result) in
    if negb (success ripemd_result) then mkCryptoResult (zeros HASH256_SIZE) (error ripemd_result)
    else mkCryptoResult (copy_into HASH256_SIZE (value ripemd_result)) SUCCESS.
End KeyPairs.

(** ** BLS stubs *)

Definition internal_derive_bls_public_key (private_key : list Z) : CryptoResult (list Z) :=
  mkCryptoResult (copy_into BLS_PUBLIC_KEY_SIZE private_key) SUCCESS.
Definition derive_bls_public_key (private_key : list Z) : CryptoResult (list Z) := internal_derive_bls_public_key private_key.
Definition from_bls_private_key (private_key : list Z) : CryptoResult BlsKeyPair :=
  let public_key_result := derive_bls_public_key private_key in
  if negb (success public_key_result) then
    mkCryptoResult (mkBlsKeyPair (zeros BLS_PRIVATE_KEY_SIZE) (zeros BLS_PUBLIC_KEY_SIZE)) (error public_key_result)
  else mkCryptoResult (mkBlsKeyPair private_key (value public_key_result)) SUCCESS.
Definition generate_bls (rd : nat -> option Z) : CryptoResult BlsKeyPair :=
  let private_key_result := generate_bls_private_key rd in
  if negb (success private_key_result) then
    mkCryptoResult (mkBlsKeyPair (zeros BLS_PRIVATE_KEY_SIZE) (zeros BLS_PUBLIC_KEY_SIZE)) (error private_key_result)
  else from_bls_private_key (value private_key_result).
Definition is_valid_bls_private_key (private_key : list Z) : bool := negb (bool_decide (private_key = zeros BLS_PRIVATE_KEY_SIZE)).
Definition is_valid_bls_public_key (public_key : list Z) : bool := Nat.eqb (length public_key) BLS_PUBLIC_KEY_SIZE.
Definition is_valid_ed25519_private_key (private_key : list Z) : bool := true.
Definition is_valid_ed25519_public_key (public_key : list Z) : bool := Nat.eqb (length public_key) ED25519_PUBLIC_KEY_SIZE.

Definition internal_bls_sign (message private_key : list Z) : CryptoResult (list Z) :=
  mkCryptoResult (copy_into BLS_SIGNATURE_SIZE private_key) SUCCESS.
Definition internal_bls_verify (message signature public_key : list Z) : CryptoResult bool := mkCryptoResult true SUCCESS.
Definition bls_sign (message private_key : list Z) : CryptoResult (list Z) := internal_bls_sign message private_key.
Definition bls_verify (message signature public_key : list Z) : CryptoResult bool := internal_bls_verify message signature public_key.
Definition bls_aggregate_signatures (signatures : list (list Z)) : CryptoResult (list Z) :=
  match signatures with
  | [] => mkCryptoResult (zeros BLS_SIGNATURE_SIZE) INVALID_SIGNATURE
  | _ => mkCryptoResult (zeros BLS_SIGNATURE_SIZE) UNSUPPORTED_ALGORITHM
  end.
Definition bls_verify_aggregate (messages : list (list Z)) (aggregate_signature : list Z) (public_keys : list (list Z)) : CryptoResult bool :=
  mkCryptoResult false UNSUPPORTED_ALGORITHM.

(** ** Lemmas *)

Section HashLemmas.
Context {D : Digests}.

Lemma sha256_error data : error (sha256 data) = SUCCESS \/ error (sha256 data) = HASH_FAILED.
Proof. unfold sha256, internal_sha256. destruct (openssl_sha256 data); auto. Qed.

Lemma hash_level_shape l :
  match hash_level l with
  | inl e => e = HASH_FAILED
  | inr next => length next = ((length l + 1) / 2)%nat
  end.
Proof.
  induction l as [| |a b l IH] using pair_ind; [done| |].
  - cbn [hash_level]. unfold hash_pair, success. destruct (sha256_error (a ++ a)) as [-> | ->]; done.
  - cbn [hash_level]. unfold hash_pair, success.
    destruct (sha256_error (a ++ b)) as [-> | ->]; [|done]. rewrite bool_decide_true by done. simpl negb. cbv iota.
    destruct (hash_level l) as [e|next]; [done|]. cbn [length]. rewrite IH.
    replace (S (S (length l)) + 1)%nat with (length l + 1 + 1 * 2)%nat by lia. rewrite Nat.div_add by done. lia.
Qed.

(** Every level is at least half as short, so one unit of fuel per hash is enough. *)
Lemma hash_loop_total fuel l :
  l <> [] -> (length l <= S fuel)%nat ->
  exists r, hash_loop fuel l = Some r /\ (error r = SUCCESS \/ error r = HASH_FAILED).
Proof.
  revert l. induction fuel as [|f IH]; intros l Hne Hl; destruct l as [|a [|b l]]; try done; simpl in Hl; try lia;
    try (eexists; split; [done|]; by left).
  cbn [hash_loop]. pose proof (hash_level_shape (a :: b :: l)) as Hs.
  destruct (hash_level (a :: b :: l)) as [e|next]; [eexists; split; [done|]; by right|].
  assert (Hlen : (1 <= length next <= S f)%nat).
  { rewrite Hs. cbn [length]. replace (S (S (length l)) + 1)%nat with (length l + 1 + 1 * 2)%nat by lia.
    rewrite Nat.div_add by done.
    assert ((length l + 1) / 2 < length l + 1)%nat by (apply Nat.Div0.div_lt_upper_bound; lia). lia. }
  apply IH; [by destruct next; simpl in *; [lia|]|lia].
Qed.

(** The combining function when the digest does not fail. *)
Definition pair_digest (l r : list Z) : list Z := value (hash_pair l r).

Lemma hash_level_merkle l :
  (forall data, is_Some (openssl_sha256 data)) -> hash_level l = inr (merkle_level pair_digest l).
Proof.
  intros Ht. assert (Hs : forall a b, success (hash_pair a b) = true).
  { intros a b. unfold success, hash_pair, sha256, internal_sha256. destruct (Ht (a ++ b)) as [d ->]. done. }
  induction l as [| |a b l IH] using pair_ind; [done| |]; cbn [hash_level merkle_level]; rewrite Hs; simpl; [done|].
  by rewrite IH.
Qed.

Lemma hash_loop_merkle fuel l :
  (forall data, is_Some (openssl_sha256 data)) ->
  hash_loop fuel l = (fun h => mkCryptoResult h SUCCESS) <$> merkle_loop pair_digest fuel l.
Proof.
  intros Ht. revert l. induction fuel as [|f IH]; intros l; destruct l as [|a [|b l]]; try done.
  cbn [hash_loop merkle_loop]. by rewrite hash_level_merkle, IH.
Qed.
End HashLemmas.

Lemma xdigit_char c d : is_digit_in 16 c = Some d -> is_space c = false /\ c <> "-"%char /\ c <> "+"%char /\ 0 <= d < 16.
Proof. destruct c as [[] [] [] [] [] [] [] []]; vm_compute; intros [=]; subst; repeat split; congruence. Qed.

Lemma stoi_xdigits c1 c2 d1 d2 :
  is_digit_in 16 c1 = Some d1 -> is_digit_in 16 c2 = Some d2 -> stoi 16 [c1; c2] = Ret (d1 * 16 + d2).
Proof.
  intros H1 H2. destruct (xdigit_char _ _ H1) as (Hs & Hm & Hp & ?). destruct (xdigit_char _ _ H2) as (_ & _ & _ & ?).
  unfold stoi, strto. cbn [skip_space]. rewrite Hs, take_sign_other by done. simpl. rewrite H1, H2.
  unfold digits_value. simpl fold_left. destruct d1 as [|p1|p1]; try lia; cbv beta iota.
  all: rewrite (proj2 (Z.leb_le _ _)), (proj2 (Z.leb_le _ _)) by lia; simpl; f_equal; lia.
Qed.

Lemma all_xdigits_spec s :
  Forall (fun c => char_code c < 128) s ->
  all_xdigits s = Ret (forallb (fun c => match is_digit_in 16 c with Some _ => true | None => false end) s).
Proof.
  induction 1 as [|c s Hc H IH]; [done|]. simpl. unfold isxdigit.
  rewrite (proj2 (Z.leb_gt 128 (char_code c))) by done. simpl. destruct (is_digit_in 16 c); simpl; done.
Qed.

Lemma hex_pairs_xdigits k i s :
  forallb (fun c => match is_digit_in 16 c with Some _ => true | None => false end) s = true ->
  ((i + k) * 2 <= length s)%nat -> exists l, hex_pairs i k s = Ret l.
Proof.
  intros Hs. revert i. induction k as [|k IH]; intros i Hl; [by eexists|]. cbn [hex_pairs]. unfold substr.
  destruct (drop (i * 2) s) as [|c1 [|c2 rest]] eqn:E;
    try (apply (f_equal length) in E; rewrite length_drop in E; simpl in E; lia).
  assert (Hin : forall c, c ∈ [c1; c2] -> exists d, is_digit_in 16 c = Some d).
  { intros c Hc. rewrite forallb_forall in Hs. specialize (Hs c).
    destruct (is_digit_in 16 c) as [d|]; [by exists d|]. discriminate Hs. apply list_elem_of_In.
    rewrite <- (take_drop (i * 2) s), E. apply elem_of_app. right. set_solver. }
  destruct (Hin c1) as [d1 H1]; [set_solver|]. destruct (Hin c2) as [d2 H2]; [set_solver|].
  change (take 2 (c1 :: c2 :: rest)) with [c1; c2]. rewrite (stoi_xdigits c1 c2 d1 d2 H1 H2). simpl.
  destruct (IH (S i)) as [l ->]; [lia|]. by eexists.
Qed.

Lemma bytes_to_hex_xdigits l :
  bytes_ok l -> Forall (fun c => char_code c < 128 /\ is_Some (is_digit_in 16 c)) (bytes_to_hex l).
Proof.
  induction 1 as [|b l Hb H IH]; [constructor|]. unfold bytes_to_hex in *. simpl. apply Forall_app_2; [|done].
  clear -Hb. assert (Hall : forallb (fun b => forallb (fun c => (char_code c <? 128) && match is_digit_in 16 c with Some _ => true | None => false end)
                              (print_hex2 b)) (seqZ 0 256) = true) by (vm_compute; reflexivity).
  rewrite forallb_forall in Hall.
  specialize (Hall b ltac:(apply list_elem_of_In, elem_of_seqZ; unfold is_u8 in Hb; lia)). rewrite forallb_forall in Hall.
  apply Forall_forall. intros c Hc. specialize (Hall c). apply list_elem_of_In, Hall, andb_true_iff in Hc as [H1 H2].
  split; [by apply Z.ltb_lt|]. by destruct (is_digit_in 16 c).
Qed.

(** The calls on a streaming hasher, and what its buffer should hold: the updates
    since the last reset. *)
Inductive hasher_op : Type := OpUpdate (data : list Z) | OpReset.
Definition hasher_run (s : StreamHasher) (op : hasher_op) : StreamHasher :=
  match op with OpUpdate data => update data s | OpReset => reset s end.
Fixpoint since_reset (ops : list hasher_op) : list Z :=
  match ops with
  | [] => []
  | OpUpdate data :: rest => if existsb (fun op => match op with OpReset => true | _ => false end) rest then since_reset rest else data ++ since_reset rest
  | OpReset :: rest => since_reset rest
  end.

Lemma hasher_buffer ops s :
  buffer_ (fold_left hasher_run ops s)
  = (if existsb (fun op => match op with OpReset => true | _ => false end) ops then [] else buffer_ s) ++ since_reset ops.
Proof.
  revert s. induction ops as [|[d|] ops IH]; intros s; simpl; [by rewrite app_nil_r| |].
  - rewrite IH. destruct (existsb _ ops); simpl; [done|]. by rewrite <- app_assoc.
  - rewrite IH. by destruct (existsb _ ops).
Qed.

(** ** Properties *)

(** The Merkle reduction of raw hashes always returns, with the digest's error
    when a digest fails; when none does, its result is the root of the recursively
    defined tree over [hash_pair]. *)
Theorem hash_many_reference {D : Digests} (hs : list (list Z)) :
  (exists r, hash_many hs = Ret r /\ (error r = SUCCESS \/ error r = HASH_FAILED))
  /\ ((forall data, is_Some (openssl_sha256 data)) -> hs <> [] ->
      exists root, merkle_tree pair_digest (Nat.log2_up (length hs)) hs = Some root
        /\ hash_many hs = Ret (mkCryptoResult root SUCCESS)).
Proof.
  split.
  - destruct hs as [|a [|b hs]]; try (eexists; split; [done|]; by left). unfold hash_many.
    destruct (hash_loop_total (length (a :: b :: hs)) (a :: b :: hs)) as (r & -> & Hr); [done|lia|]. eauto.
  - intros Ht Hne. destruct (merkle_tree_some pair_digest (Nat.log2_up (length hs)) hs Hne) as [root Hr].
    exists root. split; [done|]. rewrite <- merkle_loop_log2 in Hr by done.
    destruct hs as [|a [|b hs]]; [done|by injection Hr as ->|]. unfold hash_many. by rewrite hash_loop_merkle, Hr.
Qed.

(** Hex parsing of hashes.  What [to_hex] prints is read back; and on any ASCII
    text [from_hex] returns without throwing, with success exactly for 64
    hexadecimal digits.  The parsers of keys and signatures read back what is
    printed too. *)
Theorem crypto_hex_roundtrip (h : list Z) (s : cstr) (n : nat) :
  bytes_ok h ->
  (length h = HASH256_SIZE -> from_hex (to_hex h) = Ret (mkCryptoResult h SUCCESS))
  /\ (length h = n -> bytes_from_hex n (to_hex h) = Ret (mkCryptoResult h SUCCESS))
  /\ (Forall (fun c => char_code c < 128) s ->
      exists r, from_hex s = Ret r
        /\ (error r = SUCCESS <-> length s = 64%nat /\ Forall (fun c => is_Some (is_digit_in 16 c)) s)).
Proof.
  intros Hb.
  assert (Hrt : length h = n -> bytes_from_hex n (to_hex h) = Ret (mkCryptoResult h SUCCESS)).
  { intros <-. unfold bytes_from_hex, to_hex. rewrite length_bytes_to_hex, Nat.mul_comm, Nat.eqb_refl by done. simpl.
    rewrite hex_pairs_to_hex by (done || lia). simpl. by rewrite drop_0, firstn_all. }
  assert (Hdig : forall t, Forall (fun c => char_code c < 128) t ->
            forallb (fun c => match is_digit_in 16 c with Some _ => true | None => false end) t = true
            <-> Forall (fun c => is_Some (is_digit_in 16 c)) t).
  { intros t _. rewrite forallb_forall, Forall_forall. split; intros H c Hc; specialize (H c).
    - apply list_elem_of_In, H in Hc. by destruct (is_digit_in 16 c).
    - apply list_elem_of_In, H in Hc as [d ->]. done. }
  split_and!; [|done|].
  - intros Hl. pose proof (bytes_to_hex_xdigits h Hb) as Hx.
    assert (Ha : Forall (fun c => char_code c < 128) (bytes_to_hex h)) by (eapply Forall_impl; [exact Hx|]; by intros ? []).
    assert (Hs : Forall (fun c => is_Some (is_digit_in 16 c)) (bytes_to_hex h)) by (eapply Forall_impl; [exact Hx|]; by intros ? []).
    unfold from_hex, is_valid_hex_hash, to_hex. rewrite length_bytes_to_hex, Hl by done. simpl negb. cbv iota.
    rewrite all_xdigits_spec, (proj2 (Hdig _ Ha) Hs) by done. cbn [mbind outcome_bind negb].
    rewrite hex_pairs_to_hex by (done || rewrite Hl; done). simpl. by rewrite drop_0, <- Hl, firstn_all.
  - intros Ha. unfold from_hex, is_valid_hex_hash, HASH256_SIZE.
    change (32 * 2)%nat with 64%nat. destruct (Nat.eqb_spec (length s) 64) as [Hl|Hl]; cbn [negb mbind outcome_bind]; [|eexists; split; [done|]; simpl; split; [done|tauto]].
    rewrite all_xdigits_spec by done. cbn [mbind outcome_bind].
    destruct (forallb _ s) eqn:E; cbn [negb].
    + destruct (hex_pairs_xdigits 32 0 s E) as [l Hp]; [lia|]. rewrite Hp. eexists. split; [done|]. simpl. rewrite <- Hdig by done. tauto.
    + eexists. split; [done|]. simpl. split; [done|]. intros [_ H]. apply Hdig in H; [congruence|done].
Qed.

(** The wide Keccak functions copy 48 and 64 bytes out of a 32-byte array: they
    are undefined on every input.  The 160-bit one is the first 20 bytes of the
    SHA-256 digest. *)
Theorem keccak_wide_undefined {D : Digests} {_ : DigestLaws} (data : list Z) :
  keccak384 data = Undefined /\ keccak512 data = Undefined
  /\ (forall d, openssl_sha256 data = Some d -> keccak160 data = Ret (mkCryptoResult (take 20 d) SUCCESS)).
Proof.
  assert (Hl : length (value (sha256 data)) = 32%nat).
  { unfold sha256, internal_sha256. destruct (openssl_sha256 data) as [d|] eqn:E; [by apply (sha256_length data)|done]. }
  unfold keccak384, keccak512, keccak160, internal_keccak, copy_first. simpl.
  split_and!; [destruct (success (sha256 data)); simpl; by rewrite Hl..|].
  intros d Hd. unfold sha256, internal_sha256 in *. rewrite Hd in *. simpl in *. rewrite Hl. simpl.
  rewrite length_app, length_take, Hl. simpl. rewrite take_app_le by (rewrite length_take; lia). by rewrite take_take.
Qed.

(** The streaming hasher hashes what was fed to it since the last reset, however
    it was cut into updates. *)
Theorem stream_hasher_concat {D : Digests} (ops : list hasher_op) :
  let s := fold_left hasher_run ops StreamHasher_default in
  finalize_256 s = keccak_256 (since_reset ops) /\ finalize_160 s = keccak160 (since_reset ops).
Proof.
  unfold finalize_256, finalize_160. rewrite hasher_buffer. simpl. by destruct (existsb _ ops).
Qed.

(** No secp256k1 key pair is ever made.  The 64-byte buffer is too short for an
    uncompressed point and 64 bytes are not a key for the parser, so deriving,
    compressing and generating fail for every key and every draw, no public key is
    valid, and no Bitcoin address can be derived. *)
Theorem secp256k1_pair_never_made {D : Digests} {C : CurveLib} {_ : CurveLaws} (key : list Z) (rd : nat -> option Z) (drawn : Z) :
  error (from_secp256k1_private_key key drawn) = INVALID_KEY
  /\ success (generate_secp256k1 rd drawn) = false
  /\ (length key = SECP256K1_PUBLIC_KEY_SIZE ->
      error (compress_secp256k1_public_key key) = INVALID_KEY /\ is_valid_secp256k1_public_key key = false
      /\ error (derive_bitcoin_address key) = INVALID_KEY).
Proof.
  assert (Hd : forall k, error (derive_secp256k1_public_key k drawn) = INVALID_KEY).
  { intros k. unfold derive_secp256k1_public_key, internal_derive_secp256k1_public_key.
    destruct (ec_generate k drawn) as [p|]; [|done].
    pose proof (point2oct_size p SECP256K1_PUBLIC_KEY_SIZE ltac:(unfold SECP256K1_PUBLIC_KEY_SIZE; lia)) as Hp.
    destruct (point2oct p SECP256K1_PUBLIC_KEY_SIZE) as [n bs]. simpl in Hp. by subst. }
  assert (Hf : forall k, error (from_secp256k1_private_key k drawn) = INVALID_KEY).
  { intros k. unfold from_secp256k1_private_key, success. by rewrite Hd. }
  split_and!; [done| |].
  - unfold generate_secp256k1. destruct (success (generate_secp256k1_private_key rd)) eqn:E; simpl; [|done].
    unfold success. by rewrite Hf.
  - intros Hl. assert (Hp : ec_pubkey_parse key = None).
    { destruct (ec_pubkey_parse key) as [k|] eqn:E; [|done]. apply pubkey_parse_size in E. rewrite Hl in E. by destruct E. }
    assert (Hc : error (compress_secp256k1_public_key key) = INVALID_KEY).
    { unfold compress_secp256k1_public_key, convert_public_key. rewrite Hp. by destruct secp256k1_context. }
    split_and!; [done| |].
    + unfold is_valid_secp256k1_public_key. rewrite Hp. apply andb_false_r.
    + unfold derive_bitcoin_address, success. by rewrite Hc.
Qed.

(** ** Witnesses *)

Definition demo_digests : Digests := {|
  openssl_sha256 data := Some (copy_into 32 data);
  openssl_ripemd160 data := Some (copy_into 20 data)
|}.
Lemma demo_digest_laws : @DigestLaws demo_digests.
Proof. split; simpl; intros data d [= <-]; apply length_copy_into. Qed.

Definition demo_curve : CurveLib := {|
  EC_POINT := list Z; secp256k1_pubkey := list Z;
  ec_generate key _ := Some key;
  point2oct p n := if Nat.ltb n 65 then (0%nat, []) else (65%nat, copy_into 65 p);
  secp256k1_context := true;
  ec_seckey_verify _ := true;
  ec_pubkey_parse bytes := if Nat.eqb (length bytes) 33 || Nat.eqb (length bytes) 65 then Some bytes else None;
  ec_pubkey_serialize k compressed n := Some (copy_into n k);
  sodium_init := true;
  ed25519_sk_to_pk key := drop 32 key
|}.
Lemma demo_curve_laws : @CurveLaws demo_curve.
Proof.
  split; simpl.
  - intros p n Hn. by rewrite (proj2 (Nat.ltb_lt n 65) Hn).
  - intros bytes k. destruct (Nat.eqb_spec (length bytes) 33), (Nat.eqb_spec (length bytes) 65); simpl; auto. done.
Qed.

Lemma hash_many_reference_witness :
  exists root, @hash_many demo_digests [zeros 32; replicate 32 1; replicate 32 2] = Ret (mkCryptoResult root SUCCESS).
Proof.
  destruct (@hash_many_reference demo_digests [zeros 32; replicate 32 1; replicate 32 2]) as [_ H].
  destruct H as (root & _ & H); [intros data; eexists; reflexivity|discriminate|]. exists root. exact H.
Defined.

Lemma crypto_hex_roundtrip_witness :
  from_hex (to_hex (zeros 32)) = Ret (mkCryptoResult (zeros 32) SUCCESS).
Proof. apply (crypto_hex_roundtrip (zeros 32) [] 0); [decide_now|reflexivity]. Defined.

Lemma keccak_wide_undefined_witness : @keccak384 demo_digests [1; 2; 3] = Undefined.
Proof. apply (@keccak_wide_undefined demo_digests demo_digest_laws). Defined.

Lemma secp256k1_pair_never_made_witness :
  error (@from_secp256k1_private_key demo_curve (replicate 32 7) 0) = INVALID_KEY.
Proof.
  exact (proj1 (@secp256k1_pair_never_made demo_digests demo_curve demo_curve_laws (replicate 32 7) (fun _ => None) 0)).
Defined.
