(* ===== verification/Curve.v ===== *)
(** * Curve operations (crypto/curve.hpp, curve.cpp)

    The operations of the three curve classes as they are written: placeholders
    that copy or combine bytes, or report an unsupported algorithm, and the
    constants of the curves. *)

From stdpp Require Import base list numbers.
From Stdlib Require Import ZArith Lia.
From S2P Require Import Prelude Crypto.

(** ** secp256k1 *)

Definition secp256k1_multiply_base (scalar : list Z) : CryptoResult (list Z) :=
  mkCryptoResult (copy_into SECP256K1_PUBLIC_KEY_SIZE scalar) SUCCESS.
Definition secp256k1_multiply (point scalar : list Z) : CryptoResult (list Z) := mkCryptoResult point SUCCESS.
Definition secp256k1_add (p1 p2 : list Z) : CryptoResult (list Z) := mkCryptoResult (zip_with Z.lxor p1 p2) SUCCESS.
Definition secp256k1_is_valid_point (point : list Z) : bool := Nat.eqb (length point) SECP256K1_PUBLIC_KEY_SIZE.
Definition secp256k1_is_point_at_infinity (point : list Z) : bool := forallb (fun b => b =? 0) point.
Definition compress_point (point : list Z) : CryptoResult (list Z) :=
  mkCryptoResult (copy_into SECP256K1_COMPRESSED_PUBLIC_KEY_SIZE point) SUCCESS.
Definition decompress_point (compressed_point : list Z) : CryptoResult (list Z) :=
  mkCryptoResult (copy_into SECP256K1_PUBLIC_KEY_SIZE compressed_point) SUCCESS.

Definition secp256k1_order : list Z :=
  [0xFF; 0xFF; 0xFF; 0xFF; 0xFF; 0xFF; 0xFF; 0xFF; 0xFF; 0xFF; 0xFF; 0xFF; 0xFF; 0xFF; 0xFF; 0xFE;
   0xBA; 0xAE; 0xDC; 0xE6; 0xAF; 0x48; 0xA0; 0x3B; 0xBF; 0xD2; 0x5E; 0x8C; 0xD0; 0x36; 0x41; 0x41].
Definition secp256k1_generator : list Z :=
  [0x79; 0xBE; 0x66; 0x7E; 0xF9; 0xDC; 0xBB; 0xAC; 0x55; 0xA0; 0x62; 0x95; 0xCE; 0x87; 0x0B; 0x07;
   0x02; 0x9B; 0xFC; 0xDB; 0x2D; 0xCE; 0x28; 0xD9; 0x59; 0xF2; 0x81; 0x5B; 0x16; 0xF8; 0x17; 0x98;
   0x48; 0x3A; 0xDA; 0x77; 0x26; 0xA3; 0xC4; 0x65; 0x5D; 0xA4; 0xFB; 0xFC; 0x0E; 0x11; 0x08; 0xA8;
   0xFD; 0x17; 0xB4; 0x48; 0xA6; 0x85; 0x54; 0x19; 0x9C; 0x47; 0xD0; 0x8F; 0xFB; 0x10; 0xD4; 0xB8].

(** ** Ed25519 *)

Definition ed25519_multiply_base (scalar : list Z) : CryptoResult (list Z) :=
  mkCryptoResult (zeros ED25519_PUBLIC_KEY_SIZE) UNSUPPORTED_ALGORITHM.
Definition ed25519_multiply (point scalar : list Z) : CryptoResult (list Z) :=
  mkCryptoResult (zeros ED25519_PUBLIC_KEY_SIZE) UNSUPPORTED_ALGORITHM.
Definition ed25519_add (p1 p2 : list Z) : CryptoResult (list Z) :=
  mkCryptoResult (zeros ED25519_PUBLIC_KEY_SIZE) UNSUPPORTED_ALGORITHM.
Definition ed25519_is_valid_point (point : list Z) : bool := Nat.eqb (length point) ED25519_PUBLIC_KEY_SIZE.
Definition ed25519_is_point_at_infinity (point : list Z) : bool := false.
Definition ed25519_generator : list Z :=
  [0x58; 0x66; 0x66; 0x66; 0x66; 0x66; 0x66; 0x66; 0x66; 0x66; 0x66; 0x66; 0x66; 0x66; 0x66; 0x66;
   0x66; 0x66; 0x66; 0x66; 0x66; 0x66; 0x66; 0x66; 0x66; 0x66; 0x66; 0x66; 0x66; 0x66; 0x66; 0x58].

(** ** BLS12-381 *)

Definition g1_multiply_base (scalar : list Z) : CryptoResult (list Z) :=
  mkCryptoResult (zeros BLS_PUBLIC_KEY_SIZE) UNSUPPORTED_ALGORITHM.
Definition g1_multiply (point scalar : list Z) : CryptoResult (list Z) :=
  mkCryptoResult (zeros BLS_PUBLIC_KEY_SIZE) UNSUPPORTED_ALGORITHM.
Definition g1_add (p1 p2 : list Z) : CryptoResult (list Z) :=
  mkCryptoResult (zeros BLS_PUBLIC_KEY_SIZE) UNSUPPORTED_ALGORITHM.
Definition g2_multiply_base (scalar : list Z) : CryptoResult (list Z) :=
  mkCryptoResult (zeros BLS_SIGNATURE_SIZE) UNSUPPORTED_ALGORITHM.
Definition g2_multiply (point scalar : list Z) : CryptoResult (list Z) :=
  mkCryptoResult (zeros BLS_SIGNATURE_SIZE) UNSUPPORTED_ALGORITHM.
Definition g2_add (s1 s2 : list Z) : CryptoResult (list Z) :=
  mkCryptoResult (zeros BLS_SIGNATURE_SIZE) UNSUPPORTED_ALGORITHM.
Definition is_valid_g1_point (point : list Z) : bool := Nat.eqb (length point) BLS_PUBLIC_KEY_SIZE.
Definition is_valid_g2_point (point : list Z) : bool := Nat.eqb (length point) BLS_SIGNATURE_SIZE.
Definition pairing_check (g1_point g2_point : list Z) : CryptoResult bool := mkCryptoResult false UNSUPPORTED_ALGORITHM.
Definition g1_generator : list Z := zeros BLS_PUBLIC_KEY_SIZE.
Definition g2_generator : list Z := zeros BLS_SIGNATURE_SIZE.

(** ** Properties *)

(** The prime of secp256k1 and that of Ed25519; the value of little-endian bytes. *)
Definition secp256k1_p : Z := 2 ^ 256 - 2 ^ 32 - 977.
Definition ed25519_p : Z := 2 ^ 255 - 19.
Definition le_value (l : list Z) : Z := be_value (rev l).

(** The constants: the secp256k1 generator is a point of y^2 = x^3 + 7, but the
    bytes given for Ed25519 are not its base point, whose y is 4/5: the last byte
    should be 0x66. *)
Theorem curve_constants :
  let x := be_value (take 32 secp256k1_generator) in
  let y := be_value (drop 32 secp256k1_generator) in
  x < secp256k1_p /\ y < secp256k1_p /\ y ^ 2 mod secp256k1_p = (x ^ 3 + 7) mod secp256k1_p
  /\ be_value secp256k1_order = 115792089237316195423570985008687907852837564279074904382605163141518161494337
  /\ 5 * le_value ed25519_generator mod ed25519_p <> 4
  /\ 5 * le_value (take 31 ed25519_generator ++ [0x66]) mod ed25519_p = 4.
Proof. vm_compute. split_and!; done. Qed.

Lemma lxor_zip_assoc (a b c : list Z) :
  zip_with Z.lxor (zip_with Z.lxor a b) c = zip_with Z.lxor a (zip_with Z.lxor b c).
Proof. revert b c. induction a as [|x a IH]; intros [|y b] [|z c]; cbn; try done. by rewrite Z.lxor_assoc, IH. Qed.

Lemma lxor_zip_comm (a b : list Z) : zip_with Z.lxor a b = zip_with Z.lxor b a.
Proof. revert b. induction a as [|x a IH]; intros [|y b]; cbn; try done. by rewrite Z.lxor_comm, IH. Qed.

Lemma lxor_zip_self (a : list Z) : zip_with Z.lxor a a = replicate (length a) 0.
Proof. induction a as [|x a IH]; cbn; [done|]. by rewrite Z.lxor_nilpotent, IH. Qed.

Lemma lxor_zip_zeros (a : list Z) n : length a = n -> zip_with Z.lxor a (zeros n) = a.
Proof. intros <-. unfold zeros. induction a as [|x a IH]; cbn; [done|]. by rewrite Z.lxor_0_r, IH. Qed.

(** The placeholder addition is a commutative group in which every point is its own
    inverse, and multiplication ignores the scalar, so 2P = P while P + P is the
    point at infinity; and a point survives compression only if its last 31 bytes
    are zero. *)
Theorem curve_placeholder_group (p q r s : list Z) :
  length p = SECP256K1_PUBLIC_KEY_SIZE ->
  value (secp256k1_add p q) = value (secp256k1_add q p)
  /\ value (secp256k1_add (value (secp256k1_add p q)) r) = value (secp256k1_add p (value (secp256k1_add q r)))
  /\ value (secp256k1_add p (zeros SECP256K1_PUBLIC_KEY_SIZE)) = p
  /\ secp256k1_is_point_at_infinity (value (secp256k1_add p p)) = true
  /\ value (secp256k1_multiply p s) = p
  /\ (value (decompress_point (value (compress_point p))) = p <-> drop 33 p = replicate 31 0).
Proof.
  intros Hp. unfold secp256k1_add, secp256k1_multiply, compress_point, decompress_point. cbn [value]. split_and!; try done.
  - apply lxor_zip_comm.
  - apply lxor_zip_assoc.
  - by apply lxor_zip_zeros.
  - unfold secp256k1_is_point_at_infinity. rewrite lxor_zip_self. apply forallb_forall.
    intros b Hb%list_elem_of_In%elem_of_replicate. apply Z.eqb_eq. naive_solver.
  - unfold copy_into. rewrite Hp. unfold SECP256K1_COMPRESSED_PUBLIC_KEY_SIZE, SECP256K1_PUBLIC_KEY_SIZE in *.
    change (33 - 64)%nat with O. cbn [replicate]. rewrite app_nil_r, length_take, Hp. change (64 - Nat.min 33 64)%nat with 31%nat.
    rewrite take_take. change (Nat.min 64 33) with 33%nat. split.
    + intros H. rewrite <- H. rewrite drop_app_length'; [done|]. rewrite length_take. lia.
    + intros H. rewrite <- (take_drop 33 p) at 2. by rewrite H.
Qed.

Lemma curve_placeholder_group_witness :
  value (secp256k1_add secp256k1_generator secp256k1_generator) = value (secp256k1_add secp256k1_generator secp256k1_generator)
  /\ (value (decompress_point (value (compress_point secp256k1_generator))) = secp256k1_generator <-> drop 33 secp256k1_generator = replicate 31 0).
Proof.
  destruct (curve_placeholder_group secp256k1_generator secp256k1_generator secp256k1_generator []) as (H & _ & _ & _ & _ & H2); [reflexivity..|].
  split; [exact H|exact H2].
Defined.
