(* ===== verification/Signature.v ===== *)
(** * Signatures and random numbers (crypto/signature.cpp, random.cpp)

    ECDSA over secp256k1 by OpenSSL and Ed25519 by libsodium, as the repository
    calls them.  The libraries are the parameter [SigLib]; its laws [SigLaws] state
    the documented formats: a DER signature is a SEQUENCE of two INTEGERs, and an
    encoded point has 1, 33 or 65 bytes. *)

From stdpp Require Import base list numbers.
From Stdlib Require Import ZArith Lia.
From S2P Require Import Prelude Crypto.

Class SigLib : Type := {
  EC_KEY : Type;
  EC_PUBLIC_KEY : Type;
  ECDSA_SIG : Type;
  (** [SHA256] of OpenSSL. *)
  SHA256 : list Z -> list Z;
  (** [EC_KEY_new_by_curve_name] succeeds. *)
  ec_key_new : bool;
  (** [BN_bin2bn] and [EC_KEY_set_private_key]. *)
  set_private_key : list Z -> option EC_KEY;
  (** [ECDSA_do_sign], with the random number it draws. *)
  ECDSA_do_sign : list Z -> EC_KEY -> Z -> option ECDSA_SIG;
  (** [ECDSA_SIG_get0_r] and [ECDSA_SIG_get0_s]. *)
  sig_r : ECDSA_SIG -> Z;
  sig_s : ECDSA_SIG -> Z;
  (** The bytes [i2d_ECDSA_SIG] writes; its result is their number. *)
  i2d_ECDSA_SIG : ECDSA_SIG -> list Z;
  (** Reads a signature at the start of the bytes. *)
  d2i_ECDSA_SIG : list Z -> option ECDSA_SIG;
  o2i_ECPublicKey : list Z -> option EC_PUBLIC_KEY;
  ECDSA_do_verify : list Z -> ECDSA_SIG -> EC_PUBLIC_KEY -> Z;
  sodium_ready : bool;
  (** [crypto_sign_ed25519_detached] with a 64-byte secret key, and
      [crypto_sign_ed25519_verify_detached]. *)
  ed25519_detached : list Z -> list Z -> list Z;
  ed25519_verify_detached : list Z -> list Z -> list Z -> Z
}.

(** ** DER *)

(** Bytes of the two's complement form of a non-negative integer: one more than the
    bytes of its bits when the top bit is set. *)
Definition int_len (n : Z) : nat := Z.to_nat (Z.log2 n / 8 + if Z.log2 n mod 8 =? 7 then 2 else 1).
Definition der_int (n : Z) : list Z := 2 :: Z.of_nat (int_len n) :: be_bytes (int_len n) n.
Definition der_sig (r s : Z) : list Z :=
  0x30 :: Z.of_nat (length (der_int r ++ der_int s)) :: der_int r ++ der_int s.

Class SigLaws {L : SigLib} : Prop := {
  sig_positive : forall sig, 1 <= sig_r sig < 2 ^ 256 /\ 1 <= sig_s sig < 2 ^ 256;
  i2d_der : forall sig, i2d_ECDSA_SIG sig = der_sig (sig_r sig) (sig_s sig);
  d2i_i2d : forall sig rest, d2i_ECDSA_SIG (i2d_ECDSA_SIG sig ++ rest) = Some sig;
  o2i_size : forall bytes k, o2i_ECPublicKey bytes = Some k -> length bytes = 1%nat \/ length bytes = 33%nat \/ length bytes = 65%nat
}.

Section Signatures.
Context {L : SigLib}.

(** ** ECDSA *)

(** [junk] is what the array holds before it is written. *)
Definition internal_ecdsa_sign (message private_key : list Z) (drawn : Z) (junk : list Z) : CryptoResult (list Z) :=
  let hash := SHA256 message in
  let failed := mkCryptoResult (zeros SECP256K1_SIGNATURE_SIZE) SIGNATURE_FAILED in
  if negb ec_key_new then failed
  else match set_private_key private_key with
       | None => failed
       | Some ec_key =>
           match ECDSA_do_sign hash ec_key drawn with
           | None => failed
           | Some sig =>
               let der := i2d_ECDSA_SIG sig in
               if Nat.eqb (length der) 0 || Nat.ltb SECP256K1_SIGNATURE_SIZE (length der) then failed
               else mkCryptoResult (der ++ drop (length der) junk) SUCCESS
           end
       end.

Definition internal_ecdsa_verify (message signature public_key : list Z) : CryptoResult bool :=
  let hash := SHA256 message in
  if negb ec_key_new then mkCryptoResult false VERIFICATION_FAILED
  else match o2i_ECPublicKey public_key with
       | None => mkCryptoResult false INVALID_KEY
       | Some ec_key =>
           match d2i_ECDSA_SIG signature with
           | None => mkCryptoResult false INVALID_SIGNATURE
           | Some sig => mkCryptoResult (ECDSA_do_verify hash sig ec_key =? 1) SUCCESS
           end
       end.

Definition ecdsa_secp256k1_sign (message private_key : list Z) (drawn : Z) (junk : list Z) : CryptoResult (list Z) :=
  internal_ecdsa_sign message private_key drawn junk.
Definition ecdsa_secp256k1_verify (message signature public_key : list Z) : CryptoResult bool :=
  internal_ecdsa_verify message signature public_key.
Definition ecdsa_secp256k1_recover_public_key (message signature : list Z) (compressed : bool) : CryptoResult (list Z) :=
  mkCryptoResult (zeros SECP256K1_PUBLIC_KEY_SIZE) UNSUPPORTED_ALGORITHM.
Definition ecdsa_get_recovery_id (message signature public_key : list Z) : CryptoResult Z :=
  mkCryptoResult 0 UNSUPPORTED_ALGORITHM.

(** ** Ed25519: libsodium reads 64 bytes of the key *)

Definition internal_ed25519_sign (message private_key : list Z) : outcome (CryptoResult (list Z)) :=
  if negb sodium_ready then Ret (mkCryptoResult (zeros ED25519_SIGNATURE_SIZE) SIGNATURE_FAILED)
  else if Nat.ltb (length private_key) 64 then Undefined
  else Ret (mkCryptoResult (ed25519_detached message (take 64 private_key)) SUCCESS).

Definition internal_ed25519_verify (message signature public_key : list Z) : CryptoResult bool :=
  if negb sodium_ready then mkCryptoResult false VERIFICATION_FAILED
  else mkCryptoResult (ed25519_verify_detached signature message public_key =? 0) SUCCESS.

Definition ed25519_sign (message private_key : list Z) : outcome (CryptoResult (list Z)) :=
  internal_ed25519_sign message private_key.
Definition ed25519_verify (message signature public_key : list Z) : CryptoResult bool :=
  internal_ed25519_verify message signature public_key.
End Signatures.

(** ** Random integers

    [seed] is the reading of the random device that seeds the generator of the
    thread ([None] when it throws; asked for on the first call only), [dist] the
    distribution drawing from the generator. *)

Section Random.
Context (dist : Z -> Z -> Z).

Definition generate_range (seeded : bool) (seed : option Z) (min max : Z) : CryptoResult Z * bool :=
  if max <=? min then (mkCryptoResult 0 INVALID_LENGTH, seeded)
  else if seeded then (mkCryptoResult (dist min max) SUCCESS, true)
  else match seed with
       | None => (mkCryptoResult 0 RANDOM_GENERATION_FAILED, false)
       | Some _ => (mkCryptoResult (dist min max) SUCCESS, true)
       end.

Definition generate_uint64_in (seeded : bool) (seed : option Z) (min max : Z) : CryptoResult Z * bool :=
  generate_range seeded seed min max.
Definition generate_uint64 (seeded : bool) (seed : option Z) : CryptoResult Z * bool :=
  generate_uint64_in seeded seed 0 U64_MAX.
Definition generate_uint32_in (seeded : bool) (seed : option Z) (min max : Z) : CryptoResult Z * bool :=
  generate_range seeded seed min max.
Definition generate_uint32 (seeded : bool) (seed : option Z) : CryptoResult Z * bool :=
  generate_uint32_in seeded seed 0 (U32_MOD - 1).
End Random.

(** ** Properties *)

Lemma length_der_sig r s : length (der_sig r s) = (6 + int_len r + int_len s)%nat.
Proof. unfold der_sig, der_int. cbn. rewrite !length_app. cbn. rewrite !length_be_bytes. lia. Qed.

Lemma int_len_large n : 2 ^ 231 <= n -> (30 <= int_len n)%nat.
Proof.
  intros Hn. assert (H : 231 <= Z.log2 n) by (apply Z.log2_le_pow2; lia). unfold int_len.
  pose proof (Z.div_mod (Z.log2 n) 8 ltac:(lia)). pose proof (Z.mod_pos_bound (Z.log2 n) 8 ltac:(lia)).
  destruct (Z.eqb_spec (Z.log2 n mod 8) 7); lia.
Qed.

(** ECDSA signing.  A signature the library makes is returned exactly when its
    DER form fits into the 64 bytes of the array, that is when the two integers
    together take at most 58 bytes; then the array starts with that form and is
    read back as the signature.  Signatures whose integers are both at least 2^231,
    all but about one in 2^24, do not fit and signing fails. *)
Theorem ecdsa_sign_fits {L : SigLib} {Laws : SigLaws} (message private_key junk : list Z) (drawn : Z) (k : EC_KEY) (sig : ECDSA_SIG) :
  ec_key_new = true -> set_private_key private_key = Some k -> ECDSA_do_sign (SHA256 message) k drawn = Some sig ->
  length junk = SECP256K1_SIGNATURE_SIZE ->
  let res := ecdsa_secp256k1_sign message private_key drawn junk in
  ((int_len (sig_r sig) + int_len (sig_s sig) <= 58)%nat ->
     error res = SUCCESS /\ length (value res) = SECP256K1_SIGNATURE_SIZE /\ d2i_ECDSA_SIG (value res) = Some sig)
  /\ ((58 < int_len (sig_r sig) + int_len (sig_s sig))%nat -> res = mkCryptoResult (zeros SECP256K1_SIGNATURE_SIZE) SIGNATURE_FAILED)
  /\ (2 ^ 231 <= sig_r sig -> 2 ^ 231 <= sig_s sig -> (58 < int_len (sig_r sig) + int_len (sig_s sig))%nat).
Proof.
  intros Hnew Hk Hs Hj. cbv zeta. unfold ecdsa_secp256k1_sign, internal_ecdsa_sign. rewrite Hnew, Hk, Hs. cbn [negb].
  assert (Hl : length (i2d_ECDSA_SIG sig) = (6 + int_len (sig_r sig) + int_len (sig_s sig))%nat) by (rewrite i2d_der; apply length_der_sig).
  assert (H0 : Nat.eqb (length (i2d_ECDSA_SIG sig)) 0 = false) by (apply Nat.eqb_neq; lia). rewrite H0. cbn [orb].
  unfold SECP256K1_SIGNATURE_SIZE in *.
  destruct (Nat.ltb_spec 64 (length (i2d_ECDSA_SIG sig))); split_and!.
  - lia.
  - done.
  - intros H1%int_len_large H2%int_len_large. lia.
  - intros _. cbn. split_and!; [done| |apply d2i_i2d]. rewrite length_app, length_drop. lia.
  - lia.
  - intros H1%int_len_large H2%int_len_large. lia.
Qed.

(** No ECDSA signature verifies under a key of this library's type: the 64 bytes
    without a format byte are not an encoded point, so verification reports an
    invalid key for every message and signature.  And signing with Ed25519 reads 32
    bytes past the end of the private key. *)
Theorem signature_checks_fail {L : SigLib} {Laws : SigLaws} (message signature public_key private_key : list Z) :
  length public_key = SECP256K1_PUBLIC_KEY_SIZE -> length private_key = ED25519_PRIVATE_KEY_SIZE ->
  ecdsa_secp256k1_verify message signature public_key
    = mkCryptoResult false (if ec_key_new then INVALID_KEY else VERIFICATION_FAILED)
  /\ (sodium_ready = true -> ed25519_sign message private_key = Undefined).
Proof.
  intros Hk Hp. unfold ecdsa_secp256k1_verify, internal_ecdsa_verify, ed25519_sign, internal_ed25519_sign. split.
  - destruct ec_key_new; [|done]. cbn [negb]. destruct (o2i_ECPublicKey public_key) as [k|] eqn:E; [|done].
    apply o2i_size in E. unfold SECP256K1_PUBLIC_KEY_SIZE in Hk. rewrite Hk in E. naive_solver.
  - intros ->. cbn [negb]. by rewrite Hp.
Qed.

(** A random integer is in its range, and a range of one number is refused. *)
Lemma generate_range_spec dist seeded seed min max r b :
  (forall a b, a < b -> a <= dist a b <= b) -> generate_range dist seeded seed min max = (r, b) ->
  (success r = true -> min <= value r <= max) /\ (min = max -> error r = INVALID_LENGTH).
Proof.
  intros Hd. unfold generate_range. destruct (Z.leb_spec max min); [intros [= <- <-]; done|].
  assert (Hmm : min <> max) by lia. specialize (Hd min max ltac:(lia)).
  destruct seeded; [intros [= <- <-]; done|]. destruct seed; intros [= <- <-]; done.
Qed.

(** ** Witnesses *)

(** A library with two signatures, a short one and a long one. *)
Definition demo_int (b : bool) : Z := if b then 1 else 2 ^ 255.
Definition demo_sig : SigLib := {|
  EC_KEY := list Z; EC_PUBLIC_KEY := list Z; ECDSA_SIG := bool;
  SHA256 m := copy_into 32 m; ec_key_new := true;
  set_private_key key := Some key; ECDSA_do_sign h k drawn := Some (drawn =? 0);
  sig_r := demo_int; sig_s := demo_int;
  i2d_ECDSA_SIG b := der_sig (demo_int b) (demo_int b);
  d2i_ECDSA_SIG bytes := if bool_decide (take 8 bytes = der_sig 1 1) then Some true
    else if bool_decide (take 72 bytes = der_sig (2 ^ 255) (2 ^ 255)) then Some false else None;
  o2i_ECPublicKey bytes := if bool_decide (length bytes = 33%nat) || bool_decide (length bytes = 65%nat) then Some bytes else None;
  ECDSA_do_verify h s k := 1; sodium_ready := true;
  ed25519_detached m k := zeros 64; ed25519_verify_detached s m k := 0
|}.

Lemma demo_sig_laws : @SigLaws demo_sig.
Proof.
  split; cbn.
  - intros []; cbn; lia.
  - done.
  - intros [] rest; vm_compute; reflexivity.
  - intros bytes k. destruct (bool_decide_reflect (length bytes = 33%nat)), (bool_decide_reflect (length bytes = 65%nat)); cbn; auto. done.
Qed.

Lemma ecdsa_sign_fits_witness :
  error (@ecdsa_secp256k1_sign demo_sig [1; 2] (zeros 32) 0 (zeros 64)) = SUCCESS
  /\ @ecdsa_secp256k1_sign demo_sig [1; 2] (zeros 32) 1 (zeros 64) = mkCryptoResult (zeros SECP256K1_SIGNATURE_SIZE) SIGNATURE_FAILED.
Proof.
  split.
  - destruct (@ecdsa_sign_fits demo_sig demo_sig_laws [1; 2] (zeros 32) (zeros 64) 0 (zeros 32) true) as (H & _);
      [reflexivity..|]. apply H. vm_compute. lia.
  - destruct (@ecdsa_sign_fits demo_sig demo_sig_laws [1; 2] (zeros 32) (zeros 64) 1 (zeros 32) false) as (_ & H & H');
      [reflexivity..|]. apply H. apply H'; vm_compute; discriminate.
Defined.

Lemma signature_checks_fail_witness :
  @ecdsa_secp256k1_verify demo_sig [1] (zeros 64) (zeros 64) = mkCryptoResult false INVALID_KEY
  /\ @ed25519_sign demo_sig [1] (zeros 32) = Undefined.
Proof.
  destruct (@signature_checks_fail demo_sig demo_sig_laws [1] (zeros 64) (zeros 64) (zeros 32)) as [H1 H2]; [reflexivity..|].
  split; [exact H1|apply H2; reflexivity].
Defined.
