(* ===== verification/Json.v ===== *)
(** * Json: the JSON library as a parameter

    nlohmann::json is code the repository only calls: the type [json] and the
    members the code uses ([JsonLib]), with what its documentation promises of them
    in [JsonLaws]. *)

From stdpp Require Import base list numbers strings.
From Stdlib Require Import ZArith Ascii SpecFloat.
From S2P Require Import Prelude CString.

Class JsonLib : Type := {
  json : Type;
  json_null : json;                                (* json(), nullptr *)
  json_string : list ascii -> json;                (* from std::string *)
  json_number : Z -> json;                         (* from an integer *)
  json_bool : bool -> json;                        (* from bool *)
  json_double : spec_float -> json;                (* from double *)
  json_array : json;                               (* json::array() *)
  json_object : list (list ascii * json) -> json;  (* {{key, value}, ...} *)
  json_at : list ascii -> json -> option json;     (* contains(key), operator[](key) *)
  json_erase : list ascii -> json -> outcome json; (* j.erase(key) *)
  json_push : json -> json -> outcome json;        (* j.push_back(value) *)
  json_is_array : json -> bool;
  json_assign : list ascii -> json -> json -> outcome json; (* j[key] = value *)
  json_parse : list ascii -> outcome json;
  json_read : list ascii -> outcome json;          (* stream >> j *)
  json_parse_error : exn -> bool;                  (* json::parse_error *)
  json_dump : json -> outcome (list ascii);
  json_dump2 : json -> outcome (list ascii);       (* dump(2) *)
  json_is_object : json -> bool;
  json_items : json -> list (list ascii * json);   (* items() *)
  json_is_string : json -> bool;
  json_is_number : json -> bool;
  json_get_string : json -> outcome (list ascii);
  json_get_int : json -> outcome Z;
  json_get_u64 : json -> outcome Z;
  json_get_bool : json -> outcome bool;
  json_empty : json -> bool;
  json_size : json -> nat;
  json_elem : nat -> json -> outcome json          (* const operator[](size_type) *)
}.

(** The value an initialiser list of pairs gives a key: the first one. *)
Fixpoint assoc {V} (k : list ascii) (l : list (list ascii * V)) : option V :=
  match l with
  | [] => None
  | (k', v) :: l' => if decide (k = k') then Some v else assoc k l'
  end.

(** Documented behaviour: assignment to a member of a null or object value makes an
    object with that member; conversions give back what was stored and throw on
    another type; indexing below the size is defined; the items of an object are its
    members, each key once; a text that starts with a zero byte is no JSON. *)
Class JsonLaws (J : JsonLib) : Prop := {
  at_null : forall k, json_at k json_null = None;
  at_object : forall k l, json_at k (json_object l) = assoc k l;
  assign_null : forall k v, exists j, json_assign k v json_null = Ret j;
  assign_object : forall k v l, exists j, json_assign k v (json_object l) = Ret j;
  assign_assign : forall k v k' v' j j', json_assign k v j = Ret j' -> exists j'', json_assign k' v' j' = Ret j'';
  at_assign : forall k v j j' k', json_assign k v j = Ret j' ->
    json_at k' j' = if decide (k = k') then Some v else json_at k' j;
  string_is_string : forall s, json_is_string (json_string s) = true /\ json_is_number (json_string s) = false;
  number_is_number : forall n, json_is_string (json_number n) = false /\ json_is_number (json_number n) = true;
  get_bool_bool : forall b, json_get_bool (json_bool b) = Ret b;
  get_string_string : forall s, json_get_string (json_string s) = Ret s;
  get_int_number : forall n, -2147483648 <= n < 2147483648 -> json_get_int (json_number n) = Ret n;
  parse_zero_byte : forall s, exists e, json_parse (NUL :: s) = Throw e;
  nonempty_size : forall j, json_empty j = false -> (0 < json_size j)%nat;
  elem_defined : forall i j, (i < json_size j)%nat -> json_elem i j <> Undefined;
  get_string_defined : forall j, json_get_string j <> Undefined;
  erase_object : forall k j, json_is_object j = true -> exists j', json_erase k j = Ret j' /\ json_is_object j' = true
    /\ forall k', json_at k' j' = if decide (k = k') then None else json_at k' j;
  object_assign : forall k v j, json_is_object j = true -> exists j', json_assign k v j = Ret j';
  array_empty : json_is_array json_array = true /\ json_size json_array = O;
  push_array : forall j v, json_is_array j = true -> exists j', json_push j v = Ret j' /\ json_is_array j' = true
    /\ json_size j' = S (json_size j) /\ json_elem (json_size j) j' = Ret v
    /\ forall i, (i < json_size j)%nat -> json_elem i j' = json_elem i j;
  null_is_empty : json_empty json_null = true;
  assign_nonempty : forall k v j j', json_assign k v j = Ret j' -> json_empty j' = false;
  items_null : json_items json_null = [];
  assign_is_object : forall k v j j', json_assign k v j = Ret j' -> json_is_object j' = true;
  items_at : forall k j, json_is_object j = true -> assoc k (json_items j) = json_at k j;
  items_keys : forall j, json_is_object j = true -> NoDup (map fst (json_items j));
  get_bool_defined : forall j, json_get_bool j <> Undefined
}.

(** ** Sequences of assignments *)

Section Assign.
Context {J : JsonLib}.

(** [for (const auto& [key, value] : l) r[key] = value]. *)
Fixpoint assign_all (l : list (list ascii * json)) (r : json) : outcome json :=
  match l with [] => Ret r | (k, v) :: l' => r ← json_assign k v r; assign_all l' r end.

(** Null or an object: what a member can be assigned to. *)
Definition assignable (r : json) : Prop := r = json_null \/ json_is_object r = true.

Context {Laws : JsonLaws J}.

Lemma assign_step k v r :
  assignable r ->
  exists r', json_assign k v r = Ret r' /\ json_is_object r' = true
  /\ forall k', json_at k' r' = if decide (k = k') then Some v else json_at k' r.
Proof.
  intros [->|Hr]; [destruct (assign_null k v) as [r' E]|destruct (object_assign k v r Hr) as [r' E]];
    exists r'; (split_and!; [done|exact (assign_is_object _ _ _ _ E)|intros k'; exact (at_assign _ _ _ _ _ E)]).
Qed.

Lemma assoc_none {V} k (l : list (list ascii * V)) : k ∉ map fst l -> assoc k l = None.
Proof.
  induction l as [|[a w] l IH]; [done|]. cbn. rewrite not_elem_of_cons. intros [Hk Hl]. rewrite decide_False by done. auto.
Qed.

(** Assigning members of distinct names sets these and leaves the others. *)
Lemma assign_all_spec l r :
  assignable r -> NoDup (map fst l) ->
  exists r', assign_all l r = Ret r' /\ assignable r' /\ (l <> [] \/ json_is_object r = true -> json_is_object r' = true)
  /\ forall k, json_at k r' = match assoc k l with Some v => Some v | None => json_at k r end.
Proof.
  revert r. induction l as [|[k v] l IH]; intros r Hr Hn.
  { exists r. split_and!; [done|done| |done]. by intros [?|?]. }
  cbn [assign_all]. apply NoDup_cons in Hn as [Hk Hn]. destruct (assign_step k v r Hr) as (r1 & E & O & A). rewrite E. cbn [mbind outcome_bind].
  destruct (IH r1 (or_intror O) Hn) as (r' & E' & Ha & Ho & Hat). exists r'. split_and!; [done|done|auto|]. intros k'. rewrite Hat, A.
  cbn [assoc]. destruct (decide (k' = k)) as [->|D].
  - by rewrite decide_True, assoc_none.
  - by rewrite decide_False by congruence.
Qed.

(** Appending to an array. *)
Fixpoint push_all (l : list json) (j : json) : outcome json :=
  match l with [] => Ret j | v :: l' => j ← json_push j v; push_all l' j end.

Lemma push_all_spec l j :
  json_is_array j = true ->
  exists j', push_all l j = Ret j' /\ json_is_array j' = true /\ json_size j' = (json_size j + length l)%nat
  /\ (forall i, (i < json_size j)%nat -> json_elem i j' = json_elem i j)
  /\ forall i v, l !! i = Some v -> json_elem (json_size j + i) j' = Ret v.
Proof.
  revert j. induction l as [|v l IH]; intros j Hj.
  { exists j. cbn. split_and!; [done|done|lia|done|done]. }
  cbn [push_all]. destruct (push_array j v Hj) as (j1 & E & A & S & V & F). rewrite E. cbn [mbind outcome_bind].
  destruct (IH j1 A) as (j' & E' & A' & S' & F' & V'). exists j'. split_and!; [done|done|cbn; lia| |].
  - intros i Hi. rewrite F' by lia. by apply F.
  - intros [|i] w Hw; cbn in Hw.
    + injection Hw as <-. rewrite Nat.add_0_r, F' by lia. done.
    + rewrite <- (V' i w Hw). f_equal. lia.
Qed.
End Assign.
