(* ===== verification/HttpServer.v ===== *)
(** * HttpServer: the HTTP front end of the RPC server

    rpc/src/http_server.cpp with the request and response structures of
    rpc_server.hpp: the parser of request texts, the response printer, the receive
    loop and [handle_connection], and the life cycle of the accepting thread.

    Socket calls are inputs: [recv] answers with a chunk, the end of the stream or
    an error ([recv_result]), and the events of the accepting thread are a schedule
    ([thread_event]).  [char] is signed, as on the x86-64 targets of the build, so
    that [std::isspace] of a character from 128 to 254 is undefined.  How much memory
    [std::string::resize] can get is a parameter ([Memory]). *)

From stdpp Require Import base list gmap numbers strings.
From Stdlib Require Import ZArith Lia Ascii.
From S2P Require Import Prelude CString Effects Streams.

(** Whether a string of the given size can be allocated. *)
Class Memory : Type := { can_allocate : Z -> bool }.

Abbreviation str_map := (gmap (list ascii) (list ascii)) (only parsing).

Record RpcServerConfig : Type := mkRpcServerConfig {
  host : cstr;
  port : Z;
  max_connections : Z;
  timeout_seconds : Z;
  enable_cors : bool;
  allowed_origins : list cstr
}.
Definition default_RpcServerConfig : RpcServerConfig :=
  mkRpcServerConfig $"127.0.0.1" 8545 100 30 true [$"*"].

Record HttpRequest : Type := mkHttpRequest {
  method : cstr;
  path : cstr;
  body : cstr;
  headers : str_map;
  query_params : str_map
}.

Record HttpResponse : Type := mkHttpResponse {
  status_code : Z;
  status_message : cstr;
  resp_body : cstr;
  resp_headers : str_map;
  content_type : cstr
}.
Definition default_HttpResponse : HttpResponse := mkHttpResponse 200 $"OK" [] ∅ $"application/json".

(** [HttpResponse::not_found]. *)
Definition not_found (message : cstr) : HttpResponse :=
  mkHttpResponse 404 $"Not Found" message
    (<[ $"Content-Length" := print_dec (Z.of_nat (length message)) ]>
      (<[ $"Content-Type" := $"text/plain" ]> ∅)) $"text/plain".

(** ** Parsing *)

(** [std::isspace(ch)] with a character promoted to [int]: defined for 0 to 127 and for
    the value of [EOF], -1, which the character 255 has and which is no space. *)
Definition isspace (c : ascii) : outcome bool :=
  if char_code c <? 128 then Ret (is_space c) else if char_code c =? 255 then Ret false else Undefined.

(** [s.erase(s.begin(), std::find_if(s.begin(), s.end(), !isspace))]. *)
Fixpoint trim_left (s : cstr) : outcome cstr :=
  match s with
  | [] => Ret []
  | c :: s' => b ← isspace c; if (b : bool) then trim_left s' else Ret s
  end.
(** The same from the end, with reverse iterators. *)
Definition trim_right (s : cstr) : outcome cstr := r ← trim_left (rev s); Ret (rev r).

(** One header line: the loop body of [parse_headers]. *)
Definition parse_header (line : cstr) (headers : str_map) : outcome str_map :=
  match find_char ":" line with
  | None => Ret headers
  | Some colon_pos =>
      key ← trim_left (take colon_pos line);
      key ← trim_right key;
      value ← trim_left (drop (S colon_pos) line);
      value ← trim_right value;
      Ret (<[ key := value ]> headers)
  end.

Fixpoint parse_headers (header_lines : list cstr) (headers : str_map) : outcome str_map :=
  match header_lines with
  | [] => Ret headers
  | line :: ls => h ← parse_header line headers; parse_headers ls h
  end.

(** One [key=value] pair: the loop body of [parse_query_string]. *)
Definition parse_pair (params : str_map) (pair : cstr) : str_map :=
  match find_char "=" pair with
  | None => params
  | Some equals_pos => <[ take equals_pos pair := drop (S equals_pos) pair ]> params
  end.

Definition parse_query_string (query : cstr) (params : str_map) : str_map :=
  fold_left parse_pair (fst (getlines "&" (fun _ => true) (istringstream query))) params.

(** The request line: method, path and query parameters. *)
Definition parse_request_line (line : cstr) : cstr * cstr * str_map :=
  let '(m, line_stream) := extract_word (istringstream line) in
  let '(p, _) := extract_word line_stream in
  let p := default [] p in
  match find_char "?" p with
  | Some query_pos => (default [] m, take query_pos p, parse_query_string (drop (S query_pos) p) ∅)
  | None => (default [] m, p, ∅)
  end.

(** [if (!line.empty() && line.back() == '\r') line.pop_back()]. *)
Definition strip_cr (line : cstr) : cstr :=
  match last line with
  | Some c => if Ascii.eqb c CR then take (length line - 1) line else line
  | None => line
  end.

Definition nonempty (s : cstr) : bool := match s with [] => false | _ => true end.

(** The header loop: lines up to the first one that is empty before its [\r] is
    removed; lines that are empty after that are skipped. *)
Definition header_lines (stream : istream) : list cstr * istream :=
  let '(ls, stream) := getlines NL nonempty stream in
  (List.filter nonempty (map strip_cr ls), stream).

Section Parser.
Context {mem : Memory}.

(** [request.body.resize(n); stream.read(&request.body[0], n)] under the handler
    that ignores exceptions: an unreadable length or one that cannot be allocated
    leaves the body empty; what is not read stays zero. *)
Definition read_body (content_length_str : cstr) (stream : istream) : outcome cstr :=
  try_catch
    (content_length ← stoul 10 content_length_str;
     if 0 <? content_length then
       if can_allocate content_length then
         let n := Z.to_nat content_length in
         let got := fst (read n stream) in
         Ret (got ++ replicate (n - length got) NUL)
       else Throw (length_error "basic_string::_M_replace_aux")
     else Ret [])
    (fun _ => Ret []).

Definition parse_http_request (request_data : cstr) : outcome HttpRequest :=
  let '(first, stream) := getline NL (istringstream request_data) in
  let '(m, p, q) := match first with
                    | Some line => parse_request_line line
                    | None => ([], [], ∅)
                    end in
  let '(ls, stream) := header_lines stream in
  headers ← parse_headers ls ∅;
  if decide (m = $"POST") then
    let content_length_str := default [] (headers !! $"Content-Length") in
    let headers := <[ $"Content-Length" := content_length_str ]> headers in
    if nonempty content_length_str then
      b ← read_body content_length_str stream;
      Ret (mkHttpRequest m p b headers q)
    else Ret (mkHttpRequest m p [] headers q)
  else Ret (mkHttpRequest m p [] headers q).

(** ** Printing *)
Context {ord : IterOrder}.

Definition CRLF : cstr := [CR; NL].

Definition header_text (kv : cstr * cstr) : cstr := fst kv ++ $": " ++ snd kv ++ CRLF.

(** [os << n] for an [int]. *)
Definition print_int (n : Z) : cstr := if n <? 0 then "-"%char :: print_dec (- n) else print_dec n.

Definition format_http_response (response : HttpResponse) : cstr :=
  $"HTTP/1.1 " ++ print_int (status_code response) ++ $" " ++ status_message response ++ CRLF
  ++ concat (map header_text (iter (resp_headers response)))
  ++ (match resp_headers response !! $"Content-Type" with
      | None => $"Content-Type: " ++ content_type response ++ CRLF
      | Some _ => []
      end)
  ++ (match resp_headers response !! $"Content-Length" with
      | None => $"Content-Length: " ++ print_dec (Z.of_nat (length (resp_body response))) ++ CRLF
      | Some _ => []
      end)
  ++ CRLF ++ resp_body response.

(** ** One connection *)

Inductive recv_result : Type :=
  | Received (bytes : cstr)   (* bytes_read > 0 *)
  | PeerClosed                (* 0 *)
  | RecvFailed.               (* -1, a time-out included *)

(** [buffer[bytes_read] = '\0'; request_data += buffer]: the C string ends at the
    first zero byte. *)
Definition c_string (l : cstr) : cstr := fst (break_at (Ascii.eqb NUL) l).

(** The receive loop; [None] while it waits for more input. *)
Fixpoint recv_loop (rs : list recv_result) (request_data : cstr) : option (bool * cstr) :=
  match rs with
  | [] => None
  | Received b :: rs' =>
      let request_data := request_data ++ c_string b in
      if contains_sub (CRLF ++ CRLF) request_data then Some (true, request_data)
      else recv_loop rs' request_data
  | PeerClosed :: _ => Some (true, request_data)
  | RecvFailed :: _ => Some (false, request_data)
  end.

(** What a connection ends with: the text handed to [send], if any, before the
    socket is closed; [Waiting] while [recv] blocks. *)
Inductive conn_result : Type := Waiting | Closed (sent : option cstr).

(** [request_handler_]: an exception it throws is a value of the left type. *)
Definition handle_connection {S E} (request_handler_ : option (HttpRequest -> eff S E (exn + HttpResponse)))
    (rs : list recv_result) : eff S E conn_result :=
  match recv_loop rs [] with
  | None => mret Waiting
  | Some (false, _) => mret (Closed None)
  | Some (true, request_data) =>
      match parse_http_request request_data with
      | Undefined => fun _ => Undefined
      | Throw _ => mret (Closed None)
      | Ret request =>
          r ← match request_handler_ with
              | Some h => h request
              | None => mret (inr (not_found $"No request handler configured"))
              end;
          match r with
          | inr response => mret (Closed (Some (format_http_response response)))
          | inl _ => mret (Closed None)
          end
      end
  end.
End Parser.

(** ** The accepting thread

    [start] spawns a thread that runs [server_loop]; [stop] lowers the flag and
    joins the thread.  The thread runs in steps ([server_loop_step]), each an event
    with what the socket call answered; connection threads are detached and only
    counted.  Assigning to a joinable [std::thread] calls [std::terminate]. *)
Inductive thread_pc : Type :=
  | NotStarted   (* server_thread_ is not joinable *)
  | SettingUp    (* before running_ = true *)
  | LoopTest     (* at while (running_) *)
  | Accepting    (* inside accept *)
  | Finished.    (* returned, still joinable *)

Record HttpServer : Type := mkHttpServer {
  running_ : bool;
  server_thread_ : thread_pc;
  connections : nat
}.
Definition HttpServer_of : HttpServer := mkHttpServer false NotStarted 0.

Inductive thread_event : Type :=
  | socket_failed | bind_failed | listen_failed | listening
  | loop_test | accepted | accept_failed | connection_done.

#[export] Instance thread_pc_eq_dec : EqDecision thread_pc.
Proof. solve_decision. Defined.
#[export] Instance thread_event_eq_dec : EqDecision thread_event.
Proof. solve_decision. Defined.

Definition server_loop_step (e : thread_event) (s : HttpServer) : option HttpServer :=
  match server_thread_ s, e with
  | SettingUp, (socket_failed | bind_failed | listen_failed) =>
      Some (mkHttpServer (running_ s) Finished (connections s))
  | SettingUp, listening => Some (mkHttpServer true LoopTest (connections s))
  | LoopTest, loop_test =>
      if running_ s then Some (mkHttpServer true Accepting (connections s))
      else Some (mkHttpServer false Finished (connections s))
  | Accepting, accepted => Some (mkHttpServer (running_ s) LoopTest (S (connections s)))
  | Accepting, accept_failed =>
      if running_ s then Some (mkHttpServer true LoopTest (connections s))
      else Some (mkHttpServer false Finished (connections s))
  | pc, connection_done =>
      match connections s with
      | O => None
      | S n => Some (mkHttpServer (running_ s) pc n)
      end
  | _, _ => None
  end.

(** A schedule; events that are not enabled are skipped. *)
Definition run_thread (es : list thread_event) (s : HttpServer) : HttpServer :=
  fold_left (fun s e => default s (server_loop_step e s)) es s.

Definition joinable (s : HttpServer) : bool := negb (bool_decide (server_thread_ s = NotStarted)).

(** [start]: [None] is [std::terminate]; the schedule is what the thread does in
    the 100 ms the caller sleeps. *)
Definition start (es : list thread_event) (s : HttpServer) : option (bool * HttpServer) :=
  if running_ s then Some (true, s)
  else if joinable s then None
  else let s' := run_thread es (mkHttpServer (running_ s) SettingUp (connections s)) in Some (running_ s', s').

(** [stop]: [None] while [join] waits; the schedule is what the thread does until
    then. *)
Definition stop (es : list thread_event) (s : HttpServer) : option HttpServer :=
  let s := mkHttpServer false (server_thread_ s) (connections s) in
  if joinable s then
    let s' := run_thread es s in
    if decide (server_thread_ s' = Finished) then Some (mkHttpServer (running_ s') NotStarted (connections s'))
    else None
  else Some s.

(** [~HttpServer]. *)
Definition HttpServer_end (es : list thread_event) (s : HttpServer) : option HttpServer := stop es s.

Definition is_running (s : HttpServer) : bool := running_ s.

(** States that calls of [start] and [stop] and thread steps lead to; a [stop]
    that waits has lowered the flag. *)
Inductive server_reach : HttpServer -> Prop :=
  | reach_new : server_reach HttpServer_of
  | reach_start s es r s' : server_reach s -> start es s = Some (r, s') -> server_reach s'
  | reach_stop s es s' : server_reach s -> stop es s = Some s' -> server_reach s'
  | reach_stop_begins s : server_reach s -> server_reach (mkHttpServer false (server_thread_ s) (connections s))
  | reach_step s e s' : server_reach s -> server_loop_step e s = Some s' -> server_reach s'.

(** The flag is up only while the thread is in its loop. *)
Definition server_ok (s : HttpServer) : Prop :=
  running_ s = true -> server_thread_ s = LoopTest \/ server_thread_ s = Accepting.

Lemma server_loop_step_ok e s s' : server_ok s -> server_loop_step e s = Some s' -> server_ok s'.
Proof.
  unfold server_ok, server_loop_step. destruct s as [[] [] []], e; cbn; intros; simplify_eq/=; naive_solver.
Qed.

Lemma run_thread_ok es s : server_ok s -> server_ok (run_thread es s).
Proof.
  revert s. induction es as [|e es IH]; intros s Hs; [done|]. cbn. apply IH.
  destruct (server_loop_step e s) eqn:E; [|done]. by eapply server_loop_step_ok.
Qed.

Lemma server_reach_ok s : server_reach s -> server_ok s.
Proof.
  induction 1 as [|s es r s' _ IH H|s es s' _ IH H|s _ IH|s e s' _ IH H].
  - done.
  - unfold start in H. repeat case_match; simplify_eq; [done|]. by apply run_thread_ok.
  - unfold stop in H. destruct (joinable _); [|by simplify_eq]. case_decide as Hf; [|done]. simplify_eq.
    pose proof (run_thread_ok es (mkHttpServer false (server_thread_ s) (connections s))) as Hr.
    unfold server_ok in *. cbn in *. intros Hr'. destruct Hr as [|]; try done; congruence.
  - done.
  - by eapply server_loop_step_ok.
Qed.

(** Nothing but an answer of [accept] moves a thread that is inside [accept]. *)
Lemma accept_blocks es s :
  server_thread_ s = Accepting -> Forall (fun e => e <> accepted /\ e <> accept_failed) es ->
  server_thread_ (run_thread es s) = Accepting.
Proof.
  intros Hs H. revert s Hs. induction H as [|e es [H1 H2] _ IH]; intros s Hs; [done|]. cbn. apply IH.
  unfold server_loop_step. rewrite Hs. destruct e; try done. by destruct (connections s).
Qed.

(** In every reachable state the flag [running_] is up only while the accepting
    thread is in its loop; [stop] of a server that waits in [accept] does not
    return, whatever else happens, until [accept] answers (the socket is blocking
    and nobody closes it), and returns after the next client; and it may return
    while connection threads are still running. *)
Theorem http_stop_waits_for_client (s : HttpServer) :
  server_reach s ->
  (running_ s = true -> server_thread_ s = LoopTest \/ server_thread_ s = Accepting)
  /\ (server_thread_ s = Accepting ->
      (forall es, Forall (fun e => e <> accepted /\ e <> accept_failed) es -> stop es s = None)
      /\ stop [accepted; loop_test] s = Some (mkHttpServer false NotStarted (S (connections s)))).
Proof.
  intros Hr. split; [by apply server_reach_ok|]. intros Ha. split.
  - intros es Hes. unfold stop, joinable. cbn [server_thread_]. rewrite Ha.
    rewrite bool_decide_eq_false_2 by done. cbn [negb].
    rewrite decide_False; [done|]. by rewrite accept_blocks.
  - destruct s as [r pc n]. cbn in Ha. subst pc. done.
Qed.

Lemma http_stop_waits_for_client_witness :
  server_reach (mkHttpServer true Accepting 0)
  /\ stop [loop_test; connection_done] (mkHttpServer true Accepting 0) = None.
Proof.
  assert (H : server_reach (mkHttpServer true Accepting 0))
    by (eapply (reach_start _ [listening; loop_test]); [apply reach_new|reflexivity]).
  split; [done|]. apply (http_stop_waits_for_client (mkHttpServer true Accepting 0)); [done|done|decide_now].
Defined.

(** When the socket cannot be bound, [start] answers false and leaves a finished
    thread that nobody joined: the next [start] terminates the process, unless
    [stop] is called first. *)
Theorem http_restart_terminates (es es' : list thread_event) :
  exists s, start (bind_failed :: es) HttpServer_of = Some (false, s)
  /\ start es' s = None
  /\ stop [] s = Some HttpServer_of.
Proof.
  exists (mkHttpServer false Finished 0).
  assert (H : run_thread (bind_failed :: es) (mkHttpServer false SettingUp 0) = mkHttpServer false Finished 0).
  { cbn. clear es'. induction es as [|e es IH]; [done|]. cbn. by destruct e. }
  split_and!; [|done|done]. unfold start. change (running_ HttpServer_of) with false.
  change (joinable HttpServer_of) with false. change (connections HttpServer_of) with 0%nat. cbn iota. by rewrite H.
Qed.

(** Without a request handler every request that is parsed is answered with 404. *)
Lemma connection_without_handler {S E} (mem : Memory) (ord : IterOrder) rs data request (w : world S E) :
  recv_loop rs [] = Some (true, data) -> parse_http_request data = Ret request ->
  handle_connection None rs w
  = Ret (Closed (Some (format_http_response (not_found $"No request handler configured"))), w).
Proof. intros H1 H2. unfold handle_connection. by rewrite H1, H2. Qed.
