(* ===== verification/HttpProps.v ===== *)
(** * HttpProps: theorems on the HTTP parser and printer

    The parser of [HttpServer] on arbitrary requests, on requests as clients write
    them (with LF and with CRLF line ends), and the framing of responses. *)

From stdpp Require Import base list gmap numbers strings.
From Stdlib Require Import ZArith Lia Ascii.
From S2P Require Import Prelude CString Effects Streams HttpServer.

(** ** The parser on every input *)

Definition seven_bit (s : cstr) : Prop := Forall (fun c => char_code c < 128) s.
#[export] Instance seven_bit_dec s : Decision (seven_bit s).
Proof. unfold seven_bit. apply _. Defined.

Lemma trim_left_ascii s : seven_bit s -> trim_left s = Ret (skip_space s).
Proof.
  induction 1 as [|c s Hc Hs IH]; cbn; [done|]. unfold isspace.
  apply Z.ltb_lt in Hc as ->. cbn. destruct (is_space c); [exact IH|done].
Qed.

Lemma skip_space_suffix s : exists p, s = p ++ skip_space s /\ Forall (fun c => is_space c = true) p.
Proof.
  induction s as [|c s (p & E & Hp)]; cbn; [by exists []|].
  destruct (is_space c) eqn:Hc; [|by exists []].
  exists (c :: p). cbn. split; [by f_equal|]. by constructor.
Qed.

Lemma seven_bit_skip s : seven_bit s -> seven_bit (skip_space s).
Proof.
  destruct (skip_space_suffix s) as (p & E & _). intros H. rewrite E in H.
  by apply Forall_app in H as [_ H].
Qed.

Lemma trim_right_ascii s : seven_bit s -> trim_right s = Ret (rev (skip_space (rev s))).
Proof.
  intros H. unfold trim_right. rewrite trim_left_ascii; [done|].
  unfold seven_bit in *. rewrite Forall_forall in *. intros c Hc. apply H.
  by apply list_elem_of_In, in_rev, list_elem_of_In.
Qed.

Lemma seven_bit_take n s : seven_bit s -> seven_bit (take n s).
Proof. apply Forall_take. Qed.
Lemma seven_bit_drop n s : seven_bit s -> seven_bit (drop n s).
Proof. apply Forall_drop. Qed.
#[export] Hint Resolve seven_bit_take seven_bit_drop seven_bit_skip : chain.

Lemma parse_header_ascii line h : seven_bit line -> exists h', parse_header line h = Ret h'.
Proof.
  intros H. unfold parse_header. destruct (find_char _ _); [|eauto].
  rewrite trim_left_ascii by auto with chain. cbn. rewrite trim_right_ascii by auto with chain. cbn.
  rewrite trim_left_ascii by auto with chain. cbn. rewrite trim_right_ascii by auto with chain. eauto.
Qed.

Lemma parse_headers_ascii ls h : Forall seven_bit ls -> exists h', parse_headers ls h = Ret h'.
Proof.
  intros H. revert h. induction H as [|l ls Hl Hls IH]; intros h; cbn; [eauto|].
  destruct (parse_header_ascii l h Hl) as [h' ->]. cbn. apply IH.
Qed.

(** What [getline] returns is a part of the text. *)
Lemma getline_ascii d st l st' :
  seven_bit (rest st) -> getline d st = (l, st') -> (forall s, l = Some s -> seven_bit s) /\ seven_bit (rest st').
Proof.
  unfold getline. intros H E. destruct (good st); [|simplify_eq/=; done].
  destruct (break_at _ _) as [a r] eqn:B. apply break_at_spec in B as (Er & _ & _).
  rewrite Er in H. apply Forall_app in H as [Ha Hr].
  destruct r as [|c r]; [|apply Forall_cons_1 in Hr as [_ Hr]]; destruct a;
    simplify_eq/=; split; intros; simplify_eq; eauto; constructor.
Qed.

Lemma getlines_ascii d keep st ls st' :
  seven_bit (rest st) -> getlines d keep st = (ls, st') -> Forall seven_bit ls /\ seven_bit (rest st').
Proof.
  unfold getlines. generalize (S (length (rest st))) as f.
  intros f. revert st ls st'. induction f as [|f IH]; intros st ls st' H E; cbn in E; [by simplify_eq|].
  destruct (getline d st) as [[l|] st1] eqn:G; apply getline_ascii in G as [Hl H1]; try done; [|by simplify_eq].
  destruct (keep l); [|by simplify_eq].
  destruct (getlines_loop f d keep st1) as [ls' st2] eqn:E'. simplify_eq.
  destruct (IH _ _ _ H1 E'). split; [constructor; auto|done].
Qed.

Lemma strip_cr_ascii l : seven_bit l -> seven_bit (strip_cr l).
Proof. intros H. unfold strip_cr. repeat case_match; auto with chain. Qed.

Lemma header_lines_ascii st ls st' :
  seven_bit (rest st) -> header_lines st = (ls, st') -> Forall seven_bit ls /\ seven_bit (rest st').
Proof.
  unfold header_lines. intros H E. destruct (getlines _ _ st) as [l0 st1] eqn:G. simplify_eq.
  apply getlines_ascii in G as [Hl Hr]; [|done]. split; [|done].
  rewrite Forall_forall in *. intros l [Hin Hne]%list_elem_of_In%filter_In.
  apply in_map_iff in Hin as (l1 & <- & H1). by apply strip_cr_ascii, Hl, list_elem_of_In.
Qed.

Section ParserProps.
Context {mem : Memory}.

(** The length of a body is the length the header announces. *)
Lemma read_body_spec cl st :
  exists b, read_body cl st = Ret b
  /\ (b = [] \/ (stoul 10 cl = Ret (Z.of_nat (length b)) /\ can_allocate (Z.of_nat (length b)) = true)).
Proof.
  unfold read_body, try_catch. destruct (stoul 10 cl) as [n|e|] eqn:E; cbn; [|eauto|].
  2:{ exfalso. unfold stoul in E. repeat case_match; done. }
  destruct (Z.ltb_spec 0 n) as [Hn|]; [|eauto]. destruct (can_allocate n) eqn:Ha; [|eauto].
  eexists. split; [done|]. right. rewrite length_app, length_replicate.
  assert (length (fst (read (Z.to_nat n) st)) <= Z.to_nat n)%nat.
  { unfold read. destruct (good st); cbn; [rewrite length_take|]; lia. }
  replace (Z.of_nat _) with n by lia. done.
Qed.

Lemma break_at_no p s l r : break_at p s = (l, r) -> Forall (fun c => p c = false) l.
Proof. by intros (_ & ? & _)%break_at_spec. Qed.

Lemma extract_word_nospace st w st' :
  extract_word st = (w, st') -> Forall (fun c => is_space c = false) (default [] w).
Proof.
  unfold extract_word. destruct (good st); [|by intros; simplify_eq/=].
  destruct (skip_space (rest st)) as [|c s]; [by intros; simplify_eq/=|].
  destruct (break_at is_space (c :: s)) as [l r] eqn:B. intros; simplify_eq. by apply break_at_no in B.
Qed.

Lemma find_char_before c s : match find_char c s with
  | Some i => no_char c (take i s) | None => no_char c s end.
Proof.
  induction s as [|a s IH]; cbn; [constructor|]. destruct (Ascii.eqb c a) eqn:E; [constructor|].
  destruct (find_char c s); cbn; constructor; done.
Qed.

Lemma parse_request_line_shape line m p q :
  parse_request_line line = (m, p, q) ->
  Forall (fun c => is_space c = false) m /\ Forall (fun c => is_space c = false) p /\ no_char "?" p.
Proof.
  unfold parse_request_line. destruct (extract_word _) as [m' st] eqn:E1, (extract_word st) as [p' ?] eqn:E2.
  apply extract_word_nospace in E1, E2. pose proof (find_char_before "?" (default [] p')) as Hq.
  intros H. destruct (find_char _ _); simplify_eq; split_and!; try done. by apply Forall_take.
Qed.

(** C23: A request of 7-bit characters is always parsed, whatever else it contains:
    method and path contain no white space, the path no question mark, only POST
    requests have a body, and a body has exactly the length its Content-Length
    header announces, which is a length that can be allocated. *)
Theorem http_parse_safe (data : cstr) :
  seven_bit data ->
  exists r, parse_http_request data = Ret r
  /\ Forall (fun c => is_space c = false) (method r ++ path r) /\ no_char "?" (path r)
  /\ (method r <> $"POST" -> body r = [])
  /\ (body r <> [] -> exists cl, headers r !! $"Content-Length" = Some cl
        /\ stoul 10 cl = Ret (Z.of_nat (length (body r))) /\ can_allocate (Z.of_nat (length (body r))) = true).
Proof.
  intros Hd. unfold parse_http_request.
  destruct (getline _ _) as [first st] eqn:G. apply getline_ascii in G as [_ Hst]; [|done].
  destruct (match first with Some line => _ | None => _ end) as [[m p] q] eqn:L.
  assert (Hl : Forall (fun c => is_space c = false) m /\ Forall (fun c => is_space c = false) p /\ no_char "?" p).
  { destruct first; [by eapply parse_request_line_shape|]. simplify_eq. split_and!; constructor. }
  destruct Hl as (Hm & Hp & Hq).
  destruct (header_lines st) as [ls st'] eqn:HL. apply header_lines_ascii in HL as [Hls _]; [|done].
  destruct (parse_headers_ascii ls ∅ Hls) as [h ->]. cbn [mbind outcome_bind].
  pose proof (Forall_app_2 _ _ _ Hm Hp) as Hmp.
  destruct (decide (m = $"POST")) as [->|Hne];
    [|eexists; split_and!; try done].
  set (cl := default [] (h !! $"Content-Length")). destruct (nonempty cl) eqn:Hcl.
  - destruct (read_body_spec cl st') as (b & -> & Hb). cbn [mbind outcome_bind]. eexists; split_and!; try done.
    cbn [body headers]. intros Hbne. destruct Hb as [->|[? ?]]; [done|]. exists cl. by rewrite lookup_insert_eq.
  - eexists; split_and!; done.
Qed.

End ParserProps.

(** A host that can allocate 64 KiB, for evaluation. *)
Definition small_memory : Memory := {| can_allocate := fun n => n <=? 65536 |}.

Lemma http_parse_safe_witness :
  seven_bit $"GET /a?b=1 HTTP/1.1" /\
  exists r, parse_http_request (mem := small_memory) $"GET /a?b=1 HTTP/1.1" = Ret r /\ (method r <> $"POST" -> body r = []).
Proof.
  split; [decide_now|].
  destruct (http_parse_safe (mem := small_memory) $"GET /a?b=1 HTTP/1.1" ltac:(decide_now)) as (r & H & _ & _ & Hb & _). eauto.
Defined.

(** ** Requests as clients write them *)

(** A request with the given line ends: LF alone, or CRLF as HTTP/1.1 requires. *)
Definition header_line (kv : cstr * cstr) : cstr := fst kv ++ $": " ++ snd kv.
Definition render_request (eol m target : cstr) (hs : list (cstr * cstr)) (b : cstr) : cstr :=
  m ++ $" " ++ target ++ $" HTTP/1.1" ++ eol
  ++ concat (map (fun kv => header_line kv ++ eol) hs) ++ eol ++ b.

Definition word (s : cstr) : Prop := s <> [] /\ Forall (fun c => is_space c = false) s.
Definition trimmed (s : cstr) : Prop := skip_space s = s /\ skip_space (rev s) = rev s.

(** A header a client may send: a name that is a word without a colon, and a value
    on one line without white space around it, in 7-bit characters. *)
Definition header_ok (kv : cstr * cstr) : Prop :=
  word (fst kv) /\ no_char ":" (fst kv) /\ seven_bit (fst kv)
  /\ seven_bit (snd kv) /\ trimmed (snd kv) /\ no_char NL (snd kv).

#[export] Instance word_dec s : Decision (word s).
Proof. unfold word. apply _. Defined.
#[export] Instance trimmed_dec s : Decision (trimmed s).
Proof. unfold trimmed. apply _. Defined.
#[export] Instance header_ok_dec kv : Decision (header_ok kv).
Proof. unfold header_ok. apply _. Defined.

(** The headers as a map; a repeated name keeps its last value. *)
Definition header_map (hs : list (cstr * cstr)) (h : str_map) : str_map :=
  fold_left (fun h kv => <[ fst kv := snd kv ]> h) hs h.

Lemma nospace_not c s : is_space c = true -> Forall (fun c => is_space c = false) s -> no_char c s.
Proof.
  intros Hc H. eapply Forall_impl; [exact H|]. intros a Ha. apply Ascii.eqb_neq. intros ->. congruence.
Qed.

Lemma word_trimmed s : Forall (fun c => is_space c = false) s -> trimmed s.
Proof. intros H. split; apply skip_space_none; [done|]. by apply Forall_rev. Qed.

Lemma header_line_no_nl kv : header_ok kv -> no_char NL (header_line kv).
Proof.
  intros ((_ & Hk) & _ & _ & _ & _ & Hv). unfold header_line. apply no_char_app. split; [by apply nospace_not|].
  cbn. repeat (constructor; [done|]). done.
Qed.

Lemma trim_trimmed s : seven_bit s -> trimmed s -> trim_left s = Ret s /\ trim_right s = Ret s.
Proof.
  intros H [Hl Hr]. rewrite trim_left_ascii, trim_right_ascii, Hl, Hr by done. by rewrite rev_involutive.
Qed.

Lemma parse_header_line kv h : header_ok kv -> parse_header (header_line kv) h = Ret (<[ fst kv := snd kv ]> h).
Proof.
  destruct kv as [k v]. intros ((_ & Hw) & Hc & Hk & Hv & Ht & _). unfold parse_header, header_line. cbn [fst snd] in *.
  change ($": " ++ v) with (":"%char :: " "%char :: v).
  rewrite find_char_app, take_app_length by done.
  replace (drop (S (length k)) (k ++ ":"%char :: " "%char :: v)) with (" "%char :: v)
    by (rewrite drop_app_ge by lia; by replace (S (length k) - length k)%nat with 1%nat by lia).
  destruct (trim_trimmed k Hk (word_trimmed k Hw)) as [-> E1]. cbn [mbind outcome_bind]. rewrite E1.
  cbn [mbind outcome_bind]. destruct (trim_trimmed v Hv Ht) as [E2 E3].
  rewrite trim_left_ascii by (constructor; [done|done]).
  cbn [skip_space mbind outcome_bind]. change (is_space " ") with true. cbn iota.
  destruct Ht as [-> _]. by rewrite E3.
Qed.

Lemma parse_headers_lines hs h :
  Forall header_ok hs -> parse_headers (map header_line hs) h = Ret (header_map hs h).
Proof.
  intros H. revert h. induction H as [|kv hs Hkv Hhs IH]; intros h; [done|].
  cbn [map parse_headers]. rewrite parse_header_line by done. cbn [mbind outcome_bind]. apply IH.
Qed.

Lemma strip_cr_snoc l : strip_cr (l ++ [CR]) = l.
Proof.
  unfold strip_cr. rewrite last_snoc. cbn iota. change (Ascii.eqb CR CR) with true. cbn iota.
  rewrite length_app. cbn. rewrite Nat.add_sub. by rewrite take_app_length.
Qed.

Lemma strip_cr_other l c : last l = Some c -> Ascii.eqb c CR = false -> strip_cr l = l.
Proof. intros E H. unfold strip_cr. by rewrite E, H. Qed.

Lemma strip_cr_header kv : header_ok kv -> strip_cr (header_line kv) = header_line kv.
Proof.
  intros (_ & _ & _ & _ & [_ Hr] & _). unfold header_line. rewrite app_assoc.
  destruct (snd kv) as [|c v _] using rev_ind.
  - apply (strip_cr_other _ " "); [|done]. rewrite app_nil_r, last_app. done.
  - rewrite app_assoc. apply (strip_cr_other _ c); [apply last_snoc|].
    rewrite rev_app_distr in Hr. cbn in Hr.
    destruct (is_space c) eqn:Hc; [|apply Ascii.eqb_neq; intros ->; done].
    exfalso. destruct (skip_space_suffix (rev v)) as (p & E & _). rewrite Hr in E.
    apply (f_equal length) in E. rewrite length_app in E. cbn in E. lia.
Qed.

Lemma header_line_nonempty kv : nonempty (header_line kv) = true.
Proof. unfold header_line. by destruct (fst kv). Qed.

Lemma filter_nonempty_headers hs : List.filter nonempty (map header_line hs) = map header_line hs.
Proof. induction hs; cbn; [done|]. rewrite header_line_nonempty. by f_equal. Qed.

Lemma map_strip_id hs : Forall header_ok hs -> map strip_cr (map header_line hs) = map header_line hs.
Proof. induction 1; cbn; [done|]. rewrite strip_cr_header by done. by f_equal. Qed.

Lemma map_strip_cr ls : map strip_cr (map (fun l => l ++ [CR]) ls) = ls.
Proof. induction ls; cbn; [done|]. rewrite strip_cr_snoc. by f_equal. Qed.

(** The header block with LF line ends: the empty line ends it and the stream
    stands at the body. *)
Lemma header_lines_lf hs b :
  Forall header_ok hs ->
  header_lines (istringstream (concat (map (fun kv => header_line kv ++ [NL]) hs) ++ [NL] ++ b))
  = (map header_line hs, istringstream b).
Proof.
  intros H. unfold header_lines. rewrite <- (map_map header_line (fun l => l ++ [NL])).
  rewrite (getlines_all NL nonempty).
  - change ([NL] ++ b) with ([] ++ NL :: b). rewrite (getlines_stop NL nonempty [] b) by (done || constructor). cbn iota beta.
    by rewrite app_nil_r, map_strip_id, filter_nonempty_headers.
  - apply Forall_map. eapply Forall_impl; [exact H|]. intros kv Hkv.
    split; [by apply header_line_no_nl|apply header_line_nonempty].
Qed.

(** With CRLF the line before the body is not empty when it is tested: the body,
    up to its first empty line or its end, is taken for headers. *)
Lemma header_lines_crlf hs b :
  Forall header_ok hs -> no_char NL b -> b <> [] ->
  header_lines (istringstream (concat (map (fun kv => header_line kv ++ CRLF) hs) ++ CRLF ++ b))
  = (map header_line hs ++ List.filter nonempty [strip_cr b], mkStream [] true true).
Proof.
  intros H Hb Hne. unfold header_lines.
  replace (concat (map (fun kv => header_line kv ++ CRLF) hs) ++ CRLF ++ b)
    with (concat (map (fun l => l ++ [NL]) (map (fun l => l ++ [CR]) (map header_line hs) ++ [[CR]])) ++ b).
  2:{ rewrite map_app, concat_app, <- !app_assoc, !map_map. f_equal. f_equal. apply map_ext.
      intros kv. by rewrite <- app_assoc. }
  rewrite (getlines_all NL nonempty).
  - rewrite (getlines_last NL nonempty b) by (done || by destruct b). cbn iota beta.
    rewrite !map_app, map_strip_cr, !List.filter_app, filter_nonempty_headers, <- app_assoc. done.
  - apply Forall_app_2; [|repeat constructor]. rewrite map_map. apply Forall_map.
    eapply Forall_impl; [exact H|]. intros kv Hkv. split.
    + apply no_char_app. split; [by apply header_line_no_nl|]. repeat constructor.
    + by destruct (header_line kv).
Qed.

Fixpoint join (sep : ascii) (ls : list cstr) : cstr :=
  match ls with
  | [] => []
  | [l] => l
  | l :: ls' => l ++ sep :: join sep ls'
  end.

Lemma getlines_join d ls :
  Forall (fun l => no_char d l /\ l <> []) ls -> fst (getlines d (fun _ => true) (istringstream (join d ls))) = ls.
Proof.
  induction 1 as [|l ls [Hl Hne] Hls IH]; [done|]. destruct ls as [|l' ls].
  - cbn [join]. by rewrite getlines_last.
  - change (join d (l :: l' :: ls)) with (l ++ d :: join d (l' :: ls)). rewrite getlines_line by done.
    destruct (getlines _ _ _) as [ls' st]. cbn in *. by rewrite IH.
Qed.

Definition pair_text (kv : cstr * cstr) : cstr := fst kv ++ "="%char :: snd kv.
Definition query_ok (kv : cstr * cstr) : Prop :=
  no_char "=" (fst kv) /\ no_char "&" (fst kv) /\ no_char "&" (snd kv)
  /\ Forall (fun c => is_space c = false) (fst kv ++ snd kv).
#[export] Instance query_ok_dec kv : Decision (query_ok kv).
Proof. unfold query_ok. apply _. Defined.

(** The request target: the path, and the parameters after a question mark. *)
Definition target (p : cstr) (qs : list (cstr * cstr)) : cstr :=
  match qs with [] => p | _ => p ++ "?"%char :: join "&" (map pair_text qs) end.

Lemma parse_query_pairs qs params :
  Forall query_ok qs -> parse_query_string (join "&" (map pair_text qs)) params = header_map qs params.
Proof.
  intros H. unfold parse_query_string. rewrite getlines_join.
  - revert params. induction H as [|[k v] qs (Hk & _) Hqs IH]; intros params; [done|].
    cbn [map fold_left header_map fst snd]. rewrite IH. f_equal. unfold parse_pair, pair_text. cbn [fst snd] in *.
    rewrite find_char_app, take_app_length by done. f_equal.
    rewrite drop_app_ge by lia. by replace (S (length k) - length k)%nat with 1%nat by lia.
  - apply Forall_map. eapply Forall_impl; [exact H|]. intros [k v] (_ & Hk & Hv & _).
    split; [|by destruct k]. apply no_char_app. split; [done|]. by constructor.
Qed.

Lemma target_nospace p qs :
  Forall (fun c => is_space c = false) p -> Forall query_ok qs -> Forall (fun c => is_space c = false) (target p qs).
Proof.
  intros Hp Hqs. unfold target.
  assert (Hj : Forall (fun c => is_space c = false) (join "&" (map pair_text qs))).
  { induction Hqs as [|[k v] qs (_ & _ & _ & H) Hqs IH]; [constructor|]. cbn [map]. apply Forall_app in H as [Hk Hv].
    assert (Hkv : Forall (fun c => is_space c = false) (pair_text (k, v))) by (apply Forall_app_2; [done|by constructor]).
    destruct (map pair_text qs); [done|]. cbn [join]. apply Forall_app_2; [done|by constructor]. }
  destruct qs; [done|]. apply Forall_app_2; [done|by constructor].
Qed.

Lemma parse_request_line_ok m p qs tail :
  word m -> word p -> no_char "?" p -> Forall query_ok qs ->
  parse_request_line (m ++ " "%char :: target p qs ++ " "%char :: tail) = (m, p, header_map qs ∅).
Proof.
  intros [Hm0 Hm] [Hp0 Hp] Hq Hqs. unfold parse_request_line.
  pose proof (target_nospace p qs Hp Hqs) as Ht.
  assert (Ht0 : target p qs <> []) by (unfold target; destruct qs, p; done).
  rewrite extract_word_app by done. rewrite bool_decide_eq_false_2 by done.
  rewrite extract_word_space by done. cbn [from_option id].
  unfold target in *. destruct qs as [|q qs]; cbn [header_map fold_left].
  - by rewrite find_char_none.
  - rewrite find_char_app, take_app_length by done. f_equal.
    rewrite drop_app_ge by lia. replace (S (length p) - length p)%nat with 1%nat by lia.
    by apply (parse_query_pairs (q :: qs)).
Qed.

Lemma no_nl_request_line m t : word m -> Forall (fun c => is_space c = false) t -> no_char NL (m ++ $" " ++ t ++ $" HTTP/1.1").
Proof.
  intros [_ Hm] Ht. rewrite !no_char_app. split_and!; try (by apply nospace_not); decide_now.
Qed.

Lemma read_all b : fst (read (length b) (istringstream b)) = b.
Proof. unfold read, istringstream, good. cbn [eofbit failbit orb negb rest fst]. by rewrite firstn_all. Qed.

Section RoundTrip.
Context {mem : Memory}.

Lemma read_body_exact b :
  is_u64 (Z.of_nat (length b)) -> can_allocate (Z.of_nat (length b)) = true ->
  read_body (print_dec (Z.of_nat (length b))) (istringstream b) = Ret b.
Proof.
  intros Hu Ha. unfold read_body. unfold stoul, print_dec. rewrite strto_print by (unfold is_u64 in *; lia).
  unfold is_u64 in Hu. destruct (Z.leb_spec (Z.of_nat (length b)) U64_MAX); [|lia]. cbn [mbind outcome_bind].
  destruct (Z.ltb_spec 0 (Z.of_nat (length b))).
  - rewrite Ha, Nat2Z.id, read_all, Nat.sub_diag. cbn. by rewrite app_nil_r.
  - destruct b; [done|cbn in *; lia].
Qed.

Lemma read_body_failed n st :
  is_u64 n -> can_allocate n = true -> good st = false ->
  read_body (print_dec n) st = Ret (replicate (Z.to_nat n) NUL).
Proof.
  intros Hu Ha Hg. unfold read_body, stoul, print_dec. rewrite strto_print by (unfold is_u64 in *; lia).
  unfold is_u64 in Hu. destruct (Z.leb_spec n U64_MAX); [|lia]. cbn [mbind outcome_bind].
  destruct (Z.ltb_spec 0 n).
  - rewrite Ha. unfold read. rewrite Hg. cbn. by rewrite Nat.sub_0_r.
  - by assert (n = 0) as -> by lia.
Qed.

Lemma print_dec_nonempty n : nonempty (print_dec n) = true.
Proof. unfold print_dec. pose proof (to_digits_nonempty 10 n). by destruct (to_digits 10 n). Qed.

(** C22: A POST request written with LF line ends is read back exactly: method, path,
    query parameters, headers (the last value of a repeated name) and body. *)
Theorem http_lf_roundtrip (p : cstr) (qs hs : list (cstr * cstr)) (b : cstr) :
  word p -> no_char "?" p -> Forall query_ok qs -> Forall header_ok hs ->
  header_map hs ∅ !! $"Content-Length" = Some (print_dec (Z.of_nat (length b))) ->
  is_u64 (Z.of_nat (length b)) -> can_allocate (Z.of_nat (length b)) = true ->
  parse_http_request (render_request [NL] $"POST" (target p qs) hs b)
  = Ret (mkHttpRequest $"POST" p b (header_map hs ∅) (header_map qs ∅)).
Proof.
  intros Hp Hq Hqs Hhs Hcl Hu Ha.
  assert (Hw : word $"POST") by decide_now.
  unfold parse_http_request, render_request.
  assert (E : forall x y : cstr, $"POST" ++ $" " ++ target p qs ++ $" HTTP/1.1" ++ [NL] ++ x ++ y
    = ($"POST" ++ $" " ++ target p qs ++ $" HTTP/1.1") ++ NL :: x ++ y) by (intros; by rewrite <- !app_assoc).
  rewrite E, getline_line
    by (apply no_nl_request_line; [done|]; apply target_nospace; [apply Hp|done]).
  change ($"POST" ++ $" " ++ target p qs ++ $" HTTP/1.1") with ($"POST" ++ " "%char :: target p qs ++ " "%char :: $"HTTP/1.1").
  rewrite parse_request_line_ok by done. rewrite header_lines_lf by done.
  rewrite parse_headers_lines by done. cbn [mbind outcome_bind].
  rewrite decide_True by done. rewrite Hcl. cbn [from_option id].
  rewrite print_dec_nonempty, read_body_exact by done. cbn [mbind outcome_bind]. by rewrite insert_id.
Qed.
End RoundTrip.

Lemma skip_space_snoc s c : is_space c = false -> exists y, skip_space (s ++ [c]) = y ++ [c].
Proof.
  intros Hc. induction s as [|a s [y E]]; cbn; [rewrite Hc; by exists []|].
  destruct (is_space a); [eauto|]. by exists (a :: s).
Qed.

Lemma trim_right_head c s : is_space c = false -> seven_bit (c :: s) -> exists t, trim_right (c :: s) = Ret (c :: t).
Proof.
  intros Hc Hs. rewrite trim_right_ascii by done. cbn [rev].
  destruct (skip_space_snoc (rev s) c Hc) as [y ->]. rewrite rev_app_distr. cbn. eauto.
Qed.

(** A line that starts with [c] can only define a header whose name starts with [c]. *)
Lemma parse_header_other c line h k :
  is_space c = false -> c <> ":"%char -> seven_bit (c :: line) ->
  (forall t, k <> c :: t) -> exists h', parse_header (c :: line) h = Ret h' /\ h' !! k = h !! k.
Proof.
  intros Hsp Hcol Hs Hk. unfold parse_header. cbn [find_char].
  destruct (Ascii.eqb ":" c) eqn:E; [apply Ascii.eqb_eq in E; congruence|].
  destruct (find_char ":" line) as [pos|]; cbn [fmap option_fmap option_map]; [|eauto].
  change (take (S pos) (c :: line)) with (c :: take pos line).
  change (drop (S (S pos)) (c :: line)) with (drop (S pos) line).
  destruct (Forall_cons_1 _ _ _ Hs) as [Hc7 Hl]. change (seven_bit line) in Hl.
  assert (Hks : seven_bit (c :: take pos line)) by (apply Forall_cons_2; [done|by apply seven_bit_take]).
  rewrite (trim_left_ascii (c :: take pos line)) by done. cbn [mbind outcome_bind skip_space]. rewrite Hsp.
  destruct (trim_right_head c (take pos line) Hsp Hks) as [t ->]. cbn [mbind outcome_bind].
  rewrite trim_left_ascii by auto with chain. cbn [mbind outcome_bind].
  rewrite trim_right_ascii by auto with chain. cbn [mbind outcome_bind].
  eexists. split; [done|]. rewrite lookup_insert_ne by (symmetry; apply Hk). done.
Qed.

Lemma parse_headers_app l1 l2 h :
  parse_headers (l1 ++ l2) h = (h' ← parse_headers l1 h; parse_headers l2 h').
Proof.
  revert h. induction l1 as [|l l1 IH]; intros h; [done|]. cbn [app parse_headers].
  destruct (parse_header l h); cbn [mbind outcome_bind]; [apply IH|done|done].
Qed.

Lemma strip_cr_head c s : c <> CR -> exists s', strip_cr (c :: s) = c :: s' /\ (seven_bit s -> seven_bit s').
Proof.
  intros Hc. unfold strip_cr. destruct (last (c :: s)) as [a|] eqn:E; [|by exists s].
  destruct (Ascii.eqb a CR) eqn:Ea; [|by exists s]. apply Ascii.eqb_eq in Ea as ->.
  destruct s as [|b s]; [cbn in E; congruence|]. cbn [length Nat.sub take].
  exists (take (length s) (b :: s)). split; [done|]. apply seven_bit_take.
Qed.

Section BodyLost.
Context {mem : Memory}.

(** A POST request written with CRLF line ends, as HTTP/1.1 requires, whose
    one-line body starts with a brace or a bracket, is parsed with the body
    replaced by zero bytes: the line that separates headers and body still holds
    its carriage return when it is tested for being empty, so the body is read as
    one more header and nothing is left for the body. *)
Lemma crlf_body_lost (p : cstr) (qs hs : list (cstr * cstr)) (c : ascii) (b : cstr) :
  word p -> no_char "?" p -> Forall query_ok qs -> Forall header_ok hs ->
  c = "{"%char \/ c = "["%char -> no_char NL b -> seven_bit b ->
  header_map hs ∅ !! $"Content-Length" = Some (print_dec (Z.of_nat (length (c :: b)))) ->
  is_u64 (Z.of_nat (length (c :: b))) -> can_allocate (Z.of_nat (length (c :: b))) = true ->
  exists r, parse_http_request (render_request CRLF $"POST" (target p qs) hs (c :: b)) = Ret r
  /\ method r = $"POST" /\ path r = p /\ query_params r = header_map qs ∅
  /\ body r = replicate (length (c :: b)) NUL.
Proof.
  intros Hp Hq Hqs Hhs Hc Hnl H7 Hcl Hu Ha.
  assert (Hcs : is_space c = false /\ c <> ":"%char /\ c <> CR /\ char_code c < 128 /\ Ascii.eqb NL c = false
    /\ (forall t, $"Content-Length" <> c :: t)) by (destruct Hc as [-> | ->]; split_and!; try done; intros t; cbn; congruence).
  destruct Hcs as (Hsp & Hcol & Hcr & Hc7 & Hcn & Hck).
  assert (Hw : word $"POST") by decide_now.
  unfold parse_http_request, render_request.
  assert (E : forall x y : cstr, $"POST" ++ $" " ++ target p qs ++ $" HTTP/1.1" ++ CRLF ++ x ++ y
    = (($"POST" ++ $" " ++ target p qs ++ $" HTTP/1.1") ++ [CR]) ++ NL :: x ++ y) by (intros; by rewrite <- !app_assoc).
  rewrite E, getline_line
    by (apply no_char_app; split; [|decide_now]; apply no_nl_request_line; [done|]; apply target_nospace; [apply Hp|done]).
  replace (($"POST" ++ $" " ++ target p qs ++ $" HTTP/1.1") ++ [CR])
    with ($"POST" ++ " "%char :: target p qs ++ " "%char :: ($"HTTP/1.1" ++ [CR])) by (by rewrite <- !app_assoc).
  rewrite parse_request_line_ok by done. rewrite header_lines_crlf by (done || by constructor).
  destruct (strip_cr_head c b Hcr) as (b' & -> & Hb'). cbn [List.filter nonempty].
  rewrite parse_headers_app, parse_headers_lines by done. cbn [mbind outcome_bind parse_headers].
  destruct (parse_header_other c b' (header_map hs ∅) $"Content-Length") as (h' & -> & Hl); [done|done|apply Forall_cons_2; [done|by apply Hb']|done|].
  cbn [mbind outcome_bind]. rewrite decide_True by done. rewrite Hl, Hcl. cbn [from_option id].
  rewrite print_dec_nonempty, read_body_failed, Nat2Z.id by done. cbn [mbind outcome_bind]. by eexists.
Qed.
End BodyLost.

Definition sample_headers (n : Z) : list (cstr * cstr) :=
  [($"Host", $"localhost:8545"); ($"Content-Length", print_dec n)].

Lemma http_lf_roundtrip_witness :
  parse_http_request (mem := small_memory)
    (render_request [NL] $"POST" (target $"/rpc" [($"key", $"1")]) (sample_headers 4) $"[12]")
  = Ret (mkHttpRequest $"POST" $"/rpc" $"[12]" (header_map (sample_headers 4) ∅) (header_map [($"key", $"1")] ∅)).
Proof. apply (http_lf_roundtrip (mem := small_memory)); decide_now. Defined.

(** ** Responses on the wire *)

Definition status_line (r : HttpResponse) : cstr :=
  $"HTTP/1.1 " ++ print_int (status_code r) ++ $" " ++ status_message r.

(** The headers a response is sent with: its own, and the two defaults. *)
Definition sent_headers (r : HttpResponse) : str_map :=
  resp_headers r ∪ {[ $"Content-Type" := content_type r;
                      $"Content-Length" := print_dec (Z.of_nat (length (resp_body r))) ]}.

(** No line break inside a header or the status line. *)
Definition response_ok (r : HttpResponse) : Prop :=
  no_char NL (status_message r) /\ no_char NL (content_type r)
  /\ map_Forall (fun k v => no_char NL k /\ no_char NL v) (resp_headers r).

Definition not_blank (l : cstr) : bool := negb (bool_decide (l = [CR])).

Lemma print_dec_no_nl n : 0 <= n -> no_char NL (print_dec n).
Proof.
  intros Hn. unfold print_dec. apply Forall_map.
  eapply Forall_impl; [apply (to_digits_range 10 n); lia|]. intros d Hd. cbn.
  assert (H : bool_decide (Ascii.eqb NL (digit_char d) = false) = true).
  { revert d Hd. apply forallb_seqZ. vm_compute. done. }
  by apply bool_decide_eq_true in H.
Qed.

Lemma print_int_no_nl n : no_char NL (print_int n).
Proof. unfold print_int. destruct (Z.ltb_spec n 0); [constructor; [done|]|]; apply print_dec_no_nl; lia. Qed.

Lemma header_text_line kv : header_text kv = header_line kv ++ CRLF.
Proof. unfold header_text, header_line. by rewrite <- !app_assoc. Qed.

Lemma not_blank_long (s : cstr) : (2 <= length s)%nat -> not_blank s = true.
Proof. intros Hs. unfold not_blank. rewrite bool_decide_eq_false_2; [done|]. intros ->. cbn in Hs. lia. Qed.

Section Framing.
Context {ord : IterOrder}.

(** The lines of the head, without their line ends. *)
Definition head_lines (r : HttpResponse) : list cstr :=
  map header_line (iter (resp_headers r))
  ++ (match resp_headers r !! $"Content-Type" with
      | None => [header_line ($"Content-Type", content_type r)] | Some _ => [] end)
  ++ (match resp_headers r !! $"Content-Length" with
      | None => [header_line ($"Content-Length", print_dec (Z.of_nat (length (resp_body r))))] | Some _ => [] end).

Lemma format_as_lines r :
  format_http_response r
  = concat (map (fun l => l ++ [NL]) (map (fun l => l ++ [CR]) (status_line r :: head_lines r))) ++ [CR; NL] ++ resp_body r.
Proof.
  unfold format_http_response, status_line, head_lines. cbn [map concat].
  rewrite !map_app, !concat_app, !map_map, <- !app_assoc.
  rewrite (map_ext _ (fun kv => (header_line kv ++ [CR]) ++ [NL])) by (intros; by rewrite header_text_line, <- app_assoc).
  destruct (resp_headers r !! $"Content-Type"), (resp_headers r !! $"Content-Length");
    unfold header_line, CRLF; cbn [map concat fst snd]; rewrite <- ?app_assoc; reflexivity.
Qed.

Lemma head_lines_perm r : head_lines r ≡ₚ map header_line (map_to_list (sent_headers r)).
Proof.
  unfold head_lines, sent_headers. set (ct := content_type r). set (cl := print_dec _).
  set (h := resp_headers r).
  assert (Hd : h ∪ {[ $"Content-Type" := ct; $"Content-Length" := cl ]}
    = (match h !! $"Content-Type" with None => <[ $"Content-Type" := ct ]> | _ => id end)
        ((match h !! $"Content-Length" with None => <[ $"Content-Length" := cl ]> | _ => id end) h)).
  { apply map_eq. intros k. rewrite lookup_union.
    destruct (decide (k = $"Content-Type")) as [->|H1]; [|destruct (decide (k = $"Content-Length")) as [->|H2]].
    - destruct (h !! $"Content-Type") eqn:E1, (h !! $"Content-Length") eqn:E2; unfold id;
        by rewrite ?lookup_insert_eq, ?lookup_insert_ne, ?E1 by done.
    - destruct (h !! $"Content-Type") eqn:E1, (h !! $"Content-Length") eqn:E2; unfold id;
        by rewrite ?lookup_insert_ne, ?lookup_insert_eq, ?lookup_singleton_eq, ?E2 by done.
    - rewrite (lookup_insert_ne {[ $"Content-Length" := cl ]}), lookup_singleton_ne, (right_id None _) by done.
      destruct (h !! $"Content-Type"), (h !! $"Content-Length"); unfold id; by rewrite ?lookup_insert_ne by done. }
  rewrite Hd, (iter_perm _ _ _ _ h).
  destruct (h !! $"Content-Type") eqn:E1, (h !! $"Content-Length") eqn:E2; unfold id; cbn [app].
  - by rewrite app_nil_r.
  - rewrite map_to_list_insert by done. cbn [map]. by rewrite <- Permutation_cons_append.
  - rewrite map_to_list_insert by done. cbn [map]. by rewrite <- Permutation_cons_append.
  - rewrite map_to_list_insert by (by rewrite lookup_insert_ne). rewrite map_to_list_insert by done. cbn [map].
    rewrite Permutation_app_comm. cbn [app]. done.
Qed.

(** A client that reads the response line by line up to the blank line gets the
    status line and every header of the response once, with Content-Type and
    Content-Length added when the response does not set them, in some order, and
    what follows is exactly the body; for responses without line breaks in their
    headers. *)
Theorem http_response_framed (r : HttpResponse) :
  response_ok r ->
  exists ls, getlines NL not_blank (istringstream (format_http_response r))
             = (map (fun l => l ++ [CR]) (status_line r :: ls), istringstream (resp_body r))
  /\ ls ≡ₚ map header_line (map_to_list (sent_headers r)).
Proof.
  intros (Hs & Hct & Hh). exists (head_lines r). split; [|apply head_lines_perm].
  rewrite format_as_lines, getlines_all.
  - change ([CR; NL] ++ resp_body r) with ([CR] ++ NL :: resp_body r).
    rewrite getlines_stop by (done || decide_now). by rewrite app_nil_r.
  - apply Forall_map. apply Forall_cons_2.
    + unfold status_line. rewrite <- !app_assoc, !no_char_app. split; [|apply not_blank_long; rewrite !length_app; cbn; lia].
      split_and!; [decide_now|apply print_int_no_nl|decide_now|done|decide_now].
    + apply Forall_forall. intros l Hl. rewrite head_lines_perm in Hl.
      apply list_elem_of_In, in_map_iff in Hl as ([k v] & <- & Hkv%list_elem_of_In%elem_of_map_to_list).
      unfold header_line. cbn [fst snd]. rewrite <- !app_assoc, !no_char_app. split.
      * assert (no_char NL k /\ no_char NL v) as [? ?]; [|split_and!; try done; decide_now].
        unfold sent_headers in Hkv. apply lookup_union_Some_raw in Hkv as [Hkv|[_ Hkv]]; [by apply (Hh k v)|].
        apply lookup_insert_Some in Hkv as [[<- <-]|[_ [<- <-]%lookup_singleton_Some]]; (split; [decide_now|]);
          [done|apply print_dec_no_nl; lia].
      * apply not_blank_long. rewrite !length_app. cbn. lia.
Qed.
End Framing.

Lemma http_response_framed_witness :
  exists ls, getlines NL not_blank (istringstream (format_http_response (ord := map_order) (not_found $"gone")))
             = (map (fun l => l ++ [CR]) ($"HTTP/1.1 404 Not Found" :: ls), istringstream $"gone")
  /\ ls ≡ₚ map header_line (map_to_list (sent_headers (not_found $"gone"))).
Proof. apply (http_response_framed (ord := map_order) (not_found $"gone")). unfold response_ok. decide_now. Defined.
