(* ===== verification/JsonTable.v ===== *)
(** * JsonTable: one library that satisfies [JsonLaws]

    JSON values as trees; texts are parsed by looking them up in a table. *)

From stdpp Require Import base list numbers strings.
From Stdlib Require Import ZArith Lia Ascii SpecFloat.
From S2P Require Import Prelude CString Floats HttpServer HttpProps Json.

Inductive jval : Type :=
  | JNull | JBool (b : bool) | JStr (s : cstr) | JNum (n : Z) | JDbl (d : spec_float) | JArr (l : list jval) | JObj (l : list (cstr * jval)).

Definition quoted (s : cstr) : cstr := "034"%char :: s ++ ["034"%char].

Fixpoint jtext (j : jval) : cstr :=
  match j with
  | JNull => $"null"
  | JStr s => quoted s
  | JNum n => print_int n
  | JBool b => if b then $"true" else $"false"
  | JDbl d => match d_trunc d with Some z => print_int z | None => $"null" end
  | JArr l => $"[" ++ join "," (map jtext l) ++ $"]"
  | JObj l => $"{" ++ join "," (map (fun kv => quoted (fst kv) ++ $":" ++ jtext (snd kv)) l) ++ $"}"
  end.

Definition wrong {A} : outcome A := Throw (library_error "type_error").

(** The members of an object, each key once. *)
Fixpoint members (l : list (cstr * jval)) : list (cstr * jval) :=
  match l with [] => [] | (k, v) :: l' => (k, v) :: filter (fun kv => fst kv <> k) (members l') end.

Lemma assoc_filter k k' (l : list (cstr * jval)) :
  assoc k (filter (fun kv => fst kv <> k') l) = if decide (k' = k) then None else assoc k l.
Proof.
  induction l as [|[a v] l IH]; [by case_decide|]. rewrite filter_cons. cbn. repeat case_decide; cbn; repeat case_decide; congruence.
Qed.

Lemma members_at k l : assoc k (members l) = assoc k l.
Proof.
  induction l as [|[a v] l IH]; [done|]. cbn. case_decide; [done|]. by rewrite assoc_filter, decide_False.
Qed.

Lemma members_keys l : NoDup (map fst (members l)).
Proof.
  induction l as [|[a v] l IH]; [constructor|]. cbn. constructor.
  - intros ((k & w) & E & [Hne _]%list_elem_of_filter)%list_elem_of_fmap. cbn in *. congruence.
  - clear -IH. induction (members l) as [|[k w] l' IH']; [constructor|]. rewrite filter_cons. cbn in IH. apply NoDup_cons in IH as [Hn Hl].
    case_decide; [|by apply IH']. cbn. constructor; [|by apply IH'].
    intros ((k' & w') & E & [_ Hin]%list_elem_of_filter)%list_elem_of_fmap. apply Hn, list_elem_of_fmap. cbn in E. subst. by exists (k', w').
Qed.

(** A text of the table. *)
Definition table_lookup (docs : list (cstr * jval)) (s : cstr) : outcome jval :=
  match s with
  | "000"%char :: _ => wrong
  | _ => match assoc s docs with Some j => Ret j | None => wrong end
  end.

(** Documents are read from a table of texts. *)
Definition table_json (docs : list (cstr * jval)) : JsonLib := {|
  json := jval; json_null := JNull; json_string := JStr; json_number := JNum; json_bool := JBool; json_double := JDbl; json_array := JArr []; json_object := JObj;
  json_at := fun k j => match j with JObj l => assoc k l | _ => None end;
  json_erase := fun k j => match j with JObj l => Ret (JObj (filter (fun kv => fst kv <> k) l)) | _ => wrong end;
  json_push := fun j v => match j with JNull => Ret (JArr [v]) | JArr l => Ret (JArr (l ++ [v])) | _ => wrong end;
  json_is_array := fun j => match j with JArr _ => true | _ => false end;
  json_assign := fun k v j =>
    match j with JNull => Ret (JObj [(k, v)]) | JObj l => Ret (JObj ((k, v) :: l)) | _ => wrong end;
  json_parse := table_lookup docs; json_read := table_lookup docs; json_parse_error := fun _ => true;
  json_dump := fun j => Ret (jtext j); json_dump2 := fun j => Ret (jtext j);
  json_is_object := fun j => match j with JObj _ => true | _ => false end;
  json_items := fun j => match j with JObj l => members l | _ => [] end;
  json_is_string := fun j => match j with JStr _ => true | _ => false end;
  json_is_number := fun j => match j with JNum _ => true | _ => false end;
  json_get_string := fun j => match j with JStr s => Ret s | _ => wrong end;
  json_get_int := fun j => match j with JNum n => Ret (s32 n) | _ => wrong end;
  json_get_u64 := fun j => match j with JNum n => Ret (u64 n) | _ => wrong end;
  json_get_bool := fun j => match j with JBool b => Ret b | _ => wrong end;
  json_empty := fun j => match j with JNull | JArr [] | JObj [] => true | _ => false end;
  json_size := fun j => match j with JNull => O | JArr l => length l | JObj l => length l | _ => 1%nat end;
  json_elem := fun i j => match j with
                          | JArr l => match l !! i with Some v => Ret v | None => Undefined end
                          | _ => wrong
                          end
|}.

#[export] Instance table_json_laws docs : JsonLaws (table_json docs).
Proof.
  constructor; try done.
  - eauto.
  - eauto.
  - intros k v k' v' j j' Hj. destruct j; cbn in *; simplify_eq; eauto.
  - intros k v j j' k' Hj. destruct j; cbn in *; simplify_eq; cbn; repeat case_decide; congruence.
  - intros n Hn. cbn. by rewrite s32_small.
  - intros s. by eexists.
  - intros []; cbn; try lia; intros; destruct l; cbn in *; (done || lia).
  - intros i []; cbn; try done. intros Hi. by destruct (lookup_lt_is_Some_2 l i Hi) as [v ->].
  - by intros [].
  - intros k [] H; try done. eexists. split_and!; [done|done|]. intros k'. apply assoc_filter.
  - intros k v [] H; try done. by eexists.
  - intros [] v H; try done. eexists. split_and!; [done|done| | |]; cbn.
    + rewrite length_app. cbn. lia.
    + by rewrite list_lookup_middle.
    + intros i Hi. by rewrite lookup_app_l.
  - intros k v [] j' H; cbn in *; by simplify_eq.
  - intros k v [] j' H; cbn in *; by simplify_eq.
  - intros k [] H; try done. apply members_at.
  - intros [] H; try done. apply members_keys.
  - by intros [].
Qed.
