(* ===== verification/CoreJson.v ===== *)
(** * CoreJson: the JSON texts of transactions and blocks

    [Transaction::to_json], [Block::to_json] and the stream operators of
    core/transaction.cpp and core/block.cpp, with the JSON library of Json.v.  Both are const and still store
    the hashes they compute in the mutable caches, so they return the object too. *)

From stdpp Require Import base list numbers strings.
From Stdlib Require Import ZArith Lia Ascii.
From S2P Require Import Prelude CString Hash Address Amount Timestamp Transaction Block Json HttpServer HttpProps JsonTable.

Section CoreJson.
Context {J : JsonLib}.

(** The text of the data field: 32 zero bytes whatever the data. *)
Definition data_placeholder : cstr := $"0x" ++ replicate 64 "0"%char.

(** The members in the order of the assignments. *)
Definition tx_members (d : TransactionData) (h : Hash) : list (cstr * json) :=
  [($"from", json_string (Address.to_hex (mkAddress (from d))));
   ($"to", json_string (Address.to_hex (mkAddress (to d))));
   ($"value", json_string (Amount.to_string (mkAmount (value d))));
   ($"gasLimit", json_number (gas_limit d));
   ($"gasPrice", json_number (gas_price d));
   ($"nonce", json_number (nonce d));
   ($"data", json_string data_placeholder);
   ($"hash", json_string (Hash.to_hex h))].

Definition tx_document (tx : Transaction) : outcome json * Transaction :=
  let '(h, tx') := Transaction.calculate_hash tx in (assign_all (tx_members (Transaction.data_ tx) h) json_null, tx').

Definition tx_to_json (tx : Transaction) : outcome cstr * Transaction :=
  let '(j, tx') := tx_document tx in (j ← j; json_dump2 j, tx').

(** [json::parse(tx.to_json())] for every transaction. *)
Fixpoint parse_transactions (txs : list Transaction) : outcome (list json * list Transaction) :=
  match txs with
  | [] => Ret ([], [])
  | tx :: rest =>
      let '(s, tx') := tx_to_json tx in
      s ← s;
      v ← json_parse s;
      '(vs, txs') ← parse_transactions rest;
      Ret (v :: vs, tx' :: txs')
  end.

Definition block_members (hd : BlockHeader) (h : Hash) : list (cstr * json) :=
  [($"height", json_number (height hd));
   ($"hash", json_string (Hash.to_hex h));
   ($"parentHash", json_string (Hash.to_hex (mkHash (parent_hash hd))));
   ($"merkleRoot", json_string (Hash.to_hex (mkHash (merkle_root hd))));
   ($"timestamp", json_number (timestamp hd));
   ($"nonce", json_number (block_nonce hd));
   ($"gasLimit", json_number (block_gas_limit hd));
   ($"gasPrice", json_number (block_gas_price hd));
   ($"chainId", json_number (chain_id hd))].

Definition block_document (b : Block) : outcome (json * Block) :=
  _ ← Timestamp_of_seconds (timestamp (header_ b));
  let '(h, b') := Block.calculate_hash b in
  j ← assign_all (block_members (header_ b) h) json_null;
  '(vs, txs') ← parse_transactions (transactions_ b);
  txs ← push_all vs json_array;
  j ← json_assign $"transactions" txs j;
  Ret (j, mkBlock (header_ b') txs' (block_cached_hash_ b')).

Definition block_to_json (b : Block) : outcome (cstr * Block) :=
  '(j, b') ← block_document b; s ← json_dump2 j; Ret (s, b').

(** The stream operators. *)
Definition print_transaction (os : cstr) (tx : Transaction) : cstr := os ++ Transaction.to_string tx.
Definition print_block (os : cstr) (b : Block) : cstr * Block := let '(s, b') := Block.to_string b in (os ++ s, b').

(** ** Lemmas *)

Context {Laws : JsonLaws J}.

Lemma tx_document_spec tx :
  exists j, fst (tx_document tx) = Ret j /\ json_is_object j = true
  /\ (forall k, json_at k j = assoc k (tx_members (Transaction.data_ tx) (fst (Transaction.calculate_hash tx)))).
Proof.
  unfold tx_document. destruct (Transaction.calculate_hash tx) as [h tx']. cbn [fst].
  destruct (assign_all_spec (tx_members (Transaction.data_ tx) h) json_null (or_introl eq_refl)) as (j & E & _ & O & A); [decide_now|].
  exists j. split_and!; [done|by apply O; left|]. intros k. rewrite A, at_null. by destruct (assoc _ _).
Qed.

(** The library reads back what it printed for a transaction. *)
Definition tx_text_ok (tx : Transaction) : Prop :=
  forall j, fst (tx_document tx) = Ret j -> exists s, json_dump2 j = Ret s /\ json_parse s = Ret j.

Lemma parse_transactions_spec txs :
  Forall tx_text_ok txs ->
  exists vs, parse_transactions txs = Ret (vs, map (fun tx => snd (Transaction.calculate_hash tx)) txs)
  /\ Forall2 (fun tx v => fst (tx_document tx) = Ret v) txs vs.
Proof.
  induction 1 as [|tx txs Htx _ (vs & E & F)]; [by exists []|]. destruct (tx_document_spec tx) as (j & Ej & _).
  destruct (Htx j Ej) as (s & Es & Ep). exists (j :: vs). split; [|by constructor]. cbn [parse_transactions map]. unfold tx_to_json, tx_document in *.
  destruct (Transaction.calculate_hash tx) as [h tx']. cbn [fst snd] in *. rewrite Ej. cbn [mbind outcome_bind]. rewrite Es. cbn [mbind outcome_bind].
  rewrite Ep. cbn [mbind outcome_bind]. rewrite E. done.
Qed.
End CoreJson.

(** ** Properties *)

(** The JSON document of a block holds its header fields, its hash and, in order,
    the document of each of its transactions; the document of a transaction holds its
    fields and its hash, but for its data it has 32 zero bytes whatever the data are.
    Printing changes only the caches: they hold the hashes afterwards. *)
Theorem block_json_spec {J : JsonLib} {Laws : JsonLaws J} (b : Block) :
  is_u64 (timestamp (header_ b)) -> Forall tx_text_ok (transactions_ b) ->
  exists j txs, block_document b
    = Ret (j, mkBlock (header_ b) (map (fun tx => snd (Transaction.calculate_hash tx)) (transactions_ b)) (Some (fst (Block.calculate_hash b))))
  /\ (forall k, k <> $"transactions" -> json_at k j = assoc k (block_members (header_ b) (fst (Block.calculate_hash b))))
  /\ json_at $"transactions" j = Some txs /\ json_size txs = length (transactions_ b)
  /\ forall i tx, transactions_ b !! i = Some tx -> exists v, json_elem i txs = Ret v /\ fst (tx_document tx) = Ret v
     /\ (forall k, json_at k v = assoc k (tx_members (Transaction.data_ tx) (fst (Transaction.calculate_hash tx))))
     /\ json_at $"data" v = Some (json_string data_placeholder).
Proof.
  intros Ht Hx. unfold block_document. rewrite Timestamp_of_seconds_ok by done. cbn [mbind outcome_bind].
  assert (Hc : snd (Block.calculate_hash b) = mkBlock (header_ b) (transactions_ b) (Some (fst (Block.calculate_hash b)))).
  { unfold Block.calculate_hash, calculate_hash_with. destruct b as [hd txs [h|]]; done. }
  destruct (Block.calculate_hash b) as [h b']. cbn [fst snd] in *. subst b'.
  destruct (assign_all_spec (block_members (header_ b) h) json_null (or_introl eq_refl)) as (j1 & E1 & _ & O1 & A1); [decide_now|].
  rewrite E1. cbn [mbind outcome_bind]. destruct (parse_transactions_spec _ Hx) as (vs & E2 & F2). rewrite E2. cbn [mbind outcome_bind].
  destruct array_empty as [Ha Hs]. destruct (push_all_spec vs json_array Ha) as (txs & E3 & _ & S3 & _ & V3). rewrite E3. cbn [mbind outcome_bind].
  destruct (assign_step $"transactions" txs j1) as (j & E4 & _ & A4); [by right; apply O1; left|]. rewrite E4. cbn [mbind outcome_bind].
  exists j, txs. rewrite Hs in S3, V3. split_and!; [done| | | |].
  - intros k Hk. rewrite A4, decide_False, A1, at_null by congruence. by destruct (assoc _ _).
  - by rewrite A4, decide_True.
  - rewrite S3. symmetry. by apply Forall2_length in F2.
  - intros i tx Hi. destruct (Forall2_lookup_l _ _ _ _ _ F2 Hi) as (v & Hv & Ev). exists v. destruct (tx_document_spec tx) as (v' & Ev' & _ & Av).
    rewrite Ev in Ev'. injection Ev' as <-. split_and!; [by apply V3|done|done|]. by rewrite Av.
Qed.

(** ** Witnesses *)

Definition demo_tx : Transaction :=
  mkTransaction (mkTransactionData (replicate 20 1) (replicate 20 2) 5 21000 1 [7; 8; 9] 3) None.
Definition demo_block : Block := mkBlock (mkBlockHeader 1 (replicate 32 0) (replicate 32 0) 1640995200 0 30000000 1 1) [demo_tx] None.
Definition demo_tx_json : jval := match fst (tx_document (J := table_json []) demo_tx) with Ret j => j | _ => JNull end.
Definition demo_tx_docs : list (cstr * jval) := [(jtext demo_tx_json, demo_tx_json)].

Lemma block_json_spec_witness :
  exists j txs, fmap fst (block_document (J := table_json demo_tx_docs) demo_block) = Ret j
  /\ json_at (JsonLib := table_json demo_tx_docs) $"transactions" j = Some txs /\ json_size (JsonLib := table_json demo_tx_docs) txs = 1%nat.
Proof.
  destruct (block_json_spec (J := table_json demo_tx_docs) demo_block) as (j & txs & E & _ & H1 & H2 & _).
  - unfold is_u64; simpl; lia.
  - constructor; [|constructor]. intros j Hj. exists (jtext demo_tx_json). assert (Hd : j = demo_tx_json) by (injection Hj as <-; reflexivity).
    subst j. split; vm_compute; reflexivity.
  - exists j, txs. rewrite E. split_and!; [reflexivity|exact H1|exact H2].
Defined.
