(* ===== verification/RpcServer.v ===== *)
(** * RpcServer: JSON-RPC 2.0 over HTTP

    rpc/src/rpc_server_impl.cpp: the request, response and error structures, the
    HTTP responses built from them, the method table of [RpcServerImpl] with its
    mutex, dispatch, and the handler installed in the [HttpServer].

    nlohmann::json is a parameter ([JsonLib]), with its documented behaviour in
    [JsonLaws].  The registered handlers are values of a type [H]; [call] says what a handler does to
    the server it is registered with, an exception being a value, so that the
    effects before the exception are kept. *)

From stdpp Require Import base list gmap numbers strings.
From Stdlib Require Import ZArith Lia Ascii.
From S2P Require Import Prelude CString Effects Streams Json HttpServer.

Section RpcServer.
Context {J : JsonLib}.

(** ** Requests, responses and errors *)
Record JsonRpcRequest : Type := mkJsonRpcRequest {
  jsonrpc : cstr;
  rpc_method : cstr;
  params : json;
  id : option cstr
}.
Record JsonRpcError : Type := mkJsonRpcError {
  code : Z;
  message : cstr;
  data : option json
}.
Record JsonRpcResponse : Type := mkJsonRpcResponse {
  resp_jsonrpc : cstr;
  result : option json;
  error : option JsonRpcError;
  resp_id : option cstr
}.

Definition default_JsonRpcResponse : JsonRpcResponse := mkJsonRpcResponse $"2.0" None None None.
Definition result_response (v : json) : JsonRpcResponse := mkJsonRpcResponse $"2.0" (Some v) None None.
Definition error_response (e : JsonRpcError) : JsonRpcResponse := mkJsonRpcResponse $"2.0" None (Some e) None.

Definition parse_error (message : cstr) : JsonRpcError := mkJsonRpcError (-32700) message None.
Definition invalid_request (message : cstr) : JsonRpcError := mkJsonRpcError (-32600) message None.
Definition method_not_found (message : cstr) : JsonRpcError := mkJsonRpcError (-32601) message None.
Definition invalid_params (message : cstr) : JsonRpcError := mkJsonRpcError (-32602) message None.
Definition internal_error (message : cstr) : JsonRpcError := mkJsonRpcError (-32603) message None.
Definition server_error (code : Z) (message : cstr) : JsonRpcError := mkJsonRpcError code message None.

(** The id of a request: a string as it is, a number printed as an [int], anything
    else dropped. *)
Definition request_id (j : json) : outcome (option cstr) :=
  match json_at $"id" j with
  | None => Ret None
  | Some i =>
      if json_is_string i then s ← json_get_string i; Ret (Some s)
      else if json_is_number i then n ← json_get_int i; Ret (Some (print_int n))
      else Ret None
  end.

Definition from_json (json_str : cstr) : outcome (option JsonRpcRequest) :=
  try_catch
    (j ← json_parse json_str;
     match json_at $"jsonrpc" j, json_at $"method" j with
     | Some jv, Some mv =>
         v ← json_get_string jv;
         m ← json_get_string mv;
         i ← request_id j;
         Ret (Some (mkJsonRpcRequest v m (default json_null (json_at $"params" j)) i))
     | _, _ => Ret None
     end)
    (fun _ => Ret None).

(** Assign a member when the optional holds a value. *)
Definition assign_opt {A} (k : cstr) (f : A -> json) (x : option A) (j : json) : outcome json :=
  match x with Some a => json_assign k (f a) j | None => Ret j end.

Definition request_to_json (r : JsonRpcRequest) : outcome json :=
  j ← json_assign $"jsonrpc" (json_string (jsonrpc r)) json_null;
  j ← json_assign $"method" (json_string (rpc_method r)) j;
  j ← json_assign $"params" (params r) j;
  assign_opt $"id" json_string (id r) j.

(** The [error] member: code, message and, when present, data. *)
Definition error_to_json (e : JsonRpcError) : outcome json :=
  assign_opt $"data" Datatypes.id (data e)
    (json_object [($"code", json_number (code e)); ($"message", json_string (message e))]).

Definition response_to_json (r : JsonRpcResponse) : outcome json :=
  j ← json_assign $"jsonrpc" (json_string (resp_jsonrpc r)) json_null;
  j ← assign_opt $"result" Datatypes.id (result r) j;
  j ← match error r with
      | Some e => ej ← error_to_json e; json_assign $"error" ej j
      | None => Ret j
      end;
  assign_opt $"id" json_string (resp_id r) j.

(** ** HTTP responses *)

Definition with_body (status : Z) (status_text body content_type : cstr) : HttpResponse :=
  mkHttpResponse status status_text body
    (<[ $"Content-Length" := print_dec (Z.of_nat (length body)) ]> (<[ $"Content-Type" := content_type ]> ∅))
    content_type.

Definition ok (body content_type : cstr) : HttpResponse := with_body 200 $"OK" body content_type.
Abbreviation json_type := ($"application/json") (only parsing).

Definition error_body (c : Z) (message : cstr) : json :=
  json_object [($"error", json_object [($"code", json_number c); ($"message", json_string message)])].
Definition bad_request (message : cstr) : outcome HttpResponse :=
  b ← json_dump (error_body (-32600) message); Ret (with_body 400 $"Bad Request" b json_type).
Definition http_internal_error (message : cstr) : outcome HttpResponse :=
  b ← json_dump (error_body (-32603) message); Ret (with_body 500 $"Internal Server Error" b json_type).

(** ** The server *)
Context {H E : Type}.

(** [methods_] maps to [std::function]s, which may be empty ([None]). *)
Record RpcServerImpl : Type := mkRpcServerImpl {
  config_ : RpcServerConfig;
  http_server_ : option HttpServer;
  methods_ : gmap (list ascii) (option H)
}.
Definition RpcServerImpl_default : RpcServerImpl := mkRpcServerImpl default_RpcServerConfig None ∅.

Definition set_methods (f : gmap (list ascii) (option H) -> gmap (list ascii) (option H)) (s : RpcServerImpl) : RpcServerImpl :=
  mkRpcServerImpl (config_ s) (http_server_ s) (f (methods_ s)).

(** [start]: the schedules are those of the old server's thread while it is joined
    and of the new one's while [start] sleeps; [None] when the process terminates
    or the call waits. *)
Definition start (config : RpcServerConfig) (es_old es : list thread_event) (s : RpcServerImpl)
    : option (bool * RpcServerImpl) :=
  match (match http_server_ s with Some h => HttpServer.stop es_old h | None => Some HttpServer_of end) with
  | None => None
  | Some _ =>
      match HttpServer.start es HttpServer_of with
      | None => None
      | Some (r, h) => Some (r, mkRpcServerImpl config (Some h) (methods_ s))
      end
  end.

Definition stop (es : list thread_event) (s : RpcServerImpl) : option RpcServerImpl :=
  match http_server_ s with
  | None => Some s
  | Some h =>
      match HttpServer.stop es h with
      | None => None
      | Some _ => Some (mkRpcServerImpl (config_ s) None (methods_ s))
      end
  end.
(** [~RpcServerImpl]. *)
Definition RpcServerImpl_end (es : list thread_event) (s : RpcServerImpl) : option RpcServerImpl := stop es s.

Definition is_running (s : RpcServerImpl) : bool :=
  match http_server_ s with Some h => HttpServer.is_running h | None => false end.

Definition get_config (s : RpcServerImpl) : RpcServerConfig := config_ s.

Definition get_server_info (s : RpcServerImpl) : cstr :=
  $"ChainForge RPC Server v0.1.0" ++ [NL]
  ++ $"Host: " ++ host (config_ s) ++ [NL]
  ++ $"Port: " ++ print_dec (port (config_ s)) ++ [NL]
  ++ $"Methods registered: " ++ print_dec (Z.of_nat (size (methods_ s))) ++ [NL].

Definition add_cors_headers (s : RpcServerImpl) (response : HttpResponse) : HttpResponse :=
  if enable_cors (config_ s) then
    let h := <[ $"Access-Control-Allow-Origin" := default $"*" (head (allowed_origins (config_ s))) ]> (resp_headers response) in
    let h := <[ $"Access-Control-Allow-Methods" := $"POST, OPTIONS" ]> h in
    let h := <[ $"Access-Control-Allow-Headers" := $"Content-Type" ]> h in
    let h := <[ $"Access-Control-Max-Age" := $"86400" ]> h in
    mkHttpResponse (status_code response) (status_message response) (resp_body response) h (content_type response)
  else response.

Section Dispatch.
Context {env : Env}.
Variable call : H -> json -> eff RpcServerImpl E (exn + JsonRpcResponse).
(** [e.what()], whose text the standard leaves to the implementation. *)
Variable what : exn -> list ascii.

Definition register_method (method_name : cstr) (handler : option H) : eff RpcServerImpl E () :=
  with_lock Exclusive (modify (set_methods (insert method_name handler))).
Definition unregister_method (method_name : cstr) : eff RpcServerImpl E () :=
  with_lock Exclusive (modify (set_methods (delete method_name))).
Definition has_method (method_name : cstr) : eff RpcServerImpl E bool :=
  with_lock Exclusive (s ← get; mret (bool_decide (is_Some (methods_ s !! method_name)))).

(** [methods_[request.method](request.params)]: a missing entry is inserted empty,
    and calling an empty function throws. *)
Definition execute_method (m : cstr) (p : json) : eff RpcServerImpl E (exn + JsonRpcResponse) :=
  s ← get;
  match methods_ s !! m with
  | Some (Some h) => call h p
  | Some None => mret (inl bad_function_call)
  | None => modify (set_methods (insert m None));; mret (inl bad_function_call)
  end.

Definition process_jsonrpc_request (request : JsonRpcRequest) : eff RpcServerImpl E JsonRpcResponse :=
  if negb (bool_decide (jsonrpc request = $"2.0")) || negb (nonempty (rpc_method request)) then
    mret (error_response (invalid_request $"Invalid request"))
  else
    found ← has_method (rpc_method request);
    if negb found then mret (error_response (method_not_found $"Method not found"))
    else
      r ← with_lock Exclusive (execute_method (rpc_method request) (params request));
      match r with
      | inr response => mret response
      | inl e => mret (error_response (internal_error (what e)))
      end.

(** A library call outside any handler: its exception is the caller's. *)
Definition catch_value {A} (m : outcome A) : eff RpcServerImpl E (exn + A) := fun w =>
  match m with Ret a => Ret (inr a, w) | Throw e => Ret (inl e, w) | Undefined => Undefined end.

(** [HttpResponse::ok(response.to_json().dump())]. *)
Definition rpc_reply (response : JsonRpcResponse) : outcome HttpResponse :=
  j ← response_to_json response; b ← json_dump j; Ret (ok b json_type).

Definition handle_http_request (request : HttpRequest) : eff RpcServerImpl E (exn + HttpResponse) :=
  if decide (method request = $"OPTIONS") then
    s ← get; mret (inr (add_cors_headers s (ok [] json_type)))
  else if decide (method request <> $"POST") then
    catch_value (bad_request $"Only POST requests are supported")
  else
    jsonrpc_request ← lift (from_json (body request));
    match jsonrpc_request with
    | None => catch_value (rpc_reply (error_response (parse_error $"Parse error")))
    | Some req =>
        response ← process_jsonrpc_request req;
        let response := match id req with
                        | Some i => mkJsonRpcResponse (resp_jsonrpc response) (result response) (error response) (Some i)
                        | None => response
                        end in
        r ← catch_value (rpc_reply response);
        match r with
        | inr http_response => s ← get; mret (inr (add_cors_headers s http_response))
        | inl e => mret (inl e)
        end
    end.
End Dispatch.
End RpcServer.
Arguments RpcServerImpl H : clear implicits.
