(* ===== verification/RpcProps.v ===== *)
(** * RpcProps: theorems on the JSON-RPC server

    What dispatch answers on every branch, what a response document contains, the
    round trip of requests, and what becomes of a request that arrives over HTTP. *)

From stdpp Require Import base list gmap numbers strings.
From Stdlib Require Import ZArith Lia Ascii.
From S2P Require Import Prelude CString Floats Effects Streams HttpServer HttpProps Json JsonTable RpcServer.

Section Dispatch.
Context {J : JsonLib} {H E : Type} {env : Env}.
Variable run : H -> json -> exn + JsonRpcResponse.
Variable what : exn -> list ascii.

(** Handlers that leave the server they are registered with alone: [run] is what they
    return or throw. *)
Definition leaves_alone (call : H -> json -> eff (RpcServerImpl H) E (exn + JsonRpcResponse)) : Prop :=
  forall h p w, call h p w = Ret (run h p, w).
Definition pure_call (h : H) (p : json) : eff (RpcServerImpl H) E (exn + JsonRpcResponse) := mret (run h p).

(** The answer JSON-RPC asks for, from the method table alone. *)
Definition dispatch (methods : gmap (list ascii) (option H)) (req : JsonRpcRequest) : JsonRpcResponse :=
  if decide (jsonrpc req = $"2.0" /\ rpc_method req <> []) then
    match methods !! rpc_method req with
    | None => error_response (method_not_found $"Method not found")
    | Some None => error_response (internal_error (what bad_function_call))
    | Some (Some h) =>
        match run h (params req) with
        | inr response => response
        | inl e => error_response (internal_error (what e))
        end
    end
  else error_response (invalid_request $"Invalid request").

Lemma with_lock_free {A} (body : eff (RpcServerImpl H) E A) w a w' :
  held w = [] -> body (mkWorld (obj w) [Exclusive] (ticks w) (log w)) = Ret (a, w') ->
  with_lock Exclusive body w = Ret (a, mkWorld (obj w') [] (ticks w') (log w')).
Proof. intros Hh Hb. unfold with_lock. rewrite Hh. destruct on_relock; by rewrite Hb. Qed.

Lemma has_method_free m (w : world (RpcServerImpl H) E) :
  held w = [] -> has_method m w = Ret (bool_decide (is_Some (methods_ (obj w) !! m)), w).
Proof.
  intros Hh. unfold has_method. erewrite with_lock_free; [|done|reflexivity]. destruct w; cbn in *. by subst.
Qed.

(** Dispatch on every branch, whatever the locking rule, for handlers that do
    not call back into the server: a request that is not version 2.0 or names no
    method is an invalid request (-32600), an unregistered method is not found
    (-32601), an exception of the handler or an empty handler is an internal error
    with the exception's text (-32603), and otherwise the handler's response is
    returned; the server is left as it was and the mutex is free. *)
Lemma dispatch_ok call (req : JsonRpcRequest) (w : world (RpcServerImpl H) E) :
  leaves_alone call -> held w = [] ->
  process_jsonrpc_request call what req w = Ret (dispatch (methods_ (obj w)) req, w).
Proof.
  intros Hcall Hh. unfold process_jsonrpc_request, dispatch.
  destruct (decide (jsonrpc req = $"2.0")) as [Hv|Hv].
  2:{ rewrite bool_decide_eq_false_2 by done. by rewrite decide_False by naive_solver. }
  rewrite bool_decide_eq_true_2 by done. destruct (rpc_method req) as [|c m] eqn:Hm.
  { rewrite decide_False by naive_solver. done. }
  rewrite decide_True by done. cbn [negb orb nonempty].
  rewrite (eff_bind_run _ _ _ _ _ (has_method_free _ w Hh)).
  destruct (methods_ (obj w) !! (c :: m)) as [h|] eqn:Hl.
  2:{ rewrite bool_decide_eq_false_2 by (by intros []). done. }
  rewrite bool_decide_eq_true_2 by done. cbn [negb].
  erewrite eff_bind_run; [|apply with_lock_free; [done|]].
  2:{ unfold execute_method. rewrite (eff_bind_run get _ _ _ _ eq_refl). cbn [obj]. rewrite Hl.
      instantiate (2 := match h with Some h => run h (params req) | None => inl bad_function_call end).
      destruct h as [h|]; [apply Hcall|done]. }
  cbn [obj ticks log]. rewrite <- Hh. destruct w as [o hd t l]; cbn.
  destruct h as [h|]; [|done]. by destruct (run h (params req)).
Qed.
End Dispatch.

(** ** Documents *)

Section Documents.
Context {J : JsonLib} {laws : JsonLaws J}.

(** A value that members can be assigned to. *)
Definition assignable (j : json) : Prop := forall k v, exists j', json_assign k v j = Ret j'.

Lemma assign_ok k v j :
  assignable j -> exists j', json_assign k v j = Ret j' /\ assignable j'
  /\ forall k', json_at k' j' = if decide (k = k') then Some v else json_at k' j.
Proof.
  intros Ha. destruct (Ha k v) as [j' Hj]. exists j'. split_and!; [done| |].
  - intros k' v'. by eapply assign_assign.
  - intros k'. by apply (at_assign _ v).
Qed.

Lemma assign_opt_ok {A} k (f : A -> json) x j :
  assignable j -> exists j', assign_opt k f x j = Ret j' /\ assignable j'
  /\ forall k', json_at k' j' = match x with Some a => if decide (k = k') then Some (f a) else json_at k' j
                                          | None => json_at k' j end.
Proof. intros Ha. destruct x as [a|]; cbn; [by apply assign_ok|eauto]. Qed.

Lemma null_assignable : assignable json_null.
Proof. intros k v. apply assign_null. Qed.
Lemma object_assignable l : assignable (json_object l).
Proof. intros k v. apply assign_object. Qed.

(** What an [error] member contains. *)
Definition error_document (e : JsonRpcError) (j : json) : Prop :=
  json_at $"code" j = Some (json_number (code e)) /\ json_at $"message" j = Some (json_string (message e))
  /\ json_at $"data" j = data e.

Lemma error_to_json_ok e : exists j, error_to_json e = Ret j /\ error_document e j.
Proof.
  unfold error_to_json, error_document.
  destruct (assign_opt_ok $"data" Datatypes.id (data e) (json_object [($"code", json_number (code e)); ($"message", json_string (message e))]))
    as (j & -> & _ & Hj); [apply object_assignable|].
  exists j. split; [done|]. rewrite !Hj, !at_object. by destruct (data e).
Qed.

(** What a response document contains. *)
Definition response_document (r : JsonRpcResponse) (j : json) : Prop :=
  json_at $"jsonrpc" j = Some (json_string (resp_jsonrpc r)) /\ json_at $"result" j = result r
  /\ json_at $"id" j = json_string <$> resp_id r
  /\ match error r with
     | None => json_at $"error" j = None
     | Some e => exists ej, json_at $"error" j = Some ej /\ error_document e ej
     end.

Lemma response_to_json_ok r : exists j, response_to_json r = Ret j /\ response_document r j.
Proof.
  unfold response_to_json, response_document.
  destruct (assign_ok $"jsonrpc" (json_string (resp_jsonrpc r)) json_null null_assignable) as (j1 & -> & A1 & H1).
  cbn [mbind outcome_bind].
  destruct (assign_opt_ok $"result" Datatypes.id (result r) j1 A1) as (j2 & -> & A2 & H2). cbn [mbind outcome_bind].
  destruct (error r) as [e|].
  - destruct (error_to_json_ok e) as (ej & -> & He). cbn [mbind outcome_bind].
    destruct (assign_ok $"error" ej j2 A2) as (j3 & -> & A3 & H3). cbn [mbind outcome_bind].
    destruct (assign_opt_ok $"id" json_string (resp_id r) j3 A3) as (j4 & -> & _ & H4).
    exists j4. split; [done|]. rewrite !H4. destruct (resp_id r), (result r);
      cbn; rewrite ?H3; cbn; rewrite ?H2; cbn; rewrite ?H1, ?at_null; cbn; eauto 6.
  - cbn [mbind outcome_bind]. destruct (assign_opt_ok $"id" json_string (resp_id r) j2 A2) as (j4 & -> & _ & H4).
    exists j4. split; [done|]. rewrite !H4, !H2. destruct (resp_id r), (result r); cbn; rewrite ?H1, ?at_null; done.
Qed.
End Documents.

Section Requests.
Context {J : JsonLib} {laws : JsonLaws J}.

Lemma request_to_json_ok r :
  exists j, request_to_json r = Ret j
  /\ json_at $"jsonrpc" j = Some (json_string (jsonrpc r)) /\ json_at $"method" j = Some (json_string (rpc_method r))
  /\ json_at $"params" j = Some (params r) /\ json_at $"id" j = json_string <$> id r.
Proof.
  unfold request_to_json.
  destruct (assign_ok $"jsonrpc" (json_string (jsonrpc r)) json_null null_assignable) as (j1 & -> & A1 & H1).
  cbn [mbind outcome_bind]. destruct (assign_ok $"method" (json_string (rpc_method r)) j1 A1) as (j2 & -> & A2 & H2).
  cbn [mbind outcome_bind]. destruct (assign_ok $"params" (params r) j2 A2) as (j3 & -> & A3 & H3).
  cbn [mbind outcome_bind]. destruct (assign_opt_ok $"id" json_string (id r) j3 A3) as (j4 & -> & _ & H4).
  exists j4. split; [done|]. rewrite !H4. destruct (id r); cbn; rewrite ?H3; cbn; rewrite ?H2; cbn; rewrite ?H1, ?at_null; done.
Qed.

(** A request that is written out, sent as text and parsed again is the same
    request, with or without an id, whatever its version, method and parameters:
    for every text that the library writes for the document and parses back to
    it. *)
Theorem rpc_request_roundtrip (r : JsonRpcRequest) :
  exists j, request_to_json r = Ret j
  /\ forall s, json_dump j = Ret s -> json_parse s = Ret j -> from_json s = Ret (Some r).
Proof.
  destruct (request_to_json_ok r) as (j & Hj & H1 & H2 & H3 & H4). exists j. split; [done|].
  intros s _ Hp. unfold from_json, request_id. rewrite Hp. cbn [mbind outcome_bind]. rewrite H1, H2, H3, H4.
  rewrite !get_string_string. cbn [mbind outcome_bind].
  destruct (id r) as [i|] eqn:Hi; cbn [fmap option_fmap option_map].
  - destruct (string_is_string i) as [-> _]. rewrite get_string_string. cbn. by destruct r; cbn in *; subst.
  - cbn. by destruct r; cbn in *; subst.
Qed.

(** A numeric id is not returned as it was sent: the request keeps it as text,
    and the response carries a string that is not a number. *)
Theorem rpc_numeric_id_becomes_string (s v m : cstr) (j : json) (n : Z) :
  json_parse s = Ret j -> json_at $"jsonrpc" j = Some (json_string v) -> json_at $"method" j = Some (json_string m) ->
  json_at $"id" j = Some (json_number n) -> -2147483648 <= n < 2147483648 ->
  exists req, from_json s = Ret (Some req) /\ id req = Some (print_int n)
  /\ forall r, resp_id r = id req -> exists jr ji,
       response_to_json r = Ret jr /\ json_at $"id" jr = Some ji
       /\ json_is_number ji = false /\ json_get_string ji = Ret (print_int n).
Proof.
  intros Hp H1 H2 H3 Hn. eexists. split_and!.
  - unfold from_json, request_id. rewrite Hp. cbn [mbind outcome_bind]. rewrite H1, H2, H3, !get_string_string.
    destruct (number_is_number n) as [-> ->]. rewrite get_int_number by done. reflexivity.
  - done.
  - cbn [id]. intros r Hr. destruct (response_to_json_ok r) as (jr & Hj & _ & _ & Hi & _).
    rewrite Hr in Hi. exists jr, (json_string (print_int n)). split_and!; [done|done| |apply get_string_string].
    by apply string_is_string.
Qed.
End Requests.

(** ** Requests over HTTP *)

Section Serve.
Context {J : JsonLib} {laws : JsonLaws J} {H E : Type} {env : Env}.
Variable run : H -> json -> exn + JsonRpcResponse.
Variable what : exn -> list ascii.

Lemma rpc_reply_ok r : exists j, response_document r j /\ rpc_reply r = (s ← json_dump j; Ret (ok s $"application/json")).
Proof.
  destruct (response_to_json_ok r) as (j & Hj & Hd). exists j. split; [done|]. unfold rpc_reply. by rewrite Hj.
Qed.

(** The response the request asks for, with the id of the request. *)
Definition answer (methods : gmap (list ascii) (option H)) (req : JsonRpcRequest) : JsonRpcResponse :=
  let r := dispatch run what methods req in
  mkJsonRpcResponse (resp_jsonrpc r) (result r) (error r) (match id req with Some i => Some i | None => resp_id r end).

(** C24: A POST whose body is a JSON-RPC request, on a server whose handlers return or
    throw without calling back into it, is answered with status 200, the CORS headers of
    the configuration and the text of a document that holds the version, the result or
    the error (code, message, data) that dispatch gives, and the request's id, as a string
    also when it was a number; when the library throws while writing the document (it does
    on text that is not UTF-8), the exception leaves the handler instead.  The server is left
    as it was. *)
Theorem rpc_request_answered (call : H -> json -> eff (RpcServerImpl H) E (exn + JsonRpcResponse)) (request : HttpRequest)
    (req : JsonRpcRequest) (w : world (RpcServerImpl H) E) :
  leaves_alone run call -> held w = [] -> method request = $"POST" -> from_json (body request) = Ret (Some req) ->
  exists j, response_document (answer (methods_ (obj w)) req) j
  /\ handle_http_request call what request w
     = match json_dump j with
       | Ret s => Ret (inr (add_cors_headers (obj w) (ok s $"application/json")), w)
       | Throw e => Ret (inl e, w)
       | Undefined => Undefined
       end.
Proof.
  intros Hcall Hh Hm Hb. destruct (rpc_reply_ok (answer (methods_ (obj w)) req)) as (j & Hd & Hs).
  exists j. split; [done|]. unfold handle_http_request.
  rewrite Hm, decide_False, decide_False by naive_solver.
  erewrite eff_bind_run by (unfold lift; by rewrite Hb).
  cbn beta iota. erewrite eff_bind_run by (by apply (dispatch_ok run)).
  cbn zeta.
  set (r := match id req with Some _ => _ | None => _ end).
  assert (r = answer (methods_ (obj w)) req) as -> by (unfold r, answer; by destruct (id req), (dispatch run what (methods_ (obj w)) req)).
  unfold mbind at 1, eff_bind at 1, catch_value. rewrite Hs. by destruct (json_dump j).
Qed.

Lemma from_json_zero_bytes n : from_json (replicate (S n) NUL) = Ret None.
Proof. unfold from_json. cbn [replicate]. by destruct (parse_zero_byte (replicate n NUL)) as [e ->]. Qed.

Lemma c_string_id s : no_char NUL s -> c_string s = s.
Proof. intros Hs. unfold c_string. pose proof (break_at_app (Ascii.eqb NUL) s [] Hs I) as B. rewrite app_nil_r in B. by rewrite B. Qed.

Lemma render_has_blank_line m t hs b : contains_sub (CRLF ++ CRLF) (render_request CRLF m t hs b) = true.
Proof.
  unfold render_request. assert (Hb : contains_sub (CRLF ++ CRLF) (CRLF ++ CRLF ++ b) = true)
    by (rewrite app_assoc; apply (contains_sub_mid _ [])).
  destruct hs as [|kv hs _] using rev_ind; [by do 4 apply contains_sub_app|].
  rewrite map_app, concat_app. cbn [map concat]. rewrite app_nil_r, <- !app_assoc. by do 7 apply contains_sub_app.
Qed.

(** The whole path of a request as HTTP clients send it (CRLF line ends, a
    one-line JSON body, Content-Length set): whatever the body asks for and
    whatever methods are registered, the server answers with a parse error
    (-32700), because the body reaches the JSON parser as zero bytes. *)
Theorem rpc_http_request_refused {mem : Memory} {ord : IterOrder} (p : cstr) (qs hs : list (cstr * cstr)) (c : ascii)
    (b : cstr) (rs : list recv_result) (w : world (RpcServerImpl H) E) :
  word p -> no_char "?" p -> Forall query_ok qs -> Forall header_ok hs ->
  c = "{"%char \/ c = "["%char -> no_char NL b -> seven_bit b ->
  header_map hs ∅ !! $"Content-Length" = Some (print_dec (Z.of_nat (length (c :: b)))) ->
  is_u64 (Z.of_nat (length (c :: b))) -> can_allocate (Z.of_nat (length (c :: b))) = true ->
  no_char NUL (render_request CRLF $"POST" (target p qs) hs (c :: b)) ->
  exists j, response_document (error_response (parse_error $"Parse error")) j
  /\ forall s, json_dump j = Ret s ->
       handle_connection (Some (handle_http_request (pure_call run) what))
         (Received (render_request CRLF $"POST" (target p qs) hs (c :: b)) :: rs) w
       = Ret (Closed (Some (format_http_response (ok s $"application/json"))), w).
Proof.
  intros Hp Hq Hqs Hhs Hc Hnl H7 Hcl Hu Ha Hnul.
  destruct (rpc_reply_ok (error_response (parse_error $"Parse error"))) as (j & Hd & Hs).
  exists j. split; [done|]. intros s Hdump. rewrite Hdump in Hs. cbn [mbind outcome_bind] in Hs.
  destruct (crlf_body_lost p qs hs c b) as (r & Hr & Hm & _ & _ & Hb); try done.
  assert (Hh : handle_http_request (pure_call run) what r w = Ret (inr (ok s $"application/json"), w)).
  { unfold handle_http_request. rewrite Hm, decide_False, decide_False by naive_solver.
    rewrite Hb. cbn [length]. erewrite eff_bind_run by (unfold lift; by rewrite from_json_zero_bytes).
    unfold catch_value. by rewrite Hs. }
  unfold handle_connection. cbn [recv_loop app]. rewrite c_string_id, render_has_blank_line, Hr by done.
  by rewrite (eff_bind_run _ _ _ _ _ Hh).
Qed.
End Serve.

(** ** Handlers that call back, and concurrent changes *)

Section Reentrant.
Context {J : JsonLib} {H E : Type} {env : Env}.
Variable call : H -> json -> eff (RpcServerImpl H) E (exn + JsonRpcResponse).
Variable what : exn -> list ascii.

(** The handler runs while [methods_mutex_] is held: a request for a registered
    method whose handler asks the server for any method locks the mutex again,
    which the standard leaves undefined. *)
Theorem rpc_handler_relocks (req : JsonRpcRequest) h m k (w : world (RpcServerImpl H) E) :
  on_relock = relock_undefined -> held w = [] ->
  jsonrpc req = $"2.0" -> rpc_method req <> [] ->
  methods_ (obj w) !! rpc_method req = Some (Some h) -> call h (params req) = (has_method m ≫= k) ->
  process_jsonrpc_request call what req w = Undefined.
Proof.
  intros Hp Hh Hv Hm Hl Hc. unfold process_jsonrpc_request. rewrite Hv.
  rewrite bool_decide_eq_true_2 by done. destruct (rpc_method req) as [|c n] eqn:Em; [done|]. cbn [negb orb nonempty].
  rewrite (eff_bind_run _ _ _ _ _ (has_method_free _ w Hh)), Hl.
  rewrite bool_decide_eq_true_2 by done. cbn [negb].
  unfold mbind at 1, eff_bind at 1, with_lock at 1. rewrite Hh.
  unfold execute_method. rewrite (eff_bind_run get _ _ _ _ eq_refl). cbn [obj]. rewrite Hl, Hc.
  unfold mbind, eff_bind, has_method, with_lock. cbn [held]. by rewrite Hp.
Qed.

(** The two locked sections of dispatch with [unregister_method] between them, as a
    second thread may schedule it: the method is put back, empty, and stays
    registered. *)
Lemma unregister_race m h p (w : world (RpcServerImpl H) E) :
  held w = [] -> methods_ (obj w) !! m = Some (Some h) ->
  exists w', (found ← has_method m;
              unregister_method m;;
              with_lock Exclusive (execute_method call m p)) w = Ret (inl bad_function_call, w')
  /\ held w' = [] /\ has_method m w' = Ret (true, w').
Proof.
  intros Hh Hl. rewrite (eff_bind_run _ _ _ _ _ (has_method_free _ w Hh)).
  assert (Hu : unregister_method m w = Ret (tt, mkWorld (set_methods (delete m) (obj w)) [] (ticks w) (log w))).
  { unfold unregister_method. by erewrite with_lock_free; [|done|reflexivity]. }
  rewrite (eff_bind_run _ _ _ _ _ Hu). eexists. split_and!.
  - apply with_lock_free; [done|]. unfold execute_method. rewrite (eff_bind_run get _ _ _ _ eq_refl).
    cbn [obj set_methods methods_]. rewrite lookup_delete_eq. reflexivity.
  - done.
  - rewrite has_method_free by done. cbn [obj set_methods methods_]. by rewrite lookup_insert_eq.
Qed.
End Reentrant.

(** ** Witnesses *)

Definition ping_doc : jval := JObj [($"jsonrpc", JStr $"2.0"); ($"method", JStr $"ping"); ($"id", JNum 7)].
Definition ping_request (docs : list (cstr * jval)) : JsonRpcRequest := mkJsonRpcRequest (J := table_json docs) $"2.0" $"ping" JNull (Some $"7").
Definition sample_docs : list (cstr * jval) := [($"ping", ping_doc)].
Definition sample_server : RpcServerImpl Z :=
  mkRpcServerImpl default_RpcServerConfig None {[ $"ping" := Some 0 ]}.
Definition sample_run (h : Z) (p : json (JsonLib := table_json sample_docs)) : exn + JsonRpcResponse :=
  inr (result_response (J := table_json sample_docs) (JNum h)).

Lemma rpc_numeric_id_becomes_string_witness :
  exists req, from_json (J := table_json sample_docs) $"ping" = Ret (Some req) /\ id req = Some $"7".
Proof.
  destruct (rpc_numeric_id_becomes_string (J := table_json sample_docs) $"ping" $"2.0" $"ping" ping_doc 7)
    as (req & H1 & H2 & _); [done..|lia|]. by exists req.
Defined.

Lemma rpc_request_answered_witness :
  exists j, response_document (J := table_json sample_docs) (mkJsonRpcResponse (J := table_json sample_docs) $"2.0" (Some (JNum 0)) None (Some $"7")) j.
Proof.
  destruct (rpc_request_answered (J := table_json sample_docs) (E := ()) (env := std_env (fun _ => 0)) sample_run (fun _ => $"error") (pure_call sample_run)
    (mkHttpRequest $"POST" $"/" $"ping" ∅ ∅) (ping_request sample_docs) (idle sample_server)) as (j & Hj & _); [done..|]. by exists j.
Defined.

Lemma rpc_handler_relocks_witness :
  process_jsonrpc_request (J := table_json []) (E := ()) (env := std_env (fun _ => 0))
    (fun (h : Z) _ => has_method (env := std_env (fun _ => 0)) $"ping" ≫= (fun b => mret (inl bad_alloc))) (fun _ => []) (ping_request [])
    (idle (mkRpcServerImpl default_RpcServerConfig None {[ $"ping" := Some 0 ]})) = Undefined.
Proof. by eapply (rpc_handler_relocks (J := table_json []) (env := std_env (fun _ => 0))). Defined.

Lemma rpc_http_request_refused_witness :
  exists j, response_document (J := table_json sample_docs) (error_response (parse_error $"Parse error")) j
  /\ forall s, json_dump (JsonLib := table_json sample_docs) j = Ret s ->
     handle_connection (mem := small_memory) (ord := map_order)
       (Some (handle_http_request (J := table_json sample_docs) (E := ()) (env := std_env (fun _ => 0))
          (pure_call sample_run) (fun _ => [])))
       [Received (render_request CRLF $"POST" (target $"/rpc" []) (sample_headers 4) $"[12]")] (idle sample_server)
     = Ret (Closed (Some (format_http_response (ord := map_order) (ok s $"application/json"))), idle sample_server).
Proof.
  apply (rpc_http_request_refused (J := table_json sample_docs) (env := std_env (fun _ => 0)) sample_run (fun _ => [])
    (mem := small_memory) (ord := map_order) $"/rpc" [] (sample_headers 4) "[" $"12]" [] (idle sample_server));
    [decide_now|decide_now|decide_now|decide_now|by right|decide_now..].
Defined.

Definition ping_written : jval :=
  JObj [($"id", JStr $"7"); ($"params", JNull); ($"method", JStr $"ping"); ($"jsonrpc", JStr $"2.0")].
Definition written_docs : list (cstr * jval) := [(jtext ping_written, ping_written)].

Lemma rpc_request_roundtrip_witness :
  exists s, from_json (J := table_json written_docs) s = Ret (Some (ping_request written_docs)).
Proof.
  destruct (rpc_request_roundtrip (J := table_json written_docs) (ping_request written_docs)) as (j & Hj & H).
  exists (jtext ping_written). injection Hj as <-. apply H; reflexivity.
Defined.
