(* ===== verification/RpcMethods.v ===== *)
(** * RpcMethods: the Ethereum-style methods

    rpc/src/blockchain_rpc_methods.cpp: the methods of [BlockchainRpcMethodsImpl]
    over its mock tables.  A method takes the [params] value of a request and
    returns a response or throws what the JSON library throws; the clock that
    [create_mock_block] reads is the argument [now]. *)

From stdpp Require Import base list gmap numbers strings.
From Stdlib Require Import ZArith Lia Ascii.
From S2P Require Import Prelude CString Effects Streams HttpServer HttpProps Json JsonTable RpcServer RpcProps.

Definition zeros (n : nat) : cstr := replicate n "0"%char.
Definition ZERO_HASH : cstr := $"0x" ++ zeros 64.
Definition LOGS_BLOOM : cstr := $"0x" ++ zeros 512.

Definition number_to_hex (number : Z) : cstr := $"0x" ++ print_hex number.

Definition hex_to_number (hex : cstr) : outcome Z :=
  if Nat.ltb (length hex) 3 || negb (bool_decide (take 2 hex = $"0x")) then Ret 0
  else try_catch (stoull 16 (drop 2 hex)) (fun _ => Ret 0).

(** [find_first_not_of("0123456789abcdefABCDEF", 2) == npos]. *)
Definition is_hex_char (c : ascii) : bool := match is_digit_in 16 c with Some _ => true | None => false end.

Definition is_valid_hex (hex : cstr) (expected_length : nat) : bool :=
  if Nat.ltb 0 expected_length && negb (Nat.eqb (length hex) (expected_length + 2)) then false
  else if Nat.ltb (length hex) 3 || negb (bool_decide (take 2 hex = $"0x")) then false
  else forallb is_hex_char (drop 2 hex).

Section Methods.
Context {J : JsonLib}.

Record BlockchainRpcMethodsImpl : Type := mkBlockchainRpcMethodsImpl {
  chain_id_ : Z;
  network_version_ : cstr;
  mock_blocks_ : gmap (list ascii) json;
  mock_transactions_ : gmap (list ascii) json;
  mock_balances_ : gmap (list ascii) (list ascii)
}.

Definition str (s : cstr) : json := json_string s.

Definition create_mock_block (now number : Z) (hash : cstr) : json :=
  json_object [
    ($"number", str (number_to_hex number));
    ($"hash", str hash);
    ($"parentHash", str ZERO_HASH);
    ($"nonce", str $"0x0000000000000000");
    ($"sha3Uncles", str $"0x1dcc4de8dec75d7aab85b567b6ccd41ad312451b948a7413f0a142fd40d49347");
    ($"logsBloom", str LOGS_BLOOM);
    ($"transactionsRoot", str $"0x56e81f171bcc55a6ff8345e692c0f86e5b48e01b996cadc001622fb5e363b421");
    ($"stateRoot", str ZERO_HASH);
    ($"receiptsRoot", str $"0x56e81f171bcc55a6ff8345e692c0f86e5b48e01b996cadc001622fb5e363b421");
    ($"miner", str ($"0x" ++ zeros 40));
    ($"difficulty", str $"0x0");
    ($"totalDifficulty", str $"0x0");
    ($"extraData", str $"0x");
    ($"size", str $"0x3e8");
    ($"gasLimit", str $"0x6691b7");
    ($"gasUsed", str $"0x0");
    ($"timestamp", str (number_to_hex (u64 now)));
    ($"transactions", json_array);
    ($"uncles", json_array) ].

Definition create_mock_transaction (hash : cstr) : json :=
  json_object [
    ($"hash", str hash);
    ($"nonce", str $"0x0");
    ($"blockHash", str ZERO_HASH);
    ($"blockNumber", str $"0x0");
    ($"transactionIndex", str $"0x0");
    ($"from", str $"0x742d35cc6634c0532925a3b844bc454e4438f44e");
    ($"to", str $"0x742d35cc6634c0532925a3b844bc454e4438f44f");
    ($"value", str $"0xde0b6b3a7640000");
    ($"gasPrice", str $"0x3b9aca00");
    ($"gas", str $"0x15f90");
    ($"input", str $"0x");
    ($"v", str $"0x1c");
    ($"r", str $"0x1c");
    ($"s", str $"0x1c") ].

(** The constructor. *)
Definition BlockchainRpcMethodsImpl_default (now : Z) : BlockchainRpcMethodsImpl :=
  mkBlockchainRpcMethodsImpl 1 $"1"
    {[ ZERO_HASH := create_mock_block now 0 ZERO_HASH ]}
    ∅
    (<[ $"0x742d35cc6634c0532925a3b844bc454e4438f44f" := $"0x500000000000000000" ]>
      {[ $"0x742d35cc6634c0532925a3b844bc454e4438f44e" := $"0x1000000000000000000" ]}).

(** [if (params.empty() || !params[0].is_string()) return invalid_params(required)],
    the guard of most methods; what follows gets [params[0]]. *)
Definition with_first_string (p : json) (required : cstr) (f : json -> outcome JsonRpcResponse) : outcome JsonRpcResponse :=
  if json_empty p then Ret (error_response (invalid_params required))
  else
    p0 ← json_elem 0 p;
    if json_is_string p0 then f p0 else Ret (error_response (invalid_params required)).

Definition eth_getBlockByHash (self : BlockchainRpcMethodsImpl) (p : json) : outcome JsonRpcResponse :=
  with_first_string p $"Block hash required" (fun p0 =>
    block_hash ← json_get_string p0;
    include_transactions ← (if Nat.ltb 1 (json_size p) then p1 ← json_elem 1 p; json_get_bool p1 else Ret false);
    match mock_blocks_ self !! block_hash with
    | None => Ret (result_response json_null)
    | Some b => Ret (result_response b)
    end).

(** The number a block selector denotes. *)
Definition block_selector (s : cstr) : outcome Z :=
  if decide (s = $"latest") then Ret 0
  else if decide (s = $"earliest") then Ret 0
  else if decide (s = $"pending") then Ret 1
  else hex_to_number s.

Definition eth_getBlockByNumber (now : Z) (p : json) : outcome JsonRpcResponse :=
  if json_empty p then Ret (error_response (invalid_params $"Block number required"))
  else
    p0 ← json_elem 0 p;
    if json_is_string p0 then
      s ← json_get_string p0;
      block_number ← block_selector s;
      Ret (result_response (create_mock_block now block_number ZERO_HASH))
    else if json_is_number p0 then
      block_number ← json_get_u64 p0;
      Ret (result_response (create_mock_block now block_number ZERO_HASH))
    else Ret (error_response (invalid_params $"Invalid block number format")).

Definition eth_blockNumber (p : json) : outcome JsonRpcResponse := Ret (result_response (str (number_to_hex 0))).

Definition eth_getTransactionByHash (self : BlockchainRpcMethodsImpl) (p : json) : outcome JsonRpcResponse :=
  with_first_string p $"Transaction hash required" (fun p0 =>
    tx_hash ← json_get_string p0;
    match mock_transactions_ self !! tx_hash with
    | None => Ret (result_response json_null)
    | Some t => Ret (result_response t)
    end).

Definition receipt (tx_hash : json) : json :=
  json_object [
    ($"transactionHash", tx_hash);
    ($"transactionIndex", str $"0x0");
    ($"blockHash", str ZERO_HASH);
    ($"blockNumber", str $"0x0");
    ($"from", str $"0x742d35cc6634c0532925a3b844bc454e4438f44e");
    ($"to", str $"0x742d35cc6634c0532925a3b844bc454e4438f44f");
    ($"cumulativeGasUsed", str $"0x5208");
    ($"gasUsed", str $"0x5208");
    ($"contractAddress", json_null);
    ($"logs", json_array);
    ($"logsBloom", str LOGS_BLOOM);
    ($"status", str $"0x1") ].

Definition eth_getTransactionReceipt (p : json) : outcome JsonRpcResponse :=
  with_first_string p $"Transaction hash required" (fun p0 => Ret (result_response (receipt p0))).

Definition eth_sendRawTransaction (p : json) : outcome JsonRpcResponse :=
  with_first_string p $"Raw transaction data required" (fun _ => Ret (result_response (str ($"0x" ++ zeros 64)))).

Definition eth_getBalance (self : BlockchainRpcMethodsImpl) (p : json) : outcome JsonRpcResponse :=
  with_first_string p $"Account address required" (fun p0 =>
    address ← json_get_string p0;
    Ret (result_response (str (default $"0x0" (mock_balances_ self !! address))))).

Definition eth_getTransactionCount (p : json) : outcome JsonRpcResponse :=
  with_first_string p $"Account address required" (fun _ => Ret (result_response (str $"0x0"))).

Definition net_version (self : BlockchainRpcMethodsImpl) (p : json) : outcome JsonRpcResponse :=
  Ret (result_response (str (network_version_ self))).
Definition eth_chainId (self : BlockchainRpcMethodsImpl) (p : json) : outcome JsonRpcResponse :=
  Ret (result_response (str (number_to_hex (chain_id_ self)))).
Definition eth_gasPrice (p : json) : outcome JsonRpcResponse := Ret (result_response (str $"0x3b9aca00")).
Definition web3_clientVersion (p : json) : outcome JsonRpcResponse := Ret (result_response (str $"ChainForge/v0.1.0")).
End Methods.

(** ** Numbers *)

Lemma is_hex_char_digit d : 0 <= d < 16 -> is_hex_char (digit_char d) = true.
Proof.
  intros Hd. unfold is_hex_char, is_digit_in. rewrite digit_of_char by done.
  by destruct (Z.ltb_spec d 16); [|lia].
Qed.

Lemma is_valid_hex_prefix s : is_valid_hex ($"0x" ++ s) 0 = nonempty s && forallb is_hex_char s.
Proof. by destruct s as [|c s]. Qed.

Lemma hex_to_number_prefix s :
  hex_to_number ($"0x" ++ s) = if nonempty s then try_catch (stoull 16 s) (fun _ => Ret 0) else Ret 0.
Proof. by destruct s as [|c s]. Qed.

(** A valid number has the prefix. *)
Lemma is_valid_hex_inv s n : is_valid_hex s n = true -> exists t, s = $"0x" ++ t /\ is_valid_hex ($"0x" ++ t) 0 = true.
Proof.
  unfold is_valid_hex at 1. destruct (_ && _); [done|]. destruct (Nat.ltb (length s) 3) eqn:Hl; [done|].
  destruct (bool_decide (take 2 s = $"0x")) eqn:E; [|done]. apply bool_decide_eq_true in E. cbn [orb negb].
  intros Hf. exists (drop 2 s). rewrite <- E, take_drop. split; [done|].
  rewrite <- (take_drop 2 s), E, is_valid_hex_prefix, Hf, andb_true_r.
  apply Nat.ltb_ge in Hl. destruct (drop 2 s) eqn:D; [|done].
  apply (f_equal length) in D. rewrite length_drop in D. cbn in D. lia.
Qed.

(** The digits of a text of hexadecimal characters. *)
Definition hex_digits (s : cstr) : list Z := omap (is_digit_in 16) s.

Lemma lead_digits_hex s : forallb is_hex_char s = true -> lead_digits 16 s = hex_digits s.
Proof.
  induction s as [|c s IH]; cbn; [done|]. unfold is_hex_char at 1. intros H. apply andb_true_iff in H as [Hc Hs].
  unfold hex_digits. cbn. destruct (is_digit_in 16 c); [|done]. by rewrite IH.
Qed.

(** A hexadecimal character is no white space, no sign and no x: all 256 are checked. *)
Lemma hex_char_facts c : is_hex_char c = true ->
  is_space c = false /\ c <> "-"%char /\ c <> "+"%char /\ char_code c <> 120 /\ char_code c <> 88.
Proof.
  intros Hc. rewrite <- (char_of_code c) in *. revert Hc. generalize (char_code_range c). generalize (char_code c).
  intros z Hz. assert (H : bool_decide (is_hex_char (char_of z) = true -> is_space (char_of z) = false
    /\ char_of z <> "-"%char /\ char_of z <> "+"%char /\ char_code (char_of z) <> 120 /\ char_code (char_of z) <> 88) = true).
  { revert z Hz. apply (forallb_seqZ _ 256). vm_compute. done. }
  by apply bool_decide_eq_true in H.
Qed.

Lemma strto_hex s : s <> [] -> forallb is_hex_char s = true -> strto 16 s = Some (false, digits_value 16 (hex_digits s)).
Proof.
  intros Hne Hs. pose proof (lead_digits_hex s Hs) as Hl. unfold strto.
  destruct s as [|c s]; [done|]. cbn in Hs. apply andb_true_iff in Hs as [Hc Hs].
  destruct (hex_char_facts c Hc) as (H1 & H2 & H3 & _). cbn [skip_space]. rewrite H1, take_sign_other by done.
  assert (skip_prefix 16 (c :: s) = c :: s) as ->.
  { unfold skip_prefix. destruct s as [|x [|y s]]; try done. cbn in Hs. apply andb_true_iff in Hs as [Hx _].
    destruct (hex_char_facts x Hx) as (_ & _ & _ & Hx1 & Hx2).
    apply Z.eqb_neq in Hx1 as ->, Hx2 as ->. by rewrite andb_false_r. }
  rewrite Hl. unfold is_hex_char in Hc. cbn. by destruct (is_digit_in 16 c).
Qed.

Lemma rpc_number_ok n : is_u64 n -> is_valid_hex (number_to_hex n) 0 = true /\ hex_to_number (number_to_hex n) = Ret n.
Proof.
  intros Hn. unfold number_to_hex. rewrite is_valid_hex_prefix, hex_to_number_prefix.
  unfold is_u64 in Hn. assert (Hne : nonempty (print_hex n) = true).
  { unfold print_hex. pose proof (to_digits_nonempty 16 n). by destruct (to_digits 16 n). }
  rewrite Hne, stoull_print_hex by done. cbn [andb try_catch]. split; [|done].
  rewrite forallb_forall. intros c (d & <- & Hd)%in_map_iff. apply is_hex_char_digit.
  pose proof (to_digits_range 16 n ltac:(lia) ltac:(lia)) as Hr. rewrite Forall_forall in Hr. by apply Hr, list_elem_of_In.
Qed.

(** Numbers on the wire: every 64-bit number is printed as valid hexadecimal and
    read back; every valid text is read as its value if that fits in 64 bits, and
    as zero, without an error, if it does not; a text without the prefix is zero;
    and reading never throws. *)
Theorem rpc_number_roundtrip :
  (forall n, is_u64 n -> is_valid_hex (number_to_hex n) 0 = true /\ hex_to_number (number_to_hex n) = Ret n)
  /\ (forall s n, is_valid_hex s n = true ->
       hex_to_number s = Ret (let v := digits_value 16 (hex_digits (drop 2 s)) in if v <=? U64_MAX then v else 0))
  /\ (forall s, take 2 s <> $"0x" -> hex_to_number s = Ret 0)
  /\ (forall s, exists v, hex_to_number s = Ret v /\ is_u64 v).
Proof.
  split_and!.
  - apply rpc_number_ok.
  - intros s n (t & -> & Hv)%is_valid_hex_inv. rewrite is_valid_hex_prefix in Hv. apply andb_true_iff in Hv as [Hne Hh].
    rewrite hex_to_number_prefix, Hne. change (drop 2 ($"0x" ++ t)) with t.
    unfold stoull. rewrite strto_hex by (by destruct t). cbn zeta. by destruct (_ <=? _).
  - intros s Hs. unfold hex_to_number. rewrite bool_decide_eq_false_2 by done. by rewrite orb_true_r.
  - intros s. unfold hex_to_number. destruct (_ || _); [by exists 0|]. unfold stoull.
    destruct (strto 16 (drop 2 s)) as [[neg v]|] eqn:E; cbn; [|by exists 0].
    destruct (Z.leb_spec v U64_MAX); cbn; [|by exists 0]. eexists; split; [done|].
    destruct neg; [apply u64_range|]. apply strto_nonneg in E; [|done]. unfold is_u64. lia.
Qed.

(** ** The methods *)

Section MethodProps.
Context {J : JsonLib} {laws : JsonLaws J}.

Lemma bind_defined {A B} (m : outcome A) (f : A -> outcome B) :
  m <> Undefined -> (forall a, f a <> Undefined) -> (m ≫= f) <> Undefined.
Proof. intros Hm Hf. destruct m; cbn; [apply Hf|done|done]. Qed.

Lemma guard_defined p required f :
  (forall p0, f p0 <> Undefined) -> with_first_string p required f <> Undefined.
Proof.
  intros Hf. unfold with_first_string. destruct (json_empty p) eqn:E; [done|].
  apply bind_defined; [by apply elem_defined, nonempty_size|]. intros p0. by destruct (json_is_string p0).
Qed.

Lemma selector_returns s : exists n, block_selector s = Ret n.
Proof.
  unfold block_selector. repeat case_decide; eauto. unfold hex_to_number. destruct (_ || _); [eauto|].
  unfold stoull. repeat case_match; cbn; eauto.
Qed.

(** No parameters a client sends make a method read outside them: every method
    either returns a response or throws an exception, which dispatch turns into an
    internal error; only a numeric block selector depends on what the library does
    with numbers out of range. *)
Theorem rpc_methods_defined (self : BlockchainRpcMethodsImpl) (now : Z) (p : json) :
  Forall (fun m => m p <> Undefined)
    [eth_getBlockByHash self; eth_blockNumber; eth_getTransactionByHash self; eth_getTransactionReceipt;
     eth_sendRawTransaction; eth_getBalance self; eth_getTransactionCount; net_version self; eth_chainId self;
     eth_gasPrice; web3_clientVersion]
  /\ ((forall j, json_get_u64 j <> Undefined) -> eth_getBlockByNumber now p <> Undefined).
Proof.
  split.
  - assert (Hget : forall required (f : cstr -> outcome JsonRpcResponse), (forall s, f s <> Undefined) ->
      with_first_string p required (fun p0 => s ← json_get_string p0; f s) <> Undefined).
    { intros required f Hf. apply guard_defined. intros p0. apply bind_defined; [apply get_string_defined|done]. }
    repeat apply Forall_cons_2; try done; try (by apply guard_defined);
      apply Hget; intros s; try done; try (by destruct (_ !! s)).
    apply bind_defined; [|intros b; by destruct (_ !! s)]. destruct (Nat.ltb 1 (json_size p)) eqn:E; [|done].
    apply Nat.ltb_lt in E. apply bind_defined; [by apply elem_defined|]. intros. apply get_bool_defined.
  - intros Hn. unfold eth_getBlockByNumber. destruct (json_empty p) eqn:E; [done|].
    apply bind_defined; [by apply elem_defined, nonempty_size|]. intros p0.
    destruct (json_is_string p0).
    + apply bind_defined; [apply get_string_defined|]. intros s. by destruct (selector_returns s) as [n ->].
    + destruct (json_is_number p0); [|done]. by apply bind_defined.
Qed.

(** The two ways to ask for a block disagree: asked by number, every number (and
    every text that is no number) gives a block with the all-zero hash, and asked by
    that hash the answer is block zero. *)
Lemma blocks_disagree (now n : Z) (p q : json) :
  json_empty p = false -> json_elem 0 p = Ret (json_string (number_to_hex n)) -> 0 < n < U64_MOD ->
  json_empty q = false -> json_elem 0 q = Ret (json_string ZERO_HASH) -> json_size q = 1%nat ->
  exists b b', eth_getBlockByNumber now p = Ret (result_response b)
  /\ eth_getBlockByHash (BlockchainRpcMethodsImpl_default now) q = Ret (result_response b')
  /\ json_at $"hash" b = json_at $"hash" b'
  /\ json_at $"number" b = Some (json_string (number_to_hex n))
  /\ json_at $"number" b' = Some (json_string (number_to_hex 0)).
Proof.
  intros Hp Hp0 Hn Hq Hq0 Hs.
  exists (create_mock_block now n ZERO_HASH), (create_mock_block now 0 ZERO_HASH). split_and!.
  - unfold eth_getBlockByNumber. rewrite Hp, Hp0. cbn [mbind outcome_bind].
    destruct (string_is_string (number_to_hex n)) as [-> _]. rewrite get_string_string. cbn [mbind outcome_bind].
    unfold block_selector. rewrite !decide_False by done.
    destruct (rpc_number_ok n) as [_ ->]; [unfold is_u64; lia|]. done.
  - unfold eth_getBlockByHash, with_first_string. rewrite Hq, Hq0. cbn [mbind outcome_bind].
    destruct (string_is_string ZERO_HASH) as [-> _]. rewrite get_string_string, Hs. cbn [mbind outcome_bind].
    change (Nat.ltb 1 1) with false. cbn [mbind outcome_bind BlockchainRpcMethodsImpl_default mock_blocks_].
    by rewrite lookup_singleton_eq.
  - unfold create_mock_block. by rewrite !at_object.
  - unfold create_mock_block. by rewrite at_object.
  - unfold create_mock_block. by rewrite at_object.
Qed.

(** The balance documented as one coin is 2^72 wei, which no 64-bit number holds. *)
Lemma mock_balance_value :
  exists s, mock_balances_ (BlockchainRpcMethodsImpl_default 0) !! $"0x742d35cc6634c0532925a3b844bc454e4438f44e" = Some s
  /\ digits_value 16 (hex_digits (drop 2 s)) = 2 ^ 72 /\ hex_to_number s = Ret 0.
Proof.
  exists $"0x1000000000000000000". split_and!; [|by vm_compute|by vm_compute].
  unfold BlockchainRpcMethodsImpl_default, mock_balances_. rewrite lookup_insert_ne by done. by rewrite lookup_singleton_eq.
Qed.
End MethodProps.

Lemma rpc_methods_defined_witness :
  eth_getBalance (J := table_json []) (BlockchainRpcMethodsImpl_default 0) (JArr []) <> Undefined
  /\ eth_getBlockByNumber (J := table_json []) 0 (JArr [JNum 7]) <> Undefined.
Proof.
  split.
  - destruct (rpc_methods_defined (J := table_json []) (BlockchainRpcMethodsImpl_default 0) 0 (JArr [])) as [H _].
    rewrite Forall_forall in H. apply (H (eth_getBalance (BlockchainRpcMethodsImpl_default 0))). by do 5 right; left.
  - apply (rpc_methods_defined (J := table_json []) (BlockchainRpcMethodsImpl_default 0) 0 (JArr [JNum 7])). by intros [].
Defined.
