(* ===== verification/LogConfig.v ===== *)
(** * LogConfig: the configuration of the logging module

    logging/src/config_loader.cpp with [LogLevel] and [LogConfig] of the headers:
    level names, sizes with units, the home-made YAML reader and the reading of a
    JSON document into a [LogConfig].

    The YAML reader writes its result through pointers into the JSON document: a
    pointer is the path of keys from the root, and the reader is first a function
    from lines to assignments ([yaml_assigns]), then those assignments are made on a
    document of the JSON library. *)

From stdpp Require Import base list numbers strings.
From Stdlib Require Import ZArith Lia Ascii.
From Stdlib Require String.
From S2P Require Import Prelude CString Floats Streams Strtod Json JsonTable.

Inductive LogLevel : Type := TRACE | DEBUG | INFO | WARN | ERROR | CRITICAL | OFF.

#[export] Instance LogLevel_eq_dec : EqDecision LogLevel.
Proof. solve_decision. Defined.

Definition level_value (l : LogLevel) : Z :=
  match l with TRACE => 0 | DEBUG => 1 | INFO => 2 | WARN => 3 | ERROR => 4 | CRITICAL => 5 | OFF => 6 end.

Definition parse_log_level (level_str : cstr) : outcome LogLevel :=
  level_lower ← tolower level_str;
  Ret (if bool_decide (level_lower = $"trace") then TRACE
       else if bool_decide (level_lower = $"debug") then DEBUG
       else if bool_decide (level_lower = $"info") then INFO
       else if bool_decide (level_lower = $"warn" \/ level_lower = $"warning") then WARN
       else if bool_decide (level_lower = $"error") then ERROR
       else if bool_decide (level_lower = $"critical" \/ level_lower = $"fatal") then CRITICAL
       else if bool_decide (level_lower = $"off" \/ level_lower = $"none") then OFF
       else INFO).

(** ** Sizes *)

Definition is_digit (c : ascii) : bool := let z := char_code c in (48 <=? z) && (z <=? 57).

(** The match of [(\d+(?:\.\d+)?)\s*(B|KB|MB|GB|TB)?] against the whole text, without
    regard to case: the two groups. *)
Definition match_size (s : cstr) : option (cstr * cstr) :=
  let '(whole, rest) := break_at (fun c => negb (is_digit c)) s in
  let '(number, rest) :=
    match rest with
    | "."%char :: rest' =>
        let '(frac, rest'') := break_at (fun c => negb (is_digit c)) rest' in
        match frac with [] => (whole, rest) | _ => (whole ++ "."%char :: frac, rest'') end
    | _ => (whole, rest)
    end in
  let unit := skip_space rest in
  match whole with
  | [] => None
  | _ => if bool_decide (map upper_char unit ∈ [[]; $"B"; $"KB"; $"MB"; $"GB"; $"TB"]) then Some (number, unit) else None
  end.

Definition unit_multiplier (unit : cstr) : Z :=
  if bool_decide (unit = $"KB") then 1024
  else if bool_decide (unit = $"MB") then 1024 * 1024
  else if bool_decide (unit = $"GB") then 1024 * 1024 * 1024
  else if bool_decide (unit = $"TB") then 1024 * 1024 * 1024 * 1024
  else 1.

Definition parse_size_string (size_str : cstr) : outcome Z :=
  match match_size size_str with
  | None => Throw (invalid_argument (String.append "Invalid size format: " (String.string_of_list_ascii size_str)))
  | Some (number, unit) =>
      value ← stod number;
      unit ← toupper unit;
      d_to_u64 (dmul value (d_of_Z (unit_multiplier unit)))
  end.

(** ** YAML *)

Inductive yaml_value : Type :=
  | YObject
  | YString (s : cstr)
  | YBool (b : bool)
  | YNull
  | YInt (z : Z)
  | YDouble (d : double).

Definition blank (c : ascii) : bool := Ascii.eqb c " " || Ascii.eqb c "009".
(** [s.substr(s.find_first_not_of(" \t"))] and [s.erase(s.find_last_not_of(" \t") + 1)]. *)
Fixpoint drop_blanks (s : cstr) : cstr :=
  match s with c :: s' => if blank c then drop_blanks s' else s | [] => [] end.
Definition trim_blanks (s : cstr) : cstr := rev (drop_blanks (rev (drop_blanks s))).

Definition skipped_line (line : cstr) : bool := forallb (fun c => blank c || Ascii.eqb c "#") line.

Fixpoint indentation (line : cstr) : Z :=
  match line with " "%char :: line' => 1 + indentation line' | _ => 0 end.

Definition quote_char (c : ascii) : bool := Ascii.eqb c "034" || Ascii.eqb c "039".

(** The value after the colon, not empty. *)
Definition yaml_scalar (value : cstr) : yaml_value :=
  let front := default " "%char (head value) in
  if quote_char front && bool_decide (last value = Some front) then YString (take (length value - 2) (drop 1 value))
  else if bool_decide (value = $"true") then YBool true
  else if bool_decide (value = $"false") then YBool false
  else if bool_decide (value = $"null") then YNull
  else match find_char "." value with
       | Some _ => match stod value with Ret d => YDouble d | _ => YString value end
       | None => match stoll 10 value with Ret z => YInt z | _ => YString value end
       end.

(** [current_object] and the two stacks, which grow and shrink together; a path
    lists the keys from the root. *)
Record yaml_state : Type := mkYaml { current : list cstr; opened : list (list cstr * Z) }.
Definition yaml_init : yaml_state := mkYaml [] [].

Fixpoint close_objects (indent : Z) (cur : list cstr) (stack : list (list cstr * Z)) : yaml_state :=
  match stack with
  | (p, i) :: stack' =>
      if indent <=? i then close_objects indent (match stack' with (p', _) :: _ => p' | [] => [] end) stack'
      else mkYaml cur stack
  | [] => mkYaml cur stack
  end.

Definition yaml_line (line : cstr) (st : yaml_state) : option (list cstr * yaml_value) * yaml_state :=
  if skipped_line line then (None, st)
  else
    let indent := indentation line in
    let st := close_objects indent (current st) (opened st) in
    let line := drop_blanks line in
    match find_char ":" line with
    | None => (None, st)
    | Some colon_pos =>
        let key := trim_blanks (take colon_pos line) in
        let value := trim_blanks (drop (S colon_pos) line) in
        let path := current st ++ [key] in
        match value with
        | [] => (Some (path, YObject), mkYaml path ((current st, indent) :: opened st))
        | _ => (Some (path, yaml_scalar value), st)
        end
    end.

Fixpoint yaml_assigns (lines : list cstr) (st : yaml_state) : list (list cstr * yaml_value) :=
  match lines with
  | [] => []
  | line :: lines' =>
      let '(a, st) := yaml_line line st in
      match a with Some a => [a] | None => [] end ++ yaml_assigns lines' st
  end.

Section Loader.
Context {J : JsonLib}.

Record LogConfig : Type := mkLogConfig {
  console_level : LogLevel;
  file_level : LogLevel;
  log_directory : cstr;
  log_file_pattern : cstr;
  max_file_size : Z;
  max_files : Z;
  enable_json_format : bool;
  enable_console_output : bool;
  enable_file_output : bool;
  pretty_print_console : bool;
  pretty_print_file : bool;
  global_fields : json
}.

Definition default_fields : outcome json :=
  j ← json_assign $"service" (json_string $"chainforge") json_null;
  json_assign $"version" (json_string $"1.0.0") j.
Definition create_default : outcome LogConfig :=
  fields ← default_fields;
  Ret (mkLogConfig INFO DEBUG $"logs" $"chainforge.log" (10 * 1024 * 1024) 5 true true true false false fields).

Definition json_of_yaml (v : yaml_value) : json :=
  match v with
  | YObject => json_object []
  | YString s => json_string s
  | YBool b => json_bool b
  | YNull => json_null
  | YInt z => json_number z
  | YDouble d => json_double d
  end.

(** [(...(root[k1])...)[kn] = v]: each step is the library's [operator[]], which
    makes a missing member null. *)
Fixpoint json_put (path : list cstr) (v j : json) : outcome json :=
  match path with
  | [] => Ret v
  | k :: path' => sub ← json_put path' v (default json_null (json_at k j)); json_assign k sub j
  end.

Fixpoint json_puts (l : list (list cstr * yaml_value)) (j : json) : outcome json :=
  match l with
  | [] => Ret j
  | (p, v) :: l' => j ← json_put p (json_of_yaml v) j; json_puts l' j
  end.

(** The text of the file, [None] when it cannot be opened. *)
Definition yaml_to_json (file : option cstr) (name : cstr) : outcome json :=
  match file with
  | None => Throw (runtime_error (String.append "Cannot open YAML file: " (String.string_of_list_ascii name)))
  | Some text => json_puts (yaml_assigns (fst (getlines NL (fun _ => true) (istringstream text))) yaml_init) json_null
  end.

(** A member that is read only when it is there. *)
Definition read_member {A} (k : cstr) (get : json -> outcome A) (j : json) (old : A) : outcome A :=
  match json_at k j with Some v => get v | None => Ret old end.

Definition load_console (j : json) (c : LogConfig) : outcome LogConfig :=
  enabled ← read_member $"enabled" json_get_bool j (enable_console_output c);
  level ← read_member $"level" (fun v => s ← json_get_string v; parse_log_level s) j (console_level c);
  pretty ← read_member $"pretty_print" json_get_bool j (pretty_print_console c);
  Ret (mkLogConfig level (file_level c) (log_directory c) (log_file_pattern c) (max_file_size c) (max_files c)
         (enable_json_format c) enabled (enable_file_output c) pretty (pretty_print_file c) (global_fields c)).

Definition load_file (j : json) (c : LogConfig) : outcome LogConfig :=
  enabled ← read_member $"enabled" json_get_bool j (enable_file_output c);
  level ← read_member $"level" (fun v => s ← json_get_string v; parse_log_level s) j (file_level c);
  directory ← read_member $"directory" json_get_string j (log_directory c);
  filename ← read_member $"filename" json_get_string j (log_file_pattern c);
  size ← read_member $"max_size" (fun v => s ← json_get_string v; parse_size_string s) j (max_file_size c);
  files ← read_member $"max_files" json_get_u64 j (max_files c);
  pretty ← read_member $"pretty_print" json_get_bool j (pretty_print_file c);
  Ret (mkLogConfig (console_level c) level directory filename size files
         (enable_json_format c) (enable_console_output c) enabled (pretty_print_console c) pretty (global_fields c)).

Definition load_format (j : json) (c : LogConfig) : outcome LogConfig :=
  format ← json_get_string j;
  Ret (mkLogConfig (console_level c) (file_level c) (log_directory c) (log_file_pattern c) (max_file_size c) (max_files c)
         (bool_decide (format = $"json")) (enable_console_output c) (enable_file_output c)
         (pretty_print_console c) (pretty_print_file c) (global_fields c)).

Definition load_fields (j : json) (c : LogConfig) : outcome LogConfig :=
  Ret (mkLogConfig (console_level c) (file_level c) (log_directory c) (log_file_pattern c) (max_file_size c) (max_files c)
         (enable_json_format c) (enable_console_output c) (enable_file_output c)
         (pretty_print_console c) (pretty_print_file c) j).

Definition load_part (k : cstr) (part : json -> LogConfig -> outcome LogConfig) (j : json) (c : LogConfig) : outcome LogConfig :=
  match json_at k j with Some v => part v c | None => Ret c end.

Definition load_from_json (config_json : json) : outcome LogConfig :=
  config ← create_default;
  match json_at $"logging" config_json with
  | None => Ret config
  | Some logging_config =>
      config ← load_part $"console" load_console logging_config config;
      config ← load_part $"file" load_file logging_config config;
      config ← load_part $"format" load_format logging_config config;
      load_part $"global_fields" load_fields logging_config config
  end.

Definition load_from_json_file (file : option cstr) (name : cstr) : outcome LogConfig :=
  match file with
  | None => Throw (runtime_error (String.append "Cannot open config file: " (String.string_of_list_ascii name)))
  | Some text => j ← json_read text; load_from_json j
  end.

Definition load_from_yaml (file : option cstr) (name : cstr) : outcome LogConfig :=
  j ← yaml_to_json file name; load_from_json j.
End Loader.

(** ** Rendered documents *)

Definition spaces (n : nat) : cstr := replicate n " "%char.
Definition section_line (n : nat) (k : cstr) : cstr := spaces n ++ k ++ [":"%char].
Definition entry_line (n : nat) (kv : cstr * cstr) : cstr := spaces n ++ fst kv ++ ":"%char :: " "%char :: snd kv.

(** A section with entries, indented by [n], its entries two more. *)
Definition render_section (n : nat) (s : cstr * list (cstr * cstr)) : list cstr :=
  section_line n (fst s) :: map (entry_line (n + 2)) (snd s).
(** A section of sections. *)
Definition render_nested (k : cstr) (subs : list (cstr * list (cstr * cstr))) : list cstr :=
  section_line 0 k :: concat (map (render_section 2) subs).
Definition text_of (lines : list cstr) : cstr := concat (map (fun l => l ++ [NL]) lines).

(** No blank at either end. *)
Definition tight (s : cstr) : bool :=
  match head s, last s with Some a, Some b => negb (blank a) && negb (blank b) | _, _ => false end.
Definition key_ok (k : cstr) : Prop := tight k = true /\ no_char ":" k /\ no_char NL k.
Definition value_ok (v : cstr) : Prop := tight v = true /\ no_char NL v.
Definition section_ok (s : cstr * list (cstr * cstr)) : Prop :=
  key_ok (fst s) /\ Forall (fun kv => key_ok (fst kv) /\ value_ok (snd kv)) (snd s).

#[export] Instance key_ok_dec k : Decision (key_ok k).
Proof. unfold key_ok. apply _. Defined.
#[export] Instance value_ok_dec v : Decision (value_ok v).
Proof. unfold value_ok. apply _. Defined.
#[export] Instance section_ok_dec s : Decision (section_ok s).
Proof. unfold section_ok. apply _. Defined.

(** ** Lemmas *)

Lemma drop_blanks_tight s : tight s = true -> drop_blanks s = s.
Proof. unfold tight. destruct s as [|c s]; [done|]. cbn [head]. destruct (last _); [|done]. cbn. by destruct (blank c). Qed.

Lemma tight_rev s : tight (rev s) = tight s.
Proof.
  unfold tight. rewrite rev_alt. change (rev_append s []) with (reverse s). rewrite last_reverse, head_reverse. destruct (head s), (last s); try done. apply andb_comm.
Qed.

Lemma trim_blanks_tight s : tight s = true -> trim_blanks s = s.
Proof.
  intros H. unfold trim_blanks. rewrite (drop_blanks_tight s), drop_blanks_tight, rev_involutive by (done || by rewrite tight_rev). done.
Qed.

Lemma trim_blanks_space s : tight s = true -> trim_blanks (" "%char :: s) = s.
Proof. intros H. change (trim_blanks (" "%char :: s)) with (trim_blanks s). by apply trim_blanks_tight. Qed.

Lemma drop_blanks_spaces n s : drop_blanks (spaces n ++ s) = drop_blanks s.
Proof. induction n; [done|]. cbn. done. Qed.

Lemma indentation_spaces n k s : tight k = true -> indentation (spaces n ++ k ++ s) = Z.of_nat n.
Proof.
  intros Hk. induction n as [|n IH].
  - destruct k as [|c k]; [done|]. cbn. destruct (Ascii.eqb_spec c " "); [subst; unfold tight in Hk; cbn in Hk; by destruct (last _)|].
    destruct c as [[] [] [] [] [] [] [] []]; done.
  - cbn [spaces replicate app indentation]. change (replicate n " "%char) with (spaces n). rewrite IH. lia.
Qed.

Lemma not_skipped l s : skipped_line (l ++ ":"%char :: s) = false.
Proof. unfold skipped_line. rewrite forallb_app. cbn. apply andb_false_r. Qed.

(** One line of a rendered document. *)
Lemma yaml_line_spec n k v st :
  key_ok k -> v = [] \/ (exists v', v = " "%char :: v' /\ tight v' = true) ->
  yaml_line (spaces n ++ k ++ ":"%char :: v) st
  = let st' := close_objects (Z.of_nat n) (current st) (opened st) in
    let path := current st' ++ [k] in
    match v with
    | [] => (Some (path, YObject), mkYaml path ((current st', Z.of_nat n) :: opened st'))
    | _ :: v' => (Some (path, yaml_scalar v'), st')
    end.
Proof.
  intros (Hk & Hc & _) Hv. unfold yaml_line. rewrite app_assoc, not_skipped, <- app_assoc, indentation_spaces by done.
  rewrite drop_blanks_spaces. assert (Hd : drop_blanks (k ++ ":"%char :: v) = k ++ ":"%char :: v).
  { destruct k as [|c k]; [done|]. unfold tight in Hk. cbn in *. destruct (last _); [|done]. by destruct (blank c). }
  rewrite Hd, find_char_app, take_app_length by done.
  replace (drop (S (length k)) (k ++ ":"%char :: v)) with v by (rewrite <- Nat.add_1_r, <- drop_drop, drop_app_length; done).
  rewrite (trim_blanks_tight k) by done. destruct Hv as [->|(v' & -> & Hv)]; [done|].
  rewrite trim_blanks_space by done. by destruct v'.
Qed.

Lemma section_line_spec n k st :
  key_ok k ->
  yaml_line (section_line n k) st
  = let st' := close_objects (Z.of_nat n) (current st) (opened st) in
    (Some (current st' ++ [k], YObject), mkYaml (current st' ++ [k]) ((current st', Z.of_nat n) :: opened st')).
Proof. intros Hk. unfold section_line. rewrite yaml_line_spec by auto. done. Qed.

Lemma entry_line_spec n kv st :
  key_ok (fst kv) -> value_ok (snd kv) ->
  yaml_line (entry_line n kv) st
  = let st' := close_objects (Z.of_nat n) (current st) (opened st) in (Some (current st' ++ [fst kv], yaml_scalar (snd kv)), st').
Proof. intros Hk [Hv _]. unfold entry_line. rewrite yaml_line_spec by eauto. done. Qed.

(** The entries of a section that was opened at a smaller indentation. *)
Lemma entries_spec n es p q i stack rest :
  Forall (fun kv => key_ok (fst kv) /\ value_ok (snd kv)) es -> i < Z.of_nat n ->
  yaml_assigns (map (entry_line n) es ++ rest) (mkYaml p ((q, i) :: stack))
  = map (fun kv => (p ++ [fst kv], yaml_scalar (snd kv))) es ++ yaml_assigns rest (mkYaml p ((q, i) :: stack)).
Proof.
  intros Hes Hi. induction Hes as [|kv es [Hk Hv] _ IH]; [done|]. cbn [map app yaml_assigns].
  rewrite entry_line_spec by done. cbn [close_objects current opened]. rewrite (proj2 (Z.leb_gt _ _)) by done.
  cbn [current app]. by rewrite IH.
Qed.

(** A section at indentation [n], read in a state that closes to [cur] and [stack]. *)
Lemma section_spec n s st cur stack rest :
  section_ok s -> close_objects (Z.of_nat n) (current st) (opened st) = mkYaml cur stack ->
  yaml_assigns (render_section n s ++ rest) st
  = (cur ++ [fst s], YObject) :: map (fun kv => (cur ++ [fst s; fst kv], yaml_scalar (snd kv))) (snd s)
    ++ yaml_assigns rest (mkYaml (cur ++ [fst s]) ((cur, Z.of_nat n) :: stack)).
Proof.
  intros [Hk Hes] Hc. unfold render_section. cbn [app yaml_assigns]. rewrite section_line_spec, Hc by done. cbn [current opened app].
  rewrite entries_spec by (done || lia). f_equal. f_equal. apply map_ext. intros kv. by rewrite <- app_assoc.
Qed.

(** What the sections of a document should assign below a path. *)
Definition section_assigns (p : list cstr) (s : cstr * list (cstr * cstr)) : list (list cstr * yaml_value) :=
  (p ++ [fst s], YObject) :: map (fun kv => (p ++ [fst s; fst kv], yaml_scalar (snd kv))) (snd s).

(** Sections at one indentation, where closing the previous one leads back to the
    same path [cur]. *)
Lemma sections_spec n secs st cur stack :
  Forall section_ok secs ->
  close_objects (Z.of_nat n) (current st) (opened st) = mkYaml cur stack ->
  (forall p, close_objects (Z.of_nat n) p ((cur, Z.of_nat n) :: stack) = mkYaml cur stack) ->
  yaml_assigns (concat (map (render_section n) secs)) st = concat (map (section_assigns cur) secs).
Proof.
  intros Hs. revert st. induction Hs as [|s secs Hs _ IH]; intros st Hc Hback; [done|]. cbn [map concat].
  rewrite (section_spec n s st cur stack) by done. unfold section_assigns at 1. cbn [app]. do 2 f_equal. by apply IH.
Qed.

Lemma rendered_lines s n : section_ok s -> Forall (no_char NL) (render_section n s).
Proof.
  assert (Hsp : forall m, no_char NL (spaces m)) by (intros m; unfold no_char, spaces; by apply Forall_replicate).
  intros [(_ & _ & Hk) Hes]. constructor.
  - unfold section_line, no_char in *. rewrite !Forall_app. split_and!; [apply Hsp|done|by repeat constructor].
  - apply Forall_map. eapply Forall_impl; [exact Hes|]. intros kv [(_ & _ & H1) [_ H2]]. unfold entry_line, no_char in *.
    rewrite !Forall_app. split_and!; [apply Hsp|done|]. by repeat constructor.
Qed.

Lemma read_lines ls : Forall (no_char NL) ls -> fst (getlines NL (fun _ => true) (istringstream (text_of ls))) = ls.
Proof.
  intros H. unfold text_of. rewrite <- (app_nil_r (concat _)), getlines_all by (eapply Forall_impl; [exact H|done]).
  rewrite getlines_nil. cbn. by rewrite app_nil_r.
Qed.

Section Laws.
Context {J : JsonLib} {Laws : JsonLaws J}.

Lemma put_at k p v j j' k' : json_put (k :: p) v j = Ret j' -> k' <> k -> json_at k' j' = json_at k' j.
Proof.
  cbn. destruct (json_put p v _) as [sub| |]; cbn; try done. intros H Hk. rewrite (at_assign _ _ _ _ _ H). by rewrite decide_False.
Qed.

Lemma put_at_same k p v j j' :
  json_put (k :: p) v j = Ret j' -> exists sub, json_put p v (default json_null (json_at k j)) = Ret sub /\ json_at k j' = Some sub.
Proof.
  cbn. destruct (json_put p v _) as [sub| |]; cbn; try done. intros H. exists sub. split; [done|].
  rewrite (at_assign _ _ _ _ _ H). by rewrite decide_True.
Qed.

(** Assignments below other members leave a member alone. *)
Lemma puts_other k l j j' :
  Forall (fun a => exists k' p, fst a = k' :: p /\ k <> k') l -> json_puts l j = Ret j' -> json_at k j' = json_at k j.
Proof.
  intros Hl. revert j. induction Hl as [|[p v] l (k' & p' & E & Hk) _ IH]; intros j; [by intros [= <-]|].
  cbn in E. subst p. change (json_puts ((k' :: p', v) :: l) j) with (j1 ← json_put (k' :: p') (json_of_yaml v) j; json_puts l j1).
  destruct (json_put (k' :: p') (json_of_yaml v) j) as [j1| |] eqn:E; cbn [mbind outcome_bind]; try done.
  intros H. rewrite (IH _ H). by eapply put_at.
Qed.

(** Assignments below [k], [k2] only fill the member [k2] of [k]. *)
Lemma puts_below k k2 l j j' jk :
  Forall (fun a => exists p, fst a = k :: k2 :: p) l -> json_puts l j = Ret j' -> json_at k j = Some jk ->
  exists jk', json_at k j' = Some jk' /\ forall k', k' <> k2 -> json_at k' jk' = json_at k' jk.
Proof.
  intros Hl. revert j jk. induction Hl as [|[q v] l (p & E) _ IH]; intros j jk; [by intros [= <-]; eauto|].
  cbn in E. subst q. change (json_puts ((k :: k2 :: p, v) :: l) j) with (j1 ← json_put (k :: k2 :: p) (json_of_yaml v) j; json_puts l j1).
  destruct (json_put (k :: k2 :: p) (json_of_yaml v) j) as [j1| |] eqn:E; cbn [mbind outcome_bind]; try done.
  intros H Hk. apply put_at_same in E as (sub & E & Hsub). rewrite Hk in E. cbn [default] in E.
  destruct (IH _ _ H Hsub) as (jk' & H1 & H2). exists jk'. split; [done|]. intros k' Hk'. rewrite H2 by done. by eapply put_at.
Qed.

Lemma puts_app l l' j : json_puts (l ++ l') j = j1 ← json_puts l j; json_puts l' j1.
Proof.
  revert j. induction l as [|[p v] l IH]; intros j; [done|]. cbn. destruct (json_put p _ j) as [j1| |]; cbn; [apply IH|done|done].
Qed.

(** The settings of the log file. *)
Definition default_file (c : LogConfig) : Prop :=
  file_level c = DEBUG /\ log_directory c = $"logs" /\ log_file_pattern c = $"chainforge.log"
  /\ max_file_size c = 10 * 1024 * 1024 /\ max_files c = 5 /\ enable_file_output c = true
  /\ pretty_print_file c = false /\ enable_json_format c = true.

Lemma load_console_keeps j c c' : load_console j c = Ret c' -> default_file c -> default_file c'.
Proof.
  unfold load_console. intros (x & _ & (y & _ & (z & _ & [= <-])%outcome_bind_inv)%outcome_bind_inv)%outcome_bind_inv. done.
Qed.

Lemma load_without_file j jl c :
  json_at $"logging" j = Some jl -> (forall k, k <> $"console" -> json_at k jl = None) -> load_from_json j = Ret c -> default_file c.
Proof.
  intros Hl Hn. unfold load_from_json, create_default. intros (c0 & (fields & _ & [= <-])%outcome_bind_inv & H)%outcome_bind_inv.
  rewrite Hl in H. apply outcome_bind_inv in H as (c1 & E & H). unfold load_part in H. rewrite !Hn in H by done. injection H as <-.
  unfold load_part in E. destruct (json_at $"console" jl) as [v|]; [|by injection E as <-]. by eapply load_console_keeps.
Qed.
End Laws.

(** ** Properties *)

(** A YAML document of sections with entries is read as it is meant: every
    section becomes an object and every entry a member of its section, in order. *)
Theorem yaml_sections_roundtrip (secs : list (cstr * list (cstr * cstr))) :
  Forall section_ok secs ->
  yaml_assigns (fst (getlines NL (fun _ => true) (istringstream (text_of (concat (map (render_section 0) secs)))))) yaml_init
  = concat (map (section_assigns []) secs).
Proof.
  intros Hs. rewrite read_lines.
  - by apply (sections_spec 0 secs yaml_init [] []).
  - induction Hs as [|s secs H _ IH]; [constructor|]. cbn [map concat]. apply Forall_app. split; [by apply rendered_lines|done].
Qed.

Lemma nested_assigns k s1 subs :
  key_ok k -> section_ok s1 -> Forall section_ok subs ->
  yaml_assigns (render_nested k (s1 :: subs)) yaml_init
  = ([k], YObject) :: section_assigns [k] s1 ++ concat (map (section_assigns []) subs).
Proof.
  intros Hk H1 Hs. unfold render_nested. cbn [yaml_assigns map concat]. rewrite section_line_spec by done. cbn [current opened app close_objects yaml_init].
  rewrite (section_spec 2 s1 _ [k] [([], 0)]) by done. cbn [app]. unfold section_assigns at 1. cbn [app]. do 3 f_equal.
  by apply (sections_spec 2 subs _ [] [([], 0)]).
Qed.

(** In a YAML document with sections inside a section only the first inner
    section is put into the outer one; all later ones become members of the root.
    So a configuration like config/config.yaml, whose [logging] section starts with
    [console], is read with the default settings of the log file, whatever its
    other sections say. *)
Theorem yaml_later_sections_lost {J : JsonLib} {Laws : JsonLaws J} (s1 : cstr * list (cstr * cstr))
    (subs : list (cstr * list (cstr * cstr))) (name : cstr) :
  section_ok s1 -> Forall section_ok subs -> fst s1 = $"console" -> Forall (fun s => fst s <> $"logging") subs ->
  let lines := render_nested $"logging" (s1 :: subs) in
  yaml_assigns lines yaml_init
    = ([$"logging"], YObject) :: section_assigns [$"logging"] s1 ++ concat (map (section_assigns []) subs)
  /\ forall c, load_from_yaml (Some (text_of lines)) name = Ret c -> default_file c.
Proof.
  intros H1 Hs Hc Hn lines.
  assert (Hlog : key_ok $"logging") by (apply (bool_decide_unpack _); vm_compute; exact I).
  assert (Ha := nested_assigns $"logging" s1 subs Hlog H1 Hs). split; [exact Ha|].
  intros c. unfold load_from_yaml, yaml_to_json. rewrite read_lines.
  2: { unfold lines, render_nested. constructor; [apply (bool_decide_unpack _); vm_compute; exact I|]. cbn [map concat].
       apply Forall_app. split; [by apply rendered_lines|]. clear -Hs. induction Hs as [|s subs H _ IH]; [constructor|].
       cbn [map concat]. apply Forall_app. split; [by apply rendered_lines|done]. }
  unfold lines. rewrite Ha. change (json_puts (([$"logging"], YObject) :: ?l) ?j) with (j0 ← json_put [$"logging"] (json_object []) j; json_puts l j0).
  intros (j2 & (j0 & E0 & E1)%outcome_bind_inv & Hload)%outcome_bind_inv. apply put_at_same in E0 as (sub & [= <-] & Hj0).
  rewrite puts_app in E1. apply outcome_bind_inv in E1 as (j1 & E1 & E2).
  destruct (puts_below $"logging" $"console" (section_assigns [$"logging"] s1) j0 j1 (json_object [])) as (jl & Hl & Hat); [|done|done|].
  { unfold section_assigns. rewrite Hc. constructor; [by exists []|]. apply Forall_map, Forall_true. intros kv. by exists [fst kv]. }
  revert Hload. apply (load_without_file j2 jl).
  - rewrite <- Hl. eapply puts_other; [|exact E2]. clear -Hn. induction Hn as [|s subs Hs _ IH]; [constructor|]. cbn [map concat].
    apply Forall_app. split; [|done]. unfold section_assigns. constructor; [by exists (fst s), []|].
    apply Forall_map, Forall_true. intros kv. by exists (fst s), [fst kv].
  - intros k Hk. rewrite Hat by done. by rewrite at_object.
Qed.

(** ** Witnesses *)

Definition demo_console : cstr * list (cstr * cstr) := ($"console", [($"enabled", $"true"); ($"level", $"warn")]).
Definition demo_file : cstr * list (cstr * cstr) := ($"file", [($"level", $"error"); ($"max_files", $"9")]).

Lemma yaml_sections_roundtrip_witness :
  yaml_assigns (fst (getlines NL (fun _ => true) (istringstream (text_of (concat (map (render_section 0) [demo_console; demo_file])))))) yaml_init
  = concat (map (section_assigns []) [demo_console; demo_file]).
Proof. apply yaml_sections_roundtrip. decide_now. Defined.

(** Reading the document with the two sections. *)
Definition demo_load : outcome (@LogConfig (table_json [])) :=
  load_from_yaml (J := table_json []) (Some (text_of (render_nested $"logging" [demo_console; demo_file]))) $"config.yaml".

(** The console level is read, the level of the file is not. *)
Lemma yaml_later_sections_lost_witness :
  match demo_load with Ret c => console_level c = WARN /\ default_file c | _ => False end.
Proof.
  assert (H : forall c, demo_load = Ret c -> default_file c).
  { refine (proj2 (@yaml_later_sections_lost (table_json []) (table_json_laws []) demo_console [demo_file] $"config.yaml" _ _ _ _)).
    - decide_now.
    - decide_now.
    - reflexivity.
    - decide_now. }
  assert (E : match demo_load with Ret c => bool_decide (console_level c = WARN) | _ => false end = true) by (vm_compute; reflexivity).
  destruct demo_load as [c| |]; [|done|done]. split; [by apply bool_decide_eq_true in E|by apply H].
Defined.

(** A size without quotes is read as a number, and the text of a version as a
    double. *)
Lemma unquoted_scalars :
  yaml_scalar $"100MB" = YInt 100 /\ yaml_scalar $"1.0.0" = YDouble (d_of_Z 1) /\ yaml_scalar $"10.5MB" = YDouble (dlit 21 2).
Proof. vm_compute. done. Qed.

(** A comment with a colon is read as an entry. *)
Lemma comment_is_entry : yaml_assigns [$"# level: debug"] yaml_init = [([$"# level"], YString $"debug")].
Proof. vm_compute. reflexivity. Qed.

(** Sizes: fractions, units in any case; malformed texts throw; a size that does not
    fit is undefined behaviour. *)
Lemma parse_size_cases :
  parse_size_string $"1.5 kb" = Ret 1536 /\ parse_size_string $"100MB" = Ret 104857600 /\ parse_size_string $"7" = Ret 7
  /\ returns (parse_size_string $"10 XB") = false /\ returns (parse_size_string $"-1") = false
  /\ parse_size_string $"16777216TB" = Undefined.
Proof. vm_compute. done. Qed.

(** The names of the levels are read back in any case, and an unknown name is
    [INFO]. *)
Definition level_name (l : LogLevel) : cstr :=
  match l with
  | TRACE => $"trace" | DEBUG => $"debug" | INFO => $"info" | WARN => $"warn"
  | ERROR => $"error" | CRITICAL => $"critical" | OFF => $"off"
  end.
Lemma log_level_roundtrip l :
  parse_log_level (level_name l) = Ret l /\ parse_log_level (map upper_char (level_name l)) = Ret l
  /\ parse_log_level $"verbose" = Ret INFO.
Proof. by destruct l. Qed.
