(* ===== verification/LogFormat.v ===== *)
(** * LogFormat: log levels of spdlog and the JSON formatter

    [JsonFormatter] of logging/json_formatter.cpp: the document of a message, its
    global fields and the recovery of structured data from the payload; with
    [LogContext] and the payload [Logger::log] writes, which the formatter reads
    back. *)

From stdpp Require Import base list numbers strings.
From Stdlib Require Import ZArith Lia Ascii.
From S2P Require Import Prelude CString Calendar Timestamp CoreText Json HttpServer HttpProps JsonTable LogConfig.

(** ** spdlog::level::level_enum *)

Inductive spd_level : Type := lv_trace | lv_debug | lv_info | lv_warn | lv_err | lv_critical | lv_off | lv_n_levels.
#[export] Instance spd_level_eq_dec : EqDecision spd_level.
Proof. solve_decision. Defined.

Definition level_num (l : spd_level) : Z :=
  match l with
  | lv_trace => 0 | lv_debug => 1 | lv_info => 2 | lv_warn => 3 | lv_err => 4 | lv_critical => 5 | lv_off => 6 | lv_n_levels => 7
  end.
Definition min_level (a b : spd_level) : spd_level := if level_num b <? level_num a then b else a.

Definition to_spdlog_level (level : LogLevel) : spd_level :=
  match level with
  | TRACE => lv_trace | DEBUG => lv_debug | INFO => lv_info | WARN => lv_warn
  | ERROR => lv_err | CRITICAL => lv_critical | OFF => lv_off
  end.
Definition of_spdlog_level (l : spd_level) : LogLevel :=
  match l with
  | lv_trace => TRACE | lv_debug => DEBUG | lv_info => INFO | lv_warn => WARN
  | lv_err => ERROR | lv_critical => CRITICAL | lv_off => OFF | _ => INFO
  end.

Definition level_to_string (level : spd_level) : cstr :=
  match level with
  | lv_trace => $"TRACE" | lv_debug => $"DEBUG" | lv_info => $"INFO" | lv_warn => $"WARN"
  | lv_err => $"ERROR" | lv_critical => $"CRITICAL" | lv_off => $"OFF" | _ => $"UNKNOWN"
  end.

(** spdlog::details::log_msg: the time in nanoseconds since the epoch; the source
    location has a file name, a line and a function. *)
Record log_msg : Type := mkMsg {
  msg_time : Z;
  msg_level : spd_level;
  msg_logger : cstr;
  msg_thread : Z;
  msg_source : option (cstr * Z * cstr);
  msg_payload : cstr
}.

(** Six digits of microseconds; the remainder has the sign of the time. *)
Definition format_timestamp (ns : Z) : cstr :=
  let microseconds := print_int (Z.rem (Z.quot ns 1000) 1000000) in
  put_time (gmtime (to_time_t ns)) ++ $"." ++ replicate (6 - length microseconds) "0"%char ++ microseconds ++ $"Z".

Section Format.
Context {J : JsonLib}.

(** ** LogContext *)

Definition LogContext_new : json := json_null.
Definition context_with (key : cstr) (value : json) (fields_ : json) : outcome json := json_assign key value fields_.
Fixpoint context_of (l : list (cstr * json)) (fields_ : json) : outcome json :=
  match l with [] => Ret fields_ | (k, v) :: l' => j ← context_with k v fields_; context_of l' j end.

(** What [Logger::log] hands to spdlog: the message, or a document with the message
    and the fields. *)
Definition log_entry (message : cstr) (context : json) : outcome json :=
  log_entry ← json_assign $"message" (json_string message) json_null;
  json_assign $"fields" context log_entry.
Definition log_payload (message : cstr) (context : json) : outcome cstr :=
  if negb (json_empty context) then log_entry ← log_entry message context; json_dump log_entry
  else Ret message.

(** ** JsonFormatter *)

Record JsonFormatter : Type := mkFormatter { pretty_print_ : bool; global_fields_ : json }.

Definition JsonFormatter_new (pretty_print : bool) : outcome JsonFormatter :=
  g ← json_assign $"service" (json_string $"chainforge") json_null;
  g ← json_assign $"version" (json_string $"1.0.0") g;
  Ret (mkFormatter pretty_print g).
Definition set_pretty_print (enable : bool) (f : JsonFormatter) : JsonFormatter := mkFormatter enable (global_fields_ f).
Definition clone (f : JsonFormatter) : outcome JsonFormatter :=
  cloned ← JsonFormatter_new (pretty_print_ f); Ret (mkFormatter (pretty_print_ cloned) (global_fields_ f)).
Definition add_global_field (key : cstr) (value : json) (f : JsonFormatter) : outcome JsonFormatter :=
  g ← json_assign key value (global_fields_ f); Ret (mkFormatter (pretty_print_ f) g).
Definition remove_global_field (key : cstr) (f : JsonFormatter) : outcome JsonFormatter :=
  g ← json_erase key (global_fields_ f); Ret (mkFormatter (pretty_print_ f) g).

(** Only a parse error is caught. *)
Definition extract_structured_data (payload : cstr) : outcome json :=
  match json_parse payload with
  | Throw e => if json_parse_error e then Ret json_null else Throw e
  | r => r
  end.

(** [log_record["source"]], made of three assignments. *)
Definition add_source (msg : log_msg) (r : json) : outcome json :=
  match msg_source msg with
  | None => Ret r
  | Some (file, line, function) =>
      r ← json_put [$"source"; $"file"] (json_string file) r;
      r ← json_put [$"source"; $"line"] (json_number line) r;
      json_put [$"source"; $"function"] (json_string function) r
  end.

Definition structured (d : json) : bool :=
  json_is_object d && match json_at $"message" d with Some _ => true | None => false end.

Definition add_message (payload : cstr) (d r : json) : outcome json :=
  if structured d then
    r ← json_assign $"message" (default json_null (json_at $"message" d)) r;
    match json_at $"fields" d with Some v => json_assign $"fields" v r | None => Ret r end
  else json_assign $"message" (json_string payload) r.

Definition log_record (f : JsonFormatter) (msg : log_msg) : outcome json :=
  r ← json_assign $"timestamp" (json_string (format_timestamp (msg_time msg))) json_null;
  r ← json_assign $"level" (json_string (level_to_string (msg_level msg))) r;
  r ← json_assign $"logger" (json_string (msg_logger msg)) r;
  r ← json_assign $"thread_id" (json_number (msg_thread msg)) r;
  r ← add_source msg r;
  d ← extract_structured_data (msg_payload msg);
  r ← add_message (msg_payload msg) d r;
  assign_all (json_items (global_fields_ f)) r.

(** The bytes appended to [dest]. *)
Definition format (f : JsonFormatter) (msg : log_msg) (dest : cstr) : outcome cstr :=
  r ← log_record f msg;
  s ← (if pretty_print_ f then json_dump2 r else json_dump r);
  Ret (dest ++ s ++ [NL]).
End Format.

(** ** Lemmas *)

(** Case analysis on comparisons of literal keys. *)
Ltac key_cases := repeat case_decide; subst; try discriminate; try congruence; try done.

Section FormatLaws.
Context {J : JsonLib} {Laws : JsonLaws J}.

Definition formatter_ok (f : JsonFormatter) : Prop := json_is_object (global_fields_ f) = true.

(** Every formatter the operations make has an object of global fields. *)
Lemma formatter_new_ok p : exists f, JsonFormatter_new p = Ret f /\ formatter_ok f /\ pretty_print_ f = p.
Proof.
  unfold JsonFormatter_new. destruct (assign_null $"service" (json_string $"chainforge")) as [g1 E1]. rewrite E1. cbn [mbind outcome_bind].
  destruct (assign_assign _ _ $"version" (json_string $"1.0.0") _ _ E1) as [g2 E2]. rewrite E2. cbn [mbind outcome_bind].
  eexists. split_and!; [done| |done]. exact (assign_is_object _ _ _ _ E2).
Qed.

Lemma add_field_ok k v f :
  formatter_ok f -> exists f', add_global_field k v f = Ret f' /\ formatter_ok f' /\ pretty_print_ f' = pretty_print_ f
  /\ forall k', json_at k' (global_fields_ f') = if decide (k = k') then Some v else json_at k' (global_fields_ f).
Proof.
  intros Hf. unfold add_global_field. destruct (object_assign k v (global_fields_ f) Hf) as [g E]. rewrite E. cbn [mbind outcome_bind].
  eexists. split_and!; [done|exact (assign_is_object _ _ _ _ E)|done|]. intros k'. exact (at_assign _ _ _ _ _ E).
Qed.

Lemma remove_field_ok k f :
  formatter_ok f -> exists f', remove_global_field k f = Ret f' /\ formatter_ok f' /\ json_at k (global_fields_ f') = None.
Proof.
  intros Hf. unfold remove_global_field. destruct (erase_object k (global_fields_ f) Hf) as (g & E & Ho & Ha). rewrite E. cbn [mbind outcome_bind].
  eexists. split_and!; [done|done|]. cbn. by rewrite Ha, decide_True.
Qed.

(** What the record holds before the global fields. *)
Definition base_member (msg : log_msg) (d : json) (k : cstr) : option json :=
  if decide (k = $"message") then Some (if structured d then default json_null (json_at $"message" d) else json_string (msg_payload msg))
  else if decide (k = $"fields") then (if structured d then json_at $"fields" d else None)
  else if decide (k = $"source") then None
  else if decide (k = $"thread_id") then Some (json_number (msg_thread msg))
  else if decide (k = $"logger") then Some (json_string (msg_logger msg))
  else if decide (k = $"level") then Some (json_string (level_to_string (msg_level msg)))
  else if decide (k = $"timestamp") then Some (json_string (format_timestamp (msg_time msg)))
  else None.

Lemma put_object k k2 v r :
  json_is_object r = true -> (match json_at k r with Some s => s = json_null \/ json_is_object s = true | None => True end) ->
  exists r' s, json_put [k; k2] v r = Ret r' /\ json_is_object r' = true /\ json_is_object s = true
  /\ forall k', json_at k' r' = if decide (k = k') then Some s else json_at k' r.
Proof.
  intros Hr Hs. cbn [json_put]. destruct (assign_step k2 v (default json_null (json_at k r))) as (s & E & Ho & _).
  { unfold assignable. destruct (json_at k r); cbn; auto. }
  cbn [mbind outcome_bind]. rewrite E. cbn [mbind outcome_bind].
  destruct (assign_step k s r ltac:(unfold assignable; auto)) as (r' & E' & Ho' & Ha). by exists r', s.
Qed.

Lemma source_step msg r :
  json_is_object r = true -> json_at $"source" r = None ->
  exists r', add_source msg r = Ret r' /\ json_is_object r' = true
  /\ forall k, k <> $"source" -> json_at k r' = json_at k r.
Proof.
  intros Hr Hs. unfold add_source. destruct (msg_source msg) as [[[file line] function]|]; [|by eexists].
  destruct (put_object $"source" $"file" (json_string file) r Hr) as (r1 & s1 & E1 & O1 & S1 & A1); [by rewrite Hs|].
  rewrite E1. cbn [mbind outcome_bind].
  destruct (put_object $"source" $"line" (json_number line) r1 O1) as (r2 & s2 & E2 & O2 & S2 & A2); [rewrite A1, decide_True by done; auto|].
  rewrite E2. cbn [mbind outcome_bind].
  destruct (put_object $"source" $"function" (json_string function) r2 O2) as (r3 & s3 & E3 & O3 & S3 & A3); [rewrite A2, decide_True by done; auto|].
  rewrite E3. exists r3. split_and!; [done|done|]. intros k Hk. by rewrite A3, A2, A1, !decide_False by congruence.
Qed.

Lemma message_step payload d r :
  json_is_object r = true ->
  exists r', add_message payload d r = Ret r' /\ json_is_object r' = true
  /\ forall k, json_at k r' =
       if decide (k = $"message") then Some (if structured d then default json_null (json_at $"message" d) else json_string payload)
       else if decide (k = $"fields") then (if structured d then match json_at $"fields" d with Some v => Some v | None => json_at k r end else json_at k r)
       else json_at k r.
Proof.
  intros Hr. unfold add_message. destruct (structured d).
  - destruct (assign_step $"message" (default json_null (json_at $"message" d)) r ltac:(unfold assignable; auto)) as (r1 & E1 & O1 & A1). rewrite E1. cbn [mbind outcome_bind].
    destruct (json_at $"fields" d) as [v|].
    + destruct (assign_step $"fields" v r1 ltac:(unfold assignable; auto)) as (r2 & E2 & O2 & A2). exists r2. split_and!; [done|done|]. intros k. rewrite A2, A1.
      key_cases.
    + exists r1. split_and!; [done|done|]. intros k. rewrite A1. key_cases.
  - destruct (assign_step $"message" (json_string payload) r ltac:(unfold assignable; auto)) as (r1 & E1 & O1 & A1). exists r1. split_and!; [done|done|].
    intros k. rewrite A1. key_cases.
Qed.

Lemma log_record_spec f msg d :
  formatter_ok f -> extract_structured_data (msg_payload msg) = Ret d ->
  exists r, log_record f msg = Ret r
  /\ forall k, k <> $"source" \/ json_at k (global_fields_ f) <> None ->
       json_at k r = match json_at k (global_fields_ f) with Some v => Some v | None => base_member msg d k end.
Proof.
  intros Hf Hd. unfold log_record.
  destruct (assign_step $"timestamp" (json_string (format_timestamp (msg_time msg))) json_null ltac:(unfold assignable; auto)) as (r1 & E1 & O1 & A1). rewrite E1. cbn [mbind outcome_bind].
  destruct (assign_step $"level" (json_string (level_to_string (msg_level msg))) r1 ltac:(unfold assignable; auto)) as (r2 & E2 & O2 & A2). rewrite E2. cbn [mbind outcome_bind].
  destruct (assign_step $"logger" (json_string (msg_logger msg)) r2 ltac:(unfold assignable; auto)) as (r3 & E3 & O3 & A3). rewrite E3. cbn [mbind outcome_bind].
  destruct (assign_step $"thread_id" (json_number (msg_thread msg)) r3 ltac:(unfold assignable; auto)) as (r4 & E4 & O4 & A4). rewrite E4. cbn [mbind outcome_bind].
  destruct (source_step msg r4 O4) as (r5 & E5 & O5 & A5). { by rewrite A4, A3, A2, A1, !decide_False, at_null by done. }
  rewrite E5. cbn [mbind outcome_bind]. rewrite Hd. cbn [mbind outcome_bind].
  destruct (message_step (msg_payload msg) d r5 O5) as (r6 & E6 & O6 & A6). rewrite E6. cbn [mbind outcome_bind].
  destruct (assign_all_spec (json_items (global_fields_ f)) r6 (or_intror O6) (items_keys _ Hf)) as (r & E & _ & _ & A). exists r. split; [exact E|].
  intros k Hk. rewrite A, items_at by done. destruct (json_at k (global_fields_ f)); [done|]. destruct Hk as [Hk|]; [|done].
  rewrite A6. unfold base_member. rewrite (decide_False (P := k = $"source")) by done. rewrite A5, A4, A3, A2, A1, at_null by done.
  key_cases; destruct (structured d); try done; by case_match.
Qed.

(** The payload of a message with fields is the document the formatter looks for. *)
Lemma log_entry_spec message context :
  exists j, log_entry message context = Ret j /\ json_is_object j = true
  /\ json_at $"message" j = Some (json_string message) /\ json_at $"fields" j = Some context.
Proof.
  unfold log_entry. destruct (assign_step $"message" (json_string message) json_null ltac:(unfold assignable; auto)) as (j1 & E1 & O1 & A1). rewrite E1. cbn [mbind outcome_bind].
  destruct (assign_step $"fields" context j1 ltac:(unfold assignable; auto)) as (j2 & E2 & O2 & A2). exists j2. split_and!; [done|done| |].
  - by rewrite A2, decide_False, A1, decide_True by done.
  - by rewrite A2, decide_True by done.
Qed.
End FormatLaws.

(** ** Properties *)

(** A message logged with fields comes out of the JSON formatter as it went in:
    its document has the message and the fields, provided that the library reads back
    the payload it wrote and that no global field takes these names.  A message
    without fields comes out as its own text exactly when that text is no JSON
    document with a [message] member; otherwise the record shows the message and the
    fields of that document. *)
Theorem structured_log_roundtrip {J : JsonLib} {Laws : JsonLaws J} (f : JsonFormatter) (msg : log_msg) (message : cstr) (context : json) :
  formatter_ok f -> json_at $"message" (global_fields_ f) = None -> json_at $"fields" (global_fields_ f) = None ->
  log_payload message context = Ret (msg_payload msg) ->
  (json_empty context = false -> forall j, log_entry message context = Ret j -> json_parse (msg_payload msg) = Ret j ->
   exists r, log_record f msg = Ret r /\ json_at $"message" r = Some (json_string message) /\ json_at $"fields" r = Some context)
  /\ (json_empty context = true -> forall d, extract_structured_data message = Ret d ->
   exists r, log_record f msg = Ret r
   /\ json_at $"message" r = Some (if structured d then default json_null (json_at $"message" d) else json_string message)
   /\ json_at $"fields" r = if structured d then json_at $"fields" d else None).
Proof.
  intros Hf Hm Hfi Hp. split; intros He; unfold log_payload in Hp; rewrite He in Hp; cbn [negb] in Hp.
  - intros j Hj Hparse. destruct (log_entry_spec message context) as (j' & E & O & Am & Af). rewrite Hj in E. injection E as <-.
    assert (S : structured j = true) by (unfold structured; by rewrite O, Am).
    destruct (log_record_spec f msg j Hf) as (r & Er & A). { unfold extract_structured_data. by rewrite Hparse. }
    exists r. split; [done|]. rewrite !A by (left; discriminate). rewrite Hm, Hfi. unfold base_member.
    rewrite !(decide_False (P := $"fields" = $"message")), !decide_True, S, Am, Af by done. done.
  - injection Hp as ->. intros d Hd. destruct (log_record_spec f msg d Hf Hd) as (r & Er & A).
    exists r. split; [done|]. rewrite !A by (left; discriminate). rewrite Hm, Hfi. unfold base_member.
    by rewrite !(decide_False (P := $"fields" = $"message")), !decide_True by done.
Qed.

(** ** Witnesses *)

Definition demo_context : jval := JObj [($"user", JStr $"alice")].
Definition demo_entry : jval := JObj [($"fields", demo_context); ($"message", JStr $"hello")].
Definition demo_docs : list (cstr * jval) := [(jtext demo_entry, demo_entry)].
Definition demo_formatter : @JsonFormatter (table_json demo_docs) :=
  @mkFormatter (table_json demo_docs) false (JObj [($"version", JStr $"1.0.0"); ($"service", JStr $"chainforge")]).
Definition demo_msg (payload : cstr) : log_msg := mkMsg 1640995200000000000 lv_info $"app" 1 None payload.

(** The same payload, sent as a plain text, is shown as the message [hello]. *)
Lemma structured_log_roundtrip_witness :
  (exists r, log_record demo_formatter (demo_msg (jtext demo_entry)) = Ret r
     /\ json_at (JsonLib := table_json demo_docs) $"message" r = Some (JStr $"hello") /\ json_at (JsonLib := table_json demo_docs) $"fields" r = Some demo_context)
  /\ exists r, log_record demo_formatter (demo_msg (jtext demo_entry)) = Ret r
     /\ json_at (JsonLib := table_json demo_docs) $"message" r = Some (JStr $"hello").
Proof.
  split.
  - destruct (structured_log_roundtrip (J := table_json demo_docs) demo_formatter (demo_msg (jtext demo_entry)) $"hello" demo_context
                eq_refl eq_refl eq_refl eq_refl) as [H _].
    exact (H eq_refl demo_entry eq_refl eq_refl).
  - destruct (structured_log_roundtrip (J := table_json demo_docs) demo_formatter (demo_msg (jtext demo_entry)) (jtext demo_entry) JNull
                eq_refl eq_refl eq_refl eq_refl) as [_ H].
    destruct (H eq_refl demo_entry eq_refl) as (r & E & M & _). exists r. split; [exact E|exact M].
Defined.

(** The default formatter on a plain message. *)
Example format_plain :
  format (J := table_json []) (mkFormatter (J := table_json []) false (JObj [($"service", JStr $"chainforge")])) (demo_msg $"hello") []
  = Ret (jtext (JObj [($"service", JStr $"chainforge"); ($"message", JStr $"hello"); ($"thread_id", JNum 1); ($"logger", JStr $"app");
           ($"level", JStr $"INFO"); ($"timestamp", JStr $"2022-01-01T00:00:00.000000Z")]) ++ [NL]).
Proof. reflexivity. Qed.

(** Levels survive the conversion to spdlog's and back. *)
Lemma level_roundtrip l : of_spdlog_level (to_spdlog_level l) = l.
Proof. by destruct l. Qed.
