(* ===== verification/Logger.v ===== *)
(** * Logger: loggers over spdlog (logging/logger.cpp)

    spdlog is code the repository only calls: its state, the operations the code
    uses ([SpdLog]) and what their documentation promises ([SpdLaws]).  An exception
    leaves the state as it was when it was thrown, so computations are functions
    [S -> outcome A * S] ([act]). *)

From stdpp Require Import base list numbers strings.
From Stdlib Require Import ZArith Lia Ascii.
From S2P Require Import Prelude CString Json HttpServer HttpProps JsonTable LogConfig LogFormat.

(** ** Computations whose state survives an exception *)

Definition act (S A : Type) : Type := S -> outcome A * S.
#[export] Instance act_ret {S} : MRet (act S) := fun A a s => (Ret a, s).
#[export] Instance act_bind {S} : MBind (act S) := fun A B f m s =>
  match m s with (Ret a, s') => f a s' | (Throw e, s') => (Throw e, s') | (Undefined, s') => (Undefined, s') end.

Section Act.
Context {S : Type}.
Definition aget {A} (f : S -> A) : act S A := fun s => (Ret (f s), s).
Definition aput (f : S -> S) : act S () := fun s => (Ret tt, f s).
Definition aof {A} (m : outcome A) : act S A := fun s => (m, s).
(** [try { m } catch (const std::exception&) { h }]. *)
Definition atry {A} (m : act S A) (h : exn -> act S A) : act S A := fun s =>
  match m s with (Throw e, s') => h e s' | r => r end.
(** An operation on a part of the state. *)
Definition azoom {T A} (get : S -> T) (set : T -> S -> S) (m : act T A) : act S A := fun s =>
  let '(r, t) := m (get s) in (r, set t s).
Fixpoint aeach {X} (body : X -> act S ()) (l : list X) : act S () :=
  match l with [] => mret tt | x :: l' => body x;; aeach body l' end.
End Act.

(** Running the first of two computations. *)
Lemma act_bind_ret {S A B} (m : act S A) (f : A -> act S B) s a s' : m s = (Ret a, s') -> (m ≫= f) s = f a s'.
Proof. intros H. unfold mbind, act_bind. by rewrite H. Qed.
Lemma act_bind_throw {S A B} (m : act S A) (f : A -> act S B) s e s' : m s = (Throw e, s') -> (m ≫= f) s = (Throw e, s').
Proof. intros H. unfold mbind, act_bind. by rewrite H. Qed.
Lemma azoom_run {S T A} (get : S -> T) (set : T -> S -> S) (m : act T A) s r t : m (get s) = (r, t) -> azoom get set m s = (r, set t s).
Proof. intros H. unfold azoom. by rewrite H. Qed.

(** ** spdlog *)

Class SpdLog {J : JsonLib} : Type := {
  spd : Type;                                                (* registry, loggers, sinks *)
  spd_logger : Type;                                         (* std::shared_ptr<spdlog::logger> *)
  spd_sink : Type;                                           (* spdlog::sink_ptr *)
  registered : spd -> cstr -> option spd_logger;             (* spdlog::get(name) *)
  logger_name : spd_logger -> cstr;
  logger_level : spd -> spd_logger -> spd_level;             (* logger->level() *)
  logger_should_log : spd -> spd_logger -> spd_level -> bool;
  new_logger : cstr -> list spd_sink -> act spd spd_logger;  (* std::make_shared<spdlog::logger> *)
  register_logger : spd_logger -> act spd ();                (* spdlog::register_logger *)
  stdout_color_mt : cstr -> act spd spd_logger;              (* spdlog::stdout_color_mt *)
  logger_set_level : spd_logger -> spd_level -> spd -> spd;
  logger_set_pattern : spd_logger -> cstr -> spd -> spd;
  logger_flush_on : spd_logger -> spd_level -> spd -> spd;
  logger_flush : spd_logger -> spd -> spd;
  logger_log : spd_logger -> spd_level -> cstr -> spd -> spd;
  spd_set_level : spd_level -> spd -> spd;                   (* spdlog::set_level *)
  spd_shutdown : spd -> spd;                                 (* spdlog::shutdown *)
  new_console_sink : act spd spd_sink;
  new_rotating_sink : cstr -> Z -> Z -> act spd spd_sink;    (* path, size, files *)
  sink_set_level : spd_sink -> spd_level -> spd -> spd;
  sink_set_json : spd_sink -> JsonFormatter -> spd -> spd;   (* set_formatter *)
  sink_set_pattern : spd_sink -> cstr -> spd -> spd
}.

(** Two library states with the same registered loggers. *)
Definition same_registry `{SpdLog} (w w' : spd) : Prop := forall n, registered w' n = registered w n.
Definition same_levels `{SpdLog} (w w' : spd) : Prop := forall l, logger_level w' l = logger_level w l.

(** Documented behaviour: a name is registered at most once, and registering it again
    (which [stdout_color_mt] does too) throws; a logger passes what is at or above
    its level; the global level sets that of every registered logger; shutting down
    drops all loggers. *)
Class SpdLaws {J : JsonLib} (L : SpdLog) : Prop := {
  register_fresh : forall l w, registered w (logger_name l) = None -> exists w', register_logger l w = (Ret tt, w')
    /\ (forall n, registered w' n = if decide (n = logger_name l) then Some l else registered w n);
  register_taken : forall l w, registered w (logger_name l) <> None -> exists e w', register_logger l w = (Throw e, w') /\ same_registry w w';
  color_fresh : forall n w, registered w n = None -> exists l w', stdout_color_mt n w = (Ret l, w') /\ logger_name l = n
    /\ (forall n', registered w' n' = if decide (n' = n) then Some l else registered w n');
  color_taken : forall n w, registered w n <> None -> exists e w', stdout_color_mt n w = (Throw e, w') /\ same_registry w w';
  new_logger_spec : forall n ss w, exists l w', new_logger n ss w = (Ret l, w') /\ logger_name l = n /\ same_registry w w';
  should_log_spec : forall w l lv, logger_should_log w l lv = (level_num (logger_level w l) <=? level_num lv);
  set_level_spec : forall l lv w, let w' := logger_set_level l lv w in
    same_registry w w' /\ logger_level w' l = lv;
  set_pattern_frame : forall l p w, let w' := logger_set_pattern l p w in same_registry w w' /\ same_levels w w';
  flush_on_frame : forall l lv w, let w' := logger_flush_on l lv w in same_registry w w' /\ same_levels w w';
  flush_frame : forall l w, let w' := logger_flush l w in same_registry w w' /\ same_levels w w';
  log_frame : forall l lv s w, let w' := logger_log l lv s w in same_registry w w' /\ same_levels w w';
  global_level_spec : forall lv w, let w' := spd_set_level lv w in
    same_registry w w' /\ forall n l, registered w n = Some l -> logger_level w' l = lv;
  shutdown_spec : forall w n, registered (spd_shutdown w) n = None;
  console_sink_spec : forall w, exists s w', new_console_sink w = (Ret s, w') /\ same_registry w w';
  rotating_sink_frame : forall p size files w, same_registry w (snd (new_rotating_sink p size files w))
    /\ fst (new_rotating_sink p size files w) <> Undefined;
  sink_level_frame : forall s lv w, same_registry w (sink_set_level s lv w);
  sink_json_frame : forall s f w, same_registry w (sink_set_json s f w);
  sink_pattern_frame : forall s p w, same_registry w (sink_set_pattern s p w)
}.

(** ** Logger *)

Section Loggers.
Context {J : JsonLib} {L : SpdLog}.

Record Logger : Type := mkLogger { logger_ : spd_logger; name_ : cstr }.

Definition CONSOLE_PATTERN : cstr := $"[%Y-%m-%d %H:%M:%S.%e] [%n] [%^%l%$] %v".

Definition Logger_new (name : cstr) : act spd Logger :=
  l ← stdout_color_mt name;
  aput (logger_set_level l lv_info);;
  aput (logger_set_pattern l CONSOLE_PATTERN);;
  mret (mkLogger l name).

Definition set_level (self : Logger) (level : LogLevel) : act spd () := aput (logger_set_level (logger_ self) (to_spdlog_level level)).
Definition get_level (self : Logger) : act spd LogLevel := aget (fun w => of_spdlog_level (logger_level w (logger_ self))).
Definition should_log (self : Logger) (level : LogLevel) : act spd bool :=
  aget (fun w => logger_should_log w (logger_ self) (to_spdlog_level level)).

Definition log (self : Logger) (level : LogLevel) (message : cstr) (context : json) : act spd () :=
  enabled ← should_log self level;
  if negb enabled then mret tt
  else payload ← aof (log_payload message context); aput (logger_log (logger_ self) (to_spdlog_level level) payload).

Definition trace (self : Logger) := log self TRACE.
Definition debug (self : Logger) := log self DEBUG.
Definition info (self : Logger) := log self INFO.
Definition warn (self : Logger) := log self WARN.
Definition error (self : Logger) := log self ERROR.
Definition critical (self : Logger) := log self CRITICAL.

(** The templates that take a format string: the arguments are formatted, which may
    throw, only when the level is enabled. *)
Definition log_formatted (self : Logger) (level : LogLevel) (formatted : outcome cstr) : act spd () :=
  enabled ← should_log self level;
  if (enabled : bool) then message ← aof formatted; log self level message LogContext_new else mret tt.

Definition trace_formatted (self : Logger) := log_formatted self TRACE.
Definition debug_formatted (self : Logger) := log_formatted self DEBUG.
Definition info_formatted (self : Logger) := log_formatted self INFO.
Definition warn_formatted (self : Logger) := log_formatted self WARN.
Definition error_formatted (self : Logger) := log_formatted self ERROR.
Definition critical_formatted (self : Logger) := log_formatted self CRITICAL.
End Loggers.

(** ** Lemmas *)

Section LoggerLaws.
Context {J : JsonLib} {JL : JsonLaws J} {L : SpdLog} {SL : SpdLaws L}.

Lemma same_registry_refl w : same_registry w w.
Proof. done. Qed.
Lemma same_registry_trans w1 w2 w3 : same_registry w1 w2 -> same_registry w2 w3 -> same_registry w1 w3.
Proof. intros H1 H2 n. by rewrite H2. Qed.

(** A logger of a new name is registered and lets [info] and above pass; for a name
    that is taken the constructor throws. *)
Lemma Logger_new_spec name w :
  match registered w name with
  | None => exists l w', Logger_new name w = (Ret l, w') /\ name_ l = name /\ logger_level w' (logger_ l) = lv_info
      /\ (forall n, registered w' n = if decide (n = name) then Some (logger_ l) else registered w n)
  | Some _ => exists e w', Logger_new name w = (Throw e, w') /\ same_registry w w'
  end.
Proof.
  unfold Logger_new. destruct (registered w name) eqn:E.
  - destruct (color_taken name w) as (e & w' & H & Hs); [congruence|]. exists e, w'. split; [|done]. unfold mbind, act_bind. by rewrite H.
  - destruct (color_fresh name w E) as (l & w' & H & Hn & Hr). unfold mbind, act_bind. rewrite H. cbn.
    destruct (set_level_spec l lv_info w') as [R1 V1]. destruct (set_pattern_frame l CONSOLE_PATTERN (logger_set_level l lv_info w')) as [R2 V2].
    eexists _, _. split_and!; [done|done| |].
    + cbn. by rewrite V2.
    + intros n. by rewrite R2, R1, Hr.
Qed.

(** Logging touches no registration and no level, and writes nothing below the
    level. *)
Lemma log_spec self level message context w :
  let '(r, w') := log self level message context w in
  same_registry w w' /\ same_levels w w'
  /\ (logger_should_log w (logger_ self) (to_spdlog_level level) = false -> r = Ret tt /\ w' = w)
  /\ (logger_should_log w (logger_ self) (to_spdlog_level level) = true -> forall p, log_payload message context = Ret p ->
      r = Ret tt /\ w' = logger_log (logger_ self) (to_spdlog_level level) p w).
Proof.
  unfold log, should_log, aget, aput, aof, mbind, act_bind, mret, act_ret.
  destruct (logger_should_log w (logger_ self) (to_spdlog_level level)); cbn [negb].
  - destruct (log_payload message context) as [p| |]; [|by split_and!..].
    destruct (log_frame (logger_ self) (to_spdlog_level level) p w) as [H1 H2]. split_and!; [done..|]. by intros _ p' [= ->].
  - by split_and!.
Qed.
End LoggerLaws.

(** ** Properties *)

(** The level set is the level read back, and a message is written exactly when
    its level is at least the one set (nothing passes [OFF], which is above
    [CRITICAL]); a message below the level changes nothing and formats nothing. *)
Theorem logger_threshold {J : JsonLib} {JL : JsonLaws J} {L : SpdLog} {SL : SpdLaws L}
    (self : Logger) (level at_level : LogLevel) (message : cstr) (w : spd) :
  let w1 := snd (set_level self level w) in
  fst (get_level self w1) = Ret level
  /\ fst (should_log self at_level w1) = Ret (level_value level <=? level_value at_level)
  /\ log self at_level message LogContext_new w1
     = (Ret tt, if level_value level <=? level_value at_level
                then logger_log (logger_ self) (to_spdlog_level at_level) message w1 else w1)
  /\ (forall f, level_value at_level < level_value level -> log_formatted self at_level f w1 = (Ret tt, w1)).
Proof.
  cbn zeta. unfold set_level, aput. cbn [snd]. set (w1 := logger_set_level _ _ w).
  assert (V : logger_level w1 (logger_ self) = to_spdlog_level level) by apply set_level_spec.
  assert (S : logger_should_log w1 (logger_ self) (to_spdlog_level at_level) = (level_value level <=? level_value at_level))
    by (rewrite should_log_spec, V; by destruct level, at_level).
  split_and!.
  - cbn. by rewrite V, level_roundtrip.
  - cbn. by rewrite S.
  - pose proof (log_spec self at_level message LogContext_new w1) as H. destruct (log _ _ _ _ w1) as [r w']. destruct H as (_ & _ & Hoff & Hon).
    rewrite S in Hoff, Hon. destruct (level_value level <=? level_value at_level).
    + destruct (Hon eq_refl message) as [-> ->]; [|done]. unfold log_payload, LogContext_new. by rewrite null_is_empty.
    + by destruct (Hoff eq_refl) as [-> ->].
  - intros f Hlt. unfold log_formatted, should_log, aget, mbind, act_bind. rewrite S, (proj2 (Z.leb_gt _ _)) by done. done.
Qed.

(** ** An implementation

    A library that keeps names, levels and the lines written; it shows that the laws
    can hold and evaluates the examples. *)

Record mini_spd : Type := mkMini {
  regs : list (cstr * (nat * cstr));
  levels : list (nat * spd_level);
  fresh : nat;
  out : list (cstr * spd_level * cstr)
}.
Definition mini_empty : mini_spd := mkMini [] [] 0 [].

Fixpoint level_in (l : list (nat * spd_level)) (i : nat) : spd_level :=
  match l with [] => lv_info | (j, lv) :: l' => if decide (i = j) then lv else level_in l' i end.

Definition mini_register (l : nat * cstr) (w : mini_spd) : outcome () * mini_spd :=
  match assoc (snd l) (regs w) with
  | Some _ => (Throw (library_error "logger already exists"), w)
  | None => (Ret tt, mkMini ((snd l, l) :: regs w) (levels w) (fresh w) (out w))
  end.
Definition mini_new (n : cstr) (w : mini_spd) : nat * cstr * mini_spd :=
  ((fresh w, n), mkMini (regs w) (levels w) (S (fresh w)) (out w)).
Definition mini_color (n : cstr) (w : mini_spd) : outcome (nat * cstr) * mini_spd :=
  let '(l, w1) := mini_new n w in
  match mini_register l w1 with
  | (Ret _, w2) => (Ret l, w2)
  | (Throw e, w2) => (Throw e, w2)
  | (Undefined, w2) => (Undefined, w2)
  end.
Definition mini_levels (ls : list (nat * spd_level)) (w : mini_spd) : mini_spd := mkMini (regs w) (ls ++ levels w) (fresh w) (out w).

#[export] Instance mini {J : JsonLib} : SpdLog := {|
  spd := mini_spd; spd_logger := nat * cstr; spd_sink := nat;
  registered := fun w n => assoc n (regs w);
  logger_name := snd;
  logger_level := fun w l => level_in (levels w) (fst l);
  logger_should_log := fun w l lv => level_num (level_in (levels w) (fst l)) <=? level_num lv;
  new_logger := fun n _ w => let '(l, w1) := mini_new n w in (Ret l, w1);
  register_logger := mini_register;
  stdout_color_mt := mini_color;
  logger_set_level := fun l lv w => mini_levels [(fst l, lv)] w;
  logger_set_pattern := fun _ _ w => w;
  logger_flush_on := fun _ _ w => w;
  logger_flush := fun _ w => w;
  logger_log := fun l lv s w => mkMini (regs w) (levels w) (fresh w) (out w ++ [(snd l, lv, s)]);
  spd_set_level := fun lv w => mini_levels (map (fun kv => (fst (snd kv), lv)) (regs w)) w;
  spd_shutdown := fun w => mkMini [] (levels w) (fresh w) (out w);
  new_console_sink := fun w => (Ret O, w);
  new_rotating_sink := fun p _ _ w => (match p with [] => Throw (library_error "cannot open file") | _ => Ret 1%nat end, w);
  sink_set_level := fun _ _ w => w;
  sink_set_json := fun _ _ w => w;
  sink_set_pattern := fun _ _ w => w
|}.

Lemma level_in_all (l : list (cstr * (nat * cstr))) lv rest n p :
  assoc n l = Some p -> level_in (map (fun kv => (fst (snd kv), lv)) l ++ rest) (fst p) = lv.
Proof. induction l as [|[k q] l IH]; [done|]. cbn. case_decide; intros E; simplify_eq; case_decide; auto. congruence. Qed.

#[export] Instance mini_laws {J : JsonLib} : SpdLaws mini.
Proof.
  constructor; try done.
  - intros [i n] w H. cbn in *. unfold mini_register. cbn. rewrite H. by eexists.
  - intros [i n] w H. cbn in *. unfold mini_register. cbn. destruct (assoc n (regs w)); [|done]. by do 2 eexists.
  - intros n w H. cbn in *. unfold mini_color, mini_register. cbn. rewrite H. by do 2 eexists.
  - intros n w H. cbn in *. unfold mini_color, mini_register. cbn. destruct (assoc n (regs w)); [|done]. by do 2 eexists.
  - intros n ss w. by do 2 eexists.
  - intros l lv w. cbn. split; [done|]. by rewrite decide_True.
  - intros lv w. cbn. split; [done|]. intros n l H. by eapply level_in_all.
  - intros w. by do 2 eexists.
  - intros p size files w. cbn. split; [done|]. by destruct p.
Qed.

(** ** Witnesses *)

Lemma logger_threshold_witness :
  log (J := table_json []) (mkLogger (L := mini) (O, $"app") $"app") ERROR $"disk full" LogContext_new
    (snd (set_level (mkLogger (L := mini) (O, $"app") $"app") WARN mini_empty))
  = (Ret tt, mkMini [] [(O, lv_warn)] 0 [($"app", lv_err, $"disk full")]).
Proof. apply (logger_threshold (J := table_json []) (mkLogger (L := mini) (O, $"app") $"app") WARN ERROR $"disk full" mini_empty). Defined.
