(* ===== verification/LogManager.v ===== *)
(** * LogManager: the logging system (logging/log_manager.cpp, initialisation in
    logging/config_loader.cpp)

    The singleton [LogManager] with its table of loggers and its sinks, on the
    library interface of Logger.v.  Its mutex is never taken twice by a thread: the
    public functions call each other without it.  The answer of the file system to
    [create_directories] is the argument [mkdir]. *)

From stdpp Require Import base list gmap numbers strings.
From Stdlib Require Import ZArith Lia Ascii.
From S2P Require Import Prelude CString Streams Strtod Effects Json HttpServer HttpProps JsonTable LogConfig LogFormat Logger.

(** ** Paths (POSIX) *)

(** [path(dir) / file]. *)
Definition path_join (dir file : cstr) : cstr :=
  match file with
  | "/"%char :: _ => file
  | _ => match rev dir with
         | [] => file
         | "/"%char :: _ => dir ++ file
         | _ => dir ++ $"/" ++ file
         end
  end.

(** [path.extension()]: from the last dot of the file name, which is not its first
    character. *)
Definition path_extension (path : cstr) : cstr :=
  let f := fst (break_at (Ascii.eqb "/") (rev path)) in
  let '(e, r) := break_at (Ascii.eqb ".") f in
  if bool_decide (f = $"..") then []
  else match r with [] | [_] => [] | _ => "."%char :: rev e end.

Section Manager.
Context {J : JsonLib} {L : SpdLog} {order : IterOrder}.

Record LogManager : Type := mkManager {
  config_ : LogConfig;
  initialized_ : bool;
  loggers_ : gmap cstr Logger;
  sinks_ : list spd_sink;
  console_sink_ : option spd_sink;
  file_sink_ : option spd_sink
}.
(** The fields of [LogConfig] have initialisers. *)
Definition default_config : LogConfig :=
  mkLogConfig INFO DEBUG $"logs" $"chainforge.log" (10 * 1024 * 1024) 5 true true true false false json_null.
Definition LogManager_new : LogManager := mkManager default_config false ∅ [] None None.

Record log_world : Type := mkLogWorld { lib : spd; mgr : LogManager }.
Abbreviation lm := (act log_world).

Definition on_lib {A} (m : act spd A) : lm A := azoom lib (fun t s => mkLogWorld t (mgr s)) m.
Definition on_mgr (f : LogManager -> LogManager) : lm () := aput (fun s => mkLogWorld (lib s) (f (mgr s))).

Definition with_config (c : LogConfig) (m : LogManager) : LogManager :=
  mkManager c (initialized_ m) (loggers_ m) (sinks_ m) (console_sink_ m) (file_sink_ m).
Definition with_initialized (b : bool) (m : LogManager) : LogManager :=
  mkManager (config_ m) b (loggers_ m) (sinks_ m) (console_sink_ m) (file_sink_ m).
Definition with_loggers (l : gmap cstr Logger) (m : LogManager) : LogManager :=
  mkManager (config_ m) (initialized_ m) l (sinks_ m) (console_sink_ m) (file_sink_ m).
Definition with_sinks (ss : list spd_sink) (m : LogManager) : LogManager :=
  mkManager (config_ m) (initialized_ m) (loggers_ m) ss (console_sink_ m) (file_sink_ m).
Definition with_console (s : option spd_sink) (m : LogManager) : LogManager :=
  mkManager (config_ m) (initialized_ m) (loggers_ m) (sinks_ m) s (file_sink_ m).
Definition with_file (s : option spd_sink) (m : LogManager) : LogManager :=
  mkManager (config_ m) (initialized_ m) (loggers_ m) (sinks_ m) (console_sink_ m) s.

(** ** Sinks *)

Definition FILE_PATTERN : cstr := $"[%Y-%m-%d %H:%M:%S.%e] [%n] [%l] %v".

Fixpoint add_fields (l : list (cstr * json)) (f : JsonFormatter) : outcome JsonFormatter :=
  match l with [] => Ret f | (k, v) :: l' => f ← add_global_field k v f; add_fields l' f end.

(** The formatter of a sink: the JSON formatter with the global fields, or a
    pattern. *)
Definition set_sink_formatter (s : spd_sink) (c : LogConfig) (pretty : bool) (pattern : cstr) : lm () :=
  if enable_json_format c then
    json_formatter ← aof (JsonFormatter_new pretty);
    json_formatter ← aof (add_fields (json_items (global_fields c)) json_formatter);
    on_lib (aput (sink_set_json s json_formatter))
  else on_lib (aput (sink_set_pattern s pattern)).

Definition create_console_sink : lm () :=
  c ← aget (fun w => config_ (mgr w));
  if enable_console_output c then
    s ← on_lib new_console_sink;
    on_mgr (with_console (Some s));;
    on_lib (aput (sink_set_level s (to_spdlog_level (console_level c))));;
    set_sink_formatter s c (pretty_print_console c) CONSOLE_PATTERN;;
    on_mgr (fun m => with_sinks (sinks_ m ++ [s]) m)
  else mret tt.

Definition create_file_sink : lm () :=
  c ← aget (fun w => config_ (mgr w));
  if enable_file_output c then
    let log_path := path_join (log_directory c) (log_file_pattern c) in
    s ← on_lib (new_rotating_sink log_path (max_file_size c) (max_files c));
    on_mgr (with_file (Some s));;
    on_lib (aput (sink_set_level s (to_spdlog_level (file_level c))));;
    set_sink_formatter s c (pretty_print_file c) FILE_PATTERN;;
    on_mgr (fun m => with_sinks (sinks_ m ++ [s]) m)
  else mret tt.

Definition create_sinks : lm () := on_mgr (with_sinks []);; create_console_sink;; create_file_sink.

(** ** Life cycle *)

Definition global_level (c : LogConfig) : spd_level :=
  min_level (to_spdlog_level (console_level c)) (to_spdlog_level (file_level c)).

Definition initialize (mkdir : cstr -> outcome ()) (config : LogConfig) : lm () :=
  on_mgr (with_config config);;
  (if enable_file_output config then aof (mkdir (log_directory config)) else mret tt);;
  create_sinks;;
  on_mgr (with_loggers ∅);;
  on_lib (aput (spd_set_level (global_level config)));;
  on_mgr (with_initialized true).

Definition update_config (mkdir : cstr -> outcome ()) (config : LogConfig) : lm () := initialize mkdir config.

(** A loop over the table; the pointers it tests are never null. *)
Definition each_logger (f : spd_logger -> spd -> spd) : lm () :=
  ls ← aget (fun w => iter (loggers_ (mgr w)));
  aeach (fun kv : cstr * Logger => on_lib (aput (f (logger_ (snd kv))))) ls.

Definition shutdown : lm () :=
  each_logger logger_flush;;
  on_lib (aput spd_shutdown);;
  on_mgr (with_loggers ∅);;
  on_mgr (with_sinks []);;
  on_mgr (with_console None);;
  on_mgr (with_file None);;
  on_mgr (with_initialized false).

Definition setup_logger (c : LogConfig) (l : spd_logger) : lm () :=
  on_lib (aput (logger_set_level l (global_level c)));;
  on_lib (aput (logger_flush_on l lv_err));;
  on_lib (register_logger l).

(** The assignment to [logger->spdlog_logger()] writes a temporary: the function
    returns its pointer by value. *)
Definition get_logger (name : cstr) : lm Logger :=
  ls ← aget (fun w => loggers_ (mgr w));
  match ls !! name with
  | Some l => mret l
  | None =>
      c ← aget (fun w => config_ (mgr w));
      ss ← aget (fun w => sinks_ (mgr w));
      spdlog_logger ← on_lib (new_logger name ss);
      setup_logger c spdlog_logger;;
      l ← on_lib (Logger_new name);
      on_mgr (fun m => with_loggers (<[name := l]> (loggers_ m)) m);;
      mret l
  end.

Definition set_global_level (level : LogLevel) : lm () :=
  let spdlog_level := to_spdlog_level level in
  on_lib (aput (spd_set_level spdlog_level));;
  each_logger (fun l => logger_set_level l spdlog_level).

Definition flush_all : lm () := each_logger logger_flush.

Definition get_performance_logger : lm Logger := get_logger $"performance".
Definition get_default_logger : lm Logger := get_logger $"chainforge".

(** ** Initialisation from a file *)

Definition initialize_logging_with_defaults (mkdir : cstr -> outcome ()) : lm bool :=
  atry (config ← aof create_default; initialize mkdir config;; mret true) (fun _ => mret false).

(** [file] is the text of [config_file], [None] when it cannot be opened. *)
Definition load_config (config_file : cstr) (file : option cstr) : outcome LogConfig :=
  extension ← tolower (path_extension config_file);
  if bool_decide (extension = $".yaml") || bool_decide (extension = $".yml") then load_from_yaml file config_file
  else if bool_decide (extension = $".json") then load_from_json_file file config_file
  else Throw (runtime_error (String.append "Unsupported config file format: " (String.string_of_list_ascii extension))).

Definition initialize_logging_from_config (mkdir : cstr -> outcome ()) (config_file : cstr) (file : option cstr) : lm bool :=
  atry (config ← aof (load_config config_file file); initialize mkdir config;; mret true)
    (fun _ => initialize_logging_with_defaults mkdir).
End Manager.

(** ** Invariants of computations *)

Section Keeps.
Context {S : Type} (I : S -> Prop).

(** [keeps m]: whatever [m] does, return or throw, the invariant stays. *)
Definition keeps {A} (m : act S A) : Prop := forall w, I w -> I (snd (m w)).

Lemma act_keeps_ret {A} (a : A) : keeps (mret a).
Proof. by intros w. Qed.
Lemma act_keeps_bind {A B} (m : act S A) (f : A -> act S B) : keeps m -> (forall a, keeps (f a)) -> keeps (m ≫= f).
Proof.
  intros Hm Hf w Hw. unfold mbind, act_bind. specialize (Hm w Hw). destruct (m w) as [[a|e|] w']; cbn in *; [by apply Hf|done|done].
Qed.
Lemma act_keeps_get {A} (f : S -> A) : keeps (aget f).
Proof. by intros w. Qed.
Lemma act_keeps_of {A} (m : outcome A) : keeps (aof m).
Proof. by intros w. Qed.
Lemma act_keeps_put (f : S -> S) : (forall w, I w -> I (f w)) -> keeps (aput f).
Proof. intros H w Hw. by apply H. Qed.
Lemma act_keeps_try {A} (m : act S A) h : keeps m -> (forall e, keeps (h e)) -> keeps (atry m h).
Proof. intros Hm Hh w Hw. unfold atry. specialize (Hm w Hw). destruct (m w) as [[a|e|] w']; cbn in *; [done|by apply Hh|done]. Qed.
Lemma act_keeps_each {X} (body : X -> act S ()) l : (forall x, keeps (body x)) -> keeps (aeach body l).
Proof. intros Hb. induction l as [|x l IH]; [by apply act_keeps_ret|]. cbn. by apply act_keeps_bind. Qed.
Lemma act_keeps_if {A} (b : bool) (m n : act S A) : keeps m -> keeps n -> keeps (if b then m else n).
Proof. by destruct b. Qed.
End Keeps.
Create HintDb keepdb.
#[export] Hint Resolve act_keeps_ret act_keeps_bind act_keeps_get act_keeps_of act_keeps_try act_keeps_each act_keeps_if : keepdb.

Section ManagerLaws.
Context {J : JsonLib} {JL : JsonLaws J} {L : SpdLog} {SL : SpdLaws L} {order : IterOrder}.

Definition no_loggers (w : log_world) : Prop := loggers_ (mgr w) = ∅.

Lemma act_keeps_lib {A} (m : act spd A) : keeps no_loggers (on_lib m).
Proof. intros w Hw. unfold on_lib, azoom. by destruct (m (lib w)). Qed.
Lemma act_keeps_mgr (f : LogManager -> LogManager) :
  (forall m, loggers_ (f m) = loggers_ m \/ loggers_ (f m) = ∅) -> keeps no_loggers (on_mgr f).
Proof. intros H. apply act_keeps_put. intros w Hw. unfold no_loggers in *. cbn. destruct (H (mgr w)) as [->| ->]; done. Qed.
Hint Resolve act_keeps_lib : keepdb.
Hint Extern 2 (keeps no_loggers (on_mgr _)) => (apply act_keeps_mgr; intros; cbn; by auto) : keepdb.

Lemma initialize_keeps mkdir config : keeps no_loggers (initialize mkdir config).
Proof. unfold initialize, create_sinks, create_console_sink, create_file_sink, set_sink_formatter. auto 20 with keepdb. Qed.
Lemma each_logger_keeps f : keeps no_loggers (each_logger f).
Proof. unfold each_logger. auto 20 with keepdb. Qed.
Hint Resolve initialize_keeps each_logger_keeps : keepdb.
Lemma shutdown_keeps : keeps no_loggers shutdown.
Proof. unfold shutdown. auto 20 with keepdb. Qed.
Lemma global_level_keeps level : keeps no_loggers (set_global_level level).
Proof. unfold set_global_level. auto 20 with keepdb. Qed.
Lemma from_config_keeps mkdir name file : keeps no_loggers (initialize_logging_from_config mkdir name file).
Proof. unfold initialize_logging_from_config, initialize_logging_with_defaults. auto 20 with keepdb. Qed.

(** A name without a logger: either it is registered with the library already, or
    registering the new logger takes it before the constructor of [Logger] does. *)
Lemma get_logger_throws name w :
  loggers_ (mgr w) !! name = None ->
  exists e w', get_logger name w = (Throw e, w') /\ mgr w' = mgr w /\ registered (lib w') name <> None.
Proof.
  intros Hn. unfold get_logger, setup_logger, on_lib, azoom, aget, aput, mbind, act_bind. rewrite Hn.
  destruct (new_logger_spec name (sinks_ (mgr w)) (lib w)) as (l & w1 & E1 & Hl & R1). rewrite E1. cbn.
  set (c := config_ (mgr w)). destruct (set_level_spec l (global_level c) w1) as [R2 _].
  set (w2 := logger_set_level l (global_level c) w1) in *. destruct (flush_on_frame l lv_err w2) as [R3 _].
  set (w3 := logger_flush_on l lv_err w2) in *.
  assert (R : forall n, registered w3 n = registered (lib w) n) by (intros n; by rewrite R3, R2, R1).
  destruct (registered w3 name) as [l'|] eqn:E.
  - destruct (register_taken l w3) as (e & w4 & E4 & R4); [by rewrite Hl, E|]. rewrite E4. cbn. do 2 eexists. split_and!; [done|done|].
    cbn. by rewrite R4, E.
  - destruct (register_fresh l w3) as (w4 & E4 & R4); [by rewrite Hl|]. rewrite E4. cbn.
    pose proof (Logger_new_spec name w4) as H. rewrite R4, Hl, decide_True in H by done. destruct H as (e & w5 & E5 & R5).
    rewrite E5. cbn. do 2 eexists. split_and!; [done|done|]. cbn. by rewrite R5, R4, Hl, decide_True.
Qed.

Lemma get_logger_keeps name : keeps no_loggers (get_logger name).
Proof.
  intros w Hw. destruct (get_logger_throws name w) as (e & w' & E & Hm & _); [by rewrite Hw|]. rewrite E. unfold no_loggers. cbn. by rewrite Hm.
Qed.
End ManagerLaws.

(** ** Runs *)

(** The calls of a program on the logging system; a program goes on after an
    exception. *)
Inductive log_call {J : JsonLib} {L : SpdLog} : Type :=
  | CInitialize (mkdir : cstr -> outcome ()) (config : LogConfig)
  | CFromConfig (mkdir : cstr -> outcome ()) (config_file : cstr) (file : option cstr)
  | CShutdown
  | CGetLogger (name : cstr)
  | CGlobalLevel (level : LogLevel)
  | CFlushAll
  | CNewLogger (name : cstr)
  | CLog (l : Logger) (level : LogLevel) (message : cstr) (context : json).

Section Runs.
Context {J : JsonLib} {L : SpdLog} {order : IterOrder}.

Definition run_call (c : log_call) : act log_world () :=
  match c with
  | CInitialize mkdir config => initialize mkdir config
  | CFromConfig mkdir name file => initialize_logging_from_config mkdir name file;; mret tt
  | CShutdown => shutdown
  | CGetLogger name => get_logger name;; mret tt
  | CGlobalLevel level => set_global_level level
  | CFlushAll => flush_all
  | CNewLogger name => on_lib (Logger_new name);; mret tt
  | CLog l level message context => on_lib (log l level message context)
  end.

Definition run_calls (cs : list log_call) (w : log_world) : log_world := fold_left (fun w c => snd (run_call c w)) cs w.

Lemma run_calls_keeps {JL : JsonLaws J} {SL : SpdLaws L} cs w : no_loggers w -> no_loggers (run_calls cs w).
Proof.
  revert w. induction cs as [|c cs IH]; intros w Hw; [done|]. cbn. apply IH. revert w Hw. change (keeps no_loggers (run_call c)).
  destruct c; cbn [run_call]; unfold flush_all;
    eauto 10 using initialize_keeps, from_config_keeps, shutdown_keeps, get_logger_keeps, global_level_keeps, each_logger_keeps, act_keeps_lib with keepdb.
Qed.
End Runs.

(** ** Properties *)

(** C30: Whatever a program does with the logging system, the table of loggers stays
    empty and [get_logger] throws for every name: it registers the logger it makes
    with spdlog and then constructs a [Logger], which registers the same name again.
    The name stays registered with the library. *)
Theorem get_logger_never_returns {J : JsonLib} {JL : JsonLaws J} {L : SpdLog} {SL : SpdLaws L} {order : IterOrder}
    (cs : list log_call) (w0 : spd) (name : cstr) :
  let w := run_calls cs (mkLogWorld w0 LogManager_new) in
  loggers_ (mgr w) = ∅ /\ exists e w', get_logger name w = (Throw e, w') /\ mgr w' = mgr w /\ registered (lib w') name <> None.
Proof.
  intros w. assert (Hw : no_loggers w) by (by apply run_calls_keeps). split; [exact Hw|]. apply get_logger_throws. by rewrite Hw.
Qed.

(** ** Initialisation *)

Section Initialise.
Context {J : JsonLib} {JL : JsonLaws J} {L : SpdLog} {SL : SpdLaws L}.

(** [only_sinks w w']: same registrations, and of the manager only the sinks may
    differ. *)
Definition only_sinks (w w' : log_world) : Prop :=
  same_registry (lib w) (lib w') /\ config_ (mgr w') = config_ (mgr w)
  /\ initialized_ (mgr w') = initialized_ (mgr w) /\ loggers_ (mgr w') = loggers_ (mgr w).

Lemma only_sinks_trans w1 w2 w3 : only_sinks w1 w2 -> only_sinks w2 w3 -> only_sinks w1 w3.
Proof.
  intros (R1 & C1 & I1 & L1) (R2 & C2 & I2 & L2). split_and!; [by eapply same_registry_trans|congruence..].
Qed.

Lemma add_fields_ok l f : formatter_ok f -> exists f', add_fields l f = Ret f' /\ formatter_ok f'.
Proof.
  revert f. induction l as [|[k v] l IH]; intros f Hf; [by exists f|]. cbn [add_fields].
  destruct (add_field_ok k v f Hf) as (f1 & E & Hf1 & _). rewrite E. cbn [mbind outcome_bind]. by apply IH.
Qed.

Lemma set_sink_formatter_ok s c pretty pattern w :
  exists w', set_sink_formatter s c pretty pattern w = (Ret tt, w') /\ mgr w' = mgr w /\ same_registry (lib w) (lib w').
Proof.
  unfold set_sink_formatter, on_lib, azoom, aof, aput, mbind, act_bind. destruct (enable_json_format c).
  - destruct (formatter_new_ok pretty) as (f & E & Hf & _). rewrite E. destruct (add_fields_ok (json_items (global_fields c)) f Hf) as (f' & E' & _).
    rewrite E'. eexists. split_and!; [done|done|]. apply sink_json_frame.
  - eexists. split_and!; [done|done|]. apply sink_pattern_frame.
Qed.

(** What follows the creation of a sink. *)
Lemma finish_sink_ok s lv c pretty pattern (f : LogManager -> LogManager) w :
  (forall m, config_ (f m) = config_ m /\ initialized_ (f m) = initialized_ m /\ loggers_ (f m) = loggers_ m /\ sinks_ (f m) = sinks_ m) ->
  exists w', (on_mgr f;; on_lib (aput (sink_set_level s lv));; set_sink_formatter s c pretty pattern;;
              on_mgr (fun m => with_sinks (sinks_ m ++ [s]) m)) w = (Ret tt, w')
  /\ only_sinks w w' /\ sinks_ (mgr w') = sinks_ (mgr w) ++ [s].
Proof.
  intros Hf. destruct (Hf (mgr w)) as (F1 & F2 & F3 & F4).
  destruct (set_sink_formatter_ok s c pretty pattern (mkLogWorld (sink_set_level s lv (lib w)) (f (mgr w)))) as (w' & E & M & R). cbn in M, R.
  unfold mbind, act_bind. cbn. unfold mbind, act_bind in E. rewrite E. cbn. eexists. split; [done|]. unfold only_sinks. cbn. rewrite M, F1, F2, F3, F4.
  split; [|done]. split; [|done]. eapply same_registry_trans; [apply sink_level_frame|exact R].
Qed.

Lemma console_sink_ok w :
  exists w', create_console_sink w = (Ret tt, w') /\ only_sinks w w'
  /\ length (sinks_ (mgr w')) = (length (sinks_ (mgr w)) + if enable_console_output (config_ (mgr w)) then 1 else 0)%nat.
Proof.
  unfold create_console_sink. unfold aget. unfold mbind at 1, act_bind at 1. set (c := config_ (mgr w)).
  destruct (enable_console_output c).
  - destruct (console_sink_spec (lib w)) as (s & w1 & E & R). unfold mbind at 1, act_bind at 1. unfold on_lib at 1, azoom at 1. rewrite E.
    destruct (finish_sink_ok s (to_spdlog_level (console_level c)) c (pretty_print_console c) CONSOLE_PATTERN (with_console (Some s)) (mkLogWorld w1 (mgr w)))
      as (w' & E' & O & S); [done|]. rewrite E'. exists w'. split; [done|]. split; [|rewrite S, length_app; done].
    eapply only_sinks_trans; [|exact O]. by split_and!.
  - exists w. split_and!; [done|by split_and!|lia].
Qed.

Lemma file_sink_ok w :
  let '(r, w') := create_file_sink w in
  only_sinks w w'
  /\ match r with
     | Ret _ => length (sinks_ (mgr w')) = (length (sinks_ (mgr w)) + if enable_file_output (config_ (mgr w)) then 1 else 0)%nat
     | Throw _ => enable_file_output (config_ (mgr w)) = true
     | Undefined => False
     end.
Proof.
  unfold create_file_sink. unfold aget. unfold mbind at 1, act_bind at 1. set (c := config_ (mgr w)).
  destruct (enable_file_output c); [|cbn; split; [by split_and!|lia]].
  destruct (rotating_sink_frame (path_join (log_directory c) (log_file_pattern c)) (max_file_size c) (max_files c) (lib w)) as [R D].
  unfold mbind at 1, act_bind at 1. unfold on_lib at 1, azoom at 1. destruct (new_rotating_sink _ _ _ (lib w)) as [[s|e|] w1]; [|by split_and!|done].
  destruct (finish_sink_ok s (to_spdlog_level (file_level c)) c (pretty_print_file c) FILE_PATTERN (with_file (Some s)) (mkLogWorld w1 (mgr w)))
    as (w' & E' & O & S); [done|]. rewrite E'. split; [|rewrite S, length_app; done]. eapply only_sinks_trans; [|exact O]. by split_and!.
Qed.
End Initialise.

(** The run of [initialize]. *)
Lemma initialize_run {J : JsonLib} {JL : JsonLaws J} {L : SpdLog} {SL : SpdLaws L}
    (mkdir : cstr -> outcome ()) (config : LogConfig) (w : log_world) :
  (forall d, mkdir d <> Undefined) ->
  let '(r, w') := initialize mkdir config w in
  config_ (mgr w') = config /\ same_registry (lib w) (lib w')
  /\ match r with
     | Ret _ =>
         initialized_ (mgr w') = true /\ loggers_ (mgr w') = ∅
         /\ length (sinks_ (mgr w')) = ((if enable_console_output config then 1 else 0) + (if enable_file_output config then 1 else 0))%nat
         /\ forall n l, registered (lib w') n = Some l -> logger_level (lib w') l = global_level config
     | Throw _ => enable_file_output config = true /\ initialized_ (mgr w') = initialized_ (mgr w) /\ loggers_ (mgr w') = loggers_ (mgr w)
     | Undefined => False
     end.
Proof.
  intros Hd. unfold initialize. set (w0 := mkLogWorld (lib w) (with_config config (mgr w))).
  unfold mbind at 1, act_bind at 1. change (on_mgr (with_config config) w) with (Ret tt, w0). cbv beta iota.
  unfold mbind at 1, act_bind at 1.
  assert (Hm : (if enable_file_output config then aof (mkdir (log_directory config)) else mret tt) w0 = (Ret tt, w0)
    \/ exists e, (if enable_file_output config then aof (mkdir (log_directory config)) else mret tt) w0 = (Throw e, w0) /\ enable_file_output config = true).
  { destruct (enable_file_output config); [|by left]. unfold aof. specialize (Hd (log_directory config)).
    destruct (mkdir _) as [[]|e|]; [by left|right; by exists e|done]. }
  destruct Hm as [-> | (e & -> & He)]; cbv beta iota; [|by split_and!].
  unfold create_sinks. unfold mbind at 1, act_bind at 1. unfold mbind at 1, act_bind at 1.
  set (w1 := mkLogWorld (lib w) (with_sinks [] (with_config config (mgr w)))). change (on_mgr (with_sinks []) w0) with (Ret tt, w1). cbv beta iota.
  destruct (console_sink_ok w1) as (w2 & E2 & (R2 & C2 & I2 & L2) & S2). unfold mbind at 1, act_bind at 1. rewrite E2. cbv beta iota.
  pose proof (file_sink_ok w2) as H3. destruct (create_file_sink w2) as [[[]|e|] w3]; destruct H3 as ((R3 & C3 & I3 & L3) & S3); [| |done].
  - unfold mbind, act_bind. cbn. destruct (global_level_spec (global_level config) (lib w3)) as [R4 V4]. split_and!.
    + by rewrite C3, C2.
    + intros n. by rewrite R4, R3, R2.
    + done.
    + done.
    + rewrite S3, S2, C2. done.
    + intros n l Hn. rewrite R4 in Hn. by eapply V4.
  - cbn. split_and!; [by rewrite C3, C2| | | |].
    + intros n. by rewrite R3, R2.
    + by rewrite C2 in S3.
    + by rewrite I3, I2.
    + by rewrite L3, L2.
Qed.

(** Initialising with the defaults always answers, and leaves no logger where there
    was none. *)
Lemma create_default_ok {J : JsonLib} {JL : JsonLaws J} : exists c, create_default = Ret c.
Proof.
  unfold create_default, default_fields. destruct (assign_step $"service" (json_string $"chainforge") json_null) as (j & E & O & _); [by left|].
  rewrite E. cbn [mbind outcome_bind]. destruct (assign_step $"version" (json_string $"1.0.0") j) as (j' & E' & _); [by right|].
  rewrite E'. by eexists.
Qed.
Lemma defaults_answer {J : JsonLib} {JL : JsonLaws J} {L : SpdLog} {SL : SpdLaws L} (mkdir : cstr -> outcome ()) (w : log_world) :
  (forall d, mkdir d <> Undefined) -> no_loggers w -> exists b w', initialize_logging_with_defaults mkdir w = (Ret b, w') /\ no_loggers w'.
Proof.
  intros Hd Hw. assert (K : keeps no_loggers (initialize_logging_with_defaults mkdir)).
  { unfold initialize_logging_with_defaults. auto 20 using initialize_keeps with keepdb. }
  specialize (K w Hw). revert K. unfold initialize_logging_with_defaults, atry, aof, mbind, act_bind, mret, act_ret.
  destruct create_default_ok as [c ->]. pose proof (initialize_run mkdir c w Hd) as H.
  destruct (initialize mkdir c w) as [[[]|e|] w']; cbn; [by eauto|by eauto|]. by destruct H as (_ & _ & []).
Qed.

(** The level the manager sets is the lower one of the console's and the file's, as
    numbers. *)
Lemma global_level_num {J : JsonLib} (c : LogConfig) :
  level_num (global_level c) = Z.min (level_value (console_level c)) (level_value (file_level c)).
Proof. unfold global_level. by destruct (console_level c), (file_level c). Qed.

(** C31: Initialisation stores the configuration.  It fails only where file output is
    enabled (the directory or the file cannot be made), and then leaves the loggers and
    the [initialized_] flag as they were; otherwise there is one sink per enabled
    output, the table of loggers is empty, and every logger registered with the
    library has as its level the lower one of the two configured levels, the console's
    and the file's, whether or not the two outputs are enabled.  Making the directory is
    a parameter that returns or throws. *)
Theorem initialize_outcome {J : JsonLib} {JL : JsonLaws J} {L : SpdLog} {SL : SpdLaws L}
    (mkdir : cstr -> outcome ()) (config : LogConfig) (w : log_world) :
  (forall d, mkdir d <> Undefined) ->
  let '(r, w') := initialize mkdir config w in
  config_ (mgr w') = config /\ same_registry (lib w) (lib w')
  /\ match r with
     | Ret _ =>
         initialized_ (mgr w') = true /\ loggers_ (mgr w') = ∅
         /\ length (sinks_ (mgr w')) = ((if enable_console_output config then 1 else 0) + (if enable_file_output config then 1 else 0))%nat
         /\ forall n l, registered (lib w') n = Some l -> level_num (logger_level (lib w') l) = Z.min (level_value (console_level config)) (level_value (file_level config))
     | Throw _ => enable_file_output config = true /\ initialized_ (mgr w') = initialized_ (mgr w) /\ loggers_ (mgr w') = loggers_ (mgr w)
     | Undefined => False
     end.
Proof.
  intros Hd. pose proof (initialize_run mkdir config w Hd) as H. destruct (initialize mkdir config w) as [r w'].
  destruct H as (Hc & Hr & H). split; [done|]. split; [done|]. destruct r as [[]| |]; [|done|done].
  destruct H as (Hi & Hl & Hs & Hv). split_and!; [done..|]. intros n l Hn. rewrite (Hv n l Hn). apply global_level_num.
Qed.

(** ** Witnesses *)

Definition demo_log : LogConfig (J := table_json []) := default_config.
Definition demo_world : log_world (J := table_json []) := mkLogWorld (L := mini) mini_empty LogManager_new.
Definition demo_calls : list (log_call (J := table_json [])) :=
  [CInitialize (L := mini) (fun _ => Ret tt) demo_log; CGetLogger $"app"; CGlobalLevel WARN; CFlushAll].

(** After an initialisation and a first attempt the name [app] is taken for good. *)
Lemma get_logger_never_returns_witness :
  exists e w', get_logger (J := table_json []) (L := mini) $"app" (run_calls (order := map_order) demo_calls demo_world) = (Throw e, w').
Proof.
  destruct (get_logger_never_returns (J := table_json []) (L := mini) (order := map_order) demo_calls mini_empty $"app") as [_ (e & w' & H & _)].
  exists e, w'. exact H.
Defined.

Lemma initialize_outcome_witness :
  exists w', initialize (J := table_json []) (L := mini) (fun _ => Ret tt) demo_log demo_world = (Ret tt, w')
  /\ length (sinks_ (mgr w')) = 2%nat.
Proof.
  pose proof (initialize_outcome (J := table_json []) (L := mini) (fun _ => Ret tt) demo_log demo_world ltac:(discriminate)) as H.
  assert (E : returns (fst (initialize (J := table_json []) (L := mini) (fun _ => Ret tt) demo_log demo_world)) = true) by reflexivity.
  destruct (initialize (fun _ => Ret tt) demo_log demo_world) as [[[]|e|] w']; [|done|done].
  exists w'. split; [reflexivity|]. apply H.
Defined.

Example extensions :
  path_extension $"config/config.YAML" = $".YAML" /\ path_extension $".json" = [] /\ path_extension $"a.b/c" = []
  /\ path_extension $"x.tar.gz" = $".gz" /\ path_join $"logs" $"chainforge.log" = $"logs/chainforge.log".
Proof. vm_compute. done. Qed.

(** A format that is not known falls back to the defaults, which works whenever the
    log file can be opened. *)
Example unknown_format :
  fst (initialize_logging_from_config (J := table_json []) (L := mini) (fun _ => Ret tt) $"log.toml" None demo_world) = Ret true.
Proof. vm_compute. reflexivity. Qed.
