(* ===== verification/PerfLogger.v ===== *)
(** * PerfLogger: timers and performance metrics (logging/performance_logger.cpp)

    [ScopedTimer] and [PerformanceMetrics] over the [Logger] of Logger.v.  The
    readings of the steady clock are arguments, in nanoseconds; [fmt2] prints a
    number with two decimals, as fmt's format specification [.2f] does. *)

From stdpp Require Import base list gmap numbers strings.
From Stdlib Require Import ZArith Lia Ascii.
From S2P Require Import Prelude CString Floats Effects Json HttpServer HttpProps JsonTable LogConfig LogFormat Logger LogManager.

(** [a op b] on [std::chrono::microseconds]: signed 64-bit. *)
Definition S64_MAX : Z := 9223372036854775807.
Definition chrono_add (a b : Z) : outcome Z :=
  let r := a + b in if (- S64_MOD <=? r) && (r <=? S64_MAX) then Ret r else Undefined.

(** [duration_cast<microseconds>(now - start)]. *)
Definition elapsed_us (start now : Z) : Z := Z.quot (now - start) 1000.
Definition ms_of_us (us : Z) : double := ddiv (d_of_Z us) (d_of_Z 1000).

Record OperationStats : Type := mkStats { count : Z; total_duration : Z; min_duration : Z; max_duration : Z }.
Definition OperationStats_new : OperationStats := mkStats 0 0 S64_MAX 0.

Record PerformanceMetrics : Type := mkPerf {
  operation_stats_ : gmap cstr OperationStats;
  counters_ : gmap cstr Z;
  memory_usage_ : gmap cstr Z;
  throughput_ : gmap cstr double;
  last_summary_ : Z
}.
Definition PerformanceMetrics_new (now : Z) : PerformanceMetrics := mkPerf ∅ ∅ ∅ ∅ now.

(** The update of the statistics of one operation. *)
Definition add_duration (s : OperationStats) (duration : Z) : outcome OperationStats :=
  total ← chrono_add (total_duration s) duration;
  Ret (mkStats (count s + 1)%u64 total
         (if duration <? min_duration s then duration else min_duration s)
         (if max_duration s <? duration then duration else max_duration s)).

Section Timers.
Context {J : JsonLib} {L : SpdLog} (fmt2 : double -> cstr).

(** ** ScopedTimer *)

Record ScopedTimer : Type := mkTimer { timer_logger : Logger; operation_ : cstr; level_ : LogLevel; start_time_ : Z }.

Definition elapsed (t : ScopedTimer) (now : Z) : Z := elapsed_us (start_time_ t) now.

(** Log with a context made of members, when the level is enabled. *)
Definition log_with (l : Logger) (level : LogLevel) (message : cstr) (members : list (cstr * json)) : act spd () :=
  enabled ← should_log l level;
  if (enabled : bool) then context ← aof (context_of members LogContext_new); log l level message context else mret tt.

Definition ScopedTimer_new (l : Logger) (operation : cstr) (level : LogLevel) (now : Z) : act spd ScopedTimer :=
  log_with l level ($"Starting operation: " ++ operation)
    [($"operation", json_string operation); ($"event", json_string $"start")];;
  mret (mkTimer l operation level now).

Definition ScopedTimer_end (t : ScopedTimer) (now : Z) : act spd () :=
  let duration := elapsed t now in
  log_with (timer_logger t) (level_ t)
    ($"Completed operation: " ++ operation_ t ++ $" in " ++ fmt2 (ms_of_us duration) ++ $"ms")
    [($"operation", json_string (operation_ t)); ($"event", json_string $"complete");
     ($"duration_us", json_number duration); ($"duration_ms", json_double (ms_of_us duration))].

Definition checkpoint (t : ScopedTimer) (checkpoint_name : cstr) (now : Z) : act spd () :=
  let duration := elapsed t now in
  log_with (timer_logger t) (level_ t)
    ($"Checkpoint " ++ checkpoint_name ++ $" in operation " ++ operation_ t ++ $": " ++ fmt2 (ms_of_us duration) ++ $"ms")
    [($"operation", json_string (operation_ t)); ($"event", json_string $"checkpoint"); ($"checkpoint", json_string checkpoint_name);
     ($"duration_us", json_number duration); ($"duration_ms", json_double (ms_of_us duration))].

(** ** PerformanceMetrics *)

Record perf_world : Type := mkPerfWorld { plib : spd; pm : PerformanceMetrics }.
Definition on_spd {A} (m : act spd A) : act perf_world A := azoom plib (fun t s => mkPerfWorld t (pm s)) m.
Definition on_pm (f : PerformanceMetrics -> PerformanceMetrics) : act perf_world () := aput (fun s => mkPerfWorld (plib s) (f (pm s))).

Definition record_duration (l : Logger) (operation : cstr) (duration : Z) : act perf_world () :=
  s ← aget (fun w => default OperationStats_new (operation_stats_ (pm w) !! operation));
  s' ← aof (add_duration s duration);
  on_pm (fun p => mkPerf (<[operation := s']> (operation_stats_ p)) (counters_ p) (memory_usage_ p) (throughput_ p) (last_summary_ p));;
  on_spd (log_with l DEBUG ($"Performance: " ++ operation ++ $" took " ++ fmt2 (ms_of_us duration) ++ $"ms")
    [($"operation", json_string operation); ($"duration_us", json_number duration); ($"duration_ms", json_double (ms_of_us duration));
     ($"metric_type", json_string $"duration")]).

Definition record_count (l : Logger) (operation : cstr) (n : Z) : act perf_world () :=
  total ← aget (fun w => (default 0 (counters_ (pm w) !! operation) + n)%u64);
  on_pm (fun p => mkPerf (operation_stats_ p) (<[operation := total]> (counters_ p)) (memory_usage_ p) (throughput_ p) (last_summary_ p));;
  on_spd (log_with l DEBUG ($"Performance: " ++ operation ++ $" count: " ++ print_dec n)
    [($"operation", json_string operation); ($"count", json_number n); ($"total_count", json_number total);
     ($"metric_type", json_string $"count")]).

Definition bytes_mb (bytes : Z) : double := ddiv (d_of_Z bytes) (dmul (d_of_Z 1024) (d_of_Z 1024)).

Definition record_memory_usage (l : Logger) (context : cstr) (bytes : Z) : act perf_world () :=
  on_pm (fun p => mkPerf (operation_stats_ p) (counters_ p) (<[context := bytes]> (memory_usage_ p)) (throughput_ p) (last_summary_ p));;
  on_spd (log_with l DEBUG ($"Performance: " ++ context ++ $" memory: " ++ fmt2 (bytes_mb bytes) ++ $" MB")
    [($"context", json_string context); ($"bytes", json_number bytes); ($"kb", json_double (ddiv (d_of_Z bytes) (d_of_Z 1024)));
     ($"mb", json_double (bytes_mb bytes)); ($"metric_type", json_string $"memory")]).

Definition record_throughput (l : Logger) (operation : cstr) (ops_per_second : double) : act perf_world () :=
  on_pm (fun p => mkPerf (operation_stats_ p) (counters_ p) (memory_usage_ p) (<[operation := ops_per_second]> (throughput_ p)) (last_summary_ p));;
  on_spd (log_with l DEBUG ($"Performance: " ++ operation ++ $" throughput: " ++ fmt2 ops_per_second ++ $" ops/sec")
    [($"operation", json_string operation); ($"ops_per_second", json_double ops_per_second); ($"metric_type", json_string $"throughput")]).

(** [total_duration / count]: the common type of [int64_t] and [uint64_t] is
    unsigned. *)
Definition avg_duration (s : OperationStats) : Z := u64 (total_duration s) / count s.

Definition stats_json (s : OperationStats) : json :=
  json_object [($"count", json_number (count s)); ($"total_duration_ms", json_double (ms_of_us (total_duration s)));
    ($"avg_duration_ms", json_double (ms_of_us (avg_duration s))); ($"min_duration_ms", json_double (ms_of_us (min_duration s)));
    ($"max_duration_ms", json_double (ms_of_us (max_duration s)))].

Context {order : IterOrder}.

(** A loop that assigns a member for each entry of a table. *)
Definition summary_of {V} (keep : V -> bool) (to_json : V -> json) (m : gmap cstr V) : outcome json :=
  assign_all (map (fun kv => (fst kv, to_json (snd kv))) (filter (fun kv => keep (snd kv) = true) (iter m))) json_null.

Definition optional_member (present : bool) (k : cstr) (v : json) (context : json) : outcome json :=
  if present then context_with k v context else Ret context.

Definition summary_context (p : PerformanceMetrics) : outcome json :=
  ctx ← context_with $"metric_type" (json_string $"summary") LogContext_new;
  operations_summary ← summary_of (fun s => 0 <? count s) stats_json (operation_stats_ p);
  ctx ← optional_member (negb (json_empty operations_summary)) $"operations" operations_summary ctx;
  ctx ← optional_member (negb (bool_decide (counters_ p = ∅))) $"counters"
          (json_object (map (fun kv => (fst kv, json_number (snd kv))) (iter (counters_ p)))) ctx;
  memory_summary ← summary_of (fun _ => true) (fun b => json_object [($"bytes", json_number b); ($"mb", json_double (bytes_mb b))]) (memory_usage_ p);
  ctx ← optional_member (negb (bool_decide (memory_usage_ p = ∅))) $"memory" memory_summary ctx;
  optional_member (negb (bool_decide (throughput_ p = ∅))) $"throughput"
    (json_object (map (fun kv => (fst kv, json_double (snd kv))) (iter (throughput_ p)))) ctx.

Definition log_summary (l : Logger) (now : Z) : act perf_world () :=
  p ← aget pm;
  context ← aof (summary_context p);
  on_spd (info l $"Performance metrics summary" context);;
  on_pm (fun p => mkPerf (operation_stats_ p) (counters_ p) (memory_usage_ p) (throughput_ p) now).

Definition reset (l : Logger) (now : Z) : act perf_world () :=
  on_pm (fun _ => mkPerf ∅ ∅ ∅ ∅ now);;
  on_spd (info l $"Performance metrics reset" LogContext_new).
End Timers.

(** ** Lemmas *)

(** The statistics of a list of durations. *)
Definition list_min (ds : list Z) : Z := foldr Z.min S64_MAX ds.
Definition list_max (ds : list Z) : Z := foldr Z.max 0 ds.
Definition list_sum (ds : list Z) : Z := foldr Z.add 0 ds.
Definition stats_of (ds : list Z) : OperationStats := mkStats (Z.of_nat (length ds)) (list_sum ds) (list_min ds) (list_max ds).

Lemma list_folds_snoc ds d :
  list_sum (ds ++ [d]) = list_sum ds + d /\ list_max (ds ++ [d]) = Z.max (list_max ds) (Z.max d 0)
  /\ list_min (ds ++ [d]) = Z.min (list_min ds) (Z.min d S64_MAX).
Proof. unfold list_sum, list_max, list_min. induction ds as [|a ds (IH1 & IH2 & IH3)]; cbn; [lia|]. rewrite IH1, IH2, IH3. lia. Qed.

Lemma list_sum_nonneg ds : Forall (fun d => 0 <= d) ds -> 0 <= list_sum ds.
Proof. induction 1; unfold list_sum in *; cbn; lia. Qed.

(** The mean lies between the extremes. *)
Lemma list_mean ds :
  Forall (fun d => 0 <= d) ds -> list_sum ds <= S64_MAX ->
  list_min ds * Z.of_nat (length ds) <= list_sum ds <= list_max ds * Z.of_nat (length ds) /\ 0 <= list_max ds.
Proof.
  unfold list_min, list_sum, list_max. induction 1 as [|d ds Hd Hds IH]; cbn [foldr length]; [lia|]. intros Hs.
  pose proof (list_sum_nonneg ds Hds) as Hn. unfold list_sum in Hn. specialize (IH ltac:(lia)). rewrite Nat2Z.inj_succ.
  set (mn := foldr Z.min S64_MAX ds) in *. set (mx := foldr Z.max 0 ds) in *. nia.
Qed.

Lemma stats_step ds d :
  0 <= d -> Forall (fun d => 0 <= d) ds -> list_sum (ds ++ [d]) <= S64_MAX -> Z.of_nat (length (ds ++ [d])) < U64_MOD ->
  add_duration (stats_of ds) d = Ret (stats_of (ds ++ [d])).
Proof.
  intros Hd Hds Hs Hl. pose proof (list_sum_nonneg ds Hds). destruct (list_folds_snoc ds d) as (E1 & E2 & E3). rewrite E1 in Hs.
  assert (0 <= list_max ds) by (unfold list_max; clear; induction ds; cbn; lia).
  unfold add_duration, chrono_add, stats_of. cbn [total_duration count min_duration max_duration]. rewrite E1, E2, E3.
  rewrite (proj2 (Z.leb_le _ _)), (proj2 (Z.leb_le _ _)) by (unfold S64_MAX in *; lia). cbn [andb mbind outcome_bind]. do 2 f_equal.
  - rewrite length_app in *. cbn in *. unfold u64_add. rewrite u64_small by (unfold is_u64; lia). lia.
  - unfold S64_MAX in *. destruct (Z.ltb_spec d (list_min ds)); lia.
  - destruct (Z.ltb_spec (list_max ds) d); lia.
Qed.

Section Recording.
Context {J : JsonLib} {L : SpdLog} (fmt2 : double -> cstr).

(** Calls one after the other; a caller goes on after an exception of the logger. *)
Definition record_all (l : Logger) (operation : cstr) (ds : list Z) (w : perf_world) : perf_world :=
  fold_left (fun w d => snd (record_duration fmt2 l operation d w)) ds w.

Lemma on_spd_pm {A} (m : act spd A) w : pm (snd (on_spd m w)) = pm w.
Proof. unfold on_spd, azoom. by destruct (m (plib w)). Qed.

Lemma record_duration_state l operation d s' w :
  add_duration (default OperationStats_new (operation_stats_ (pm w) !! operation)) d = Ret s' ->
  let p := pm w in
  pm (snd (record_duration fmt2 l operation d w))
  = mkPerf (<[operation := s']> (operation_stats_ p)) (counters_ p) (memory_usage_ p) (throughput_ p) (last_summary_ p).
Proof.
  intros E. cbn zeta. unfold record_duration. unfold mbind at 1, act_bind at 1. unfold aget at 1. cbv beta iota.
  unfold mbind at 1, act_bind at 1. unfold aof at 1. rewrite E. cbv beta iota. unfold mbind at 1, act_bind at 1. cbn [on_pm aput].
  by rewrite on_spd_pm.
Qed.

Lemma record_all_state l operation ds w :
  operation_stats_ (pm w) !! operation = None -> Forall (fun d => 0 <= d) ds -> list_sum ds <= S64_MAX -> Z.of_nat (length ds) < U64_MOD ->
  let p := pm w in
  pm (record_all l operation ds w)
  = mkPerf (match ds with [] => operation_stats_ p | _ => <[operation := stats_of ds]> (operation_stats_ p) end)
      (counters_ p) (memory_usage_ p) (throughput_ p) (last_summary_ p).
Proof.
  cbn zeta. intros Hn. induction ds as [|d ds IH] using rev_ind; intros Hd Hs Hl; [by destruct w as [? []]|].
  apply Forall_app in Hd as [Hds [Hd _]%Forall_cons]. pose proof (list_folds_snoc ds d) as (E1 & _).
  specialize (IH Hds ltac:(lia) ltac:(rewrite length_app in Hl; lia)).
  unfold record_all in *. rewrite fold_left_app. cbn [fold_left].
  rewrite (record_duration_state _ _ _ (stats_of (ds ++ [d]))).
  - rewrite IH. cbn [operation_stats_ counters_ memory_usage_ throughput_ last_summary_]. f_equal.
    destruct ds; cbn [app]; [done|]. by rewrite insert_insert_eq.
  - rewrite IH. cbn [operation_stats_]. rewrite <- stats_step by done. destruct ds; [by rewrite Hn|]. by rewrite lookup_insert_eq.
Qed.
End Recording.

(** ** Properties *)

(** Recording durations one by one gives exactly the statistics of the list:
    their number, sum, smallest and largest; other operations, the counters and the
    other tables are untouched, whatever the logger does; and the mean that the
    summary shows lies between the smallest and the largest. *)
Theorem duration_statistics {J : JsonLib} {L : SpdLog} (fmt2 : double -> cstr) (l : Logger) (operation : cstr) (ds : list Z) (w : perf_world) :
  operation_stats_ (pm w) !! operation = None -> ds <> [] ->
  Forall (fun d => 0 <= d) ds -> list_sum ds <= S64_MAX -> Z.of_nat (length ds) < U64_MOD ->
  let p := pm (record_all fmt2 l operation ds w) in
  operation_stats_ p = <[operation := stats_of ds]> (operation_stats_ (pm w))
  /\ (counters_ p, memory_usage_ p, throughput_ p) = (counters_ (pm w), memory_usage_ (pm w), throughput_ (pm w))
  /\ min_duration (stats_of ds) <= avg_duration (stats_of ds) <= max_duration (stats_of ds).
Proof.
  intros Hn Hne Hd Hs Hl p. subst p. rewrite record_all_state by done. cbn [operation_stats_ counters_ memory_usage_ throughput_].
  destruct ds as [|d ds]; [done|]. split_and!; [done|done| |];
    pose proof (list_mean (d :: ds) Hd Hs) as [Hm Hx]; pose proof (list_sum_nonneg (d :: ds) Hd) as H0;
    unfold avg_duration, stats_of; cbn [total_duration count min_duration max_duration];
    rewrite u64_small by (unfold is_u64, S64_MAX in *; lia).
  - apply Z.div_le_lower_bound; [cbn [length]; lia|lia].
  - apply Z.div_le_upper_bound; [cbn [length]; lia|lia].
Qed.

Lemma duration_statistics_witness :
  operation_stats_ (pm (record_all (J := table_json []) (L := mini) (fun _ => []) (mkLogger (L := mini) (O, $"perf") $"perf") $"mine" [7; 3; 5]
    (mkPerfWorld (L := mini) mini_empty (PerformanceMetrics_new 0)))) = <[$"mine" := mkStats 3 15 3 7]> ∅.
Proof.
  apply (duration_statistics (J := table_json []) (L := mini) (fun _ => []) (mkLogger (L := mini) (O, $"perf") $"perf") $"mine" [7; 3; 5]
    (mkPerfWorld (L := mini) mini_empty (PerformanceMetrics_new 0))).
  - reflexivity.
  - discriminate.
  - repeat constructor; lia.
  - unfold S64_MAX. cbn. lia.
  - cbn. lia.
Defined.

(** A negative duration is counted as such in the sum and the minimum, and the mean
    becomes a number close to 2^64. *)
Example negative_duration :
  (s ← add_duration OperationStats_new (-1); Ret (max_duration s, avg_duration s)) = Ret (0, U64_MAX).
Proof. reflexivity. Qed.

(** A timer whose level is enabled writes a line when it starts and one when it
    ends. *)
Example timer_lines :
  let w := mini_levels [(O, lv_debug)] mini_empty in
  let l := mkLogger (J := table_json []) (L := mini) (O, $"perf") $"perf" in
  match ScopedTimer_new l $"mine" DEBUG 0 w with
  | (Ret t, w1) => length (out (snd (ScopedTimer_end (fun _ => $"5.00") t 5000000 w1))) = 2%nat /\ elapsed t 5000000 = 5000
  | _ => False
  end.
Proof. vm_compute. done. Qed.
