(* ===== verification/Metrics.v ===== *)
(** * Metrics: counters, gauges, histograms and their registries

    metrics/src/simple_metrics.cpp with internal/simple_metrics.hpp, the buckets of
    histogram.cpp, counter.cpp, the key of metrics_registry.cpp, and
    metrics_server.cpp.

    The registry hands out [std::shared_ptr]s to metrics that several callers then
    share: a metric is a location of a heap that is part of the registry's state,
    and a handle is its index.  A [std::map<double, T>] is a list of pairs in key
    order; two keys are the same when neither is below the other. *)

From stdpp Require Import base list gmap numbers strings.
From Stdlib Require Import ZArith Lia Ascii.
From S2P Require Import Prelude CString Floats Sorting Effects HttpServer.

Definition dsub (a b : double) : double := SFsub 53 1024 a b.
Definition dzero : double := S754_zero false.
Definition done_ : double := d_of_Z 1.

(** ** Counters and gauges *)
Record SimpleCounter : Type := mkSimpleCounter { counter_value : double }.
Definition SimpleCounter_default : SimpleCounter := mkSimpleCounter dzero.
(** [increment()]. *)
Definition counter_increment (c : SimpleCounter) : SimpleCounter := mkSimpleCounter (dadd (counter_value c) done_).
(** [increment(val)]: ignored unless [val >= 0]. *)
Definition counter_increment_by (val : double) (c : SimpleCounter) : SimpleCounter :=
  if dleb dzero val then mkSimpleCounter (dadd (counter_value c) val) else c.

Record SimpleGauge : Type := mkSimpleGauge { gauge_value : double }.
Definition SimpleGauge_default : SimpleGauge := mkSimpleGauge dzero.
Definition gauge_set (val : double) (g : SimpleGauge) : SimpleGauge := mkSimpleGauge val.
Definition gauge_increment (val : double) (g : SimpleGauge) : SimpleGauge := mkSimpleGauge (dadd (gauge_value g) val).
Definition gauge_decrement (val : double) (g : SimpleGauge) : SimpleGauge := mkSimpleGauge (dsub (gauge_value g) val).

(** [Counter::increment(double)]: a negative value is refused. *)
Definition Counter_increment_by (val : double) (c : SimpleCounter) : outcome SimpleCounter :=
  if dltb val dzero then Throw (invalid_argument "Counter increment value must be non-negative")
  else Ret (counter_increment_by val c).

(** ** Histograms *)

Definition dequiv (a b : double) : bool := negb (dltb a b) && negb (dltb b a).

Fixpoint dmap_find (k : double) (m : list (double * Z)) : option Z :=
  match m with
  | [] => None
  | (k', v) :: m' => if dequiv k k' then Some v else dmap_find k m'
  end.
Fixpoint dmap_put (k : double) (v : Z) (m : list (double * Z)) : list (double * Z) :=
  match m with
  | [] => [(k, v)]
  | (k', v') :: m' =>
      if dltb k k' then (k, v) :: m
      else if dltb k' k then (k', v') :: dmap_put k v m'
      else (k', v) :: m'
  end.

Record SimpleHistogram : Type := mkSimpleHistogram {
  buckets_ : list double;
  bucket_counts_ : list (double * Z);
  count_ : Z;
  sum_ : double
}.

Definition DEFAULT_BUCKETS : list double :=
  [dlit 1 1000; dlit 1 100; dlit 1 10; d_of_Z 1; d_of_Z 10; d_of_Z 100; d_of_Z 1000].

Definition SimpleHistogram_of (buckets : list double) : SimpleHistogram :=
  let bs := match buckets with [] => DEFAULT_BUCKETS | _ => buckets end in
  let bs := sort_by dltb bs in
  mkSimpleHistogram bs (fold_left (fun m b => dmap_put b 0 m) bs []) 0 dzero.

(** [bucket_counts_[bucket].fetch_add(1)]. *)
Definition bump (m : list (double * Z)) (b : double) : list (double * Z) :=
  dmap_put b (u64 (default 0 (dmap_find b m) + 1)) m.

Definition observe (value : double) (h : SimpleHistogram) : SimpleHistogram :=
  mkSimpleHistogram (buckets_ h)
    (fold_left (fun m b => if dleb value b then bump m b else m) (buckets_ h) (bucket_counts_ h))
    (u64 (count_ h + 1)) (dadd (sum_ h) value).

Record Stats : Type := mkStats { stats_count : Z; stats_sum : double; stats_buckets : list (double * Z) }.
Definition get_stats (h : SimpleHistogram) : Stats := mkStats (count_ h) (sum_ h) (bucket_counts_ h).

(** The bucket sets of histogram.cpp. *)
Definition DEFAULT_TIMING : list double := DEFAULT_BUCKETS.
Definition HTTP_REQUEST_DURATION : list double :=
  [dlit 1 1000; dlit 5 1000; dlit 1 100; dlit 25 1000; dlit 5 100; dlit 1 10; dlit 25 100; dlit 5 10;
   d_of_Z 1; dlit 25 10; d_of_Z 5; d_of_Z 10].
Definition DB_QUERY_DURATION : list double :=
  [dlit 1 10000; dlit 1 1000; dlit 1 100; dlit 1 10; d_of_Z 1; d_of_Z 10].
Definition SIZE_BYTES : list double :=
  map d_of_Z [1024; 10240; 102400; 1048576; 10485760; 104857600; 1073741824].
Definition BLOCK_PROCESSING : list double :=
  [dlit 1 1000; dlit 1 100; dlit 1 10; d_of_Z 1; d_of_Z 5; d_of_Z 10; d_of_Z 30; d_of_Z 60].
Definition TRANSACTION_PROCESSING : list double :=
  [dlit 1 10000; dlit 1 1000; dlit 1 100; dlit 1 10; d_of_Z 1].

(** ** What a histogram counts *)

Lemma dleb_spec v b : is_nan v = false -> is_nan b = false -> dleb v b = negb (dltb b v).
Proof.
  unfold dleb, dltb, SFleb, SFltb.
  destruct v as [[] | [] | | [] m e], b as [[] | [] | | [] m' e']; simpl; try done;
    change (Pos.compare_cont Eq) with Pos.compare in *; intros _ _;
    rewrite (Z.compare_antisym e e'); destruct (Z.compare_spec e e'); simpl; try done;
    rewrite (Pos.compare_antisym m m'); by destruct (m ?= m')%positive.
Qed.

Lemma dleb_nan_l v b : is_nan v = true -> dleb v b = false.
Proof. by destruct v. Qed.

(** What is at most a bound is at most every larger one. *)
Lemma dleb_dltb v a b : dltb a b = true -> dleb v a = true -> dleb v b = true.
Proof.
  intros Hab Hva. assert (Hv : is_nan v = false) by (by destruct v).
  assert (Ha : is_nan a = false) by (by destruct a, b). assert (Hb : is_nan b = false) by (by destruct b, a as [|[]| |[]]).
  rewrite dleb_spec in * by done. apply negb_true_iff in Hva. apply negb_true_iff.
  destruct (dltb b v) eqn:E; [|done]. by rewrite (dltb_trans a b v) in Hva.
Qed.

Lemma filter_length_le {A} (p q : A -> bool) l :
  (forall x, p x = true -> q x = true) -> (length (List.filter p l) <= length (List.filter q l))%nat.
Proof.
  intros H. induction l as [|x l IH]; cbn; [done|].
  destruct (p x) eqn:E; [rewrite (H x E); cbn; lia|]. destruct (q x); cbn; lia.
Qed.

Lemma dequiv_spec a b : dequiv a b = true <-> dltb a b = false /\ dltb b a = false.
Proof. unfold dequiv. by rewrite andb_true_iff, !negb_true_iff. Qed.

Lemma dequiv_refl a : dequiv a a = true.
Proof. apply dequiv_spec. by rewrite dltb_irrefl. Qed.
Lemma dequiv_sym a b : dequiv a b = dequiv b a.
Proof. unfold dequiv. apply andb_comm. Qed.
Lemma dequiv_l a b c : is_nan a = false -> is_nan b = false -> dequiv a b = true -> dequiv a c = dequiv b c.
Proof.
  intros Ha Hb [H1 H2]%dequiv_spec. unfold dequiv. by rewrite (dltb_equiv_l a b c), (dltb_equiv_r a b c) by done.
Qed.

Lemma dleb_equiv v a b : is_nan a = false -> is_nan b = false -> dequiv a b = true -> dleb v a = dleb v b.
Proof.
  intros Ha Hb [H1 H2]%dequiv_spec. destruct (is_nan v) eqn:Hv; [by rewrite !dleb_nan_l|].
  rewrite !dleb_spec by done. by rewrite (dltb_equiv_l a b v).
Qed.

Definition keys_ok (m : list (double * Z)) : Prop := Forall (fun p => is_nan (fst p) = false) m.

Lemma dmap_find_equiv a b m :
  is_nan a = false -> is_nan b = false -> keys_ok m -> dequiv a b = true -> dmap_find a m = dmap_find b m.
Proof.
  intros Ha Hb Hm He. induction Hm as [|[k v] m Hk Hm IH]; cbn; [done|]. by rewrite (dequiv_l a b k), IH.
Qed.

Lemma dmap_put_ok k v m : is_nan k = false -> keys_ok m -> keys_ok (dmap_put k v m).
Proof.
  intros Hk Hm. induction Hm as [|[k' v'] m Hk' Hm IH]; cbn; [by repeat constructor|].
  destruct (dltb k k'); [by repeat constructor|]. destruct (dltb k' k); by constructor.
Qed.

Lemma dmap_find_put k v m a :
  is_nan k = false -> is_nan a = false -> keys_ok m ->
  dmap_find a (dmap_put k v m) = if dequiv a k then Some v else dmap_find a m.
Proof.
  intros Hk Ha Hm. induction Hm as [|[k' v'] m Hk' Hm IH]; cbn; [done|]. cbn in Hk'.
  destruct (dltb k k') eqn:H1; [done|]. destruct (dltb k' k) eqn:H2; cbn.
  - rewrite IH. destruct (dequiv a k') eqn:E1, (dequiv a k) eqn:E2; try done.
    exfalso. rewrite dequiv_sym in E1.
    pose proof (dequiv_l k' a k Hk' Ha E1) as E3. rewrite E2 in E3. apply dequiv_spec in E3 as [E3 _]. congruence.
  - assert (He : dequiv k k' = true) by (by apply dequiv_spec).
    rewrite (dequiv_sym a k), (dequiv_l k k' a Hk Hk' He), (dequiv_sym k' a). by destruct (dequiv a k').
Qed.

(** How many of the bounds equal [b], and how many values are at most [b]. *)
Definition num_equal (b : double) (bs : list double) : Z := Z.of_nat (length (List.filter (dequiv b) bs)).
Definition num_le (vs : list double) (b : double) : Z := Z.of_nat (length (List.filter (fun v => dleb v b) vs)).
Definition numbers (l : list double) : Prop := Forall (fun d => is_nan d = false) l.
#[export] Instance numbers_dec l : Decision (numbers l).
Proof. unfold numbers. apply _. Defined.

(** The count a bound has, as a table over all numbers. *)
Definition counts_are (m : list (double * Z)) (bs : list double) (f : double -> Z) : Prop :=
  keys_ok m /\ forall a, is_nan a = false ->
    dmap_find a m = if existsb (dequiv a) bs then Some (f a) else None.

Lemma counts_initial bs : numbers bs -> counts_are (fold_left (fun m b => dmap_put b 0 m) bs []) bs (fun _ => 0).
Proof.
  intros Hbs. assert (G : forall l m p, numbers l -> counts_are m p (fun _ => 0) ->
    counts_are (fold_left (fun m b => dmap_put b 0 m) l m) (p ++ l) (fun _ => 0)).
  { induction l as [|b l IH]; intros m p Hl Hm; [by rewrite app_nil_r|].
    apply Forall_cons_1 in Hl as [Hb Hl]. cbn [fold_left].
    replace (p ++ b :: l) with ((p ++ [b]) ++ l) by (by rewrite <- app_assoc). apply IH; [done|].
    destruct Hm as [Hk Hf]. split; [by apply dmap_put_ok|]. intros a Ha. rewrite dmap_find_put, Hf by done.
    rewrite existsb_app. cbn. destruct (dequiv a b), (existsb (dequiv a) p); done. }
  apply (G bs [] []); [done|]. split; [constructor|done].
Qed.

Lemma bump_counts m bs f b :
  counts_are m bs f -> b ∈ bs -> is_nan b = false ->
  counts_are (bump m b) bs (fun a => if dequiv a b then u64 (f a + 1) else f a).
Proof.
  intros [Hk Hf] Hin Hb. split; [by apply dmap_put_ok|]. intros a Ha. unfold bump. rewrite dmap_find_put by done.
  destruct (dequiv a b) eqn:E.
  - assert (Hex : existsb (dequiv a) bs = true) by (apply existsb_exists; exists b; by rewrite <- list_elem_of_In).
    rewrite Hex. rewrite <- (dmap_find_equiv a b m), Hf, Hex by done. done.
  - by apply Hf.
Qed.

Lemma observe_counts v bs l m f :
  (forall a, is_u64 (f a)) -> numbers bs -> l ⊆ bs -> counts_are m bs f ->
  counts_are (fold_left (fun m b => if dleb v b then bump m b else m) l m) bs
    (fun a => u64 (f a + if dleb v a then num_equal a l else 0)).
Proof.
  intros Hu Hbs. revert m f Hu. induction l as [|b l IH]; intros m f Hu Hl Hm.
  - destruct Hm as [Hk Hf]. split; [done|]. intros a Ha. cbn. rewrite Hf by done.
    destruct (existsb _ _); [|done]. f_equal. rewrite u64_small; destruct (dleb v a); cbn; specialize (Hu a); rewrite ?Z.add_0_r; done.
  - assert (Hb : b ∈ bs) by (apply Hl; by left). assert (Hbn : is_nan b = false) by (by apply (proj1 (Forall_forall _ bs) Hbs)).
    assert (Hl' : l ⊆ bs) by (intros x Hx; apply Hl; by right). cbn [fold_left].
    destruct (dleb v b) eqn:E.
    + destruct (IH (bump m b) _ (fun a => match dequiv a b as x return is_u64 (if x then u64 (f a + 1) else f a) with
        true => u64_range _ | false => Hu a end) Hl' (bump_counts m bs f b Hm Hb Hbn)) as [Hk Hf].
      split; [done|]. intros a Ha. rewrite Hf by done. destruct (existsb _ _); [|done]. f_equal.
      unfold num_equal. cbn [List.filter]. destruct (dequiv a b) eqn:Eab; [|done].
      rewrite (dleb_equiv v a b), E by done. cbn [length]. rewrite Nat2Z.inj_succ. unfold u64.
      rewrite Zplus_mod_idemp_l. f_equal. lia.
    + destruct (IH m f Hu Hl' Hm) as [Hk Hf]. split; [done|]. intros a Ha. rewrite Hf by done.
      destruct (existsb _ _); [|done]. f_equal. unfold num_equal. cbn [List.filter].
      destruct (dequiv a b) eqn:Eab; [|done]. by rewrite (dleb_equiv v a b), E.
Qed.

Lemma num_equal_perm b l l' : l ≡ₚ l' -> num_equal b l = num_equal b l'.
Proof. unfold num_equal. induction 1; cbn; repeat case_match; cbn in *; lia. Qed.

Lemma existsb_perm {A} (p : A -> bool) l l' : l ≡ₚ l' -> existsb p l = existsb p l'.
Proof. induction 1; cbn; [done|congruence|by rewrite !orb_assoc, (orb_comm (p y))|congruence]. Qed.

Definition observe_all (vs : list double) (h : SimpleHistogram) : SimpleHistogram :=
  fold_left (fun h v => observe v h) vs h.

Lemma buckets_observe_all vs h : buckets_ (observe_all vs h) = buckets_ h.
Proof. revert h. induction vs as [|v vs IH]; intros h; [done|]. cbn. by rewrite IH. Qed.

Lemma num_le_snoc vs v b : num_le (vs ++ [v]) b = num_le vs b + if dleb v b then 1 else 0.
Proof.
  unfold num_le. rewrite List.filter_app, length_app. cbn [List.filter].
  destruct (dleb v b); cbn [length]; rewrite Nat2Z.inj_add; cbn; lia.
Qed.

Lemma num_equal_pos b bs : existsb (dequiv b) bs = true -> 1 <= num_equal b bs.
Proof.
  intros (x & Hin & E)%existsb_exists. unfold num_equal.
  assert (H : In x (List.filter (dequiv b) bs)) by (by apply filter_In).
  destruct (List.filter (dequiv b) bs); [done|]. cbn. lia.
Qed.

Lemma histogram_state bs vs :
  bs <> [] -> numbers bs ->
  let h := observe_all vs (SimpleHistogram_of bs) in
  count_ h = u64 (Z.of_nat (length vs)) /\ buckets_ h = sort_by dltb bs
  /\ counts_are (bucket_counts_ h) (buckets_ h) (fun b => u64 (num_equal b bs * num_le vs b)).
Proof.
  intros Hne Hbs.
  assert (Hs : sort_by dltb bs ≡ₚ bs) by apply sort_by_perm.
  assert (Hsn : numbers (sort_by dltb bs)) by (unfold numbers; by rewrite Hs).
  assert (H0 : SimpleHistogram_of bs = mkSimpleHistogram (sort_by dltb bs)
    (fold_left (fun m b => dmap_put b 0 m) (sort_by dltb bs) []) 0 dzero) by (by destruct bs).
  induction vs as [|v vs IH] using rev_ind.
  - rewrite H0. cbn [observe_all fold_left buckets_ bucket_counts_ count_]. split_and!; [done|done|].
    destruct (counts_initial _ Hsn) as [Hk Hf]. split; [done|]. intros a Ha. rewrite Hf by done.
    unfold num_le. cbn. by rewrite Z.mul_0_r.
  - unfold observe_all in *. rewrite fold_left_app. cbn [fold_left]. set (h := fold_left _ vs _) in *.
    cbn zeta in IH. destruct IH as (Hc & Hb & Hcs). cbn [observe buckets_ bucket_counts_ count_]. split_and!.
    + rewrite Hc, length_app. cbn. unfold u64. rewrite Zplus_mod_idemp_l. f_equal. lia.
    + done.
    + rewrite Hb in *. destruct (observe_counts v _ _ _ _ (fun a => u64_range _) Hsn (fun x Hx => Hx) Hcs) as [Hk Hf].
      split; [done|]. intros a Ha. rewrite Hf by done. destruct (existsb _ _); [|done]. f_equal.
      rewrite num_le_snoc, (num_equal_perm a _ _ Hs). unfold u64. rewrite Zplus_mod_idemp_l. f_equal.
      destruct (dleb v a); lia.
Qed.

(** After any observations a histogram over numbers holds, for every bound, the
    number of values that are at most the bound, once for each time the bound was
    given (so a bound given twice counts double), and the total is the number of
    observations, all modulo 2^64; when the bounds are distinct and nothing
    overflows the counts are cumulative: they grow with the bound and stay within
    the total. *)
Theorem histogram_exact (bs vs : list double) :
  bs <> [] -> numbers bs ->
  let h := observe_all vs (SimpleHistogram_of bs) in
  count_ h = u64 (Z.of_nat (length vs))
  /\ (forall b, b ∈ bs -> dmap_find b (bucket_counts_ h) = Some (u64 (num_equal b bs * num_le vs b)))
  /\ (Z.of_nat (length vs) < U64_MOD -> (forall b, b ∈ bs -> num_equal b bs = 1) ->
      forall b b' n n', b ∈ bs -> b' ∈ bs -> dltb b b' = true ->
        dmap_find b (bucket_counts_ h) = Some n -> dmap_find b' (bucket_counts_ h) = Some n' -> n <= n' <= count_ h).
Proof.
  intros Hne Hbs h. destruct (histogram_state bs vs Hne Hbs) as (Hc & Hb & Hk & Hf). fold h in Hc, Hb, Hk, Hf.
  assert (Hbound : forall b, b ∈ bs -> dmap_find b (bucket_counts_ h) = Some (u64 (num_equal b bs * num_le vs b))).
  { intros b Hin. assert (is_nan b = false) by (by apply (proj1 (Forall_forall _ bs) Hbs)).
    rewrite Hf, Hb, (existsb_perm _ _ bs) by (done || apply sort_by_perm).
    replace (existsb (dequiv b) bs) with true; [done|]. symmetry. apply existsb_exists.
    exists b. split; [by apply list_elem_of_In|apply dequiv_refl]. }
  split_and!; [done|done|]. intros Hlen Hone b b' n n' Hin Hin' Hlt Hn Hn'.
  rewrite Hbound, Hone, Z.mul_1_l in Hn by done. rewrite Hbound, Hone, Z.mul_1_l in Hn' by done.
  assert (Hle : num_le vs b <= num_le vs b').
  { unfold num_le. apply inj_le, filter_length_le. intros v Hv. by apply (dleb_dltb v b b'). }
  assert (Hle' : num_le vs b' <= Z.of_nat (length vs)) by (unfold num_le; apply inj_le, List.filter_length_le).
  assert (0 <= num_le vs b) by (unfold num_le; lia).
  rewrite Hc, u64_small by (unfold is_u64; lia). rewrite u64_small in Hn, Hn' by (unfold is_u64; lia).
  simplify_eq. lia.
Qed.

Lemma histogram_exact_witness :
  dmap_find (d_of_Z 10) (bucket_counts_ (observe_all [d_of_Z 3; d_of_Z 70] (SimpleHistogram_of [d_of_Z 10; d_of_Z 100; d_of_Z 10])))
  = Some 2.
Proof.
  destruct (histogram_exact [d_of_Z 10; d_of_Z 100; d_of_Z 10] [d_of_Z 3; d_of_Z 70]) as (_ & H & _); [done|decide_now|].
  rewrite H by (by left). reflexivity.
Defined.
