(* ===== verification/MetricsRegistry.v ===== *)
(** * MetricsRegistry: shared metrics, their export and the metrics server

    [SimpleRegistry] of metrics/src/simple_metrics.cpp, the metric keys of
    metrics_registry.cpp, the catalogue of chainforge_metrics.cpp and
    logging_metrics.cpp, and metrics_server.cpp.

    The registry's state holds the three name tables and the heap of metrics their
    handles point to; a metric that was handed out lives on after [clear].  The text
    of a double is a parameter ([print_double]). *)

From stdpp Require Import base list gmap numbers strings.
From Stdlib Require Import ZArith Lia Ascii.
From S2P Require Import Prelude CString Floats Sorting Effects HttpServer Metrics.

Abbreviation name_map := (gmap (list ascii) nat) (only parsing).

Record SimpleRegistry : Type := mkSimpleRegistry {
  counters_ : name_map;
  gauges_ : name_map;
  histograms_ : name_map;
  counter_heap : list SimpleCounter;
  gauge_heap : list SimpleGauge;
  histogram_heap : list SimpleHistogram
}.
Definition SimpleRegistry_default : SimpleRegistry := mkSimpleRegistry ∅ ∅ ∅ [] [] [].

Section Registry.
Context {E : Type} {env : Env}.
Abbreviation reg A := (eff SimpleRegistry E A) (only parsing).

Definition get_counter (name : cstr) : reg nat :=
  with_lock Exclusive (
    s ← get;
    match counters_ s !! name with
    | Some l => mret l
    | None =>
        let l := length (counter_heap s) in
        modify (fun s => mkSimpleRegistry (<[ name := l ]> (counters_ s)) (gauges_ s) (histograms_ s)
                           (counter_heap s ++ [SimpleCounter_default]) (gauge_heap s) (histogram_heap s));;
        mret l
    end).

Definition get_gauge (name : cstr) : reg nat :=
  with_lock Exclusive (
    s ← get;
    match gauges_ s !! name with
    | Some l => mret l
    | None =>
        let l := length (gauge_heap s) in
        modify (fun s => mkSimpleRegistry (counters_ s) (<[ name := l ]> (gauges_ s)) (histograms_ s)
                           (counter_heap s) (gauge_heap s ++ [SimpleGauge_default]) (histogram_heap s));;
        mret l
    end).

Definition get_histogram (name : cstr) (buckets : list double) : reg nat :=
  with_lock Exclusive (
    s ← get;
    match histograms_ s !! name with
    | Some l => mret l
    | None =>
        let l := length (histogram_heap s) in
        modify (fun s => mkSimpleRegistry (counters_ s) (gauges_ s) (<[ name := l ]> (histograms_ s))
                           (counter_heap s) (gauge_heap s) (histogram_heap s ++ [SimpleHistogram_of buckets]));;
        mret l
    end).

Definition clear : reg () :=
  with_lock Exclusive (modify (fun s => mkSimpleRegistry ∅ ∅ ∅ (counter_heap s) (gauge_heap s) (histogram_heap s))).

Definition metrics_count : reg Z :=
  with_lock Exclusive (s ← get; mret (Z.of_nat (size (counters_ s) + size (gauges_ s) + size (histograms_ s)))).

(** A metric is changed through a handle, without the registry's lock. *)
Definition on_counter (l : nat) (f : SimpleCounter -> SimpleCounter) : reg () :=
  modify (fun s => mkSimpleRegistry (counters_ s) (gauges_ s) (histograms_ s)
                     (alter f l (counter_heap s)) (gauge_heap s) (histogram_heap s)).
Definition on_gauge (l : nat) (f : SimpleGauge -> SimpleGauge) : reg () :=
  modify (fun s => mkSimpleRegistry (counters_ s) (gauges_ s) (histograms_ s)
                     (counter_heap s) (alter f l (gauge_heap s)) (histogram_heap s)).
Definition on_histogram (l : nat) (f : SimpleHistogram -> SimpleHistogram) : reg () :=
  modify (fun s => mkSimpleRegistry (counters_ s) (gauges_ s) (histograms_ s)
                     (counter_heap s) (gauge_heap s) (alter f l (histogram_heap s))).

(** ** The exposition format *)
Variable print_double : double -> list ascii.

(** The entries of a [std::map<std::string, T>] in the order of its iteration. *)
Definition entries (m : name_map) : list (cstr * nat) :=
  sort_by (fun a b => bytes_ltb (bytes_of_cstr (fst a)) (bytes_of_cstr (fst b))) (map_to_list m).

Definition type_line (name kind : cstr) : cstr := $"# TYPE " ++ name ++ $" " ++ kind ++ [NL].
Definition bucket_line (name le : cstr) (count : Z) : cstr :=
  name ++ $"_bucket{le=" ++ "034"%char :: le ++ "034"%char :: $"} " ++ print_dec count ++ [NL].

Definition counter_text (s : SimpleRegistry) (e : cstr * nat) : cstr :=
  match counter_heap s !! snd e with
  | Some c => type_line (fst e) $"counter" ++ fst e ++ $" " ++ print_double (counter_value c) ++ [NL]
  | None => []
  end.
Definition gauge_text (s : SimpleRegistry) (e : cstr * nat) : cstr :=
  match gauge_heap s !! snd e with
  | Some g => type_line (fst e) $"gauge" ++ fst e ++ $" " ++ print_double (gauge_value g) ++ [NL]
  | None => []
  end.
Definition histogram_text (s : SimpleRegistry) (e : cstr * nat) : cstr :=
  match histogram_heap s !! snd e with
  | Some h =>
      let stats := get_stats h in
      type_line (fst e) $"histogram"
      ++ concat (map (fun p => bucket_line (fst e) (print_double (fst p)) (snd p)) (stats_buckets stats))
      ++ bucket_line (fst e) $"+Inf" (stats_count stats)
      ++ fst e ++ $"_count " ++ print_dec (stats_count stats) ++ [NL]
      ++ fst e ++ $"_sum " ++ print_double (stats_sum stats) ++ [NL]
  | None => []
  end.

Definition export_metrics : reg (list ascii) :=
  with_lock Exclusive (
    s ← get;
    mret (concat (map (counter_text s) (entries (counters_ s)))
          ++ concat (map (gauge_text s) (entries (gauges_ s)))
          ++ concat (map (histogram_text s) (entries (histograms_ s))))).
End Registry.

(** ** Handles *)

(** The calls on the registry and on the metrics it handed out. *)
Inductive metric_op : Type :=
  | GetCounter (name : cstr) | GetGauge (name : cstr) | GetHistogram (name : cstr) (buckets : list double)
  | Clear | Count
  | IncrementCounter (l : nat) | SetGauge (l : nat) (v : double) | Observe (l : nat) (v : double).

Definition run_metric_op `{Env} (op : metric_op) : eff SimpleRegistry () () :=
  match op with
  | GetCounter n => get_counter n;; mret tt
  | GetGauge n => get_gauge n;; mret tt
  | GetHistogram n bs => get_histogram n bs;; mret tt
  | Clear => clear
  | Count => metrics_count;; mret tt
  | IncrementCounter l => on_counter l counter_increment
  | SetGauge l v => on_gauge l (gauge_set v)
  | Observe l v => on_histogram l (observe v)
  end.

Fixpoint run_metric_ops `{Env} (ops : list metric_op) : eff SimpleRegistry () () :=
  match ops with
  | [] => mret tt
  | op :: ops' => run_metric_op op;; run_metric_ops ops'
  end.

(** A name table points injectively into a heap. *)
Definition table_ok (m : name_map) (size : nat) : Prop :=
  (forall n l, m !! n = Some l -> (l < size)%nat) /\
  (forall n n' l, m !! n = Some l -> m !! n' = Some l -> n = n').

Definition registry_ok (s : SimpleRegistry) : Prop :=
  table_ok (counters_ s) (length (counter_heap s)) /\ table_ok (gauges_ s) (length (gauge_heap s))
  /\ table_ok (histograms_ s) (length (histogram_heap s)).

Lemma table_ok_empty n : table_ok ∅ n.
Proof. split; intros *; by rewrite lookup_empty. Qed.

Lemma table_ok_insert m n name : table_ok m n -> m !! name = None -> table_ok (<[ name := n ]> m) (n + 1).
Proof.
  intros [H1 H2] Hn. split.
  - intros k l [[<- <-]|[_ Hl]]%lookup_insert_Some; [lia|]. specialize (H1 _ _ Hl). lia.
  - intros k k' l [[<- <-]|[? Hl]]%lookup_insert_Some [[<- Hl']|[? Hl']]%lookup_insert_Some; try done.
    + specialize (H1 _ _ Hl'). lia.
    + subst. specialize (H1 _ _ Hl). lia.
    + eauto.
Qed.

(** What survives every call but [clear]: names keep their handles. *)
Definition table_grows (m m' : name_map) : Prop := m ⊆ m'.
Definition registry_grows (s s' : SimpleRegistry) : Prop :=
  counters_ s ⊆ counters_ s' /\ gauges_ s ⊆ gauges_ s' /\ histograms_ s ⊆ histograms_ s'
  /\ (length (counter_heap s) <= length (counter_heap s'))%nat.

Section Handles.
Context {env : Env}.

(** The get-or-create calls: the two cases of the look-up, under either locking rule. *)
Ltac new_metric found :=
  unfold get_counter, get_gauge, get_histogram, mbind, eff_bind, with_lock, get, modify; cbn [held obj ticks log];
  destruct found eqn:?; destruct on_relock; cbn; (eexists; split; [reflexivity|]); (split; [|try done]); try done;
  try (split_and!; cbn; rewrite ?length_app; cbn; try done; by apply table_ok_insert);
  intros _; split_and!; cbn; rewrite ?length_app; try done; try lia; by apply insert_subseteq.

Lemma run_metric_op_ok op s t lg :
  registry_ok s -> exists s', run_metric_op op (mkWorld s [] t lg) = Ret (tt, mkWorld s' [] t lg)
  /\ registry_ok s' /\ (op <> Clear -> registry_grows s s').
Proof.
  intros (Hc & Hg & Hh).
  assert (G : registry_grows s s) by (repeat split; done).
  destruct op as [n|n|n bs| | |l|l v|l v]; cbn [run_metric_op].
  - new_metric (counters_ s !! n).
  - new_metric (gauges_ s !! n).
  - new_metric (histograms_ s !! n).
  - unfold clear, with_lock, modify. cbn [held obj]. destruct on_relock; (eexists; split; [reflexivity|]);
      (split; [split_and!; apply table_ok_empty|done]).
  - unfold metrics_count, mbind, eff_bind, with_lock, get. cbn [held obj].
    destruct on_relock; (eexists; split; [reflexivity|]); done.
  - eexists. split; [reflexivity|]. cbn. split; [|intros _]; split_and!; cbn; rewrite ?length_alter; done.
  - eexists. split; [reflexivity|]. cbn. split; [|intros _]; split_and!; cbn; rewrite ?length_alter; done.
  - eexists. split; [reflexivity|]. cbn. split; [|intros _]; split_and!; cbn; rewrite ?length_alter; done.
Qed.

Lemma run_metric_ops_ok ops s :
  registry_ok s -> exists s', run_metric_ops ops (idle s) = Ret (tt, idle s')
  /\ registry_ok s' /\ (Clear ∉ ops -> registry_grows s s').
Proof.
  revert s. induction ops as [|op ops IH]; intros s Hs.
  - exists s. split_and!; done.
  - destruct (run_metric_op_ok op s 0 [] Hs) as (s1 & H1 & Hs1 & G1). destruct (IH s1 Hs1) as (s2 & H2 & Hs2 & G2).
    exists s2. cbn [run_metric_ops]. rewrite (eff_bind_run _ _ (idle s) tt (idle s1)) by exact H1.
    split_and!; [done|done|]. intros Hn. rewrite not_elem_of_cons in Hn. destruct Hn as [Ho Hn].
    destruct G1 as (? & ? & ? & ?); [congruence|]. destruct G2 as (? & ? & ? & ?); [done|].
    split_and!; by etrans.
Qed.

(** [get_counter] on an idle registry. *)
Lemma get_counter_run n s :
  exists l s', get_counter (E := ()) n (idle s) = Ret (l, idle s') /\ counters_ s' !! n = Some l
  /\ (forall l0, counters_ s !! n = Some l0 -> l = l0 /\ s' = s)
  /\ (counters_ s !! n = None -> l = length (counter_heap s) /\ counter_heap s' = counter_heap s ++ [SimpleCounter_default]).
Proof.
  unfold get_counter, mbind, eff_bind, with_lock, get, modify, idle. cbn [held obj ticks log].
  destruct (counters_ s !! n) as [l|] eqn:En; destruct on_relock; cbn; do 2 eexists;
    (split; [reflexivity|]); split_and!; try done; try (by intros ? [= <-]); cbn; try (by rewrite lookup_insert_eq); intros; simplify_eq; done.
Qed.

(** Whatever calls were made before, [get_counter] for a name answers with the
    handle of one counter that stays the name's handle through any further calls
    that do not clear the registry; another name never gets the same handle; and a
    name that is not in the table gets a new counter that stands at zero. *)
Theorem metric_handles_stable (before between : list metric_op) (n n' : cstr) :
  Clear ∉ between ->
  exists s0 l s1 s2 l' s3,
    run_metric_ops before (idle SimpleRegistry_default) = Ret (tt, idle s0)
    /\ get_counter (E := ()) n (idle s0) = Ret (l, idle s1)
    /\ (counters_ s0 !! n = None -> counter_heap s1 !! l = Some SimpleCounter_default)
    /\ run_metric_ops between (idle s1) = Ret (tt, idle s2)
    /\ get_counter (E := ()) n (idle s2) = Ret (l, idle s2)
    /\ get_counter (E := ()) n' (idle s2) = Ret (l', idle s3)
    /\ (l' = l <-> n' = n).
Proof.
  intros Hb. assert (H0 : registry_ok SimpleRegistry_default) by (split_and!; apply table_ok_empty).
  destruct (run_metric_ops_ok before _ H0) as (s0 & E0 & Hs0 & _).
  destruct (get_counter_run n s0) as (l & s1 & E1 & Hl1 & _ & Hnew).
  assert (Hs1 : registry_ok s1).
  { destruct (run_metric_op_ok (GetCounter n) s0 0 [] Hs0) as (s1' & E1' & H & _). cbn [run_metric_op] in E1'.
    change (mkWorld s0 [] 0 []) with (idle (E := ()) s0) in E1'. rewrite (eff_bind_run _ _ _ _ _ E1) in E1'.
    by injection E1' as ->. }
  destruct (run_metric_ops_ok between _ Hs1) as (s2 & E2 & Hs2 & G). destruct (G Hb) as (Gc & _).
  assert (Hl2 : counters_ s2 !! n = Some l) by (by eapply lookup_weaken).
  destruct (get_counter_run n s2) as (l2 & s2' & E3 & _ & Hold & _). destruct (Hold l Hl2) as [-> ->].
  destruct (get_counter_run n' s2) as (l' & s3 & E4 & Hl3 & Hold' & Hnew').
  exists s0, l, s1, s2, l', s3. split_and!; try done.
  - intros Hnone. destruct (Hnew Hnone) as [-> ->]. by rewrite list_lookup_middle.
  - destruct Hs2 as ([Hlt Hinj] & _). split; [|intros ->; by rewrite Hl2 in Hold'; destruct (Hold' l eq_refl)].
    intros ->. destruct (counters_ s2 !! n') as [l0|] eqn:En.
    + destruct (Hold' l0 eq_refl) as [<- _]. by eapply Hinj.
    + destruct (Hnew' eq_refl) as [-> _]. apply Hlt in Hl2. lia.
Qed.
End Handles.

Lemma metric_handles_stable_witness :
  exists l, get_counter (E := ()) (env := std_env (fun _ => 0)) $"a" (idle SimpleRegistry_default)
            = Ret (l, idle (mkSimpleRegistry {[ $"a" := l ]} ∅ ∅ [SimpleCounter_default] [] [])).
Proof.
  destruct (metric_handles_stable (env := std_env (fun _ => 0)) [] [Count; IncrementCounter 0] $"a" $"b" ltac:(set_solver))
    as (s0 & l & s1 & _ & _ & _ & H0 & H1 & _).
  exists l. injection H0 as <-. injection H1 as <- <-. reflexivity.
Defined.
