(* ===== verification/ChainForgeMetrics.v ===== *)
(** * ChainForgeMetrics: labelled metrics, the catalogue and the metrics server

    [MetricsRegistry] of metrics/src/metrics_registry.cpp, the metrics that
    chainforge_metrics.cpp and logging_metrics.cpp create, and metrics_server.cpp.

    prometheus-cpp is a parameter: a family [Fam] is registered under a name, and
    adding labels to it gives a metric [Met].  A [std::map<std::string, std::string>]
    of labels is its list of entries in key order. *)

From stdpp Require Import base list gmap numbers strings.
From Stdlib Require Import ZArith Lia Ascii.
From S2P Require Import Prelude CString Floats Effects HttpServer HttpProps Metrics LogConfig.

Inductive metric_kind : Type := KCounter | KGauge | KHistogram.
#[export] Instance metric_kind_eq_dec : EqDecision metric_kind.
Proof. solve_decision. Defined.

Abbreviation labels := (list (list ascii * list ascii)) (only parsing).

(** The loop over the labels prints them separated by commas. *)
Definition label_text (kv : cstr * cstr) : cstr := fst kv ++ $"=" ++ snd kv.
Definition generate_metric_key (name : cstr) (ls : labels) : cstr :=
  match ls with
  | [] => name
  | _ => name ++ $"{" ++ join "," (map label_text ls) ++ $"}"
  end.

Definition get_default_histogram_buckets : list double := DEFAULT_BUCKETS.

(** Creating a metric asks the library for a family and for a metric. *)
Inductive prom_call : Type :=
  | Register (k : metric_kind) (name help : cstr)
  | Add (k : metric_kind) (name : cstr) (ls : labels) (buckets : list double)
  | Increment (name : cstr) (ls : labels)
  | ObserveBytes (n : Z).

Class PromLib : Type := {
  Fam : Type;
  Met : Type;
  prom_register : metric_kind -> list ascii -> list ascii -> Fam;
  prom_add : Fam -> list (list ascii * list ascii) -> list double -> Met
}.

Section Registry.
Context {P : PromLib} {env : Env}.

(** The cached metrics and the families of one kind. *)
Record table : Type := mkTable { cached : gmap (list ascii) Met; families : gmap (list ascii) Fam }.

Record MetricsRegistry : Type := mkMetricsRegistry {
  counters : table;
  gauges : table;
  histograms : table
}.
Definition empty_table : table := mkTable ∅ ∅.
Definition MetricsRegistry_default : MetricsRegistry := mkMetricsRegistry empty_table empty_table empty_table.

Definition table_of (k : metric_kind) (s : MetricsRegistry) : table :=
  match k with KCounter => counters s | KGauge => gauges s | KHistogram => histograms s end.
Definition set_table (k : metric_kind) (t : table) (s : MetricsRegistry) : MetricsRegistry :=
  match k with
  | KCounter => mkMetricsRegistry t (gauges s) (histograms s)
  | KGauge => mkMetricsRegistry (counters s) t (histograms s)
  | KHistogram => mkMetricsRegistry (counters s) (gauges s) t
  end.

(** The body the three [create_*] functions share: look up the key, get or create
    the family, add the labels and cache the metric. *)
Definition create_metric (k : metric_kind) (name help : cstr) (buckets : list double) (ls : labels)
    : eff MetricsRegistry prom_call Met :=
  with_lock Exclusive (
    let key := generate_metric_key name ls in
    s ← get;
    match cached (table_of k s) !! key with
    | Some m => mret m
    | None =>
        family ← match families (table_of k s) !! name with
                 | Some f => mret f
                 | None =>
                     emit (Register k name help);;
                     let f := prom_register k name help in
                     modify (fun s => set_table k (mkTable (cached (table_of k s)) (<[ name := f ]> (families (table_of k s)))) s);;
                     mret f
                 end;
        emit (Add k name ls buckets);;
        let m := prom_add family ls buckets in
        modify (fun s => set_table k (mkTable (<[ key := m ]> (cached (table_of k s))) (families (table_of k s))) s);;
        mret m
    end).

Definition create_counter (name help : cstr) (ls : labels) : eff MetricsRegistry prom_call Met :=
  create_metric KCounter name help [] ls.
Definition create_gauge (name help : cstr) (ls : labels) : eff MetricsRegistry prom_call Met :=
  create_metric KGauge name help [] ls.
Definition create_histogram (name help : cstr) (buckets : list double) (ls : labels) : eff MetricsRegistry prom_call Met :=
  create_metric KHistogram name help (match buckets with [] => get_default_histogram_buckets | _ => buckets end) ls.

Definition clear : eff MetricsRegistry prom_call () :=
  with_lock Exclusive (modify (fun _ => MetricsRegistry_default)).
Definition metrics_count : eff MetricsRegistry prom_call Z :=
  with_lock Exclusive (s ← get;
    mret (Z.of_nat (size (cached (counters s)) + size (cached (gauges s)) + size (cached (histograms s))))).

(** ** The catalogue of chainforge_metrics.cpp *)

Definition catalogue : list (metric_kind * cstr * cstr * list double) := [
  (KCounter, $"chainforge_blocks_processed_total", $"Total number of blocks processed", []);
  (KHistogram, $"chainforge_block_processing_duration_seconds", $"Time spent processing blocks", BLOCK_PROCESSING);
  (KGauge, $"chainforge_current_block_height", $"Current blockchain height", []);
  (KHistogram, $"chainforge_block_size_bytes", $"Size of blocks in bytes", SIZE_BYTES);
  (KCounter, $"chainforge_transactions_processed_total", $"Total number of transactions processed", []);
  (KHistogram, $"chainforge_transaction_processing_duration_seconds", $"Time spent processing transactions", TRANSACTION_PROCESSING);
  (KGauge, $"chainforge_mempool_pending_transactions", $"Number of pending transactions in mempool", []);
  (KHistogram, $"chainforge_transaction_fees", $"Distribution of transaction fees", []);
  (KGauge, $"chainforge_connected_peers", $"Number of connected peers", []);
  (KCounter, $"chainforge_network_messages_sent_total", $"Total number of network messages sent", []);
  (KCounter, $"chainforge_network_messages_received_total", $"Total number of network messages received", []);
  (KCounter, $"chainforge_network_bytes_sent_total", $"Total bytes sent over network", []);
  (KCounter, $"chainforge_network_bytes_received_total", $"Total bytes received over network", []);
  (KCounter, $"chainforge_consensus_rounds_total", $"Total number of consensus rounds", []);
  (KHistogram, $"chainforge_consensus_duration_seconds", $"Time spent in consensus rounds", DEFAULT_TIMING);
  (KGauge, $"chainforge_active_validators", $"Number of active validators", []);
  (KCounter, $"chainforge_db_operations_total", $"Total number of database operations", []);
  (KHistogram, $"chainforge_db_operation_duration_seconds", $"Time spent on database operations", DB_QUERY_DURATION);
  (KGauge, $"chainforge_db_size_bytes", $"Database size in bytes", []);
  (KCounter, $"chainforge_rpc_requests_total", $"Total number of RPC requests", []);
  (KHistogram, $"chainforge_rpc_request_duration_seconds", $"Time spent processing RPC requests", HTTP_REQUEST_DURATION);
  (KGauge, $"chainforge_rpc_active_connections", $"Number of active RPC connections", []);
  (KGauge, $"chainforge_memory_usage_bytes", $"Memory usage in bytes", []);
  (KGauge, $"chainforge_cpu_usage_percent", $"CPU usage percentage", []);
  (KGauge, $"chainforge_uptime_seconds", $"Application uptime in seconds", [])
].

Definition create_entry (e : metric_kind * cstr * cstr * list double) : eff MetricsRegistry prom_call () :=
  let '(k, name, help, bs) := e in
  match k with
  | KCounter => create_counter name help []
  | KGauge => create_gauge name help []
  | KHistogram => create_histogram name help bs []
  end;; mret tt.

(** [ChainForgeMetrics::initialize]: the flag it returns is [initialized_]. *)
Definition initialize (initialized_ : bool) : eff MetricsRegistry prom_call bool :=
  if initialized_ then mret true else for_each create_entry catalogue;; mret true.

(** ** logging_metrics.cpp *)

Definition level_to_string (l : LogLevel) : cstr :=
  match l with
  | TRACE => $"trace" | DEBUG => $"debug" | INFO => $"info" | WARN => $"warn"
  | ERROR => $"error" | CRITICAL => $"critical" | OFF => $"off"
  end.

Definition LOG_MESSAGES : cstr := $"chainforge_log_messages_total".
Definition LOG_MESSAGES_HELP : cstr := $"Total number of log messages by level and logger".

Definition logging_initialize (initialized_ : bool) : eff MetricsRegistry prom_call bool :=
  if initialized_ then mret true
  else
    create_counter LOG_MESSAGES LOG_MESSAGES_HELP [];;
    create_histogram $"chainforge_log_message_size_bytes" $"Size of log messages in bytes"
      (map d_of_Z [64; 256; 1024; 4096; 16384; 65536]) [];;
    mret true.

Definition record_log_event (initialized_ : bool) (level logger_name : cstr) : eff MetricsRegistry prom_call () :=
  if initialized_ then
    let ls := [($"level", level); ($"logger", logger_name)] in
    create_counter LOG_MESSAGES LOG_MESSAGES_HELP ls;;
    emit (Increment LOG_MESSAGES ls)
  else mret tt.

Definition record_log_message_size (initialized_ : bool) (size_bytes : Z) : eff MetricsRegistry prom_call () :=
  if initialized_ then emit (ObserveBytes size_bytes) else mret tt.

(** [MetricsLogger::log] up to the call of the logger itself. *)
Definition metrics_log (initialized_ : bool) (level : LogLevel) (logger_name message : cstr) : eff MetricsRegistry prom_call () :=
  record_log_event initialized_ (level_to_string level) logger_name;;
  record_log_message_size initialized_ (Z.of_nat (length message)).
End Registry.
Arguments MetricsRegistry P : clear implicits.

(** ** The metrics server *)

Record MetricsServerConfig : Type := mkMetricsServerConfig {
  server_host : cstr;
  server_port : Z;
  server_path : cstr;
  thread_pool_size : Z;
  enable_compression : bool
}.
Definition config_is_valid (c : MetricsServerConfig) : bool :=
  (0 <? server_port c) && (server_port c <=? 65535) && nonempty (server_host c) && nonempty (server_path c).
Definition bind_address (c : MetricsServerConfig) : cstr := server_host c ++ $":" ++ print_dec (server_port c).

Record MetricsServer : Type := mkMetricsServer { ms_config : MetricsServerConfig; ms_running : bool }.
Definition MetricsServer_of (c : MetricsServerConfig) : outcome MetricsServer :=
  if config_is_valid c then Ret (mkMetricsServer c false)
  else Throw (invalid_argument "Invalid metrics server configuration").
Definition metrics_url (s : MetricsServer) : cstr :=
  $"http://" ++ bind_address (ms_config s) ++ server_path (ms_config s).

(** Starting and stopping print a line to [std::cout]: the text is the last result. *)
Definition ms_start (s : MetricsServer) : bool * MetricsServer * cstr :=
  if ms_running s then (true, s, [])
  else (true, mkMetricsServer (ms_config s) true, $"Metrics server stub started at " ++ metrics_url s ++ [NL]).
Definition ms_stop (s : MetricsServer) : MetricsServer * cstr :=
  if ms_running s then (mkMetricsServer (ms_config s) false, $"Metrics server stopped" ++ [NL]) else (s, []).
Definition MetricsServer_end (s : MetricsServer) : MetricsServer * cstr := ms_stop s.

(** [GlobalMetricsServer]: the servers made so far, which callers of [server()]
    may still hold, and the current one. *)
Record GlobalMetricsServer : Type := mkGlobal { servers : list MetricsServer; server_ : option nat }.

(** [if (server_ && server_->is_running()) server_->stop()]. *)
Definition stop_current (g : GlobalMetricsServer) : list MetricsServer * cstr :=
  match server_ g with
  | Some i =>
      match servers g !! i with
      | Some s => let '(s', text) := ms_stop s in (<[i := s']> (servers g), text)
      | None => (servers g, [])
      end
  | None => (servers g, [])
  end.

Definition global_initialize (c : MetricsServerConfig) (g : GlobalMetricsServer) : bool * GlobalMetricsServer * cstr :=
  let '(old, text) := stop_current g in
  match MetricsServer_of c with
  | Ret s => let '(r, s, more) := ms_start s in (r, mkGlobal (old ++ [s]) (Some (length old)), text ++ more)
  | _ => (false, mkGlobal old None, text)
  end.
Definition global_shutdown (g : GlobalMetricsServer) : GlobalMetricsServer * cstr :=
  let '(old, text) := stop_current g in (mkGlobal old None, text).
Definition current (g : GlobalMetricsServer) : option MetricsServer := server_ g ≫= (fun i => servers g !! i).
Definition global_is_running (g : GlobalMetricsServer) : bool :=
  match current g with Some s => ms_running s | None => false end.
Definition start_metrics_server (c : MetricsServerConfig) (g : GlobalMetricsServer) : bool * GlobalMetricsServer * cstr := global_initialize c g.
Definition stop_metrics_server (g : GlobalMetricsServer) : GlobalMetricsServer * cstr := global_shutdown g.
Definition is_metrics_server_running (g : GlobalMetricsServer) : bool := global_is_running g.
Definition get_metrics_url (g : GlobalMetricsServer) : cstr :=
  match current g with
  | Some s => if ms_running s then metrics_url s else []
  | None => []
  end.

(** ** Theorems *)

Section Props.
Context {P : PromLib} {env : Env}.

(** [create_metric] on an idle registry. *)
Lemma create_metric_run k name help bs ls s :
  exists m s' calls, create_metric k name help bs ls (idle s) = Ret (m, mkWorld s' [] 0 calls)
  /\ cached (table_of k s') !! generate_metric_key name ls = Some m
  /\ match cached (table_of k s) !! generate_metric_key name ls with
     | Some m0 => m = m0 /\ s' = s /\ calls = []
     | None => calls = (match families (table_of k s) !! name with Some _ => [] | None => [Register k name help] end)
                       ++ [Add k name ls bs]
     end.
Proof.
  unfold create_metric, with_lock, mbind, eff_bind, get, emit, modify, mret, eff_ret, idle. cbn [held obj ticks log].
  destruct (cached (table_of k s) !! generate_metric_key name ls) as [m|] eqn:Ek; destruct on_relock;
    try (do 3 eexists; split; [reflexivity|done]);
    destruct (families (table_of k s) !! name) as [f|] eqn:Ef; do 3 eexists; (split; [reflexivity|]);
    (split; [|done]); destruct k; cbn; by rewrite lookup_insert_eq.
Qed.

(** A second request for the same name and labels gets the cached metric without a
    call of the library. *)
Lemma create_metric_cached k name help bs help' bs' ls s :
  exists m s' calls, create_metric k name help bs ls (idle s) = Ret (m, mkWorld s' [] 0 calls)
  /\ create_metric k name help' bs' ls (idle s') = Ret (m, idle s').
Proof.
  destruct (create_metric_run k name help bs ls s) as (m & s' & calls & H & Hc & _). exists m, s', calls. split; [done|].
  destruct (create_metric_run k name help' bs' ls s') as (m' & s'' & calls' & H' & _ & Hm). rewrite Hc in Hm.
  destruct Hm as (-> & -> & ->). exact H'.
Qed.

(** A metric is identified by its printed key, and the key does not separate
    labels: the label a with the value 1,b=2 and the labels a=1, b=2 have one key,
    so that whoever asks second gets the first one's metric, and the library is
    never told about the second set of labels. *)
Theorem metric_label_collision (k : metric_kind) (name help : cstr) (bs : list double) (s : MetricsRegistry P) :
  let l1 := [($"a", $"1,b=2")] in
  let l2 := [($"a", $"1"); ($"b", $"2")] in
  l1 <> l2 /\
  exists m s' calls, create_metric k name help bs l1 (idle s) = Ret (m, mkWorld s' [] 0 calls)
  /\ create_metric k name help bs l2 (idle s') = Ret (m, idle s').
Proof.
  intros l1 l2. split; [done|].
  assert (Hk : generate_metric_key name l1 = generate_metric_key name l2) by done.
  destruct (create_metric_run k name help bs l1 s) as (m & s' & calls & H & Hc & _). exists m, s', calls. split; [done|].
  destruct (create_metric_run k name help bs l2 s') as (m' & s'' & calls' & H' & _ & Hm). rewrite <- Hk, Hc in Hm.
  destruct Hm as (-> & -> & ->). exact H'.
Qed.

(** The catalogue: the first call creates 25 families with one metric each, the
    second does nothing. *)
Lemma catalogue_created :
  match initialize false (idle MetricsRegistry_default) with
  | Ret (r, w) => r = true /\ length (log w) = 50%nat
      /\ (size (cached (counters (obj w))) + size (cached (gauges (obj w))) + size (cached (histograms (obj w))) = 25)%nat
  | _ => False
  end.
Proof. destruct env as [[] clk]; vm_compute; done. Qed.
End Props.

(** Replacing the server: with a bad configuration the running server is stopped and
    none is left; otherwise exactly the new one runs.  What is printed says so: one
    line if a server was stopped, then one if a server was started. *)
Theorem metrics_server_replaced (c : MetricsServerConfig) (g : GlobalMetricsServer) :
  (forall i, server_ g = Some i -> (i < length (servers g))%nat) ->
  (forall i s, servers g !! i = Some s -> ms_running s = true -> server_ g = Some i) ->
  let '(r, g', text) := global_initialize c g in
  let url := $"http://" ++ bind_address c ++ server_path c in
  r = config_is_valid c /\ global_is_running g' = config_is_valid c
  /\ get_metrics_url g' = (if config_is_valid c then url else [])
  /\ text = (if global_is_running g then $"Metrics server stopped" ++ [NL] else [])
            ++ (if config_is_valid c then $"Metrics server stub started at " ++ url ++ [NL] else [])
  /\ forall i s, servers g' !! i = Some s -> ms_running s = true -> server_ g' = Some i.
Proof.
  intros Hb Hr. destruct (stop_current g) as [old text] eqn:Eo.
  assert (Hold : (forall i s, old !! i = Some s -> ms_running s = false)
    /\ text = if global_is_running g then $"Metrics server stopped" ++ [NL] else []).
  { unfold stop_current, global_is_running, current in *. destruct (server_ g) as [j|] eqn:Hj; cbn [mbind option_bind].
    - destruct (lookup_lt_is_Some_2 (servers g) j (Hb j eq_refl)) as [t Ht]. rewrite Ht in *. unfold ms_stop in Eo.
      destruct (ms_running t) eqn:Et; injection Eo as <- <-; (split; [|done]); intros i s Hi; destruct (decide (i = j)) as [->|Hne].
      + rewrite list_lookup_insert_eq in Hi by (by apply Hb). by injection Hi as <-.
      + rewrite list_lookup_insert_ne in Hi by done. destruct (ms_running s) eqn:Es; [|done]. by specialize (Hr _ _ Hi Es) as [= ->].
      + rewrite list_lookup_insert_eq in Hi by (by apply Hb). by injection Hi as <-.
      + rewrite list_lookup_insert_ne in Hi by done. destruct (ms_running s) eqn:Es; [|done]. by specialize (Hr _ _ Hi Es) as [= ->].
    - injection Eo as <- <-. split; [|done]. intros i s Hi. destruct (ms_running s) eqn:Es; [|done]. by specialize (Hr _ _ Hi Es). }
  destruct Hold as [Hold ->]. unfold global_initialize, MetricsServer_of, ms_start. rewrite Eo.
  destruct (config_is_valid c); cbn [ms_running ms_config].
  - unfold global_is_running at 1, get_metrics_url, current at 1 2. cbn [server_ servers mbind option_bind].
    rewrite list_lookup_middle by done. split_and!; try done.
    intros i s Hi Hrun. apply lookup_snoc_Some in Hi as [[_ Hi]|[-> _]]; [|done]. by rewrite (Hold _ _ Hi) in Hrun.
  - rewrite app_nil_r. split_and!; try done. cbn. intros i s Hi Hrun. by rewrite (Hold _ _ Hi) in Hrun.
Qed.

Lemma metrics_server_replaced_witness :
  let g := mkGlobal [mkMetricsServer (mkMetricsServerConfig $"h" 80 $"/m" 1 true) true] (Some 0%nat) in
  let '(r, g', text) := global_initialize (mkMetricsServerConfig $"h" 0 $"/m" 1 true) g in
  r = false /\ global_is_running g' = false /\ text = $"Metrics server stopped" ++ [NL].
Proof.
  pose proof (metrics_server_replaced (mkMetricsServerConfig $"h" 0 $"/m" 1 true)
    (mkGlobal [mkMetricsServer (mkMetricsServerConfig $"h" 80 $"/m" 1 true) true] (Some 0%nat))) as H.
  destruct H as (H1 & H2 & _ & H3 & _); [by intros i [= <-]; cbn; lia|by intros [|[]] s|]. done.
Defined.
