(* ===== verification/MetricsCatalogue.v ===== *)
(** * MetricsCatalogue: the process-wide metrics and the logger that counts

    The singletons of the metrics module: [ChainForgeMetrics] with its 25 members and
    their getters (chainforge_metrics.hpp, chainforge_metrics.cpp), and
    [LoggingMetrics] with [MetricsLogger] (logging_metrics.hpp,
    logging_metrics.cpp), which counts a message and forwards it to a [Logger].  A
    member is a [std::shared_ptr], null until [initialize] has run. *)

From stdpp Require Import base list gmap numbers strings.
From Stdlib Require Import ZArith Lia Ascii.
From S2P Require Import Prelude CString Floats Effects Metrics Json JsonTable LogConfig LogFormat Logger ChainForgeMetrics.

(** ** The members *)

Inductive member : Type :=
  | blocks_processed_total | block_processing_duration | current_block_height | block_size_bytes
  | transactions_processed_total | transaction_processing_duration | mempool_pending_transactions | transaction_fees
  | connected_peers | network_messages_sent_total | network_messages_received_total
  | network_bytes_sent_total | network_bytes_received_total
  | consensus_rounds_total | consensus_duration | active_validators
  | db_operations_total | db_operation_duration | db_size_bytes
  | rpc_requests_total | rpc_request_duration | rpc_active_connections
  | memory_usage_bytes | cpu_usage_percent | uptime_seconds.

#[export] Instance member_eq_dec : EqDecision member.
Proof. solve_decision. Defined.

(** The members in the order [initialize] assigns them. *)
Definition members : list member := [
  blocks_processed_total; block_processing_duration; current_block_height; block_size_bytes;
  transactions_processed_total; transaction_processing_duration; mempool_pending_transactions; transaction_fees;
  connected_peers; network_messages_sent_total; network_messages_received_total;
  network_bytes_sent_total; network_bytes_received_total;
  consensus_rounds_total; consensus_duration; active_validators;
  db_operations_total; db_operation_duration; db_size_bytes;
  rpc_requests_total; rpc_request_duration; rpc_active_connections;
  memory_usage_bytes; cpu_usage_percent; uptime_seconds].

(** The kind the header declares for a member. *)
Definition member_kind (m : member) : metric_kind :=
  match m with
  | blocks_processed_total | transactions_processed_total | network_messages_sent_total | network_messages_received_total
  | network_bytes_sent_total | network_bytes_received_total | consensus_rounds_total | db_operations_total | rpc_requests_total => KCounter
  | current_block_height | mempool_pending_transactions | connected_peers | active_validators | db_size_bytes
  | rpc_active_connections | memory_usage_bytes | cpu_usage_percent | uptime_seconds => KGauge
  | _ => KHistogram
  end.

(** The entry of the catalogue a member is assigned from. *)
Fixpoint entry_at (ms : list member) (es : list (metric_kind * cstr * cstr * list double)) (m : member)
    : option (metric_kind * cstr * cstr * list double) :=
  match ms, es with
  | x :: ms', e :: es' => if decide (m = x) then Some e else entry_at ms' es' m
  | _, _ => None
  end.
Definition member_entry (m : member) : option (metric_kind * cstr * cstr * list double) := entry_at members catalogue m.
Definition member_name (m : member) : cstr := match member_entry m with Some (_, name, _, _) => name | None => [] end.

(** ** ChainForgeMetrics *)

Section Catalogue.
Context {P : PromLib} {env : Env}.

(** The fields that are not null. *)
Record ChainForgeMetrics : Type := mkChainForgeMetrics { initialized_ : bool; fields : list (member * Met) }.
Definition ChainForgeMetrics_default : ChainForgeMetrics := mkChainForgeMetrics false [].

Definition assign_field (m : member) (x : Met) (c : ChainForgeMetrics) : ChainForgeMetrics :=
  mkChainForgeMetrics (initialized_ c) ((m, x) :: fields c).

(** A getter returns its field. *)
Fixpoint field_in (l : list (member * Met)) (m : member) : option Met :=
  match l with [] => None | (k, x) :: l' => if decide (m = k) then Some x else field_in l' m end.
Definition getter (m : member) (c : ChainForgeMetrics) : option Met := field_in (fields c) m.

(** [registry.create_*(...)] with the entry's arguments. *)
Definition create_for (e : metric_kind * cstr * cstr * list double) : eff (MetricsRegistry P) prom_call Met :=
  let '(k, name, help, bs) := e in
  match k with
  | KCounter => create_counter name help []
  | KGauge => create_gauge name help []
  | KHistogram => create_histogram name help bs []
  end.

Fixpoint assign_members (ms : list (member * (metric_kind * cstr * cstr * list double))) (c : ChainForgeMetrics)
    : eff (MetricsRegistry P) prom_call ChainForgeMetrics :=
  match ms with
  | [] => mret c
  | (m, e) :: ms' => x ← create_for e; assign_members ms' (assign_field m x c)
  end.

Definition initialize_metrics (c : ChainForgeMetrics) : eff (MetricsRegistry P) prom_call ChainForgeMetrics :=
  if initialized_ c then mret c
  else c' ← assign_members (zip members catalogue) c; mret (mkChainForgeMetrics true (fields c')).

(** *** Lemmas *)

Abbreviation rworld := (world (MetricsRegistry P) prom_call) (only parsing).

(** Everything cached stays cached. *)
Definition keeps_cached (w w' : rworld) : Prop :=
  forall k key m, cached (table_of k (obj w)) !! key = Some m -> cached (table_of k (obj w')) !! key = Some m.

(** A call of the library that makes a family or a metric. *)
Definition is_creation (c : prom_call) : bool := match c with Register _ _ _ | Add _ _ _ _ => true | _ => false end.

Lemma create_metric_caches k name help bs ls (w : rworld) :
  held w = [] -> exists m w', create_metric k name help bs ls w = Ret (m, w') /\ held w' = []
    /\ cached (table_of k (obj w')) !! generate_metric_key name ls = Some m /\ keeps_cached w w'
    /\ exists calls, Effects.log w' = Effects.log w ++ calls /\ Forall is_creation calls.
Proof.
  destruct w as [s hs tk lg]. cbn [held]. intros ->.
  unfold create_metric, with_lock, mbind, eff_bind, get, emit, modify, mret, eff_ret. cbn [held obj ticks log].
  destruct (cached (table_of k s) !! generate_metric_key name ls) as [m|] eqn:Ek.
  { destruct on_relock; (exists m, (mkWorld s [] tk lg); split_and!; [done|done|exact Ek|by intros ???|exists []; by rewrite app_nil_r]). }
  assert (Hnew : forall (fs : gmap (list ascii) Fam) x hs' tk' lg',
    let s' := set_table k (mkTable (<[ generate_metric_key name ls := x ]> (cached (table_of k s))) fs) s in
    cached (table_of k s') !! generate_metric_key name ls = Some x /\ keeps_cached (mkWorld s [] tk lg) (mkWorld s' hs' tk' lg')).
  { intros fs x hs' tk' lg' s'. split; [destruct k; cbn; by rewrite lookup_insert_eq|].
    intros k' key' m' H. destruct k, k'; cbn in *; try done; (rewrite lookup_insert_ne; [done|congruence]). }
  destruct (families (table_of k s) !! name) as [f|] eqn:Ef; destruct on_relock; (do 2 eexists; split; [reflexivity|]);
    (split; [done|]); (split; [destruct k; exact (proj1 (Hnew _ _ [] tk lg))|]); (split; [destruct k; exact (proj2 (Hnew _ _ _ _ _))|]); cbn [Effects.log].
  1,2: exists [Add k name ls bs]; by split; [|repeat constructor].
  all: exists [Register k name help; Add k name ls bs]; split; [by rewrite <- app_assoc|by repeat constructor].
Qed.

Lemma create_for_caches e (w : rworld) :
  held w = [] -> exists m w', create_for e w = Ret (m, w') /\ held w' = []
    /\ cached (table_of (fst (fst (fst e))) (obj w')) !! snd (fst (fst e)) = Some m /\ keeps_cached w w'.
Proof.
  destruct e as [[[k name] help] bs]. intros Hw. cbn [fst snd]. unfold create_for.
  assert (G : forall k' bs', exists m w', create_metric k' name help bs' [] w = Ret (m, w') /\ held w' = []
    /\ cached (table_of k' (obj w')) !! name = Some m /\ keeps_cached w w').
  { intros k' bs'. destruct (create_metric_caches k' name help bs' [] w Hw) as (m & w' & H1 & H2 & H3 & H4 & _). by exists m, w'. }
  destruct k; apply G.
Qed.
(** [assign_members] stops nowhere, and each member it has assigned is the registry's
    metric of that name. *)
Definition holds_metric (c : ChainForgeMetrics) (w : rworld) (me : member * (metric_kind * cstr * cstr * list double)) : Prop :=
  exists x, getter (fst me) c = Some x /\ cached (table_of (fst (fst (fst (snd me)))) (obj w)) !! snd (fst (fst (snd me))) = Some x.

Lemma holds_metric_keeps c w w' me : keeps_cached w w' -> holds_metric c w me -> holds_metric c w' me.
Proof. intros Hk (x & H1 & H2). exists x. split; [done|]. by apply Hk. Qed.

Lemma holds_metric_assign c w m x me : fst me <> m -> holds_metric c w me -> holds_metric (assign_field m x c) w me.
Proof. intros Hne (y & H1 & H2). exists y. split; [|done]. unfold getter. cbn. by rewrite decide_False. Qed.

Lemma assign_members_run ms c (w : rworld) done_ms :
  held w = [] -> NoDup (map fst (done_ms ++ ms)) -> Forall (holds_metric c w) done_ms ->
  exists c' w', assign_members ms c w = Ret (c', w') /\ held w' = [] /\ Forall (holds_metric c' w') (done_ms ++ ms) /\ keeps_cached w w'.
Proof.
  revert c w done_ms. induction ms as [|[m e] ms IH]; intros c w done_ms Hw Hnd Hd.
  { exists c, w. rewrite app_nil_r. split_and!; [done|done|done|by intros ???]. }
  destruct (create_for_caches e w Hw) as (x & w1 & H1 & Hw1 & Hx & Hk1).
  assert (Hd' : Forall (holds_metric (assign_field m x c) w1) (done_ms ++ [(m, e)])).
  { apply Forall_app. split; [|constructor; [|constructor]].
    - rewrite Forall_forall in Hd |- *. intros me Hin. apply holds_metric_assign; [|by eapply holds_metric_keeps, Hd].
      intros <-. rewrite map_app in Hnd. apply NoDup_app in Hnd as (_ & Hnd & _).
      apply (Hnd (fst me)); [by apply list_elem_of_fmap_2|by left].
    - exists x. cbn. unfold getter. cbn. by rewrite decide_True. }
  destruct (IH (assign_field m x c) w1 (done_ms ++ [(m, e)]) Hw1) as (c' & w' & H2 & Hw' & Hall & Hk2); [by rewrite <- app_assoc|done|].
  exists c', w'. rewrite <- app_assoc in Hall. split_and!; [|done|done|].
  - cbn [assign_members]. by rewrite (eff_bind_run _ _ _ _ _ H1).
  - intros k key y Hy. by apply Hk2, Hk1.
Qed.

Lemma members_nodup : NoDup (map fst (zip members catalogue)).
Proof. apply (bool_decide_unpack _). vm_compute. exact I. Qed.

Lemma member_in_zip m : exists e, member_entry m = Some e /\ (m, e) ∈ zip members catalogue /\ fst (fst (fst e)) = member_kind m.
Proof. destruct m; eexists; (split; [vm_compute; reflexivity|]); (split; [|reflexivity]); apply list_elem_of_In; vm_compute; tauto. Qed.
End Catalogue.
Arguments ChainForgeMetrics P : clear implicits.

(** The catalogue.  Before [initialize] every getter returns null; afterwards,
    whatever the registry held, the getter of each member returns the registry's
    metric of the member's kind and name; a second call does nothing.  When the
    registry is cleared the members keep the old metrics: [initialize] does not run
    again, the getters still return them, and the registry has none. *)
Theorem catalogue_members {P : PromLib} {env : Env} (s : MetricsRegistry P) :
  (forall m, getter m (ChainForgeMetrics_default (P := P)) = None)
  /\ exists c w, initialize_metrics ChainForgeMetrics_default (idle s) = Ret (c, w)
     /\ (forall m, exists x, getter m c = Some x /\ cached (table_of (member_kind m) (obj w)) !! member_name m = Some x)
     /\ (forall w', initialize_metrics c w' = Ret (c, w'))
     /\ exists w1, clear w = Ret (tt, w1)
        /\ initialize_metrics c w1 = Ret (c, w1)
        /\ (forall m, is_Some (getter m c)) /\ forall k key, cached (table_of k (obj w1)) !! key = None.
Proof.
  split; [done|]. destruct (assign_members_run (P := P) (zip members catalogue) ChainForgeMetrics_default (idle s) [] eq_refl members_nodup (Forall_nil_2 _))
    as (c & w & Hrun & Hw & Hall & _).
  assert (Hget : forall m, exists x, getter m (mkChainForgeMetrics true (fields c)) = Some x
    /\ cached (table_of (member_kind m) (obj w)) !! member_name m = Some x).
  { intros m. destruct (member_in_zip m) as (e & He & Hin & Hk). rewrite Forall_forall in Hall. destruct (Hall _ Hin) as (x & H1 & H2).
    exists x. split; [exact H1|]. unfold member_name. rewrite He. destruct e as [[[k n] h] bs]. cbn in *. by rewrite <- Hk. }
  exists (mkChainForgeMetrics true (fields c)), w. split_and!; [|exact Hget|done|].
  - unfold initialize_metrics. cbn [initialized_ ChainForgeMetrics_default]. by rewrite (eff_bind_run _ _ _ _ _ Hrun).
  - destruct w as [r hs tk lg]. cbn [held] in Hw. subst hs. exists (mkWorld MetricsRegistry_default [] tk lg). split_and!; [|done| |].
    + unfold clear, with_lock, modify. cbn. by destruct on_relock.
    + intros m. destruct (Hget m) as (x & -> & _). by eexists.
    + intros k key. destruct k; apply lookup_empty.
Qed.

(** ** LoggingMetrics and MetricsLogger *)

Section Metered.
Context {J : JsonLib} {L : SpdLog} {P : PromLib} {env : Env}.

Record LoggingMetrics : Type := mkLoggingMetrics {
  lm_initialized : bool;
  log_messages_total_ : option Met;
  log_message_size_bytes_ : option Met
}.
Definition LoggingMetrics_default : LoggingMetrics := mkLoggingMetrics false None None.

(** The singleton, the registry it uses and spdlog. *)
Record metered : Type := mkMetered {
  lm : LoggingMetrics;
  reg : world (MetricsRegistry P) prom_call;
  slog : spd
}.

Definition on_registry {A} (m : eff (MetricsRegistry P) prom_call A) : act metered A := fun st =>
  match m (reg st) with
  | Ret (a, w) => (Ret a, mkMetered (lm st) w (slog st))
  | Throw e => (Throw e, st)
  | Undefined => (Undefined, st)
  end.
Definition on_spd {A} (m : act spd A) : act metered A := azoom slog (fun w st => mkMetered (lm st) (reg st) w) m.
Definition set_lm (l : LoggingMetrics) : act metered () := aput (fun st => mkMetered l (reg st) (slog st)).

Definition SIZE_HELP : cstr := $"Size of log messages in bytes".
Definition LOG_SIZES : list double := map d_of_Z [64; 256; 1024; 4096; 16384; 65536].

Definition LoggingMetrics_initialize : act metered () :=
  l ← aget lm;
  if lm_initialized l then mret tt
  else
    total ← on_registry (create_counter LOG_MESSAGES LOG_MESSAGES_HELP []);
    set_lm (mkLoggingMetrics (lm_initialized l) (Some total) (log_message_size_bytes_ l));;
    size ← on_registry (create_histogram $"chainforge_log_message_size_bytes" SIZE_HELP LOG_SIZES []);
    set_lm (mkLoggingMetrics true (Some total) (Some size)).

Definition LoggingMetrics_record_log_event (level logger_name : cstr) : act metered () :=
  l ← aget lm; on_registry (record_log_event (lm_initialized l) level logger_name).

Definition LoggingMetrics_record_log_message_size (size_bytes : Z) : act metered () :=
  l ← aget lm;
  if negb (lm_initialized l) || negb (bool_decide (is_Some (log_message_size_bytes_ l))) then mret tt
  else on_registry (emit (ObserveBytes size_bytes)).

(** [MetricsLogger]: a reference to a logger and to the singleton. *)
Record MetricsLogger : Type := mkMetricsLogger { ml_logger : Logger }.

Definition MetricsLogger_new (logger : Logger) : act metered MetricsLogger :=
  LoggingMetrics_initialize;; mret (mkMetricsLogger logger).

Definition MetricsLogger_log (self : MetricsLogger) (level : LogLevel) (message : cstr) (context : json) : act metered () :=
  LoggingMetrics_record_log_event (level_to_string level) (logger_name (logger_ (ml_logger self)));;
  LoggingMetrics_record_log_message_size (Z.of_nat (length message));;
  on_spd (Logger.log (ml_logger self) level message context).

Definition MetricsLogger_trace (self : MetricsLogger) := MetricsLogger_log self TRACE.
Definition MetricsLogger_debug (self : MetricsLogger) := MetricsLogger_log self DEBUG.
Definition MetricsLogger_info (self : MetricsLogger) := MetricsLogger_log self INFO.
Definition MetricsLogger_warn (self : MetricsLogger) := MetricsLogger_log self WARN.
Definition MetricsLogger_error (self : MetricsLogger) := MetricsLogger_log self ERROR.
Definition MetricsLogger_critical (self : MetricsLogger) := MetricsLogger_log self CRITICAL.
End Metered.
Arguments metered {J L} P.

(** A metered logger counts every message and writes what the logger lets
    through: once it is constructed, each call adds one to the counter of its level
    and logger and one observation of the message's length, whether or not the level
    is enabled; the answer and the text written are those of the logger, so a message
    below the level is counted and not written. *)
Theorem metered_log_counts {J : JsonLib} {JL : JsonLaws J} {L : SpdLog} {SL : SpdLaws L} {P : PromLib} {env : Env}
    (logger : Logger) (level : LogLevel) (message : cstr) (context : json) (st : metered P) :
  held (reg st) = [] -> lm st = LoggingMetrics_default ->
  exists self st1, MetricsLogger_new logger st = (Ret self, st1) /\ slog st1 = slog st
    /\ let '(r, st2) := MetricsLogger_log self level message context st1 in
       let '(r0, w0) := Logger.log logger level message context (slog st) in
       r = r0 /\ slog st2 = w0
       /\ (logger_should_log (slog st) (logger_ logger) (to_spdlog_level level) = false -> slog st2 = slog st)
       /\ exists calls, Effects.log (reg st2) = Effects.log (reg st1) ++ calls
            ++ [Increment LOG_MESSAGES [($"level", level_to_string level); ($"logger", logger_name (logger_ logger))];
                ObserveBytes (Z.of_nat (length message))]
          /\ Forall is_creation calls.
Proof.
  destruct st as [l w sp]. cbn [reg lm slog]. intros Hw ->.
  destruct (create_metric_caches KCounter LOG_MESSAGES LOG_MESSAGES_HELP [] [] w Hw) as (m1 & w1 & R1 & Hw1 & _).
  destruct (create_metric_caches KHistogram $"chainforge_log_message_size_bytes" SIZE_HELP LOG_SIZES [] w1 Hw1) as (m2 & w2 & R2 & Hw2 & _).
  set (ls := [($"level", level_to_string level); ($"logger", logger_name (logger_ logger))]).
  destruct (create_metric_caches KCounter LOG_MESSAGES LOG_MESSAGES_HELP [] ls w2 Hw2) as (m3 & w3 & R3 & Hw3 & _ & _ & calls & Hl3 & Hc3).
  exists (mkMetricsLogger logger), (mkMetered (mkLoggingMetrics true (Some m1) (Some m2)) w2 sp). split_and!; [|done|].
  - unfold MetricsLogger_new, LoggingMetrics_initialize, on_registry, set_lm, aget, aput, mbind, act_bind, mret, act_ret.
    cbn [lm reg slog lm_initialized LoggingMetrics_default]. change (create_counter LOG_MESSAGES LOG_MESSAGES_HELP [] w = Ret (m1, w1)) in R1.
    change (create_histogram $"chainforge_log_message_size_bytes" SIZE_HELP LOG_SIZES [] w1 = Ret (m2, w2)) in R2.
    rewrite R1. cbn [lm reg slog]. by rewrite R2.
  - unfold MetricsLogger_log, LoggingMetrics_record_log_event, LoggingMetrics_record_log_message_size, on_registry, on_spd, aget, azoom, mbind, act_bind, mret, act_ret.
    cbn [lm reg slog lm_initialized ml_logger]. unfold record_log_event, create_counter. fold ls.
    rewrite (eff_bind_run _ _ _ _ _ R3). unfold emit. cbn [lm reg slog obj held ticks Effects.log lm_initialized log_message_size_bytes_ negb orb].
    rewrite bool_decide_true by done. cbn [lm reg slog obj held ticks Effects.log negb].
    pose proof (log_spec logger level message context sp) as Hs. destruct (Logger.log logger level message context sp) as [r0 w0].
    destruct Hs as (_ & _ & Hoff & _). split_and!; [done|done|intros H; by destruct (Hoff H)|].
    exists calls. split; [|done]. rewrite Hl3. by rewrite <- !app_assoc.
Qed.

#[export] Instance unit_prom : PromLib := {| Fam := (); Met := nat; prom_register := fun _ _ _ => tt; prom_add := fun _ ls _ => length ls |}.

Lemma metered_log_counts_witness :
  let lg := mkLogger (J := table_json []) (L := mini) (O, $"app") $"app" in
  let st := mkMetered (J := table_json []) (P := unit_prom) LoggingMetrics_default (idle MetricsRegistry_default) mini_empty in
  exists self st1, MetricsLogger_new (env := std_env (fun _ => 0)) lg st = (Ret self, st1)
    /\ slog (snd (MetricsLogger_log (env := std_env (fun _ => 0)) self DEBUG $"tick" LogContext_new st1)) = mini_empty.
Proof.
  intros lg st.
  destruct (metered_log_counts (J := table_json []) (env := std_env (fun _ => 0)) lg DEBUG $"tick" LogContext_new st eq_refl eq_refl)
    as (self & st1 & H1 & H2 & H3). exists self, st1. split; [exact H1|].
  destruct (MetricsLogger_log self DEBUG $"tick" LogContext_new st1) as [r st2].
  destruct (Logger.log lg DEBUG $"tick" LogContext_new (slog st)) as [r0 w0]. destruct H3 as (_ & _ & H3 & _). exact (H3 eq_refl).
Defined.
