(* ===== verification/MetricWrappers.v ===== *)
(** * MetricWrappers: gauges, histograms and their scoped helpers

    metrics/src/gauge.cpp, histogram.cpp and counter.cpp: the wrappers around
    prometheus-cpp and the objects that update a metric when they are created and
    destroyed.  A wrapper's effect is the call it makes on the library's metric; what a
    gauge shows after such calls is the library's ([PromGauge], a parameter).  A
    helper holds a [std::shared_ptr], which may be null.  The clock readings are
    arguments, in nanoseconds. *)

From stdpp Require Import base list gmap numbers strings.
From Stdlib Require Import ZArith Lia Ascii.
From S2P Require Import Prelude CString Floats Timestamp Metrics.

(** ** Calls on the library's metrics *)

Inductive gauge_call : Type := GSet (v : double) | GIncrement (v : double) | GDecrement (v : double).
Inductive histogram_call : Type := HObserve (v : double).

(** The library's gauge is a parameter: the value it shows after the calls made on it
    since it was created.  Its documentation says that a gauge starts at 0 and what
    the three calls do. *)
Class PromGauge : Type := { gauge_after : list gauge_call -> double }.
Class PromGaugeLaws (G : PromGauge) : Prop := {
  gauge_fresh : gauge_after [] = dzero;
  gauge_after_set : forall l x, gauge_after (l ++ [GSet x]) = x;
  gauge_after_inc : forall l x, gauge_after (l ++ [GIncrement x]) = dadd (gauge_after l) x;
  gauge_after_dec : forall l x, gauge_after (l ++ [GDecrement x]) = dsub (gauge_after l) x
}.

(** ** Gauge *)

Definition Gauge_set (value : double) : list gauge_call := [GSet value].
Definition Gauge_increment (value : double) : list gauge_call := [GIncrement value].
Definition Gauge_decrement (value : double) : list gauge_call := [GDecrement value].
Definition Gauge_value {G : PromGauge} (calls : list gauge_call) : double := gauge_after calls.
Definition set_to_current_time (now : Z) : list gauge_call := Gauge_set (d_of_Z (Z.quot now 1000000000)).

(** ** GaugeTracker *)

Record GaugeTracker : Type := mkTracker { has_gauge : bool; tracked_value_ : double }.

Definition GaugeTracker_new (gauge : bool) (value : double) : GaugeTracker * list gauge_call :=
  (mkTracker gauge value, if gauge then Gauge_increment value else []).
Definition tracker_update (new_value : double) (t : GaugeTracker) : GaugeTracker * list gauge_call :=
  if has_gauge t then (mkTracker true new_value, Gauge_decrement (tracked_value_ t) ++ Gauge_increment new_value) else (t, []).
Definition GaugeTracker_end (t : GaugeTracker) : list gauge_call :=
  if has_gauge t then Gauge_decrement (tracked_value_ t) else [].

(** ** Histogram *)

Definition Histogram_observe (value : double) : list histogram_call := [HObserve value].
Definition observe_duration (seconds : double) : list histogram_call := [HObserve seconds].
Definition observe_duration_ms (ms : Z) : list histogram_call := [HObserve (ddiv (d_of_Z ms) (d_of_Z 1000))].
Definition observe_duration_us (us : Z) : list histogram_call := [HObserve (ddiv (d_of_Z us) (d_of_Z 1000000))].

(** ** HistogramTimer *)

Record HistogramTimer : Type := mkHTimer { has_histogram : bool; htimer_start : Z }.

Definition HistogramTimer_new (histogram : bool) (now : Z) : HistogramTimer := mkHTimer histogram now.
Definition htimer_elapsed (t : HistogramTimer) (now : Z) : Z := Z.quot (now - htimer_start t) 1000.
Definition HistogramTimer_end (t : HistogramTimer) (now : Z) : list histogram_call :=
  if has_histogram t then observe_duration_us (htimer_elapsed t now) else [].
(** The clock is read twice: for the duration and for the new start. *)
Definition record_and_reset (t : HistogramTimer) (now now' : Z) : HistogramTimer * list histogram_call :=
  if has_histogram t then (mkHTimer true now', observe_duration_us (htimer_elapsed t now)) else (t, []).

(** ** Counter and CounterTimer *)

Definition Counter_increment (c : SimpleCounter) : SimpleCounter := counter_increment c.
Definition Counter_value (c : SimpleCounter) : double := counter_value c.
Definition Counter_reset (c : SimpleCounter) : SimpleCounter := c.
Definition CounterTimer_end (counter : option SimpleCounter) : option SimpleCounter := Counter_increment <$> counter.

(** ** Lemmas *)

Fixpoint tracker_updates (vs : list double) (t : GaugeTracker) : GaugeTracker * list gauge_call :=
  match vs with
  | [] => (t, [])
  | v :: vs' => let '(t1, c1) := tracker_update v t in let '(t2, c2) := tracker_updates vs' t1 in (t2, c1 ++ c2)
  end.

(** All calls of a tracker, from its construction to its destruction. *)
Definition tracker_life (gauge : bool) (v : double) (vs : list double) : list gauge_call :=
  let '(t, c) := GaugeTracker_new gauge v in
  let '(t', c') := tracker_updates vs t in
  c ++ c' ++ GaugeTracker_end t'.

Definition increments (l : list gauge_call) : list double := omap (fun c => match c with GIncrement v => Some v | _ => None end) l.
Definition decrements (l : list gauge_call) : list double := omap (fun c => match c with GDecrement v => Some v | _ => None end) l.

Lemma tracker_updates_spec vs v :
  let '(t, c) := tracker_updates vs (mkTracker true v) in
  t = mkTracker true (default v (last vs)) /\ increments c = vs /\ decrements c ++ [default v (last vs)] = v :: vs /\ Forall (fun x => match x with GSet _ => False | _ => True end) c.
Proof.
  revert v. induction vs as [|x vs IH]; intros v; [by repeat constructor|]. cbn [tracker_updates tracker_update has_gauge]. specialize (IH x).
  destruct (tracker_updates vs (mkTracker true x)) as [t c]. destruct IH as (-> & Hi & Hd & Hs).
  assert (E : default v (last (x :: vs)) = default x (last vs)) by (rewrite last_cons; by destruct (last vs)).
  rewrite E. split_and!; [done| | |].
  - change (x :: increments c = x :: vs). by rewrite Hi.
  - change (v :: decrements c ++ [default x (last vs)] = v :: x :: vs). by rewrite Hd.
  - cbn. repeat constructor. done.
Qed.

(** Over its life a tracker takes off the gauge exactly the amounts it put on, each
    of them before the next is put on, and never sets the gauge; without a gauge it
    does nothing. *)
Lemma tracker_balanced gauge v vs :
  let l := tracker_life gauge v vs in
  if gauge then increments l = v :: vs /\ decrements l = v :: vs /\ Forall (fun x => match x with GSet _ => False | _ => True end) l else l = [].
Proof.
  unfold tracker_life, GaugeTracker_new. destruct gauge.
  - pose proof (tracker_updates_spec vs v) as H. destruct (tracker_updates vs (mkTracker true v)) as [t c]. destruct H as (-> & Hi & Hd & Hs).
    cbn zeta. split_and!.
    + unfold increments in *. rewrite !omap_app. cbn. by rewrite Hi, app_nil_r.
    + unfold decrements in *. rewrite !omap_app. cbn. exact Hd.
    + cbn. constructor; [done|]. apply Forall_app. split; [done|]. by repeat constructor.
  - assert (E : tracker_updates vs (mkTracker false v) = (mkTracker false v, [])) by (induction vs as [|x vs IH]; [done|]; cbn; by rewrite IH).
    by rewrite E.
Qed.

(** A gauge that keeps a double. *)
Definition double_gauge : PromGauge :=
  {| gauge_after := fun calls => fold_left (fun v c => match c with GSet x => x | GIncrement x => dadd v x | GDecrement x => dsub v x end) calls dzero |}.
Lemma double_gauge_laws : PromGaugeLaws double_gauge.
Proof. constructor; [done|..]; intros l x; cbn; by rewrite fold_left_app. Qed.

(** The double arithmetic of a gauge can lose what a tracker put on: the gauge does
    not return to its value when the amounts differ much. *)
Example tracker_rounding :
  Gauge_value (G := double_gauge) (Gauge_set (d_of_Z 1) ++ tracker_life true (d_of_Z (2 ^ 60)) []) = dzero.
Proof. reflexivity. Qed.

(** A timer that is recorded and reset observes disjoint spans. *)
Example timer_spans :
  let t := HistogramTimer_new true 0 in
  let '(t1, c1) := record_and_reset t 2000000000 2000000000 in
  c1 ++ HistogramTimer_end t1 3000000000 = [HObserve (d_of_Z 2); HObserve (d_of_Z 1)].
Proof. reflexivity. Qed.
