(* ===== verification/MetricsThreads.v ===== *)
(** * MetricsThreads: metrics shared by threads

    internal/simple_metrics.hpp keeps a counter, a gauge and the fields of a
    histogram in [std::atomic]s; [SimpleHistogram::observe] and [get_stats] of
    simple_metrics.cpp take no lock, so calls of several threads interleave between
    their atomic operations.  An operation is an [atom]; a thread is the list of
    atoms it has still to execute; a step lets one thread execute one of them.  All
    operations are [memory_order_relaxed], so the atoms of one thread on different
    locations may take effect in any order: a step picks any pending atom.

    [observe] finds its bucket counters with [operator[]] of a [std::map]; their keys
    are the bounds the constructor inserted, so that the calls only look up and the map
    itself is not changed, and threads share only the atomic counters in it.

    The doubles of these metrics count whole numbers exactly up to 2^53. *)

From stdpp Require Import base list gmap numbers strings relations.
From Stdlib Require Import ZArith Lia Sorted.
From S2P Require Import Prelude Floats FloatExact Sorting Metrics MetricWrappers.

(** ** Atomic operations *)

Inductive atom : Type :=
  | AddCount                       (* count_.fetch_add(1) *)
  | AddSum (v : double)            (* sum_.fetch_add(v) *)
  | AddBucket (b : double).        (* bucket_counts_[b].fetch_add(1) *)

Definition atom_apply (h : SimpleHistogram) (a : atom) : SimpleHistogram :=
  match a with
  | AddCount => mkSimpleHistogram (buckets_ h) (bucket_counts_ h) (u64 (count_ h + 1)) (sum_ h)
  | AddSum v => mkSimpleHistogram (buckets_ h) (bucket_counts_ h) (count_ h) (dadd (sum_ h) v)
  | AddBucket b => mkSimpleHistogram (buckets_ h) (bump (bucket_counts_ h) b) (count_ h) (sum_ h)
  end.

(** [SimpleHistogram::observe], one atom per atomic operation, in program order. *)
Definition observe_atoms (buckets : list double) (value : double) : list atom :=
  AddCount :: AddSum value :: map AddBucket (List.filter (dleb value) buckets).

(** A thread that makes the calls [observe(v)] for the values of a list. *)
Definition thread_atoms (buckets : list double) (vs : list double) : list atom :=
  concat (map (observe_atoms buckets) vs).

(** The shared histogram and what each thread has still to do. *)
Record config : Type := mkConfig { shared : SimpleHistogram; pending : list (list atom) }.

Inductive atom_step : config -> config -> Prop :=
  | atom_step_thread h ts i l1 a l2 :
      ts !! i = Some (l1 ++ a :: l2) ->
      atom_step (mkConfig h ts) (mkConfig (atom_apply h a) (<[i := l1 ++ l2]> ts)).

Definition finished (c : config) : bool := forallb (fun l => match l with [] => true | _ => false end) (pending c).

(** The calls of one thread alone are the sequential operation. *)
Lemma bucket_atoms v bs B m n s :
  fold_left atom_apply (map AddBucket (List.filter (dleb v) bs)) (mkSimpleHistogram B m n s)
  = mkSimpleHistogram B (fold_left (fun m b => if dleb v b then bump m b else m) bs m) n s.
Proof.
  revert m. induction bs as [|b bs IH]; intros m; [done|]. cbn [List.filter fold_left].
  destruct (dleb v b); apply IH.
Qed.

Lemma observe_atoms_sequential v h : fold_left atom_apply (observe_atoms (buckets_ h) v) h = observe v h.
Proof. apply bucket_atoms. Qed.

Lemma atoms_keep_buckets l h : buckets_ (fold_left atom_apply l h) = buckets_ h.
Proof. revert h. induction l as [|a l IH]; intros h; [done|]. cbn [fold_left]. rewrite IH. by destruct a. Qed.

Lemma thread_atoms_sequential vs h : fold_left atom_apply (thread_atoms (buckets_ h) vs) h = observe_all vs h.
Proof.
  revert h. induction vs as [|v vs IH]; intros h; [done|]. unfold thread_atoms in *. cbn [map concat].
  rewrite fold_left_app, observe_atoms_sequential. change (buckets_ h) with (buckets_ (observe v h)). by rewrite IH.
Qed.

(** ** The order of the atoms *)

(** An execution applies some order of the pending atoms. *)
Lemma step_trace c c' :
  atom_step c c' -> exists a, shared c' = atom_apply (shared c) a /\ concat (pending c) ≡ₚ a :: concat (pending c').
Proof.
  intros [h ts i l1 a l2 Hi]. exists a. split; [done|]. cbn [pending].
  revert i Hi. induction ts as [|t ts IH]; intros [|i] Hi; cbn in Hi; [done..| |].
  - injection Hi as ->. cbn. by rewrite <- app_assoc, <- app_assoc, (Permutation_middle l1).
  - change (concat (<[S i := l1 ++ l2]> (t :: ts))) with (t ++ concat (<[i := l1 ++ l2]> ts)). cbn [concat].
    rewrite (IH i Hi). by rewrite Permutation_middle.
Qed.

Lemma run_trace c c' :
  rtc atom_step c c' ->
  exists l, shared c' = fold_left atom_apply l (shared c) /\ concat (pending c) ≡ₚ l ++ concat (pending c').
Proof.
  induction 1 as [c|c1 c2 c3 Hs _ (l & E & P)]; [by exists []|].
  destruct (step_trace _ _ Hs) as (a & Ea & Pa). exists (a :: l). split; [cbn; by rewrite <- Ea|].
  by rewrite Pa, P.
Qed.

Lemma finished_nil c : finished c = true -> concat (pending c) = [].
Proof. unfold finished. induction (pending c) as [|[|] ts IH]; cbn; [done| |done]. apply IH. Qed.

(** A thread with work left can always take a step: no operation waits. *)
Lemma unfinished_steps c : finished c = false -> exists c', atom_step c c'.
Proof.
  destruct c as [h ts]. unfold finished. cbn [pending]. intros H.
  assert (E : exists i a l, ts !! i = Some ([] ++ a :: l)).
  { induction ts as [|[|a l] ts IH]; cbn in H; [done| |by exists 0%nat, a, l].
    destruct (IH H) as (i & a & l & Hi). by exists (S i), a, l. }
  destruct E as (i & a & l & Hi). eexists. by eapply atom_step_thread.
Qed.

Lemma step_shrinks c c' : atom_step c c' -> length (concat (pending c)) = S (length (concat (pending c'))).
Proof. intros (a & _ & P)%step_trace. apply Permutation_length in P. exact P. Qed.

(** ** Histograms whose table is in order *)

(** The table a [std::map] keeps: keys that are numbers, strictly increasing. *)
Definition table_ok (m : list (double * Z)) : Prop :=
  keys_ok m /\ StronglySorted (fun a b => dltb a b = true) (map fst m).
Definition has_key (m : list (double * Z)) (b : double) : bool := existsb (dequiv b) (map fst m).

Lemma dmap_put_table k v m : is_nan k = false -> table_ok m -> table_ok (dmap_put k v m).
Proof.
  intros Hk [Hm Hs]. split; [by apply dmap_put_ok|]. revert Hm Hs.
  assert (Hd : forall (m : list (double * Z)) a, Forall (fun b => dltb a b = true) (map fst m) -> dltb a k = true ->
    Forall (fun b => dltb a b = true) (map fst (dmap_put k v m))).
  { induction m0 as [|[k' v'] m0 IH]; intros a Ha Hak; cbn; [by constructor|].
    cbn in Ha. apply Forall_cons_1 in Ha as [H1 H2]. repeat case_match; cbn; repeat constructor; auto. }
  induction m as [|[k' v'] m IH]; intros Hm Hs; cbn; [by repeat constructor|].
  apply Forall_cons_1 in Hm as [Hk' Hm]. cbn in Hs. apply StronglySorted_inv in Hs as [Hs Hf].
  destruct (dltb k k') eqn:E1; [|destruct (dltb k' k) eqn:E2].
  - cbn. constructor; [by constructor|]. constructor; [done|]. eapply Forall_impl; [exact Hf|].
    intros x Hx. cbn in Hx. by apply (dltb_trans k k' x).
  - cbn. constructor; [by apply IH|]. by apply Hd.
  - cbn. by constructor.
Qed.

(** A number that is not above the first key of a table equals none of the others. *)
Lemma table_others k k' v m :
  is_nan k = false -> table_ok ((k', v) :: m) -> dltb k' k = false -> Forall (fun p => dequiv k (fst p) = false) m.
Proof.
  intros Hk [Hm Hs] Hnot. apply Forall_cons_1 in Hm as [Hk' Hm]. cbn in Hs, Hk'. apply StronglySorted_inv in Hs as [_ Hf].
  apply Forall_map in Hf. eapply Forall_impl; [exact Hf|]. intros [x y] Hx. cbn in Hx |- *.
  unfold dequiv. destruct (dltb k k') eqn:E.
  - by rewrite (dltb_trans k k' x).
  - by rewrite (dltb_equiv_l k k' x), Hx.
Qed.

Lemma table_tail p m : table_ok (p :: m) -> table_ok m.
Proof. intros [Hm Hs]. apply Forall_cons_1 in Hm as [_ Hm]. cbn in Hs. by apply StronglySorted_inv in Hs as [Hs _]. Qed.

(** What [bump] does at a key that is there. *)
Definition bump_entry (b : double) (p : double * Z) : double * Z :=
  (fst p, if dequiv b (fst p) then u64 (snd p + 1) else snd p).

Lemma bump_entry_others b m : Forall (fun p => dequiv b (fst p) = false) m -> map (bump_entry b) m = m.
Proof.
  induction 1 as [|[x y] m Hx _ IH]; [done|]. cbn [map]. rewrite IH. unfold bump_entry. cbn in *. by rewrite Hx.
Qed.

Lemma others_absent k m : Forall (fun p => dequiv k (fst p) = false) m -> has_key m k = false.
Proof. induction 1 as [|[x y] m Hx _ IH]; [done|]. unfold has_key in *. cbn in *. by rewrite Hx. Qed.

Lemma bump_present b m :
  is_nan b = false -> table_ok m -> has_key m b = true -> bump m b = map (bump_entry b) m.
Proof.
  intros Hb. unfold bump. induction m as [|[k v] m IH]; intros Hm Hin; [done|].
  pose proof (table_others b k v m Hb Hm) as Hout. pose proof (table_tail _ _ Hm) as Ht.
  cbn [dmap_find dmap_put map]. unfold bump_entry at 1. cbn [fst snd].
  destruct (dequiv b k) eqn:E; cbn [default].
  - apply dequiv_spec in E as [E1 E2]. rewrite E1, E2. by rewrite bump_entry_others by auto.
  - assert (Hin' : has_key m b = true) by (unfold has_key in *; cbn in Hin; by rewrite E in Hin).
    destruct (dltb k b) eqn:E2; [|by rewrite (others_absent b m (Hout eq_refl)) in Hin'].
    rewrite (dltb_asym _ _ E2). f_equal. by apply IH.
Qed.

Lemma bump_table m b : is_nan b = false -> table_ok m -> table_ok (bump m b).
Proof. intros. by apply dmap_put_table. Qed.

Lemma has_key_map m a b : has_key (map (bump_entry a) m) b = has_key m b.
Proof. unfold has_key. by rewrite map_map. Qed.

(** Increments of the table commute. *)
Lemma bump_comm m a b :
  table_ok m -> is_nan a = false -> is_nan b = false -> has_key m a = true -> has_key m b = true ->
  bump (bump m a) b = bump (bump m b) a.
Proof.
  intros Hm Ha Hb Ka Kb. pose proof (bump_table m a Ha Hm) as Ta. pose proof (bump_table m b Hb Hm) as Tb.
  rewrite (bump_present a m), (bump_present b m) in * by done.
  rewrite !bump_present by (done || by rewrite has_key_map). rewrite !map_map. apply map_ext. intros [x y].
  unfold bump_entry. cbn [fst snd]. by destruct (dequiv a x), (dequiv b x).
Qed.

(** ** Concurrent observation *)

(** A histogram as the constructor leaves it and [observe] keeps it: every bound has
    an entry of the table. *)
Definition histogram_ok (h : SimpleHistogram) : Prop :=
  table_ok (bucket_counts_ h) /\ Forall (fun b => is_nan b = false /\ has_key (bucket_counts_ h) b = true) (buckets_ h).

Definition atom_ok (h : SimpleHistogram) (a : atom) : Prop :=
  match a with AddBucket b => is_nan b = false /\ has_key (bucket_counts_ h) b = true | _ => True end.

Lemma atom_keeps_keys h a b : table_ok (bucket_counts_ h) -> atom_ok h a ->
  has_key (bucket_counts_ (atom_apply h a)) b = has_key (bucket_counts_ h) b.
Proof. intros Hm Ha. destruct a as [| |k]; [done..|]. destruct Ha. cbn [atom_apply bucket_counts_]. by rewrite bump_present, has_key_map. Qed.

Lemma atom_keeps_table h a : table_ok (bucket_counts_ h) -> atom_ok h a -> table_ok (bucket_counts_ (atom_apply h a)).
Proof. intros Hm Ha. destruct a as [| |k]; [done..|]. destruct Ha. by apply bump_table. Qed.

Lemma atom_keeps_ok h a a' : table_ok (bucket_counts_ h) -> atom_ok h a -> atom_ok h a' -> atom_ok (atom_apply h a) a'.
Proof. intros Hm Ha Ha'. destruct a' as [| |k]; [done..|]. destruct Ha'. split; [done|]. by rewrite atom_keeps_keys. Qed.

(** All but the sum: the part that does not depend on the order of the atoms. *)
Definition sum_reset (h : SimpleHistogram) : SimpleHistogram := mkSimpleHistogram (buckets_ h) (bucket_counts_ h) (count_ h) dzero.

Lemma atoms_perm l l' h :
  l ≡ₚ l' -> table_ok (bucket_counts_ h) -> Forall (atom_ok h) l ->
  sum_reset (fold_left atom_apply l h) = sum_reset (fold_left atom_apply l' h).
Proof.
  intros P. revert h.
  assert (Hsum : forall l h h', sum_reset h = sum_reset h' -> sum_reset (fold_left atom_apply l h) = sum_reset (fold_left atom_apply l h')).
  { induction l0 as [|a l0 IH]; intros h h' E; [done|]. cbn [fold_left]. apply IH.
    destruct h, h'. unfold sum_reset in *. cbn in E. simplify_eq. by destruct a. }
  assert (Hok : forall l h a, table_ok (bucket_counts_ h) -> atom_ok h a -> Forall (atom_ok h) l -> Forall (atom_ok (atom_apply h a)) l).
  { intros l0 h a Hm Ha Hl. eapply Forall_impl; [exact Hl|]. intros x. by apply atom_keeps_ok. }
  induction P as [|a l l' P IH|a b l|l l' l'' P1 IH1 P2 IH2]; intros h Hm Hl; [done| | |].
  - apply Forall_cons_1 in Hl as [Ha Hl]. cbn. apply IH; [by apply atom_keeps_table|by apply Hok].
  - cbn. apply Hsum. apply Forall_cons_1 in Hl as [Hb [Ha Hl]%Forall_cons_1].
    destruct a as [| |x], b as [| |y]; try done. destruct Ha, Hb. unfold sum_reset. cbn [atom_apply buckets_ bucket_counts_ count_ sum_]. by rewrite bump_comm.
  - rewrite IH1, IH2; [done|done| |done|done]. by rewrite <- P1.
Qed.

Lemma observe_atoms_ok h v : histogram_ok h -> Forall (atom_ok h) (observe_atoms (buckets_ h) v).
Proof.
  intros [_ Hb]. repeat constructor. rewrite List.Forall_forall. intros a (b & <- & Hin)%in_map_iff.
  apply filter_In in Hin as [Hin _]. rewrite List.Forall_forall in Hb. exact (Hb b Hin).
Qed.

Lemma threads_ok h vss : histogram_ok h -> Forall (atom_ok h) (concat (map (thread_atoms (buckets_ h)) vss)).
Proof.
  intros Hh. apply Forall_concat, Forall_map, List.Forall_forall. intros vs _.
  apply Forall_concat, Forall_map, List.Forall_forall. intros v _. by apply observe_atoms_ok.
Qed.

Lemma threads_concat bs vss : concat (map (thread_atoms bs) vss) = thread_atoms bs (concat vss).
Proof.
  unfold thread_atoms. induction vss as [|vs vss IH]; [done|]. cbn [map concat]. by rewrite IH, map_app, concat_app.
Qed.

(** The values a list of atoms adds to the sum. *)
Definition sums_of (l : list atom) : list double := omap (fun a => match a with AddSum v => Some v | _ => None end) l.

Lemma sum_of_atoms l h : sum_ (fold_left atom_apply l h) = fold_left dadd (sums_of l) (sum_ h).
Proof. revert h. induction l as [|a l IH]; intros h; [done|]. cbn [fold_left]. rewrite IH. by destruct a. Qed.

Lemma sums_of_thread bs vs : sums_of (thread_atoms bs vs) = vs.
Proof.
  unfold thread_atoms, sums_of. induction vs as [|v vs IH]; [done|]. cbn [map concat]. rewrite omap_app, IH. cbn.
  assert (E : forall l, omap (fun a => match a with AddSum w => Some w | _ => None end) (map AddBucket l) = []) by (by induction l).
  by rewrite E.
Qed.

(** The constructor's histogram is well-formed. *)
Lemma SimpleHistogram_ok bs : numbers bs -> bs <> [] -> histogram_ok (SimpleHistogram_of bs).
Proof.
  intros Hn Hne. assert (Hs : sort_by dltb bs ≡ₚ bs) by apply sort_by_perm.
  assert (E : SimpleHistogram_of bs = mkSimpleHistogram (sort_by dltb bs)
    (fold_left (fun m b => dmap_put b 0 m) (sort_by dltb bs) []) 0 dzero) by (by destruct bs).
  rewrite E. split; cbn [bucket_counts_ buckets_].
  - assert (Hsn : numbers (sort_by dltb bs)) by (unfold numbers; by rewrite Hs). revert Hsn.
    assert (G : forall l m, numbers l -> table_ok m -> table_ok (fold_left (fun m b => dmap_put b 0 m) l m)).
    { induction l as [|b l IH]; intros m Hl Hm; [done|]. apply Forall_cons_1 in Hl as [Hb Hl]. cbn.
      apply IH; [done|]. by apply dmap_put_table. }
    intros Hsn. apply G; [done|]. split; constructor.
  - assert (Hsn : numbers (sort_by dltb bs)) by (unfold numbers; by rewrite Hs).
    destruct (counts_initial _ Hsn) as [Hk Hf]. apply List.Forall_forall. intros b Hin.
    assert (Hb : is_nan b = false) by (unfold numbers in Hsn; rewrite List.Forall_forall in Hsn; by apply Hsn).
    split; [done|]. specialize (Hf b Hb).
    assert (Hex : existsb (dequiv b) (sort_by dltb bs) = true) by (apply existsb_exists; exists b; split; [done|apply dequiv_refl]).
    rewrite Hex in Hf. revert Hf. unfold has_key. generalize (fold_left (fun m b => dmap_put b 0 m) (sort_by dltb bs) []).
    induction l as [|[k v] m IH]; cbn; [done|]. destruct (dequiv b k); [done|]. exact IH.
Qed.

(** C38: When threads call observe on one histogram at the same time, in whatever
    order their atomic operations take effect: no call ever waits for another; each
    step leaves one operation fewer, so all calls end; and when they have ended the
    count and the table of buckets are exactly those of making the calls one after
    the other, and the sum is the values added in some order. *)
Theorem concurrent_observations (h : SimpleHistogram) (vss : list (list double)) (c : config) :
  histogram_ok h -> rtc atom_step (mkConfig h (map (thread_atoms (buckets_ h)) vss)) c ->
  (finished c = false -> exists c', atom_step c c')
  /\ (forall c', atom_step c c' -> length (concat (pending c)) = S (length (concat (pending c'))))
  /\ (finished c = true ->
      bucket_counts_ (shared c) = bucket_counts_ (observe_all (concat vss) h)
      /\ count_ (shared c) = count_ (observe_all (concat vss) h)
      /\ exists order, order ≡ₚ concat vss /\ sum_ (shared c) = fold_left dadd order (sum_ h)).
Proof.
  intros Hh Hrun. split_and!; [apply unfinished_steps|apply step_shrinks|]. intros Hf%finished_nil.
  destruct (run_trace _ _ Hrun) as (l & E & P). cbn [shared pending] in *. rewrite Hf, app_nil_r in P.
  pose proof (threads_ok h vss Hh) as Hok. rewrite threads_concat in *. rewrite P in Hok.
  pose proof (atoms_perm l _ h (symmetry P) (proj1 Hh) Hok) as R. rewrite thread_atoms_sequential, <- E in R.
  unfold sum_reset in R. injection R as _ R1 R2. split_and!; [done|done|].
  exists (sums_of l). split; [|by rewrite E, sum_of_atoms].
  rewrite <- (sums_of_thread (buckets_ h) (concat vss)). unfold sums_of. by rewrite P.
Qed.

Lemma concurrent_observations_witness :
  let h := SimpleHistogram_of [d_of_Z 1; d_of_Z 10] in
  let c0 := mkConfig h (map (thread_atoms (buckets_ h)) [[d_of_Z 5]; [d_of_Z 7]]) in
  exists c, rtc atom_step c0 c /\ finished c = true /\ dmap_find (d_of_Z 10) (bucket_counts_ (shared c)) = Some 2.
Proof.
  intros h c0.
  assert (Hrun : exists c, rtc atom_step c0 c /\ finished c = true).
  { eexists. split; [|shelve].
    eapply rtc_l; [apply (atom_step_thread _ _ 1 []); reflexivity|].
    eapply rtc_l; [apply (atom_step_thread _ _ 0 []); reflexivity|].
    eapply rtc_l; [apply (atom_step_thread _ _ 0 [AddSum (d_of_Z 5)] (AddBucket (d_of_Z 10)) []); reflexivity|].
    eapply rtc_l; [apply (atom_step_thread _ _ 1 []); reflexivity|].
    eapply rtc_l; [apply (atom_step_thread _ _ 1 []); reflexivity|].
    eapply rtc_l; [apply (atom_step_thread _ _ 0 []); reflexivity|]. apply rtc_refl.
    Unshelve. reflexivity. }
  destruct Hrun as (c & Hrun & Hfin). exists c. split_and!; [done|done|].
  assert (Hok : histogram_ok h) by (by apply SimpleHistogram_ok; [decide_now|]).
  destruct (concurrent_observations h [[d_of_Z 5]; [d_of_Z 7]] c Hok Hrun) as (_ & _ & H).
  destruct (H Hfin) as (-> & _). reflexivity.
Defined.

(** ** Whole numbers *)

Fixpoint total (ns : list Z) : Z := match ns with [] => 0 | n :: ns' => n + total ns' end.
Fixpoint weight (ns : list Z) : Z := match ns with [] => 0 | n :: ns' => Z.abs n + weight ns' end.

Lemma weight_nonneg ns : 0 <= weight ns.
Proof. induction ns as [|n ns IH]; cbn; lia. Qed.

(** Adding whole numbers is exact in any order as long as the magnitudes together
    stay within 2^53. *)
Lemma dadd_total ns a :
  Z.abs a + weight ns <= EXACT_MAX -> fold_left dadd (map d_of_Z ns) (d_of_Z a) = d_of_Z (a + total ns).
Proof.
  revert a. induction ns as [|n ns IH]; intros a Hw; cbn; [by rewrite Z.add_0_r|].
  pose proof (weight_nonneg ns). cbn in Hw. rewrite dadd_exact by (unfold exact_int; lia).
  rewrite IH by lia. f_equal. lia.
Qed.

Lemma total_perm ns ns' : ns ≡ₚ ns' -> total ns = total ns' /\ weight ns = weight ns'.
Proof. induction 1 as [|n l l' _ IH|m n l|l l' l'' _ IH _ IH']; cbn [total weight]; lia. Qed.

(** So the sum of whole numbers does not depend on the order the threads add them in. *)
Lemma concurrent_sum order ns :
  weight ns <= EXACT_MAX -> order ≡ₚ map d_of_Z ns -> fold_left dadd order dzero = d_of_Z (total ns).
Proof.
  intros Hw (ns' & -> & P)%Permutation_map_inv. destruct (total_perm _ _ P) as [E1 E2].
  change dzero with (d_of_Z 0). rewrite dadd_total by lia. by rewrite Z.add_0_l, E1.
Qed.

Lemma iter_counter n :
  counter_value (Nat.iter n counter_increment SimpleCounter_default) = d_of_Z (Z.min (Z.of_nat n) EXACT_MAX).
Proof.
  induction n as [|n IH]; [done|]. cbn [Nat.iter nat_rect]. unfold counter_increment at 1. cbn [counter_value].
  unfold Nat.iter in IH. rewrite IH. unfold done_. destruct (Z.le_gt_cases EXACT_MAX (Z.of_nat n)) as [H|H].
  - rewrite !Z.min_r by lia. apply dadd_saturates.
  - rewrite !Z.min_l, Nat2Z.inj_succ by lia. rewrite dadd_exact by (unfold exact_int, EXACT_MAX in *; lia). done.
Qed.

Lemma tracker_calls_value {G : PromGauge} {GL : PromGaugeLaws G} vs v a l :
  Z.abs a + weight (v :: vs) <= EXACT_MAX -> gauge_after l = d_of_Z (a + v) ->
  let '(t, c) := tracker_updates (map d_of_Z vs) (mkTracker true (d_of_Z v)) in
  gauge_after (l ++ c ++ GaugeTracker_end t) = d_of_Z a.
Proof.
  revert v l. induction vs as [|x vs IH]; intros v l Hw Hl; cbn [map tracker_updates]; cbn in Hw.
  - change ([] ++ GaugeTracker_end (mkTracker true (d_of_Z v))) with [GDecrement (d_of_Z v)].
    rewrite gauge_after_dec, Hl. unfold dsub. rewrite dsub_exact by (unfold exact_int; lia). f_equal. lia.
  - pose proof (weight_nonneg vs). cbn [tracker_update has_gauge tracked_value_].
    specialize (IH x (l ++ [GDecrement (d_of_Z v); GIncrement (d_of_Z x)]) ltac:(cbn; lia)).
    destruct (tracker_updates (map d_of_Z vs) (mkTracker true (d_of_Z x))) as [t c].
    rewrite <- app_assoc in IH. apply IH.
    change (l ++ [GDecrement (d_of_Z v); GIncrement (d_of_Z x)]) with (l ++ [GDecrement (d_of_Z v)] ++ [GIncrement (d_of_Z x)]).
    rewrite app_assoc, gauge_after_inc, gauge_after_dec, Hl. unfold dsub. rewrite dsub_exact by (unfold exact_int; lia).
    replace (a + v - v) with a by lia. by rewrite dadd_exact by (unfold exact_int; lia).
Qed.

(** C40: Metrics kept in doubles are exact on whole numbers up to 2^53 and not
    beyond.  A counter incremented n times shows n until 2^53 and then stays there for
    ever.  Amounts added to a [SimpleGauge], or observed by a [SimpleHistogram], give
    their exact total when they are whole numbers whose magnitudes together stay within
    2^53, in whatever order they are added.  And a tracker, whatever updates it gets,
    returns its gauge to the value it found, when the value found and the tracked
    amounts are whole numbers whose magnitudes together stay within 2^53 and nothing
    else changes the gauge meanwhile; the gauge of the library that the tracker
    forwards to starts at 0, sets, adds and subtracts, as documented. *)
Theorem metric_doubles_exact {G : PromGauge} {GL : PromGaugeLaws G} :
  (forall n, counter_value (Nat.iter n counter_increment SimpleCounter_default) = d_of_Z (Z.min (Z.of_nat n) EXACT_MAX))
  /\ (forall a ns ns', Z.abs a + weight ns <= EXACT_MAX -> ns' ≡ₚ ns ->
      gauge_value (fold_left (fun g n => gauge_increment (d_of_Z n) g) ns' (gauge_set (d_of_Z a) SimpleGauge_default)) = d_of_Z (a + total ns)
      /\ (a = 0 -> forall bs, sum_ (observe_all (map d_of_Z ns') (SimpleHistogram_of bs)) = d_of_Z (total ns)))
  /\ (forall a v vs calls, Z.abs a + weight (v :: vs) <= EXACT_MAX -> Gauge_value calls = d_of_Z a ->
      Gauge_value (calls ++ tracker_life true (d_of_Z v) (map d_of_Z vs)) = d_of_Z a).
Proof.
  split_and!; [apply iter_counter| |].
  - intros a ns ns' Hw Hp. destruct (total_perm _ _ Hp) as [<- E2]. rewrite <- E2 in Hw. clear ns Hp E2. rename ns' into ns. split.
    + rewrite <- dadd_total by done. change (d_of_Z a) with (gauge_value (gauge_set (d_of_Z a) SimpleGauge_default)) at 2.
      generalize (gauge_set (d_of_Z a) SimpleGauge_default). induction ns as [|n ns IH]; intros g; [done|]. cbn [fold_left map].
      apply (IH ltac:(cbn in Hw; lia)).
    + intros -> bs. rewrite <- thread_atoms_sequential, sum_of_atoms, sums_of_thread. unfold SimpleHistogram_of. cbn [sum_].
      change dzero with (d_of_Z 0). by rewrite dadd_total.
  - intros a v vs calls Hw Ha. unfold Gauge_value, tracker_life, GaugeTracker_new in *. pose proof (weight_nonneg vs).
    pose proof (tracker_calls_value vs v a (calls ++ [GIncrement (d_of_Z v)]) Hw) as T. cbn in Hw.
    destruct (tracker_updates (map d_of_Z vs) (mkTracker true (d_of_Z v))) as [t c].
    rewrite <- app_assoc in T. apply T. rewrite gauge_after_inc, Ha. by rewrite dadd_exact by (unfold exact_int; lia).
Qed.

Lemma metric_doubles_exact_witness :
  Gauge_value (G := double_gauge) (Gauge_set (d_of_Z 40) ++ tracker_life true (d_of_Z 3) (map d_of_Z [7; 12])) = d_of_Z 40
  /\ sum_ (observe_all (map d_of_Z [5; -2; 4]) (SimpleHistogram_of [])) = d_of_Z 7.
Proof.
  destruct (@metric_doubles_exact double_gauge double_gauge_laws) as (_ & H1 & H2). split.
  - apply H2; [vm_compute; discriminate|reflexivity].
  - destruct (H1 0 [5; -2; 4] [5; -2; 4]) as [_ H]; [vm_compute; discriminate|done|]. by apply H.
Defined.

(** ** A reader during an observation *)

(** The loads of [SimpleHistogram::get_stats]. *)
Inductive load : Type := LoadCount | LoadSum | LoadBucket (b : double).
Definition get_stats_loads (m : list (double * Z)) : list load := LoadCount :: LoadSum :: map (fun p => LoadBucket (fst p)) m.
Definition load_apply (h : SimpleHistogram) (s : Stats) (l : load) : Stats :=
  match l with
  | LoadCount => mkStats (count_ h) (stats_sum s) (stats_buckets s)
  | LoadSum => mkStats (stats_count s) (sum_ h) (stats_buckets s)
  | LoadBucket b => mkStats (stats_count s) (stats_sum s) (stats_buckets s ++ [(b, default 0 (dmap_find b (bucket_counts_ h)))])
  end.
Definition Stats_default : Stats := mkStats 0 dzero [].

(** A schedule: the atoms of the writers and the loads of one reader, interleaved. *)
Fixpoint read_during (h : SimpleHistogram) (s : Stats) (sched : list (atom + load)) : SimpleHistogram * Stats :=
  match sched with
  | [] => (h, s)
  | inl a :: rest => read_during (atom_apply h a) s rest
  | inr l :: rest => read_during h (load_apply h s l) rest
  end.

(** A reader that runs alone reads the histogram. *)
Lemma find_first p m : dmap_find (fst p) (p :: m) = Some (snd p).
Proof. destruct p as [k v]. cbn. by rewrite dequiv_refl. Qed.

Lemma read_alone h : table_ok (bucket_counts_ h) -> fold_left (load_apply h) (get_stats_loads (bucket_counts_ h)) Stats_default = get_stats h.
Proof.
  intros Hm. unfold get_stats_loads, get_stats. cbn [fold_left load_apply stats_count stats_sum stats_buckets Stats_default].
  assert (G : forall m acc, (forall p, p ∈ m -> dmap_find (fst p) (bucket_counts_ h) = Some (snd p)) ->
    fold_left (load_apply h) (map (fun p => LoadBucket (fst p)) m) (mkStats (count_ h) (sum_ h) acc) = mkStats (count_ h) (sum_ h) (acc ++ m)).
  { induction m as [|[k v] m IH]; intros acc Hf; cbn [map fold_left load_apply stats_count stats_sum stats_buckets fst];
      [by rewrite app_nil_r|].
    pose proof (Hf (k, v) ltac:(by left)) as E. cbn in E. rewrite E. cbn [default]. rewrite IH by (intros p Hp; apply Hf; by right).
    by rewrite <- app_assoc. }
  apply G. clear G. generalize dependent (bucket_counts_ h). intros m Hm p Hp.
  induction m as [|q m IH]; [by apply elem_of_nil in Hp|]. apply elem_of_cons in Hp as [->|Hp]; [apply find_first|].
  specialize (IH (table_tail _ _ Hm) Hp). destruct q as [k v]. cbn [dmap_find].
  destruct (dequiv (fst p) k) eqn:E; [|done]. exfalso. destruct Hm as [Hk Hs]. cbn in Hs. apply StronglySorted_inv in Hs as [_ Hf].
  rewrite List.Forall_forall in Hf. specialize (Hf (fst p) (in_map fst m p ltac:(by apply list_elem_of_In))).
  apply dequiv_spec in E as [_ E]. congruence.
Qed.

(** Read while another thread observes, a histogram shows a bucket above its total:
    the reader loads [count_] before the writer starts and the bucket after it is
    done.  The class declares a [mutex_] that neither operation takes. *)
Example torn_snapshot :
  let h := SimpleHistogram_of [d_of_Z 10] in
  let sched := inr LoadCount :: map inl (observe_atoms (buckets_ h) (d_of_Z 5)) ++ [inr LoadSum; inr (LoadBucket (d_of_Z 10))] in
  let s := snd (read_during h Stats_default sched) in
  stats_count s = 0 /\ stats_buckets s = [(d_of_Z 10, 1)].
Proof. split; reflexivity. Qed.
