(* ===== verification/Threads.v ===== *)
(** * Threads: calls that take a lock

    Threads share an object and a lock, [std::mutex] or [std::shared_mutex].  A call
    waits for the lock, exclusively or shared, runs its body one memory operation at a
    time, and releases the lock; nothing but the lock keeps bodies apart.  The theorems
    of this file, linearizability and the end of all runs, hold for every object whose
    methods have this shape (a lock guard as their first line); [RegistryThreads],
    [PoolThreads] and [PeerThreads] apply them. *)

From stdpp Require Import base list gmap numbers relations sets.
From Stdlib Require Import Lia.
From S2P Require Import Prelude.

Section Locked.
Context {S Op R L : Type}.
(** The first point of a method's body, what happens at a point, whether a method takes
    the lock shared, and whether a point belongs to a body that only reads. *)
Context (enter : Op -> L) (micro : L -> S -> (L + R) * S) (shared : Op -> bool) (reads : L -> bool).

(** Running a body to its end without interruption. *)
Inductive finishes : L -> S -> R -> S -> Prop :=
  | fin_done l s r s' : micro l s = (inr r, s') -> finishes l s r s'
  | fin_step l s l' s1 r s' : micro l s = (inl l', s1) -> finishes l' s1 r s' -> finishes l s r s'.

Inductive phase : Type :=
  | Outside
  | Waiting (op : Op)
  | Inside (op : Op) (l : L)
  | Leaving (op : Op) (r : R).

Record thread : Type := mkThread { todo : list Op; now_at : phase; answers : list (Op * R) }.

(** The lock is held by one writer or by some readers. *)
Record machine : Type := mkMachine { mem : S; writer : option nat; readers : gset nat; threads : list thread }.

(** A step, with the calls that take effect in it: a call takes effect at the last
    access of its body. *)
Inductive mstep : machine -> list (nat * Op * R) -> machine -> Prop :=
  | step_call s o rs ts i op ops a :
      ts !! i = Some (mkThread (op :: ops) Outside a) ->
      mstep (mkMachine s o rs ts) [] (mkMachine s o rs (<[ i := mkThread ops (Waiting op) a ]> ts))
  | step_lock s ts i op ops a :
      ts !! i = Some (mkThread ops (Waiting op) a) -> shared op = false ->
      mstep (mkMachine s None ∅ ts) [] (mkMachine s (Some i) ∅ (<[ i := mkThread ops (Inside op (enter op)) a ]> ts))
  | step_lock_shared s rs ts i op ops a :
      ts !! i = Some (mkThread ops (Waiting op) a) -> shared op = true ->
      mstep (mkMachine s None rs ts) [] (mkMachine s None ({[ i ]} ∪ rs) (<[ i := mkThread ops (Inside op (enter op)) a ]> ts))
  | step_micro s o rs ts i op l ops a l' s' :
      ts !! i = Some (mkThread ops (Inside op l) a) -> micro l s = (inl l', s') ->
      mstep (mkMachine s o rs ts) [] (mkMachine s' o rs (<[ i := mkThread ops (Inside op l') a ]> ts))
  | step_finish s o rs ts i op l ops a r s' :
      ts !! i = Some (mkThread ops (Inside op l) a) -> micro l s = (inr r, s') ->
      mstep (mkMachine s o rs ts) [(i, op, r)] (mkMachine s' o rs (<[ i := mkThread ops (Leaving op r) a ]> ts))
  | step_unlock s o rs ts i op r ops a :
      ts !! i = Some (mkThread ops (Leaving op r) a) ->
      mstep (mkMachine s o rs ts) []
        (mkMachine s (if shared op then o else None) (if shared op then rs ∖ {[ i ]} else rs)
           (<[ i := mkThread ops Outside (a ++ [(op, r)]) ]> ts)).

(** A run, with the calls in the order in which they took effect. *)
Inductive runs (b : machine) : list (nat * Op * R) -> machine -> Prop :=
  | runs_nil : runs b [] b
  | runs_snoc h m e m' : runs b h m -> mstep m e m' -> runs b (h ++ e) m'.

Lemma runs_app b h1 m1 h2 m2 : runs b h1 m1 -> runs m1 h2 m2 -> runs b (h1 ++ h2) m2.
Proof.
  intros H1. induction 1 as [|h m e m' _ IH He]; [by rewrite app_nil_r|]. rewrite app_assoc. by eapply runs_snoc.
Qed.

Definition boot (s : S) (progs : list (list Op)) : machine := mkMachine s None ∅ (map (fun p => mkThread p Outside []) progs).
Definition at_rest (t : thread) : bool := match todo t, now_at t with [], Outside => true | _, _ => false end.
Definition all_done (m : machine) : bool := forallb at_rest (threads m).

(** One call after the other: which thread made it, and its answer. *)
Inductive seq_run (s0 : S) : list (nat * Op * R) -> S -> Prop :=
  | seq_nil : seq_run s0 [] s0
  | seq_snoc h s i op r s' : seq_run s0 h s -> finishes (enter op) s r s' -> seq_run s0 (h ++ [(i, op, r)]) s'.

Definition calls_of (i : nat) (h : list (nat * Op * R)) : list (Op * R) :=
  omap (fun '(j, op, r) => if decide (j = i) then Some (op, r) else None) h.

Lemma calls_of_snoc i h j op r : calls_of i (h ++ [(j, op, r)]) = calls_of i h ++ (if decide (j = i) then [(op, r)] else []).
Proof. unfold calls_of. rewrite omap_app. cbn. by case_decide. Qed.

(** ** The invariant *)

(** The call a thread holds the lock for. *)
Definition holding (t : thread) : option Op := match now_at t with Inside op _ | Leaving op _ => Some op | _ => None end.
Definition committed (t : thread) : list (Op * R) := answers t ++ match now_at t with Leaving op r => [(op, r)] | _ => [] end.
(** The calls a thread has made, the last of which may still be under way. *)
Definition begun (t : thread) : list Op :=
  map fst (answers t) ++ match now_at t with Outside => [] | Waiting op | Inside op _ | Leaving op _ => [op] end.
Definition program_of (t : thread) : list Op :=
  map fst (answers t) ++ match now_at t with Outside => [] | Waiting op | Inside op _ | Leaving op _ => [op] end ++ todo t.

(** What a thread inside has made of the state [sc] its call found. *)
Definition progress_of (sc s : S) (t : thread) : Prop :=
  match now_at t with
  | Inside op l => (shared op = true -> reads l = true) /\ forall r s', finishes l s r s' -> finishes (enter op) sc r s'
  | Leaving _ _ => s = sc
  | _ => True
  end.

(** Who holds the lock is who is inside. *)
Definition entitled (o : option nat) (rs : gset nat) (i : nat) (t : thread) : Prop :=
  forall op, holding t = Some op -> if shared op then i ∈ rs else o = Some i.
Definition lock_ok (m : machine) : Prop :=
  (forall i t, threads m !! i = Some t -> entitled (writer m) (readers m) i t)
  /\ (forall i, writer m = Some i -> readers m = ∅ /\ exists t op, threads m !! i = Some t /\ holding t = Some op /\ shared op = false)
  /\ (forall i, i ∈ readers m -> exists t op, threads m !! i = Some t /\ holding t = Some op /\ shared op = true).

Record minv (s0 : S) (progs : list (list Op)) (h : list (nat * Op * R)) (m : machine) : Prop := mkMinv {
  inv_programs : map program_of (threads m) = progs;
  inv_lock : lock_ok m;
  inv_order : exists sc, seq_run s0 h sc
    /\ Forall (fun e => is_Some (threads m !! fst (fst e))) h
    /\ (forall i t, threads m !! i = Some t -> calls_of i h = committed t)
    /\ (writer m = None -> mem m = sc)
    /\ (forall i t, threads m !! i = Some t -> progress_of sc (mem m) t)
}.

Lemma boot_inv s0 progs : minv s0 progs [] (boot s0 progs).
Proof.
  assert (Hb : forall i t, threads (boot s0 progs) !! i = Some t -> exists p, t = mkThread p Outside []).
  { intros i t. cbn. rewrite list_lookup_fmap. intros (p & _ & ->)%fmap_Some. by eexists. }
  split.
  - cbn. rewrite map_map. apply map_id.
  - split_and!; [|done|set_solver]. intros i t Ht. by destruct (Hb i t Ht) as [p ->].
  - exists s0. split_and!; [constructor|constructor| |done|]; intros i t Ht; by destruct (Hb i t Ht) as [p ->].
Qed.

(** *** Replacing the entry of the thread that moves *)

Lemma programs_insert ts i t t' : ts !! i = Some t -> program_of t' = program_of t -> map program_of (<[ i := t' ]> ts) = map program_of ts.
Proof. intros Hi E. change (program_of <$> <[i:=t']> ts = program_of <$> ts). rewrite list_fmap_insert, E. apply list_insert_id. by rewrite list_lookup_fmap, Hi. Qed.

Lemma at_insert {A} (P : nat -> A -> Prop) (ts : list A) i t' :
  P i t' -> (forall j t, j <> i -> ts !! j = Some t -> P j t) -> forall j t, <[ i := t' ]> ts !! j = Some t -> P j t.
Proof.
  intros Hi Hj j t H. destruct (decide (j = i)) as [->|Hne].
  - pose proof (lookup_lt_Some _ _ _ H) as Hlt. rewrite length_insert in Hlt. rewrite list_lookup_insert_eq in H by lia. by injection H as <-.
  - rewrite list_lookup_insert_ne in H by congruence. eauto.
Qed.

Lemma at_self {A} (ts : list A) i t t' : ts !! i = Some t -> <[ i := t' ]> ts !! i = Some t'.
Proof. intros H. apply list_lookup_insert_eq. by apply lookup_lt_Some in H. Qed.

Lemma known_insert (ts : list thread) i t' h :
  Forall (fun e : nat * Op * R => is_Some (ts !! fst (fst e))) h -> Forall (fun e => is_Some (<[ i := t' ]> ts !! fst (fst e))) h.
Proof. intros H. eapply Forall_impl; [exact H|]. intros e. rewrite !lookup_lt_is_Some. by rewrite length_insert. Qed.

(** A step that changes neither the lock nor whether the thread holds it. *)
Lemma lock_frame s s' o rs ts i t t' :
  lock_ok (mkMachine s o rs ts) -> ts !! i = Some t -> holding t' = holding t -> lock_ok (mkMachine s' o rs (<[ i := t' ]> ts)).
Proof.
  intros (H1 & H2 & H3) Hi E.
  assert (Hw : forall j u op, ts !! j = Some u -> holding u = Some op -> exists u', <[i := t']> ts !! j = Some u' /\ holding u' = Some op).
  { intros j u op Hu Ho. destruct (decide (j = i)) as [->|Hne].
    - rewrite Hi in Hu. injection Hu as <-. exists t'. split; [by eapply at_self|]. by rewrite E.
    - exists u. by rewrite list_lookup_insert_ne by congruence. }
  split_and!; cbn [threads writer readers] in *.
  - apply (at_insert (entitled o rs)); [intros op; rewrite E; by apply H1|eauto].
  - intros j Hj. destruct (H2 j Hj) as (Hr & u & op & Hu & Ho & Hs). split; [done|]. destruct (Hw _ _ _ Hu Ho) as (u' & ? & ?). by exists u', op.
  - intros j Hj. destruct (H3 j Hj) as (u & op & Hu & Ho & Hs). destruct (Hw _ _ _ Hu Ho) as (u' & ? & ?). by exists u', op.
Qed.

Lemma lock_taken s ts i op ops a :
  lock_ok (mkMachine s None ∅ ts) -> ts !! i = Some (mkThread ops (Waiting op) a) -> shared op = false ->
  lock_ok (mkMachine s (Some i) ∅ (<[ i := mkThread ops (Inside op (enter op)) a ]> ts)).
Proof.
  intros (H1 & _ & _) Hi Hs. split_and!; cbn [threads writer readers] in *.
  - apply (at_insert (entitled (Some i) ∅)); [intros op' [= <-]; by rewrite Hs|]. intros j u _ Hu op' Ho.
    specialize (H1 j u Hu op' Ho). destruct (shared op'); set_solver.
  - intros j [= <-]. split; [done|]. do 2 eexists. split; [by eapply at_self|]. done.
  - set_solver.
Qed.

Lemma lock_shared s rs ts i op ops a :
  lock_ok (mkMachine s None rs ts) -> ts !! i = Some (mkThread ops (Waiting op) a) -> shared op = true ->
  lock_ok (mkMachine s None ({[ i ]} ∪ rs) (<[ i := mkThread ops (Inside op (enter op)) a ]> ts)).
Proof.
  intros (H1 & _ & H3) Hi Hs. split_and!; cbn [threads writer readers] in *.
  - apply (at_insert (entitled None ({[ i ]} ∪ rs))); [intros op' [= <-]; rewrite Hs; set_solver|]. intros j u _ Hu op' Ho.
    specialize (H1 j u Hu op' Ho). destruct (shared op'); [set_solver|done].
  - done.
  - intros j Hj. destruct (decide (j = i)) as [->|Hne]; [do 2 eexists; split; [by eapply at_self|done]|].
    destruct (H3 j) as (u & op' & Hu & ?); [set_solver|]. exists u, op'. by rewrite list_lookup_insert_ne by congruence.
Qed.

Lemma lock_released s o rs ts i op r ops a a' :
  lock_ok (mkMachine s o rs ts) -> ts !! i = Some (mkThread ops (Leaving op r) a) ->
  lock_ok (mkMachine s (if shared op then o else None) (if shared op then rs ∖ {[ i ]} else rs) (<[ i := mkThread ops Outside a' ]> ts)).
Proof.
  intros (H1 & H2 & H3) Hi. pose proof (H1 i _ Hi op eq_refl) as Hme. cbn [threads writer readers] in *.
  split_and!; cbn [threads writer readers].
  - apply (at_insert (entitled (if shared op then o else None) (if shared op then rs ∖ {[ i ]} else rs))); [done|].
    intros j u Hne Hu op' Ho. specialize (H1 j u Hu op' Ho).
    destruct (shared op) eqn:E; destruct (shared op') eqn:E'; [set_solver|done| |congruence].
    destruct (H2 i Hme) as [-> _]. set_solver.
  - intros j Hj. destruct (shared op) eqn:E; [|done]. destruct (H2 j Hj) as (-> & _). set_solver.
  - intros j Hj. destruct (shared op) eqn:E.
    + destruct (H3 j) as (u & op' & Hu & ?); [set_solver|]. exists u, op'. by rewrite list_lookup_insert_ne by set_solver.
    + destruct (H2 i Hme) as [-> _]. set_solver.
Qed.

(** A writer inside is alone. *)
Lemma writer_alone m i t op : lock_ok m -> threads m !! i = Some t -> holding t = Some op -> shared op = false ->
  forall j u, j <> i -> threads m !! j = Some u -> holding u = None.
Proof.
  intros (H1 & H2 & _) Hi Ho Hs j u Hne Hu. destruct (holding u) as [op'|] eqn:E; [|done]. exfalso.
  pose proof (H1 i t Hi op Ho) as Hw. rewrite Hs in Hw. destruct (H2 i Hw) as [Hr _]. specialize (H1 j u Hu op' E).
  destruct (shared op'); [rewrite Hr in H1; set_solver|congruence].
Qed.

Lemma idle_progress sc s sc' s' t : holding t = None -> progress_of sc s t -> progress_of sc' s' t.
Proof. unfold holding, progress_of. by destruct (now_at t). Qed.

Hypothesis shared_reads : forall op, shared op = true -> reads (enter op) = true.
Hypothesis reads_keep : forall l s x s', reads l = true -> micro l s = (x, s') -> s' = s /\ forall l', x = inl l' -> reads l' = true.

(** The other threads keep what is known of them: a reader's step changes nothing,
    and next to a writer nobody is inside. *)
Lemma others_keep m i op l ops a x s' sc sc' :
  lock_ok m -> threads m !! i = Some (mkThread ops (Inside op l) a) -> (shared op = true -> reads l = true) -> micro l (mem m) = (x, s') ->
  (shared op = true -> sc' = sc) -> (forall j u, threads m !! j = Some u -> progress_of sc (mem m) u) ->
  forall j u, j <> i -> threads m !! j = Some u -> progress_of sc' s' u.
Proof.
  intros Hl Hi Hr Hm Hsc Hall j u Hne Hu. specialize (Hall j u Hu). destruct (shared op) eqn:E.
  - destruct (reads_keep _ _ _ _ (Hr eq_refl) Hm) as [-> _]. by rewrite (Hsc eq_refl).
  - eapply idle_progress; [|exact Hall]. by eapply (writer_alone m i).
Qed.

Lemma micro_inv s0 progs h s o rs ts i op l ops a l' s' :
  ts !! i = Some (mkThread ops (Inside op l) a) -> micro l s = (inl l', s') ->
  minv s0 progs h (mkMachine s o rs ts) -> minv s0 progs h (mkMachine s' o rs (<[ i := mkThread ops (Inside op l') a ]> ts)).
Proof.
  intros Hi Hm [Hp Hl (sc & Hh & Hk & Hc & Hw & Hg)]. pose proof (Hg i _ Hi) as [Hr Hf].
  split; [cbn [threads]; by rewrite (programs_insert _ _ _ _ Hi) by done|by eapply lock_frame|].
  exists sc. split_and!; [done|by apply known_insert| | |]; cbn [threads writer mem] in *.
  - apply at_insert; [by rewrite (Hc _ _ Hi)|eauto].
  - intros ->. destruct (shared op) eqn:E; [destruct (reads_keep _ _ _ _ (Hr eq_refl) Hm) as [-> _]; by apply Hw|].
    destruct Hl as (H1 & _). specialize (H1 i _ Hi op eq_refl). by rewrite E in H1.
  - apply at_insert; [|by eapply (others_keep (mkMachine s o rs ts))]. split.
    + intros E. by destruct (reads_keep _ _ _ _ (Hr E) Hm) as [_ H]; apply H.
    + intros r s1 Hfin. apply Hf. by eapply fin_step.
Qed.

Lemma finish_inv s0 progs h s o rs ts i op l ops a r s' :
  ts !! i = Some (mkThread ops (Inside op l) a) -> micro l s = (inr r, s') ->
  minv s0 progs h (mkMachine s o rs ts) -> minv s0 progs (h ++ [(i, op, r)]) (mkMachine s' o rs (<[ i := mkThread ops (Leaving op r) a ]> ts)).
Proof.
  intros Hi Hm [Hp Hl (sc & Hh & Hk & Hc & Hw & Hg)]. pose proof (Hg i _ Hi) as [Hr Hf]. cbn [threads writer mem] in *.
  assert (Hsc : shared op = true -> s' = sc).
  { intros E. destruct (reads_keep _ _ _ _ (Hr E) Hm) as [-> _]. apply Hw. destruct Hl as (H1 & H2 & _). specialize (H1 i _ Hi op eq_refl). rewrite E in H1.
    cbn [writer readers] in *. destruct o as [k|]; [|done]. destruct (H2 k eq_refl) as [-> _]. set_solver. }
  split; [cbn [threads]; by rewrite (programs_insert _ _ _ _ Hi) by done|by eapply lock_frame|].
  exists s'. split_and!; cbn [threads writer mem].
  - eapply seq_snoc; [done|]. by apply Hf, fin_done.
  - apply Forall_app. split; [by apply known_insert|]. constructor; [|constructor]. cbn. rewrite (at_self _ _ _ _ Hi). by eexists.
  - apply at_insert; [rewrite calls_of_snoc, decide_True, (Hc _ _ Hi) by done; unfold committed; cbn; by rewrite app_nil_r|].
    intros j t Hj Ht. rewrite calls_of_snoc, decide_False, app_nil_r by congruence. eauto.
  - done.
  - apply at_insert; [done|]. by eapply (others_keep (mkMachine s o rs ts)).
Qed.

Lemma step_inv s0 progs h m e m' : mstep m e m' -> minv s0 progs h m -> minv s0 progs (h ++ e) m'.
Proof.
  destruct 1 as [s o rs ts i op ops a Hi|s ts i op ops a Hi Hs|s rs ts i op ops a Hi Hs|s o rs ts i op l ops a l' s' Hi Hm|s o rs ts i op l ops a r s' Hi Hm|s o rs ts i op r ops a Hi];
    try rewrite app_nil_r; try (by eapply micro_inv); try (by eapply finish_inv); intros [Hp Hl (sc & Hh & Hk & Hc & Hw & Hg)]; cbn [threads writer mem] in *.
  - split; [cbn [threads]; by rewrite (programs_insert _ _ _ _ Hi) by done|by eapply lock_frame|].
    exists sc. split_and!; [done|by apply known_insert| |done|]; (apply at_insert; [|by eauto]); [by rewrite (Hc _ _ Hi)|done].
  - split; [cbn [threads]; by rewrite (programs_insert _ _ _ _ Hi) by done|by apply lock_taken|].
    exists sc. split_and!; [done|by apply known_insert| |done|]; (apply at_insert; [|by eauto]); [by rewrite (Hc _ _ Hi)|].
    rewrite <- (Hw eq_refl). split; [by rewrite Hs|done].
  - split; [cbn [threads]; by rewrite (programs_insert _ _ _ _ Hi) by done|by apply lock_shared|].
    exists sc. split_and!; [done|by apply known_insert| |done|]; (apply at_insert; [|by eauto]); [by rewrite (Hc _ _ Hi)|].
    rewrite <- (Hw eq_refl). split; [by intros; apply shared_reads|done].
  - split; [cbn [threads]; rewrite (programs_insert _ _ _ _ Hi); [done|]; unfold program_of; cbn; by rewrite map_app, <- app_assoc|by eapply lock_released|].
    exists sc. split_and!; [done|by apply known_insert| |intros _; by apply (Hg i _ Hi)|]; (apply at_insert; [|by eauto]); [|done].
    rewrite (Hc _ _ Hi). unfold committed. cbn. by rewrite app_nil_r.
Qed.

Lemma run_inv s0 progs h m : runs (boot s0 progs) h m -> minv s0 progs h m.
Proof. induction 1 as [|h m e m' _ IH He]; [apply boot_inv|]. by eapply step_inv. Qed.

(** ** Progress and termination *)

Lemma done_rest m i t : all_done m = true -> threads m !! i = Some t -> at_rest t = true.
Proof. unfold all_done. rewrite forallb_forall. intros H Ht. apply H, list_elem_of_In. by eapply list_elem_of_lookup_2. Qed.

(** A thread inside can go on. *)
Lemma inside_moves s o rs ts i t op : ts !! i = Some t -> holding t = Some op -> exists e m', mstep (mkMachine s o rs ts) e m'.
Proof.
  intros Hi Ho. destruct t as [ops [| |op' l|op' r] a]; try done; [|do 2 eexists; by eapply step_unlock].
  destruct (micro l s) as [[l'|r] s'] eqn:Em; do 2 eexists; [by eapply step_micro|by eapply step_finish].
Qed.

Lemma unfinished_moves s0 progs h m : minv s0 progs h m -> all_done m = false -> exists e m', mstep m e m'.
Proof.
  intros [_ (H1 & H2 & H3) _] Hd. destruct m as [s o rs ts]. cbn [threads writer readers] in *.
  destruct o as [i|]; [destruct (H2 i eq_refl) as (_ & t & op & Ht & Ho & _); by eapply inside_moves|].
  destruct (decide (rs = ∅)) as [->|Hne]; [|destruct (set_choose_L rs Hne) as [i Hi]; destruct (H3 i Hi) as (t & op & Ht & Ho & _); by eapply inside_moves].
  assert (He : exists i t, ts !! i = Some t /\ at_rest t = false).
  { unfold all_done in Hd. cbn in Hd. clear -Hd. induction ts as [|t ts IH]; [done|]. cbn in Hd. destruct (at_rest t) eqn:E; [|by exists 0%nat, t].
    destruct (IH Hd) as (i & t' & Hi & Hr). by exists (Datatypes.S i), t'. }
  destruct He as (i & [ops p a] & Ht & Hr). destruct p as [|op| |]; try (by eapply inside_moves).
  - destruct ops; [done|]. do 2 eexists. by eapply step_call.
  - destruct (shared op) eqn:E; do 2 eexists; [by eapply step_lock_shared|by eapply step_lock].
Qed.

(** Calls under a lock: some thread can always move; at every moment the history holds
    the calls of each thread that have returned, in order, and none that it has not
    made yet, so a call that returned before another was made comes before it; and when
    all is done, making the calls one after the other in the order of the history gives
    the same answers and the same object. *)
Definition so_far (h : list (nat * Op * R)) (m : machine) : Prop :=
  forall i t, threads m !! i = Some t -> answers t `prefix_of` calls_of i h /\ map fst (calls_of i h) `prefix_of` begun t.

Lemma locked_linearizable s0 progs h m :
  runs (boot s0 progs) h m ->
  (all_done m = false -> exists e m', mstep m e m')
  /\ so_far h m
  /\ (all_done m = true -> seq_run s0 h (mem m) /\ Forall (fun e => is_Some (threads m !! fst (fst e))) h
      /\ forall i t, threads m !! i = Some t -> calls_of i h = answers t /\ map fst (answers t) = default [] (progs !! i)).
Proof.
  intros Hrun. pose proof (run_inv _ _ _ _ Hrun) as Hinv. split_and!; [by eapply unfinished_moves| |].
  { destruct Hinv as [_ _ (sc & _ & _ & Hc & _)]. intros i t Ht. rewrite (Hc i t Ht). unfold committed, begun. split; [by apply prefix_app_r|].
    rewrite map_app. apply prefix_app. by destruct (now_at t); [..|]; try apply prefix_nil. }
  intros Hd. destruct Hinv as [Hp (_ & H2 & _) (sc & Hh & Hk & Hc & Hw & _)].
  assert (E : mem m = sc).
  { apply Hw. destruct (writer m) as [i|]; [|done]. destruct (H2 i eq_refl) as (_ & t & op & Ht & Ho & _). pose proof (done_rest m i t Hd Ht) as Hr.
    unfold at_rest, holding in *. by destruct (todo t), (now_at t). }
  rewrite E. split_and!; [done|done|]. intros i t Ht. rewrite (Hc i t Ht). pose proof (done_rest m i t Hd Ht) as Hr.
  destruct t as [ops p a]. cbn in Hr. destruct ops, p; try done. split; [apply app_nil_r|].
  rewrite <- Hp. change (map program_of (threads m)) with (program_of <$> threads m). rewrite list_lookup_fmap, Ht. cbn. unfold program_of. cbn. by rewrite app_nil_r.
Qed.

(** All runs end.  A sum over the threads goes down when it goes down at the thread that
    moves and not up at the others. *)
Definition total (f : thread -> nat) (ts : list thread) : nat := fold_right (fun t n => (f t + n)%nat) 0%nat ts.

Lemma total_mono f g ts : (forall j u, ts !! j = Some u -> (g u <= f u)%nat) -> (total g ts <= total f ts)%nat.
Proof.
  induction ts as [|t ts IH]; intros H; [done|]. apply Nat.add_le_mono; [by apply (H 0%nat)|]. apply IH. intros j. apply (H (Datatypes.S j)).
Qed.

Lemma total_insert f g ts i t t' :
  ts !! i = Some t -> (forall j u, j <> i -> ts !! j = Some u -> (g u <= f u)%nat) ->
  (total g (<[ i := t' ]> ts) + f t <= total f ts + g t')%nat.
Proof.
  revert i. induction ts as [|x ts IH]; intros [|i] Hi H; try done; cbn in Hi.
  - injection Hi as ->. change (g t' + total g ts + f t <= f t + total f ts + g t')%nat. pose proof (total_mono f g ts (fun j u => H (Datatypes.S j) u (Nat.neq_succ_0 j))). lia.
  - change (g x + total g (<[ i := t' ]> ts) + f t <= f x + total f ts + g t')%nat.
    pose proof (H 0%nat x (Nat.neq_0_succ i) eq_refl). pose proof (IH i Hi (fun j u Hne => H (Datatypes.S j) u (fun E => Hne (Nat.succ_inj _ _ E)))). lia.
Qed.

(** When every point leaves less to do, each step shortens what the threads have still to
    do. *)
Section Termination.
Context (work : L -> nat).
Hypothesis micro_works : forall l s l' s', micro l s = (inl l', s') -> (work l' < work l)%nat.

Definition effort (t : thread) : nat :=
  (match now_at t with Outside => 0 | Waiting op => work (enter op) + 3 | Inside _ l => work l + 2 | Leaving _ _ => 1 end
   + fold_right (fun op n => work (enter op) + 4 + n) 0 (todo t))%nat.
Definition total_effort (m : machine) : nat := total effort (threads m).

Lemma effort_insert ts i t t' : ts !! i = Some t -> (effort t' < effort t)%nat -> (total effort (<[ i := t' ]> ts) < total effort ts)%nat.
Proof. intros Hi Hlt. pose proof (total_insert effort effort ts i t t' Hi (fun j u _ _ => le_n _)). lia. Qed.

Lemma step_works m e m' : mstep m e m' -> (total_effort m' < total_effort m)%nat.
Proof.
  destruct 1; unfold total_effort; cbn [threads]; (eapply effort_insert; [eassumption|]); unfold effort; cbn; try lia.
  match goal with Hm : micro _ _ = (inl _, _) |- _ => apply micro_works in Hm end. lia.
Qed.
End Termination.

(** When what a point leaves to do depends on the state, as the length of a loop over a
    shared table does, the calls go on to their next phase finitely often, and in between
    the bodies that are inside get shorter: a reader changes nothing under the others, and
    next to a writer nobody is inside. *)
Section StateTermination.
Context (work : L -> S -> nat).
Hypothesis micro_shortens : forall l s l' s', micro l s = (inl l', s') -> (work l' s' < work l s)%nat.

Definition phases_left (t : thread) : nat :=
  (match now_at t with Outside => 0 | Waiting _ => 3 | Inside _ _ => 2 | Leaving _ _ => 1 end + 4 * length (todo t))%nat.
Definition body_left (s : S) (t : thread) : nat := match now_at t with Inside _ l => work l s | _ => 0%nat end.
Definition next (m m' : machine) : Prop := exists e, mstep m e m'.

Lemma others_body_left s0 progs h m i op l ops a x s' :
  minv s0 progs h m -> threads m !! i = Some (mkThread ops (Inside op l) a) -> micro l (mem m) = (x, s') ->
  forall j u, j <> i -> threads m !! j = Some u -> (body_left s' u <= body_left (mem m) u)%nat.
Proof.
  intros [_ Hl (sc & _ & _ & _ & _ & Hg)] Hi Hm j u Hne Hu. destruct (Hg i _ Hi) as [Hr _]. destruct (shared op) eqn:E.
  - by destruct (reads_keep _ _ _ _ (Hr eq_refl) Hm) as [-> _].
  - pose proof (writer_alone m i _ op Hl Hi eq_refl E j u Hne Hu) as Ho. unfold body_left, holding in *. destruct (now_at u); try done; lia.
Qed.

Lemma step_shortens s0 progs h m e m' : minv s0 progs h m -> mstep m e m' ->
  (total phases_left (threads m') < total phases_left (threads m)
   \/ total phases_left (threads m') <= total phases_left (threads m)
      /\ total (body_left (mem m')) (threads m') < total (body_left (mem m)) (threads m))%nat.
Proof.
  intros Hinv He. destruct He as [| | |s o rs ts i op l ops a l' s' Hi Hm| |]; cbn [threads mem];
    try (left; match goal with Hi : ?ts !! ?i = Some ?t |- (total _ (<[ ?i := ?t' ]> _) < _)%nat =>
      pose proof (total_insert phases_left phases_left ts i t t' Hi (fun j u _ _ => le_n _)) as Hle end; cbn in Hle |- *; lia).
  right. pose proof (total_insert phases_left phases_left ts i _ (mkThread ops (Inside op l') a) Hi (fun j u _ _ => le_n _)) as Hp.
  pose proof (total_insert (body_left s) (body_left s') ts i _ (mkThread ops (Inside op l') a) Hi (others_body_left _ _ _ _ _ _ _ _ _ _ _ Hinv Hi Hm)) as Hb.
  apply micro_shortens in Hm. cbn in Hp, Hb |- *. lia.
Qed.

Lemma all_runs_end s0 progs h m : runs (boot s0 progs) h m -> sn next m.
Proof.
  intros Hinv%run_inv. remember (total phases_left (threads m)) as A eqn:EA. revert h m Hinv EA.
  induction (lt_wf A) as [A _ IHA]. intros h m. remember (total (body_left (mem m)) (threads m)) as B eqn:EB. revert h m EB.
  induction (lt_wf B) as [B _ IHB]. intros h m -> Hinv ->. constructor. intros m' [e He]. pose proof (step_inv _ _ _ _ _ _ He Hinv) as Hinv'.
  destruct (step_shortens _ _ _ _ _ _ Hinv He) as [Hlt|[Hle Hlt]]; [by eapply (IHA _ Hlt)|].
  destruct (decide (total phases_left (threads m') = total phases_left (threads m))) as [E|Hne]; [by eapply (IHB _ Hlt)|].
  eapply (IHA (total phases_left (threads m'))); [lia|exact Hinv'|done].
Qed.
End StateTermination.
End Locked.

Arguments Outside {Op R L}.
Arguments Waiting {Op R L} op.
Arguments Inside {Op R L} op l.
Arguments Leaving {Op R L} op r.
Arguments mkThread {Op R L} todo now_at answers.
Arguments mkMachine {S Op R L} mem writer readers threads.

(** ** Schedules

    A schedule names the thread that moves next; a thread that cannot move is skipped. *)
Section Schedule.
Context {S Op R L : Type} (enter : Op -> L) (micro : L -> S -> (L + R) * S) (shared : Op -> bool).

Definition move (i : nat) (m : machine) : machine :=
  let '(mkMachine s o rs ts) := m in
  match ts !! i with
  | None => m
  | Some (mkThread ops p a) =>
      match p with
      | Outside => match ops with [] => m | op :: ops' => mkMachine s o rs (<[ i := mkThread ops' (Waiting op) a ]> ts) end
      | Waiting op =>
          let ts' := <[ i := mkThread ops (Inside op (enter op)) a ]> ts in
          match o with
          | Some _ => m
          | None => if shared op then mkMachine s None ({[ i ]} ∪ rs) ts' else if decide (rs = ∅) then mkMachine s (Some i) rs ts' else m
          end
      | Inside op l =>
          match micro l s with
          | (inl l', s') => mkMachine s' o rs (<[ i := mkThread ops (Inside op l') a ]> ts)
          | (inr r, s') => mkMachine s' o rs (<[ i := mkThread ops (Leaving op r) a ]> ts)
          end
      | Leaving op r =>
          mkMachine s (if shared op then o else None) (if shared op then rs ∖ {[ i ]} else rs) (<[ i := mkThread ops Outside (a ++ [(op, r)]) ]> ts)
      end
  end.
Definition schedule (order : list nat) (m : machine) : machine := fold_left (fun m i => move i m) order m.

Lemma move_steps i m : exists h, runs enter micro shared m h (move i m).
Proof.
  assert (H0 : exists h, runs enter micro shared m h m) by (eexists; constructor).
  assert (H1 : forall e m', mstep enter micro shared m e m' -> exists h, runs enter micro shared m h m') by (intros e m' He; eexists; eapply runs_snoc; [constructor|exact He]).
  destruct m as [s o rs ts]. cbn [move]. destruct (ts !! i) as [[ops [|op|op l|op r] a]|] eqn:E; [| | | |done].
  - destruct ops; [done|]. by eapply H1, step_call.
  - destruct o; [done|]. destruct (shared op) eqn:Es; [by eapply H1, step_lock_shared|]. case_decide; [subst rs|done]. by eapply H1, step_lock.
  - destruct (micro l s) as [[l'|r] s'] eqn:Em; [by eapply H1, step_micro|by eapply H1, step_finish].
  - by eapply H1, step_unlock.
Qed.

Lemma schedule_runs l m : exists h, runs enter micro shared m h (schedule l m).
Proof.
  revert m. induction l as [|i l IH]; intros m; cbn; [eexists; constructor|]. destruct (move_steps i m) as [h1 H1], (IH (move i m)) as [h2 H2].
  exists (h1 ++ h2). by eapply runs_app.
Qed.
End Schedule.

(** The calls of one thread. *)
Lemma calls_of_elem {A B} i (a : A) (b : B) (h : list (nat * A * B)) : (a, b) ∈ calls_of i h <-> (i, a, b) ∈ h.
Proof.
  unfold calls_of. rewrite list_elem_of_omap. split.
  - intros ([[j a'] b'] & Hin & E). case_decide; [|done]. by simplify_eq.
  - intros Hin. exists (i, a, b). split; [done|]. by rewrite decide_True.
Qed.
