(* ===== verification/RegistryThreads.v ===== *)
(** * RegistryThreads: threads that share the metrics registry

    [SimpleRegistry] (metrics/src/simple_metrics.cpp): every method takes the mutex in
    its first line.  The bodies are written here one memory operation at a time, as the
    threads of [Threads] run them; the theorem says that whatever the threads do, the
    registry behaves as if its methods, as [MetricsRegistry] has them, had been called
    one after the other. *)

From stdpp Require Import base list gmap numbers strings relations.
From Stdlib Require Import ZArith Lia Ascii.
From S2P Require Import Prelude CString Floats Effects Metrics MetricsRegistry Threads.

Inductive reg_call : Type :=
  | RCounter (name : cstr) | RGauge (name : cstr) | RHistogram (name : cstr) (buckets : list double)
  | RClear | RCount.
Inductive reg_answer : Type := Handle (l : nat) | Number (n : Z) | Nothing.

(** The points of the bodies: find the name, [std::make_shared], store the handle;
    clear the three tables; add up their sizes. *)
Inductive reg_point : Type :=
  | FindCounter (name : cstr) | MakeCounter (name : cstr) | StoreCounter (name : cstr) (l : nat)
  | FindGauge (name : cstr) | MakeGauge (name : cstr) | StoreGauge (name : cstr) (l : nat)
  | FindHistogram (name : cstr) (buckets : list double) | MakeHistogram (name : cstr) (buckets : list double)
  | StoreHistogram (name : cstr) (l : nat)
  | ClearCounters | ClearGauges | ClearHistograms
  | SizeCounters | SizeGauges (n : nat) | SizeHistograms (n : nat).

Definition reg_enter (c : reg_call) : reg_point :=
  match c with
  | RCounter n => FindCounter n | RGauge n => FindGauge n | RHistogram n bs => FindHistogram n bs
  | RClear => ClearCounters | RCount => SizeCounters
  end.

Definition reg_micro (p : reg_point) (s : SimpleRegistry) : (reg_point + reg_answer) * SimpleRegistry :=
  let '(mkSimpleRegistry cs gs hs ch gh hh) := s in
  match p with
  | FindCounter n => (match cs !! n with Some l => inr (Handle l) | None => inl (MakeCounter n) end, s)
  | MakeCounter n => (inl (StoreCounter n (length ch)), mkSimpleRegistry cs gs hs (ch ++ [SimpleCounter_default]) gh hh)
  | StoreCounter n l => (inr (Handle l), mkSimpleRegistry (<[ n := l ]> cs) gs hs ch gh hh)
  | FindGauge n => (match gs !! n with Some l => inr (Handle l) | None => inl (MakeGauge n) end, s)
  | MakeGauge n => (inl (StoreGauge n (length gh)), mkSimpleRegistry cs gs hs ch (gh ++ [SimpleGauge_default]) hh)
  | StoreGauge n l => (inr (Handle l), mkSimpleRegistry cs (<[ n := l ]> gs) hs ch gh hh)
  | FindHistogram n bs => (match hs !! n with Some l => inr (Handle l) | None => inl (MakeHistogram n bs) end, s)
  | MakeHistogram n bs => (inl (StoreHistogram n (length hh)), mkSimpleRegistry cs gs hs ch gh (hh ++ [SimpleHistogram_of bs]))
  | StoreHistogram n l => (inr (Handle l), mkSimpleRegistry cs gs (<[ n := l ]> hs) ch gh hh)
  | ClearCounters => (inl ClearGauges, mkSimpleRegistry ∅ gs hs ch gh hh)
  | ClearGauges => (inl ClearHistograms, mkSimpleRegistry cs ∅ hs ch gh hh)
  | ClearHistograms => (inr Nothing, mkSimpleRegistry cs gs ∅ ch gh hh)
  | SizeCounters => (inl (SizeGauges (size cs)), s)
  | SizeGauges k => (inl (SizeHistograms (k + size gs)), s)
  | SizeHistograms k => (inr (Number (Z.of_nat (k + size hs))), s)
  end.

(** Every method locks a plain mutex. *)
Definition reg_shared (c : reg_call) : bool := false.

Definition reg_work (p : reg_point) : nat :=
  match p with
  | FindCounter _ | FindGauge _ | FindHistogram _ _ | ClearCounters | SizeCounters => 2
  | MakeCounter _ | MakeGauge _ | MakeHistogram _ _ | ClearGauges | SizeGauges _ => 1
  | StoreCounter _ _ | StoreGauge _ _ | StoreHistogram _ _ | ClearHistograms | SizeHistograms _ => 0
  end.

Lemma reg_micro_works p s p' s' : reg_micro p s = (inl p', s') -> (reg_work p' < reg_work p)%nat.
Proof. destruct s. destruct p; cbn; try case_match; intros [= <- <-]; cbn; lia. Qed.

(** The method of [MetricsRegistry] a call stands for. *)
Definition reg_method {env : Env} (c : reg_call) : eff SimpleRegistry () reg_answer :=
  match c with
  | RCounter n => l ← get_counter n; mret (Handle l)
  | RGauge n => l ← get_gauge n; mret (Handle l)
  | RHistogram n bs => l ← get_histogram n bs; mret (Handle l)
  | RClear => clear;; mret Nothing
  | RCount => k ← metrics_count; mret (Number k)
  end.
Definition reg_op_of (c : reg_call) : metric_op :=
  match c with RCounter n => GetCounter n | RGauge n => GetGauge n | RHistogram n bs => GetHistogram n bs | RClear => Clear | RCount => Count end.

Section Sequential.
Context {env : Env}.

(** A body that is not interrupted is the method. *)
Lemma finishes_method c s r s' :
  finishes reg_micro (reg_enter c) s r s' -> reg_method c (idle s) = Ret (r, idle s').
Proof.
  intros H. destruct s as [cs gs hs ch gh hh].
  destruct c as [n|n|n bs| |]; cbn [reg_enter] in H; cbn [reg_method];
    unfold get_counter, get_gauge, get_histogram, clear, metrics_count, mbind, eff_bind, with_lock, get, modify, idle; cbn [held obj counters_ gauges_ histograms_];
    repeat (match goal with H : finishes _ _ _ _ _ |- _ => inversion H; clear H; subst end;
      repeat match goal with E : reg_micro _ _ = _ |- _ => cbn in E end; simplify_eq;
      repeat match goal with E : context [match ?m !! ?k with _ => _ end] |- _ => destruct (m !! k) eqn:?; simplify_eq end);
    destruct on_relock; reflexivity.
Qed.

(** The calls of a history, made one after the other by the methods. *)
Inductive method_run (s0 : SimpleRegistry) : list (nat * reg_call * reg_answer) -> SimpleRegistry -> Prop :=
  | method_nil : method_run s0 [] s0
  | method_snoc h s i c r s' : method_run s0 h s -> reg_method c (idle s) = Ret (r, idle s') -> method_run s0 (h ++ [(i, c, r)]) s'.

Lemma seq_method s0 h s : seq_run reg_enter reg_micro s0 h s -> method_run s0 h s.
Proof. induction 1; [constructor|]. eapply method_snoc; [done|]. by apply finishes_method. Qed.

Lemma method_op c (w : world SimpleRegistry ()) :
  run_metric_op (reg_op_of c) w = match reg_method c w with Ret (_, w') => Ret (tt, w') | Throw e => Throw e | Undefined => Undefined end.
Proof.
  destruct c as [n|n|n bs| |]; cbn [reg_op_of run_metric_op reg_method]; unfold mbind, eff_bind.
  - by destruct (get_counter n w) as [[? ?]| |].
  - by destruct (get_gauge n w) as [[? ?]| |].
  - by destruct (get_histogram n bs w) as [[? ?]| |].
  - by destruct (clear w) as [[[] ?]| |].
  - by destruct (metrics_count w) as [[? ?]| |].
Qed.

Lemma method_ok c s r s' :
  registry_ok s -> reg_method c (idle s) = Ret (r, idle s') ->
  registry_ok s' /\ (c <> RClear -> registry_grows s s') /\ (forall n l, c = RCounter n -> r = Handle l -> counters_ s' !! n = Some l).
Proof.
  intros Hs Hm. destruct (run_metric_op_ok (reg_op_of c) s 0 [] Hs) as (s1 & E & Hok & Hg).
  assert (s1 = s') as -> by (change (mkWorld s [] 0 []) with (idle (E := ()) s) in E; rewrite method_op, Hm in E; by injection E).
  split_and!; [done|intros Hc; apply Hg; by destruct c|]. intros n l -> ->. cbn [reg_method] in Hm.
  destruct (get_counter_run n s) as (l' & s2 & E2 & Hl & _). rewrite (eff_bind_run _ _ _ _ _ E2) in Hm. injection Hm as <- <-. exact Hl.
Qed.

(** Without [clear], the name of every counter call has its handle in the end. *)
Lemma method_run_handles h s :
  method_run SimpleRegistry_default h s -> (forall i r, (i, RClear, r) ∉ h) ->
  registry_ok s /\ forall i n l, (i, RCounter n, Handle l) ∈ h -> counters_ s !! n = Some l.
Proof.
  induction 1 as [|h s i c r s' _ IH Hm]; intros Hn.
  - split; [split_and!; apply table_ok_empty|]. intros i n l Hin%elem_of_nil. done.
  - destruct IH as [Hs IH]; [intros j q Hj; apply (Hn j q), elem_of_app; by left|].
    destruct (method_ok _ _ _ _ Hs Hm) as (Hs' & Hg & Hl). split; [done|]. intros j n l [Hin|Hin]%elem_of_app.
    + destruct Hg as (Hg & _); [intros ->; apply (Hn i r), elem_of_app; right; by left|]. eapply lookup_weaken; [by eapply IH|done].
    + apply list_elem_of_singleton in Hin. injection Hin as -> <- <-. by apply Hl.
Qed.
End Sequential.

(** C39: The metrics registry is linearizable.  Threads make calls on a new registry,
    their memory operations interleaving in any way the mutex allows: some thread can
    always go on, every step leaves less to do, and when all calls have returned the
    methods, called one after the other in the order in which the calls took effect,
    give the same answers and the same registry; that order keeps a call that returned
    before another was made before it.  So, as
    long as nobody clears it, any two threads that ask for a counter of the same name
    get the same counter, and for different names different ones. *)
Theorem registry_linearizable {env : Env} (progs : list (list reg_call)) (h : list (nat * reg_call * reg_answer)) (m : machine) :
  runs reg_enter reg_micro reg_shared (boot SimpleRegistry_default progs) h m ->
  (all_done m = false -> exists e m', mstep reg_enter reg_micro reg_shared m e m')
  /\ (forall e m', mstep reg_enter reg_micro reg_shared m e m' -> (total_effort reg_enter reg_work m' < total_effort reg_enter reg_work m)%nat)
  /\ so_far h m
  /\ (all_done m = true ->
      (method_run SimpleRegistry_default h (mem m)
         /\ forall i t, threads m !! i = Some t -> calls_of i h = answers t /\ map fst (answers t) = default [] (progs !! i))
      /\ (Forall (fun p => RClear ∉ p) progs ->
          forall i j ti tj n n' l l', threads m !! i = Some ti -> threads m !! j = Some tj ->
            (RCounter n, Handle l) ∈ answers ti -> (RCounter n', Handle l') ∈ answers tj -> (l = l' <-> n = n'))).
Proof.
  intros Hrun. destruct (locked_linearizable reg_enter reg_micro reg_shared (fun _ => false) ltac:(done) ltac:(done) _ _ _ _ Hrun) as (H1 & H2 & H3).
  split_and!; [done|intros e m'; apply step_works, reg_micro_works|done|]. intros Hd. destruct (H3 Hd) as (Hh & Hids & Hans). apply seq_method in Hh. split; [done|].
  intros Hnc i j ti tj n n' l l' Hi Hj Hl Hl'. destruct (Hans i ti Hi) as [Ei _], (Hans j tj Hj) as [Ej _].
  assert (Hclear : forall k r, (k, RClear, r) ∉ h).
  { intros k r Hin. destruct (threads m !! k) as [t|] eqn:Ht.
    - destruct (Hans k t Ht) as [Ek Hp]. rewrite <- calls_of_elem, Ek in Hin. apply (list_elem_of_fmap_2 fst) in Hin. change (fst <$> answers t) with (map fst (answers t)) in Hin.
      rewrite Hp in Hin. destruct (progs !! k) as [p|] eqn:Epk; cbn in Hin; [|by apply elem_of_nil in Hin]. by apply (Forall_lookup_1 _ _ _ _ Hnc) in Epk.
    - rewrite Forall_forall in Hids. apply Hids in Hin. cbn in Hin. rewrite Ht in Hin. by apply is_Some_None in Hin. }
  destruct (method_run_handles h (mem m) Hh Hclear) as [Hok Hn]. rewrite <- Ei in Hl. rewrite <- Ej in Hl'. apply calls_of_elem in Hl, Hl'.
  specialize (Hn _ _ _ Hl) as Hl1. specialize (Hn _ _ _ Hl') as Hl2. split; [intros <-|intros <-; congruence].
  destruct Hok as ([_ Hinj] & _). by eapply Hinj.
Qed.

(** Two threads ask for the same counter; the second is waiting while the first makes
    it, and gets the same handle. *)
Definition demo_threads : @machine SimpleRegistry reg_call reg_answer reg_point :=
  schedule reg_enter reg_micro reg_shared [0; 0; 1; 1; 0; 0; 0; 0; 1; 1; 1; 1; 1; 1; 1; 1; 1]%nat
    (boot SimpleRegistry_default [[RCounter $"blocks"]; [RCounter $"blocks"; RCount]]).

Lemma registry_linearizable_witness :
  exists h, @method_run (std_env (fun _ => 0)) SimpleRegistry_default h (mem demo_threads)
    /\ calls_of 0 h = [(RCounter $"blocks", Handle 0)] /\ calls_of 1 h = [(RCounter $"blocks", Handle 0); (RCount, Number 1)].
Proof.
  destruct (schedule_runs reg_enter reg_micro reg_shared [0; 0; 1; 1; 0; 0; 0; 0; 1; 1; 1; 1; 1; 1; 1; 1; 1]%nat
    (boot SimpleRegistry_default [[RCounter $"blocks"]; [RCounter $"blocks"; RCount]])) as [h Hrun].
  destruct (@registry_linearizable (std_env (fun _ => 0)) [[RCounter $"blocks"]; [RCounter $"blocks"; RCount]] h demo_threads Hrun) as (_ & _ & _ & H).
  destruct (H ltac:(vm_compute; reflexivity)) as [(Hh & Hc) _]. exists h. split; [exact Hh|].
  split; [refine (proj1 (Hc 0%nat (mkThread [] Outside [(RCounter $"blocks", Handle 0)]) _))|refine (proj1 (Hc 1%nat (mkThread [] Outside [(RCounter $"blocks", Handle 0); (RCount, Number 1)]) _))]; vm_compute; reflexivity.
Defined.
