(* ===== verification/PoolThreads.v ===== *)
(** * PoolThreads: threads that share the transaction pool

    [MempoolImpl] (mempool/src/mempool_impl.cpp) guards its tables with a
    [std::shared_mutex]: look-ups and block assembly lock it shared, changes lock it
    exclusively.  The bodies of the methods that take the lock once are written here one
    access at a time; the loops over the queue and over the table of transactions take a
    step per element and read the tables at every step.  The methods that lock the mutex
    again from inside ([add_transaction] and the evictions) are not calls of this file,
    nor is [get_config], which returns a reference that is read without the lock. *)

From stdpp Require Import base list gmap numbers strings relations.
From Stdlib Require Import ZArith Lia.
From S2P Require Import Prelude Floats Sorting Effects Hash Address Transaction Mempool MempoolInv MempoolProps Threads.

Inductive pool_call : Type :=
  | PGet (h : Hash) | PHas (h : Hash) | PHashes | PTop (count : nat) | PBlock (max_count : nat) (max_gas_limit : Z)
  | PSetConfig (c : MempoolConfig) | PRemove (h : Hash) | PClear.
Inductive pool_answer : Type :=
  | ATransaction (o : option Transaction) | ABool (b : bool) | AHashes (l : list Hash) | ATransactions (l : list Transaction)
  | ADone | ARemoved (e : MempoolError) (notify : bool).

(** The points of the bodies. *)
Inductive pool_point : Type :=
  | GetFind (h : Hash) | HasFind (h : Hash)
  | HashAt (k : nat) (hashes : list Hash)
  | TopCopy (count : nat) | TopLoop (temp_queue : list (double * Hash)) (count : nat) (result : list Transaction)
  | BlockCopy (max_count : nat) (max_gas_limit : Z)
  | BlockLoop (temp_queue : list (double * Hash)) (max_count : nat) (max_gas_limit total_gas : Z) (result : list Transaction)
  | ConfigWrite (c : MempoolConfig)
  | RemoveFind (h : Hash) | RemoveNonce (h : Hash) (from : Address) (n : Z) | RemoveErase (h : Hash)
  | RebuildPop | RebuildAt (k : nat) | RemoveNotify
  | ClearTransactions | ClearNonces | ClearPop.

Definition pool_enter (c : pool_call) : pool_point :=
  match c with
  | PGet h => GetFind h | PHas h => HasFind h | PHashes => HashAt 0 [] | PTop n => TopCopy n | PBlock n gas => BlockCopy n gas
  | PSetConfig c => ConfigWrite c | PRemove h => RemoveFind h | PClear => ClearTransactions
  end.

(** Who takes the lock shared, and which points only read. *)
Definition pool_shared (c : pool_call) : bool := match c with PGet _ | PHas _ | PHashes | PTop _ | PBlock _ _ => true | _ => false end.
Definition pool_reads (p : pool_point) : bool :=
  match p with GetFind _ | HasFind _ | HashAt _ _ | TopCopy _ | TopLoop _ _ _ | BlockCopy _ _ | BlockLoop _ _ _ _ _ => true | _ => false end.

Section Bodies.
Context {io : IterOrder}.

Definition pool_micro (pt : pool_point) (p : Mempool) : (pool_point + pool_answer) * Mempool :=
  match pt with
  | GetFind h => (inr (ATransaction (transaction <$> transactions_ p !! h)), p)
  | HasFind h => (inr (ABool (bool_decide (is_Some (transactions_ p !! h)))), p)
  | HashAt k hashes =>
      (match iter (transactions_ p) !! k with Some (h, _) => inl (HashAt (S k) (hashes ++ [h])) | None => inr (AHashes hashes) end, p)
  | TopCopy count => (inl (TopLoop (priority_queue_ p) count []), p)
  | TopLoop q count result =>
      (match q, count with
       | [], _ | _, O => inr (ATransactions result)
       | (_, h) :: q', S count' =>
           match transactions_ p !! h with
           | Some e => inl (TopLoop q' count' (result ++ [transaction e]))
           | None => inl (TopLoop q' count result)
           end
       end, p)
  | BlockCopy count gas => (inl (BlockLoop (priority_queue_ p) count gas 0 []), p)
  | BlockLoop q count gas total result =>
      (match q, count with
       | [], _ | _, O => inr (ATransactions result)
       | (_, h) :: q', S count' =>
           match transactions_ p !! h with
           | Some e =>
               let tx := transaction e in
               if (total + get_gas_limit tx)%u64 <=? gas
               then inl (BlockLoop q' count' gas (total + get_gas_limit tx)%u64 (result ++ [tx]))
               else inl (BlockLoop q' count gas total result)
           | None => inl (BlockLoop q' count gas total result)
           end
       end, p)
  | ConfigWrite c =>
      (inr ADone, mkMempool c (transactions_ p) (account_nonces_ p) (priority_queue_ p) (on_transaction_added_ p) (on_transaction_removed_ p))
  | RemoveFind h =>
      (match transactions_ p !! h with
       | None => inr (ARemoved INVALID_TRANSACTION false)
       | Some e => inl (RemoveNonce h (get_from (transaction e)) (get_nonce (transaction e)))
       end, p)
  | RemoveNonce h from n => (inl (RemoveErase h), remove_account_nonce from n p)
  | RemoveErase h => (inl RebuildPop, set_transactions (delete h) p)
  | RebuildPop => match priority_queue_ p with [] => (inl (RebuildAt 0), p) | _ :: q => (inl RebuildPop, set_queue (fun _ => q) p) end
  | RebuildAt k =>
      match iter (transactions_ p) !! k with
      | Some kv => (inl (RebuildAt (S k)), set_queue (pq_emplace (queue_entry kv)) p)
      | None => (inl RemoveNotify, p)
      end
  | RemoveNotify => (inr (ARemoved SUCCESS (on_transaction_removed_ p)), p)
  | ClearTransactions => (inl ClearNonces, set_transactions (fun _ => ∅) p)
  | ClearNonces => (inl ClearPop, set_nonces (fun _ => ∅) p)
  | ClearPop => match priority_queue_ p with [] => (inr ADone, p) | _ :: q => (inl ClearPop, set_queue (fun _ => q) p) end
  end.

Lemma pool_shared_reads c : pool_shared c = true -> pool_reads (pool_enter c) = true.
Proof. by destruct c. Qed.
Lemma pool_reads_keep pt p x p' : pool_reads pt = true -> pool_micro pt p = (x, p') -> p' = p /\ forall pt', x = inl pt' -> pool_reads pt' = true.
Proof. intros Hr Hm. destruct pt; try done; cbn in Hm; injection Hm as <- <-; split; try done; intros pt'; repeat case_match; intros; by simplify_eq. Qed.

(** *** How much a body has still to do

    A loop over the queue's copy has the rest of the copy, a loop over a table the entries
    it has not reached, and [rebuild_priority_queue] first empties the queue. *)
Definition pool_work (pt : pool_point) (p : Mempool) : nat :=
  (match pt with
   | GetFind _ | HasFind _ | ConfigWrite _ | RemoveNotify => 0
   | HashAt k _ => base.size (transactions_ p) - k
   | TopCopy _ | BlockCopy _ _ => length (priority_queue_ p) + 1
   | TopLoop q _ _ | BlockLoop q _ _ _ _ => length q
   | RebuildAt k => base.size (transactions_ p) - k + 1
   | RebuildPop => length (priority_queue_ p) + base.size (transactions_ p) + 2
   | RemoveErase _ => length (priority_queue_ p) + base.size (transactions_ p) + 3
   | RemoveNonce _ _ _ => length (priority_queue_ p) + base.size (transactions_ p) + 4
   | RemoveFind _ => length (priority_queue_ p) + base.size (transactions_ p) + 5
   | ClearPop => length (priority_queue_ p)
   | ClearNonces => length (priority_queue_ p) + 1
   | ClearTransactions => length (priority_queue_ p) + 2
   end)%nat.

Lemma iter_before_end {V} (t : gmap Hash V) k kv : iter t !! k = Some kv -> (k < base.size t)%nat.
Proof. intros H%lookup_lt_Some. by rewrite iter_perm, length_map_to_list in H. Qed.

Lemma size_delete_le {V} (t : gmap Hash V) h : (base.size (delete h t) <= base.size t)%nat.
Proof. rewrite map_size_delete. case_match; [lia|done]. Qed.

Lemma pool_micro_shortens pt p pt' p' : pool_micro pt p = (inl pt', p') -> (pool_work pt' p' < pool_work pt p)%nat.
Proof.
  destruct pt; intros Hm; cbn in Hm; repeat case_match; simplify_eq; cbn;
    repeat match goal with H : iter _ !! _ = Some _ |- _ => apply iter_before_end in H | H : priority_queue_ _ = _ |- _ => rewrite H; clear H end;
    cbn; try lia. pose proof (size_delete_le (transactions_ p) h). lia.
Qed.

(** *** A body that is not interrupted *)

Lemma finishes_det pt p r1 p1 r2 p2 : finishes pool_micro pt p r1 p1 -> finishes pool_micro pt p r2 p2 -> r1 = r2 /\ p1 = p2.
Proof.
  intros H1. revert r2 p2. induction H1 as [l s r s' Hm|l s l' s1 r s' Hm _ IH]; intros r2 p2 H2; inversion H2; subst; rewrite Hm in *; simplify_eq; [done|by apply IH].
Qed.

Lemma hash_loop_finishes p k hashes rest :
  drop k (iter (transactions_ p)) = rest -> finishes pool_micro (HashAt k hashes) p (AHashes (hashes ++ map fst rest)) p.
Proof.
  revert k hashes. induction rest as [|[h e] rest IH]; intros k hashes E.
  - apply fin_done. cbn. assert (Hk : iter (transactions_ p) !! k = None) by (apply lookup_ge_None; apply (f_equal length) in E; rewrite length_drop in E; cbn in E; lia).
    by rewrite Hk, app_nil_r.
  - assert (Hk : iter (transactions_ p) !! k = Some (h, e)) by (rewrite <- (Nat.add_0_r k), <- lookup_drop, E; done).
    eapply fin_step; [cbn; by rewrite Hk|]. replace (hashes ++ map fst ((h, e) :: rest)) with ((hashes ++ [h]) ++ map fst rest) by (by rewrite <- app_assoc).
    apply IH. by rewrite (drop_S _ _ _ Hk) in E; injection E.
Qed.

Lemma top_loop_finishes p q count result :
  finishes pool_micro (TopLoop q count result) p (ATransactions (result ++ drain (transactions_ p) count q)) p.
Proof.
  revert count result. induction q as [|[sc h] q IH]; intros count result; [apply fin_done; cbn; by rewrite app_nil_r|].
  destruct count as [|count]; [apply fin_done; cbn; by rewrite app_nil_r|]. cbn [drain]. destruct (transactions_ p !! h) as [e|] eqn:E.
  - eapply fin_step; [cbn; by rewrite E|]. pose proof (IH count (result ++ [transaction e])) as Hi. rewrite <- app_assoc in Hi. exact Hi.
  - eapply fin_step; [cbn; by rewrite E|]. apply IH.
Qed.

Lemma block_loop_finishes p q count gas total result :
  finishes pool_micro (BlockLoop q count gas total result) p (ATransactions (result ++ drain_gas (transactions_ p) count gas total q)) p.
Proof.
  revert count total result. induction q as [|[sc h] q IH]; intros count total result; [apply fin_done; cbn; by rewrite app_nil_r|].
  destruct count as [|count]; [apply fin_done; cbn; by rewrite app_nil_r|]. cbn [drain_gas]. destruct (transactions_ p !! h) as [e|] eqn:E.
  - destruct ((total + get_gas_limit (transaction e))%u64 <=? gas) eqn:Eg; (eapply fin_step; [cbn; rewrite E, Eg; reflexivity|]); [|apply IH].
    match goal with |- finishes _ (BlockLoop _ _ _ ?t _) _ _ _ => pose proof (IH count t (result ++ [transaction e])) as Hi end. rewrite <- app_assoc in Hi. exact Hi.
  - eapply fin_step; [cbn; by rewrite E|]. apply IH.
Qed.

Lemma rebuild_loop_finishes p k rest :
  drop k (iter (transactions_ p)) = rest ->
  finishes pool_micro (RebuildAt k) p (ARemoved SUCCESS (on_transaction_removed_ p))
    (set_queue (fun q => fold_left (fun q kv => pq_emplace (queue_entry kv) q) rest q) p).
Proof.
  revert k p. induction rest as [|kv rest IH]; intros k p E.
  - assert (Hk : iter (transactions_ p) !! k = None) by (apply lookup_ge_None; apply (f_equal length) in E; rewrite length_drop in E; cbn in E; lia).
    eapply fin_step; [cbn; by rewrite Hk|]. apply fin_done. by destruct p.
  - assert (Hk : iter (transactions_ p) !! k = Some kv) by (rewrite <- (Nat.add_0_r k), <- lookup_drop, E; done).
    eapply fin_step; [cbn; by rewrite Hk|]. cbn [fold_left].
    apply (IH (S k) (set_queue (pq_emplace (queue_entry kv)) p)). cbn. by rewrite (drop_S _ _ _ Hk) in E; injection E.
Qed.

Lemma pop_finishes pt pt' p r p' :
  (forall p, pool_micro pt p = match priority_queue_ p with [] => (pt', p) | _ :: q => (inl pt, set_queue (fun _ => q) p) end) ->
  match pt' with inl l => finishes pool_micro l (set_queue (fun _ => []) p) r p' | inr r' => r' = r /\ p' = set_queue (fun _ => []) p end ->
  finishes pool_micro pt p r p'.
Proof.
  intros Hpt. destruct p as [c t n q a d]. revert c t n a d. induction q as [|x q IH]; intros c t n a d H.
  - destruct pt' as [l|r']; [eapply fin_step; [rewrite Hpt; reflexivity|exact H]|]. destruct H as [-> ->]. apply fin_done. by rewrite Hpt.
  - eapply fin_step; [rewrite Hpt; reflexivity|]. by apply IH.
Qed.

Lemma remove_finishes p h :
  finishes pool_micro (RemoveFind h) p
    (if decide (is_Some (transactions_ p !! h)) then ARemoved SUCCESS (on_transaction_removed_ p) else ARemoved INVALID_TRANSACTION false)
    (after_remove h p).
Proof.
  unfold after_remove. destruct (transactions_ p !! h) as [e|] eqn:E.
  2: { rewrite decide_False by (by intros [? ?]). apply fin_done. cbn. by rewrite E. }
  rewrite decide_True by done. eapply fin_step; [cbn; by rewrite E|]. eapply fin_step; [reflexivity|]. eapply fin_step; [reflexivity|].
  eapply (pop_finishes RebuildPop (inl (RebuildAt 0))); [done|]. cbn beta iota.
  exact (rebuild_loop_finishes (set_queue (fun _ => []) (drop_entry h e p)) 0 _ eq_refl).
Qed.

Lemma clear_finishes p :
  finishes pool_micro ClearTransactions p ADone (mkMempool (config_ p) ∅ ∅ [] (on_transaction_added_ p) (on_transaction_removed_ p)).
Proof.
  eapply fin_step; [reflexivity|]. eapply fin_step; [reflexivity|]. by eapply (pop_finishes ClearPop (inr ADone)).
Qed.
End Bodies.

Section Methods.
Context {env : Env} {io : IterOrder}.

(** The method a call stands for answers [r] and leaves the pool [p']. *)
Definition method_answers (c : pool_call) (p : Mempool) (r : pool_answer) (p' : Mempool) : Prop :=
  match c with
  | PGet h => exists o, r = ATransaction o /\ get_transaction h (idle p) = Ret (o, idle p')
  | PHas h => exists b, r = ABool b /\ has_transaction h (idle p) = Ret (b, idle p')
  | PHashes => exists l, r = AHashes l /\ get_all_transaction_hashes (idle p) = Ret (l, idle p')
  | PTop n => exists l, r = ATransactions l /\ get_top_transactions n (idle p) = Ret (l, idle p')
  | PBlock n gas => exists l, r = ATransactions l /\ get_transactions_for_block n gas (idle p) = Ret (l, idle p')
  | PSetConfig cf => r = ADone /\ set_config cf (idle p) = Ret (tt, idle p')
  | PRemove h => exists e b, r = ARemoved e b /\ remove_transaction h (idle p) = Ret (e, mkWorld p' [] 0 (if b then [Removed h] else []))
  | PClear => r = ADone /\ clear (idle p) = Ret (tt, idle p')
  end.

Lemma remove_method h p :
  let '(e, b) := if decide (is_Some (transactions_ p !! h)) then (SUCCESS, on_transaction_removed_ p) else (INVALID_TRANSACTION, false) in
  remove_transaction h (idle p) = Ret (e, mkWorld (after_remove h p) [] 0 (if b then [Removed h] else [])).
Proof.
  unfold remove_transaction, after_remove, mbind, eff_bind, with_lock, get, modify, idle. cbn [held obj ticks log].
  destruct (transactions_ p !! h) as [e|] eqn:E; case_decide as Hd; try (by destruct Hd); try (by destruct Hd; eauto);
    destruct on_relock; cbn; try done; by destruct (on_transaction_removed_ p).
Qed.

(** A body that is not interrupted is the method. *)
Lemma body_method c p r p' : finishes pool_micro (pool_enter c) p r p' -> method_answers c p r p'.
Proof.
  assert (Hq : forall A (f : Mempool -> A), with_lock (E := pool_event) Shared (q ← get; mret (f q)) (idle p) = Ret (f p, idle p)).
  { intros A f. unfold with_lock, mbind, eff_bind, get, mret. cbn. by destruct on_relock. }
  intros H. destruct c as [h|h| |n|n gas|cf|h|]; cbn [pool_enter method_answers] in *.
  - eapply finishes_det in H as [<- <-]; [|by apply fin_done]. eexists. split; [reflexivity|]. apply Hq.
  - eapply finishes_det in H as [<- <-]; [|by apply fin_done]. eexists. split; [reflexivity|]. apply Hq.
  - eapply finishes_det in H as [<- <-]; [|by apply (hash_loop_finishes p 0 [])]. eexists. split; [reflexivity|]. apply Hq.
  - eapply finishes_det in H as [<- <-]; [|eapply fin_step; [reflexivity|]; apply top_loop_finishes]. eexists. split; [reflexivity|]. apply Hq.
  - eapply finishes_det in H as [<- <-]; [|eapply fin_step; [reflexivity|]; apply block_loop_finishes]. eexists. split; [reflexivity|]. apply Hq.
  - eapply finishes_det in H as [<- <-]; [|by apply fin_done]. split; [done|]. unfold set_config, with_lock, modify. cbn. by destruct on_relock.
  - eapply finishes_det in H as [<- <-]; [|apply remove_finishes]. pose proof (remove_method h p) as Hm.
    case_decide; do 2 eexists; (split; [reflexivity|exact Hm]).
  - eapply finishes_det in H as [<- <-]; [|apply clear_finishes]. split; [done|]. unfold clear, mbind, eff_bind, with_lock, modify. cbn. by destruct on_relock.
Qed.

(** The calls of a history, made one after the other by the methods. *)
Inductive method_run (p0 : Mempool) : list (nat * pool_call * pool_answer) -> Mempool -> Prop :=
  | run_none : method_run p0 [] p0
  | run_call h p i c r p' : method_run p0 h p -> method_answers c p r p' -> method_run p0 (h ++ [(i, c, r)]) p'.

Lemma seq_methods p0 h p : seq_run pool_enter pool_micro p0 h p -> method_run p0 h p.
Proof. induction 1; [constructor|]. eapply run_call; [done|]. by apply body_method. Qed.

(** These calls keep the invariant and add nothing. *)
Definition shrunk (p0 p : Mempool) : Prop := pool_inv p /\ transactions_ p ⊆ transactions_ p0.

Lemma body_shrinks p0 c p r p' : finishes pool_micro (pool_enter c) p r p' -> shrunk p0 p -> shrunk p0 p'.
Proof.
  intros H [Hp Hs]. destruct (pool_shared c) eqn:Esh.
  - assert (p' = p) as ->; [|done]. clear -H Esh. assert (Hr : pool_reads (pool_enter c) = true) by (by apply pool_shared_reads).
    revert H Hr. generalize (pool_enter c). induction 1 as [l s r s' Hm|l s l' s1 r s' Hm _ IH]; intros Hr; destruct (pool_reads_keep _ _ _ _ Hr Hm) as [-> Hn]; [done|]. by apply IH, Hn.
  - destruct c as [| | | | |cf|h|]; try done; cbn [pool_enter] in H.
    + eapply finishes_det in H as [_ <-]; [|by apply fin_done]. split; [by apply pool_inv_config|done].
    + eapply finishes_det in H as [_ <-]; [|apply remove_finishes]. split; [by apply after_remove_inv|]. rewrite after_remove_transactions.
      etrans; [apply delete_subseteq|done].
    + eapply finishes_det in H as [_ <-]; [|apply clear_finishes]. split; [|apply map_empty_subseteq].
      apply (pool_inv_config (config_ p) (on_transaction_added_ p) (on_transaction_removed_ p) (create_mempool (config_ p))), create_mempool_inv.
Qed.

(** Every call of a history was made on a pool that keeps the invariant. *)
Lemma run_shrinks p0 h p :
  pool_inv p0 -> seq_run pool_enter pool_micro p0 h p ->
  shrunk p0 p /\ forall i c r, (i, c, r) ∈ h -> exists p1 p2, shrunk p0 p1 /\ method_answers c p1 r p2.
Proof.
  intros Hp. induction 1 as [|h p i c r p' _ [IHs IH] Hf].
  - split; [split; [done|done]|]. intros i c r Hin%elem_of_nil. done.
  - split; [by eapply body_shrinks|]. intros j c' r' [Hin|Hin]%elem_of_app; [by eapply IH|].
    apply list_elem_of_singleton in Hin. injection Hin as -> -> ->. exists p, p'. split; [done|]. by apply body_method.
Qed.
End Methods.

(** C3: The transaction pool is linearizable.  Threads look up, list, select for blocks,
    remove, clear and reconfigure, their accesses interleaving in any way the shared
    mutex allows, with several readers inside at once: some thread can always go on, and
    no run goes on for ever, so all calls return under every schedule; and when they have
    returned the methods, called one after the other in the order in
    which the calls took effect, give the same answers and the same pool.  At every
    moment that order has all calls that have returned and none that was not made yet, so
    a call that returned before another was made comes before it.  The invariant holds at the end, and every block selection is what the
    method answers on one pool that keeps the invariant and holds none but the
    transactions there were: no selection mixes states before and after a change. *)
Theorem pool_linearizable {env : Env} {io : IterOrder} (p0 : Mempool) (progs : list (list pool_call))
    (h : list (nat * pool_call * pool_answer)) (m : machine) :
  pool_inv p0 -> runs pool_enter pool_micro pool_shared (boot p0 progs) h m ->
  (all_done m = false -> exists e m', mstep pool_enter pool_micro pool_shared m e m')
  /\ sn (next pool_enter pool_micro pool_shared) m
  /\ so_far h m
  /\ (all_done m = true -> pool_inv (mem m)
      /\ (method_run p0 h (mem m)
           /\ forall i t, threads m !! i = Some t -> calls_of i h = answers t /\ map fst (answers t) = default [] (progs !! i))
      /\ forall i t n gas l, threads m !! i = Some t -> (PBlock n gas, ATransactions l) ∈ answers t ->
           exists p1, pool_inv p1 /\ transactions_ p1 ⊆ transactions_ p0 /\ get_transactions_for_block n gas (idle p1) = Ret (l, idle p1)).
Proof.
  intros Hp Hrun. destruct (locked_linearizable pool_enter pool_micro pool_shared pool_reads pool_shared_reads pool_reads_keep _ _ _ _ Hrun) as (H1 & Hfar & H2).
  split_and!; [done|by eapply (all_runs_end _ _ _ pool_reads pool_shared_reads pool_reads_keep pool_work pool_micro_shortens)|done|]. intros Hd. destruct (H2 Hd) as (Hh & _ & Hans). destruct (run_shrinks p0 h (mem m) Hp Hh) as [[Hinv _] Hcalls].
  split_and!; [done|by apply seq_methods|done|]. intros i t n gas l Ht Hl.
  destruct (Hans i t Ht) as [E _]. rewrite <- E, calls_of_elem in Hl. destruct (Hcalls _ _ _ Hl) as (p1 & p2 & [Hp1 Hs1] & l' & [= <-] & Hg).
  exists p1. split_and!; [done|done|]. rewrite Hg. unfold get_transactions_for_block, with_lock, mbind, eff_bind, get, mret in Hg. cbn in Hg.
  by destruct on_relock; injection Hg as <- <-.
Qed.

(** A thread selects transactions for a block while another removes one of them: the
    second waits until the first has left. *)
Definition demo_pool_threads : @machine Mempool pool_call pool_answer pool_point :=
  schedule pool_enter (@pool_micro map_order) pool_shared ([0; 1; 0; 1; 0; 2; 2; 2; 1; 0; 0; 0; 0; 0; 0; 2]%nat ++ replicate 20 1%nat)
    (boot (obj demo_world) [[PBlock 5 50000]; [PRemove (demo_hash 1 7)]; [PHas (demo_hash 1 7)]]).

Lemma pool_linearizable_witness :
  all_done demo_pool_threads = true /\ pool_inv (mem demo_pool_threads)
  /\ exists h, @method_run demo_env map_order (obj demo_world) h (mem demo_pool_threads)
     /\ calls_of 1 h = [(PRemove (demo_hash 1 7), ARemoved SUCCESS false)] /\ calls_of 2 h = [(PHas (demo_hash 1 7), ABool true)].
Proof.
  assert (Hd : all_done demo_pool_threads = true) by (vm_compute; reflexivity). split; [exact Hd|].
  destruct (schedule_runs pool_enter (@pool_micro map_order) pool_shared ([0; 1; 0; 1; 0; 2; 2; 2; 1; 0; 0; 0; 0; 0; 0; 2]%nat ++ replicate 20 1%nat)
    (boot (obj demo_world) [[PBlock 5 50000]; [PRemove (demo_hash 1 7)]; [PHas (demo_hash 1 7)]])) as [h Hrun].
  destruct (@pool_linearizable demo_env map_order (obj demo_world) [[PBlock 5 50000]; [PRemove (demo_hash 1 7)]; [PHas (demo_hash 1 7)]] h demo_pool_threads)
    as (_ & _ & _ & H); [exact (proj1 demo_ok)|exact Hrun|].
  destruct (H Hd) as (Hp & (Hh & Hc) & _). split; [exact Hp|]. exists h. split; [exact Hh|].
  split; [refine (proj1 (Hc 1%nat (mkThread [] Outside [(PRemove (demo_hash 1 7), ARemoved SUCCESS false)]) _))|refine (proj1 (Hc 2%nat (mkThread [] Outside [(PHas (demo_hash 1 7), ABool true)]) _))]; vm_compute; reflexivity.
Defined.
