(* ===== verification/PeerThreads.v ===== *)
(** * PeerThreads: threads that share the peer table

    [PeerDiscovery] (p2p/src/peer_discovery.cpp) is called by its users and by the
    handlers of its socket and timer; [peers_mutex_] guards the table.  The bodies of
    the calls on the table are written one access at a time, as the threads of
    [Threads] run them.  [add_peer] looks at the address before it takes the mutex, so
    the threads add valid addresses; no callback is installed. *)

From stdpp Require Import base list numbers strings relations sorting.
From Stdlib Require Import ZArith Lia Ascii.
From S2P Require Import Prelude CString Sorting Effects PeerAddress PeerDiscovery Threads.

Inductive peer_call : Type := PAdd (a : PeerAddress) | PRemove (a : PeerAddress) | PHas (a : PeerAddress) | PCount | PList.
Inductive peer_answer : Type := Flag (b : bool) | Number (n : Z) | Peers (ps : list PeerAddress).

(** The points of the bodies: compare the size with the bound, insert, look whether
    there is a callback; erase; find; read the size; copy the set. *)
Inductive peer_point : Type :=
  | AddSize (a : PeerAddress) | AddInsert (a : PeerAddress) | AddNotify (inserted : bool)
  | RemoveErase (a : PeerAddress) | FindPeer (a : PeerAddress) | ReadSize | CopyPeers.

Definition peer_enter (c : peer_call) : peer_point :=
  match c with PAdd a => AddSize a | PRemove a => RemoveErase a | PHas a => FindPeer a | PCount => ReadSize | PList => CopyPeers end.

Definition peer_micro (p : peer_point) (d : Discovery) : (peer_point + peer_answer) * Discovery :=
  match p with
  | AddSize a => (if max_peers (config_ d) <=? Z.of_nat (length (peers_ d)) then inr (Flag false) else inl (AddInsert a), d)
  | AddInsert a => let '(ps, inserted) := set_insert a (peers_ d) in (inl (AddNotify inserted), set_peers ps d)
  | AddNotify inserted => (inr (Flag inserted), d)
  | RemoveErase a => (inr (Flag (set_mem a (peers_ d))), set_peers (set_erase a (peers_ d)) d)
  | FindPeer a => (inr (Flag (set_mem a (peers_ d))), d)
  | ReadSize => (inr (Number (Z.of_nat (length (peers_ d)))), d)
  | CopyPeers => (inr (Peers (peers_ d)), d)
  end.
Definition peer_shared (c : peer_call) : bool := false.

Definition peer_work (p : peer_point) : nat := match p with AddSize _ => 2 | AddInsert _ => 1 | _ => 0 end.
Lemma peer_micro_works p d p' d' : peer_micro p d = (inl p', d') -> (peer_work p' < peer_work p)%nat.
Proof. destruct p; cbn; try done; [case_match; [done|]|destruct (set_insert a (peers_ d))]; intros [= <- <-]; cbn; lia. Qed.

Section Sequential.
Context {env : Env} {lib : AddressLib} (callback : PeerAddress -> eff Discovery PeerAddress ()).

(** The method of [PeerDiscovery] a call stands for. *)
Definition peer_method (c : peer_call) : eff Discovery PeerAddress peer_answer :=
  match c with
  | PAdd a => b ← add_peer callback a; mret (Flag b)
  | PRemove a => b ← remove_peer a; mret (Flag b)
  | PHas a => b ← has_peer a; mret (Flag b)
  | PCount => n ← peer_count; mret (Number n)
  | PList => ps ← get_peers; mret (Peers ps)
  end.
Definition call_ok (c : peer_call) : bool := match c with PAdd a => is_valid a | _ => true end.

Lemma finishes_add a d r d' :
  finishes peer_micro (AddSize a) d r d' ->
  if max_peers (config_ d) <=? Z.of_nat (length (peers_ d)) then r = Flag false /\ d' = d
  else r = Flag (snd (set_insert a (peers_ d))) /\ d' = set_peers (fst (set_insert a (peers_ d))) d.
Proof.
  inversion_clear 1 as [? ? ? ? E|? ? ? ? ? ? E F]; cbn in E.
  - destruct (max_peers (config_ d) <=? _); [by injection E as <- <-|done].
  - destruct (max_peers (config_ d) <=? _); [done|]. injection E as <- <-. inversion_clear F as [? ? ? ? E|? ? ? ? ? ? E F']; cbn in E.
    + by destruct (set_insert a (peers_ d)).
    + destruct (set_insert a (peers_ d)) as [ps ins]. injection E as <- <-. inversion_clear F' as [? ? ? ? E|? ? ? ? ? ? E F]; cbn in E; [|done].
      by injection E as <- <-.
Qed.

(** A body that is not interrupted is the method. *)
Lemma peer_finishes_method c d r d' :
  call_ok c = true -> discovery_callback_ d = false -> finishes peer_micro (peer_enter c) d r d' ->
  peer_method c (idle d) = Ret (r, idle d') /\ discovery_callback_ d' = false /\ config_ d' = config_ d.
Proof.
  intros Hv Hcb H. destruct c as [a|a|a| |]; cbn [peer_enter peer_method] in *.
  { apply finishes_add in H. unfold add_peer. cbn in Hv. rewrite Hv. cbn [negb]. unfold with_lock, mbind, eff_bind, get, modify, mret, eff_ret, idle.
    cbn [held obj]. destruct (max_peers (config_ d) <=? _); [destruct H as [-> ->]; by destruct on_relock|].
    destruct (set_insert a (peers_ d)) as [ps ins]. destruct H as [-> ->]. cbn [fst snd]. rewrite Hcb, andb_false_r. by destruct on_relock. }
  all: inversion_clear H as [? ? ? ? E|? ? ? ? ? ? E F]; cbn in E; [|done]; injection E as <- <-;
    unfold remove_peer, has_peer, peer_count, get_peers, with_lock, mbind, eff_bind, get, modify, mret, eff_ret, idle; cbn [held obj]; by destruct on_relock.
Qed.

(** The calls of a history, made one after the other by the methods. *)
Inductive peer_run (d0 : Discovery) : list (nat * peer_call * peer_answer) -> Discovery -> Prop :=
  | peer_run_nil : peer_run d0 [] d0
  | peer_run_snoc h d i c r d' : peer_run d0 h d -> peer_method c (idle d) = Ret (r, idle d') -> peer_run d0 (h ++ [(i, c, r)]) d'.

Lemma peer_seq_method d0 h d :
  discovery_callback_ d0 = false -> seq_run peer_enter peer_micro d0 h d -> Forall (fun e => call_ok (snd (fst e)) = true) h ->
  peer_run d0 h d /\ discovery_callback_ d = false /\ config_ d = config_ d0.
Proof.
  intros Hcb. induction 1 as [|h d i c r d' _ IH Hf]; intros Hv; [by repeat constructor|]. apply Forall_app in Hv as [Hv [Hc _]%Forall_cons].
  destruct (IH Hv) as (Hr & Hd & Hg). destruct (peer_finishes_method c d r d' Hc Hd Hf) as (Hm & ? & Hg'). split_and!; [by eapply peer_run_snoc|done|congruence].
Qed.

(** ** The ledger *)

(** What the answers say about an address: added less removed. *)
Definition entry (a : PeerAddress) (c : peer_call) (r : peer_answer) : Z :=
  match c, r with
  | PAdd b, Flag true => if peer_eqb a b then 1 else 0
  | PRemove b, Flag true => if peer_eqb a b then -1 else 0
  | _, _ => 0
  end.
Definition ledger (a : PeerAddress) (h : list (nat * peer_call * peer_answer)) : Z :=
  fold_right Z.add 0 (map (fun e => entry a (snd (fst e)) (snd e)) h).

Lemma ledger_snoc a h i c r : ledger a (h ++ [(i, c, r)]) = ledger a h + entry a c r.
Proof.
  unfold ledger. rewrite map_app. cbn. generalize (map (fun e : nat * peer_call * peer_answer => entry a (snd (fst e)) (snd e)) h) as l.
  intros l. induction l as [|z l IH]; cbn; [lia|]. rewrite IH. lia.
Qed.

Lemma peer_eqb_trans_l a b c : peer_eqb a b = true -> peer_eqb a c = peer_eqb b c.
Proof. rewrite peer_eqb_eq. intros [H1 H2]. unfold peer_eqb. by rewrite H1, H2. Qed.
Lemma set_mem_eqb a b ps : peer_eqb a b = true -> set_mem a ps = set_mem b ps.
Proof. intros E. unfold set_mem. induction ps as [|c ps IH]; [done|]. cbn. by rewrite IH, (peer_eqb_trans_l a b c E). Qed.
Lemma set_mem_insert a b ps : set_mem a (insert_by peer_ltb b ps) = peer_eqb a b || set_mem a ps.
Proof.
  unfold set_mem. induction ps as [|c ps IH]; [done|]. cbn. destruct (peer_ltb c b); [|done]. cbn. rewrite IH.
  destruct (peer_eqb a b), (peer_eqb a c); done.
Qed.
Lemma set_mem_erase a b ps : set_mem a (set_erase b ps) = negb (peer_eqb a b) && set_mem a ps.
Proof.
  unfold set_mem, set_erase. induction ps as [|c ps IH]; cbn; [by rewrite andb_false_r|].
  destruct (peer_eqb b c) eqn:E; cbn; rewrite IH; [|by destruct (peer_eqb a b) eqn:F; [rewrite (peer_eqb_trans_l a b c F), E|]].
  destruct (peer_eqb a b) eqn:F; [done|]. cbn. destruct (peer_eqb a c) eqn:G; [|done]. exfalso.
  apply peer_eqb_eq in E as [E1 E2]. apply peer_eqb_eq in G as [G1 G2].
  enough (peer_eqb a b = true) by congruence. apply peer_eqb_eq. split; congruence.
Qed.

Definition present (a : PeerAddress) (d : Discovery) : Z := if set_mem a (peers_ d) then 1 else 0.

(** What one call does to the table and to the ledger. *)
Lemma finishes_ledger c d r d' :
  call_ok c = true -> table_inv d -> finishes peer_micro (peer_enter c) d r d' ->
  table_inv d' /\ forall a, present a d' = present a d + entry a c r.
Proof.
  intros Hv Ht H. destruct c as [b|b|b| |]; cbn [peer_enter] in H.
  { apply finishes_add in H. destruct (Z.leb_spec (max_peers (config_ d)) (Z.of_nat (length (peers_ d)))); [destruct H as [-> ->]; split; [done|]; intros a; unfold present; cbn [entry]; lia|].
    destruct H as [-> ->]. unfold set_insert. destruct (set_mem b (peers_ d)) eqn:Em; cbn [fst snd].
    - split; [by destruct d, Ht|]. intros a. unfold present. cbn [set_peers peers_ entry]. lia.
    - split.
      + destruct Ht as [H1 H2 H3]. split; cbn; [by apply insert_strictly_sorted|rewrite insert_by_perm; by constructor|rewrite insert_by_perm; cbn; lia].
      + intros a. unfold present. cbn [set_peers peers_ entry]. rewrite set_mem_insert. destruct (peer_eqb a b) eqn:E; cbn [orb]; [|lia]. rewrite (set_mem_eqb a b _ E), Em. lia. }
  all: inversion_clear H as [? ? ? ? E|? ? ? ? ? ? E F]; cbn in E; [|done]; injection E as <- <-; (split; [|intros a; unfold present; cbn [entry set_peers peers_]; try lia]); try done.
  - by apply table_inv_shrink; [apply set_erase_sublist|].
  - rewrite set_mem_erase. destruct (peer_eqb a b) eqn:E; cbn [negb andb]; [rewrite (set_mem_eqb a b _ E)|]; destruct (set_mem b (peers_ d)), (set_mem a (peers_ d)); lia.
Qed.

Lemma seq_ledger d0 h d :
  table_inv d0 -> seq_run peer_enter peer_micro d0 h d -> Forall (fun e => call_ok (snd (fst e)) = true) h ->
  table_inv d /\ forall a, present a d = present a d0 + ledger a h.
Proof.
  intros Ht. induction 1 as [|h d i c r d' _ IH Hf]; intros Hv; [split; [done|]; intros a; unfold ledger; cbn [map fold_right]; lia|].
  apply Forall_app in Hv as [Hv [Hc _]%Forall_cons]. destruct (IH Hv) as [Hd Hl]. destruct (finishes_ledger c d r d' Hc Hd Hf) as [Hd' Hl'].
  split; [done|]. intros a. rewrite Hl', Hl, ledger_snoc. lia.
Qed.
End Sequential.

(** C11: The peer table is linearizable.  Threads add and remove valid addresses, look them
    up, count and list them, their accesses interleaving in any way the mutex allows:
    some thread can always go on, every step leaves less to do, and when all calls have
    returned their answers and the table are those of the methods called one after the
    other in the order in which the calls took effect.  At every moment that order has
    all calls that have returned and none that was not made yet, so a call that returned
    before another was made comes before it.  In the end the table is a
    sorted set of valid addresses of at most [max_peers] elements, and the answers
    balance: an address is in the table exactly when the calls that reported to have
    added it are one more than those that reported to have removed it, and otherwise
    they are as many. *)
Theorem peers_linearizable {env : Env} {lib : AddressLib} (callback : PeerAddress -> eff Discovery PeerAddress ())
    (config : BootstrapConfig) (progs : list (list peer_call)) (h : list (nat * peer_call * peer_answer)) (m : machine) :
  Forall (Forall (fun c => call_ok c = true)) progs ->
  runs peer_enter peer_micro peer_shared (boot (PeerDiscovery_of config) progs) h m ->
  (all_done m = false -> exists e m', mstep peer_enter peer_micro peer_shared m e m')
  /\ (forall e m', mstep peer_enter peer_micro peer_shared m e m' -> (total_effort peer_enter peer_work m' < total_effort peer_enter peer_work m)%nat)
  /\ so_far h m
  /\ (all_done m = true -> peer_run callback (PeerDiscovery_of config) h (mem m)
      /\ (forall i t, threads m !! i = Some t -> calls_of i h = answers t /\ map fst (answers t) = default [] (progs !! i))
      /\ table_inv (mem m) /\ Z.of_nat (length (peers_ (mem m))) <= Z.max 0 (max_peers config)
      /\ forall a, ledger a h = if set_mem a (peers_ (mem m)) then 1 else 0).
Proof.
  intros Hv Hrun. destruct (locked_linearizable peer_enter peer_micro peer_shared (fun _ => false) ltac:(done) ltac:(done) _ _ _ _ Hrun) as (H1 & H2 & H3).
  split_and!; [done|intros e m'; apply step_works, peer_micro_works|done|]. intros Hd. destruct (H3 Hd) as (Hh & Hids & Hans).
  assert (Hok : Forall (fun e => call_ok (snd (fst e)) = true) h).
  { apply list.Forall_forall. intros [[k c] r] Hin. rewrite Forall_forall in Hids. destruct (Hids _ Hin) as [t Ht]. cbn [fst] in Ht.
    destruct (Hans k t Ht) as [Ek Hp]. rewrite <- calls_of_elem, Ek in Hin. apply (list_elem_of_fmap_2 fst) in Hin. change (fst <$> answers t) with (map fst (answers t)) in Hin.
    rewrite Hp in Hin. destruct (progs !! k) as [p|] eqn:Epk; cbn in Hin; [|by apply elem_of_nil in Hin].
    apply (Forall_lookup_1 _ _ _ _ Hv) in Epk. rewrite list.Forall_forall in Epk. by apply Epk. }
  destruct (peer_seq_method callback (PeerDiscovery_of config) h (mem m) eq_refl Hh Hok) as (Hrun' & _ & Hcfg).
  destruct (seq_ledger (PeerDiscovery_of config) h (mem m)) as [Ht Hl]; [|exact Hh|exact Hok|].
  { split; cbn; [constructor|constructor|lia]. }
  split_and!; [done|done|done| |].
  - destruct Ht as [_ _ Hb]. by rewrite Hcfg in Hb.
  - intros a. specialize (Hl a). unfold present in Hl. cbn in Hl. by rewrite Hl.
Qed.

(** Two threads report the same peer, one of them while the other is inside; the second
    is told that it is there already. *)
Definition demo_progs : list (list peer_call) := [[PAdd demo_peer]; [PAdd demo_peer; PCount]].
Definition demo_machine : @machine Discovery peer_call peer_answer peer_point :=
  schedule peer_enter peer_micro peer_shared [0; 0; 1; 1; 0; 0; 0; 0; 1; 1; 1; 1; 1; 1; 1; 1; 1; 1]%nat
    (boot (PeerDiscovery_of default_BootstrapConfig) demo_progs).

Lemma peers_linearizable_witness :
  exists h, @peer_run demo_disc_env demo_lib emit (PeerDiscovery_of default_BootstrapConfig) h (mem demo_machine)
    /\ calls_of 0 h = [(PAdd demo_peer, Flag true)] /\ calls_of 1 h = [(PAdd demo_peer, Flag false); (PCount, Number 1)] /\ ledger demo_peer h = 1.
Proof.
  destruct (schedule_runs peer_enter peer_micro peer_shared [0; 0; 1; 1; 0; 0; 0; 0; 1; 1; 1; 1; 1; 1; 1; 1; 1; 1]%nat
    (boot (PeerDiscovery_of default_BootstrapConfig) demo_progs)) as [h Hrun].
  destruct (@peers_linearizable demo_disc_env demo_lib emit default_BootstrapConfig demo_progs h demo_machine) as (_ & _ & _ & H);
    [repeat constructor; vm_compute; reflexivity|exact Hrun|].
  destruct (H ltac:(vm_compute; reflexivity)) as (Hh & Hc & _ & _ & Hl). exists h. split; [exact Hh|].
  split_and!; [refine (proj1 (Hc 0%nat (mkThread [] Outside [(PAdd demo_peer, Flag true)]) _))
    |refine (proj1 (Hc 1%nat (mkThread [] Outside [(PAdd demo_peer, Flag false); (PCount, Number 1)]) _))
    |rewrite (Hl demo_peer)]; vm_compute; reflexivity.
Defined.
