(* ===== verification/Programs.v ===== *)
(** * Programs: the executables built on the core module

    [main] of core/src/main.cpp (the program cppchain-core-test) and of
    core/examples/simple_error_example.cpp, and [DatabaseService] of
    core/examples/error_integration_guide.cpp.  A program is a computation on the text
    it has written, which survives an exception; what a program prints to std::cout
    and std::cerr is one text, in the order of the writes.  Random draws and the clock
    are arguments. *)

From stdpp Require Import base list gmap numbers strings.
From Stdlib Require Import ZArith Lia Ascii.
From S2P Require Import Prelude CString Floats Hash Address Amount Timestamp CoreText Transaction Block.
From S2P Require Import ErrorHandling ErrorRecovery Serialization Json HttpServer HttpProps JsonTable Logger CoreJson Effects.

Abbreviation program A := (act (list ascii) A) (only parsing).

(** [std::cout << s]. *)
Definition cout (s : cstr) : program () := aput (fun t => t ++ s).
Definition endl : cstr := [NL].
Definition cout_line (s : cstr) : program () := cout (s ++ endl).

(** ** cppchain-core-test *)

Section CoreMain.
Context {J : JsonLib}.

(** [dis i] are the bytes of the i-th random value. *)
Definition core_body (dis : nat -> nat -> Z) (now : Z) : program Z :=
  cout_line (endl ++ $"=== Testing Hash ===");;
  let hash := Hash.random (dis 0%nat) in
  cout_line ($"Generated hash: " ++ Hash.to_hex hash);;
  cout_line ($"Hash size: " ++ print_dec 32 ++ $" bytes");;
  cout_line (endl ++ $"=== Testing Address ===");;
  let addr := Address.random (dis 1%nat) in
  cout_line ($"Generated address: " ++ Address.to_hex addr);;
  cout_line ($"Address is valid: " ++ (if Address.is_valid addr then $"yes" else $"no"));;
  cout_line (endl ++ $"=== Testing Amount ===");;
  amount ← aof (Amount.from_ether (dlit 3 2));
  cout_line ($"Amount: " ++ Amount.to_string amount ++ $" ETH");;
  cout_line ($"Amount in wei: " ++ print_dec (wei amount));;
  cout_line (endl ++ $"=== Testing Timestamp ===");;
  time ← aof (now_timestamp now);
  cout_line ($"Current timestamp: " ++ Timestamp.to_string time);;
  iso ← aof (to_iso8601 time);
  cout_line ($"ISO8601: " ++ iso);;
  cout_line (endl ++ $"=== Testing Transaction ===");;
  let from := Address.random (dis 2%nat) in
  let to := Address.random (dis 3%nat) in
  tx_amount ← aof (Amount.from_ether (dlit 1 10));
  let tx := Transaction_of from to tx_amount in
  cout_line ($"Transaction: " ++ Transaction.to_string tx);;
  let '(tx_hash, tx) := Transaction.calculate_hash tx in
  cout_line ($"Transaction hash: " ++ Hash.to_hex tx_hash);;
  cout_line (endl ++ $"=== Testing Block ===");;
  genesis ← aof (create_genesis_block 1);
  let genesis := Block.add_transaction tx genesis in
  let '(text, genesis) := Block.to_string genesis in
  cout_line ($"Genesis block: " ++ text);;
  let '(block_hash, genesis) := Block.calculate_hash genesis in
  cout_line ($"Block hash: " ++ Hash.to_hex block_hash);;
  cout_line (endl ++ $"=== Testing JSON Serialization ===");;
  let '(tx_text, tx) := tx_to_json tx in
  tx_text ← aof tx_text;
  cout_line ($"Transaction JSON: " ++ tx_text);;
  '(block_text, genesis) ← aof (block_to_json genesis);
  cout_line ($"Block JSON: " ++ block_text);;
  cout_line (endl ++ $"✅ All core tests completed successfully!");;
  mret 0.

Definition core_main (dis : nat -> nat -> Z) (now : Z) : program Z :=
  cout_line $"ChainForge Core Test";;
  atry (core_body dis now) (fun e => cout_line ($"❌ Error: " ++ $(exn_what e));; mret 1).
End CoreMain.

(** ** simple-error-example *)

Section SimpleExample.
(** The text of a double ([operator<<]) is a parameter. *)
Context (print_double : double -> list ascii).

(** [failing_function]: its state is the number of attempts and the text. *)
Definition failing_function (s : Z * list ascii) : Result Z * (Z * list ascii) :=
  let '(attempt_count, text) := s in
  let attempt_count := attempt_count + 1 in
  let text := text ++ $"Attempt " ++ print_dec attempt_count ++ endl in
  (if attempt_count <? 3 then error_result TIMEOUT $"Temporary failure" [] else success 100, (attempt_count, text)).

(** Print the value or the error of a result. *)
Definition report (prefix_ok prefix_err : cstr) (r : Result Z) : program () :=
  match r with
  | Value v => cout_line (prefix_ok ++ print_dec v)
  | Unexpected e => cout_line (prefix_err ++ to_string e)
  end.

(** The ten simulated operations. *)
Fixpoint monitor (idx : list Z) (t : ErrorTracker) : outcome ErrorTracker :=
  match idx with
  | [] => Ret t
  | i :: idx' =>
      t ← (if i mod 3 =? 0 then record_error INVALID_ARGUMENT t else record_success t);
      monitor idx' t
  end.

Definition simple_main : program (Z * list Z) :=
  cout ($"=== Simple Error Handling Example ===" ++ endl ++ endl);;
  cout_line $"1. Basic Success and Error:";;
  let success_result := success 42 in
  (match success_result with Value v => cout_line ($"Success: " ++ print_dec v) | Unexpected _ => mret tt end);;
  let err := error_result (T := Z) INVALID_ARGUMENT $"Invalid input" [] in
  (match err with Value _ => mret tt | Unexpected e => cout_line ($"Error: " ++ to_string e) end);;
  cout_line (endl ++ $"2. Error with Context:");;
  let context_error := error_result (T := Z) FILE_NOT_FOUND $"File not found" $"config.yaml" in
  (match context_error with Value _ => mret tt | Unexpected e => cout_line ($"Context Error: " ++ to_string e) end);;
  cout_line (endl ++ $"3. Error Chaining:");;
  let original_error := error_result (T := Z) INVALID_ARGUMENT $"Original error" [] in
  let chained_error := chain_error original_error EXECUTION_ERROR $"Execution failed" in
  (match chained_error with Value _ => mret tt | Unexpected e => cout_line ($"Chained Error: " ++ chain_to_string e) end);;
  cout_line (endl ++ $"4. User-Friendly Messages:");;
  cout_line ($"Error code: " ++ error_code_to_string INVALID_ARGUMENT);;
  cout_line ($"User message: " ++ get_user_friendly_message INVALID_ARGUMENT);;
  cout_line (endl ++ $"5. Simple Retry Example:");;
  text ← aget (fun t => t);
  '(retry_result, (_, text), sleeps) ← aof (retry_with_backoff failing_function 5 100 (dlit 2 1) (0, text));
  aput (fun _ => text);;
  report $"Retry succeeded: " $"Retry failed: " retry_result;;
  cout_line (endl ++ $"6. Error Monitoring:");;
  tracker ← aof (monitor [0; 1; 2; 3; 4; 5; 6; 7; 8; 9] ErrorTracker_default);
  rate ← aof (get_error_rate tracker);
  cout_line ($"Error rate: " ++ print_double (dmul rate (dlit 100 1)) ++ $"%");;
  cout_line ($"Invalid argument errors: " ++ print_dec (get_error_count INVALID_ARGUMENT tracker));;
  cout_line (endl ++ $"=== Example Complete ===");;
  mret (0, sleeps).
End SimpleExample.

(** ** A program that returns *)

(** From every text, the program returns [a]. *)
Definition returns_with {A} (m : program A) (a : A) : Prop := forall s, exists s', m s = (Ret a, s').

Lemma returns_bind {A B} (m : program A) (f : A -> program B) a b :
  returns_with m a -> returns_with (f a) b -> returns_with (m ≫= f) b.
Proof.
  intros Hm Hf s. destruct (Hm s) as [s1 H1]. destruct (Hf s1) as [s2 H2]. exists s2. unfold mbind, act_bind. by rewrite H1.
Qed.
Lemma returns_cout {B} (t : cstr) (m : program B) b : returns_with m b -> returns_with (cout_line t;; m) b.
Proof. intros H. apply (returns_bind _ _ tt); [|done]. intros s. by eexists. Qed.
Lemma returns_of {A B} (o : outcome A) (f : A -> program B) a b : o = Ret a -> returns_with (f a) b -> returns_with (aof o ≫= f) b.
Proof. intros -> H. apply (returns_bind _ _ a); [|done]. intros s. by eexists. Qed.
Lemma returns_ret {A} (a : A) : returns_with (mret a) a.
Proof. intros s. by eexists. Qed.
Lemma returns_try {A} (m : program A) h a : returns_with m a -> returns_with (atry m h) a.
Proof. intros H s. destruct (H s) as [s' E]. exists s'. unfold atry. by rewrite E. Qed.

(** The objects of the program. *)
Definition main_tx (dis : nat -> nat -> Z) : Transaction :=
  snd (Transaction.calculate_hash (Transaction_of (Address.random (dis 2%nat)) (Address.random (dis 3%nat)) (mkAmount 100000000000000000))).
Definition main_genesis : Block :=
  match create_genesis_block 1 with Ret b => b | _ => Block_of 0 Hash.zero (mkTimestamp 0) end.
Definition main_block (dis : nat -> nat -> Z) : Block :=
  snd (Block.calculate_hash (snd (Block.to_string (Block.add_transaction (main_tx dis) main_genesis)))).

Lemma hash_tail {A} (tx : Transaction) (P : Hash -> Transaction -> A) :
  (let '(h, tx') := Transaction.calculate_hash tx in P h tx') = P (fst (Transaction.calculate_hash tx)) (snd (Transaction.calculate_hash tx)).
Proof. by destruct (Transaction.calculate_hash tx). Qed.

Lemma clock_timestamp now : 0 <= now < S64_MOD -> exists t iso, now_timestamp now = Ret t /\ to_iso8601 t = Ret iso.
Proof.
  intros Hn. assert (Hq : 0 <= Z.quot now 1000000000 /\ Z.quot now 1000000000 * 1000000000 <= now).
  { rewrite Z.quot_div_nonneg by lia. split; [apply Z.div_pos; lia|]. pose proof (Z.mul_div_le now 1000000000). lia. }
  assert (Hu : seconds_of_ns now = Z.quot now 1000000000) by (unfold seconds_of_ns; apply u64_small; unfold is_u64; lia).
  exists (mkTimestamp (Z.quot now 1000000000)). eexists. split.
  - unfold now_timestamp. rewrite Hu. apply timestamp_of_u64. unfold is_u64; lia.
  - unfold to_iso8601, to_time_point. cbn [seconds_].
    assert (Hs : s64 (Z.quot now 1000000000) = Z.quot now 1000000000)
      by (unfold s64; rewrite Z.mod_small; lia).
    rewrite Hs. replace ((- S64_MOD <=? _) && _) with true; [done|]. symmetry. apply andb_true_iff.
    rewrite Z.leb_le, Z.ltb_lt. lia.
Qed.

Section CoreRun.
Context {J : JsonLib} {Laws : JsonLaws J}.

Lemma block_document_returns b :
  is_u64 (timestamp (header_ b)) -> Forall tx_text_ok (transactions_ b) -> exists j b', block_document b = Ret (j, b').
Proof.
  intros Ht Hx. unfold block_document. rewrite Timestamp_of_seconds_ok by done. cbn [mbind outcome_bind].
  destruct (Block.calculate_hash b) as [h b'].
  destruct (assign_all_spec (block_members (header_ b) h) json_null (or_introl eq_refl)) as (j1 & E1 & _ & O1 & A1); [decide_now|].
  rewrite E1. cbn [mbind outcome_bind]. destruct (parse_transactions_spec _ Hx) as (vs & E2 & _). rewrite E2. cbn [mbind outcome_bind].
  destruct array_empty as [Ha _]. destruct (push_all_spec vs json_array Ha) as (txs & E3 & _). rewrite E3. cbn [mbind outcome_bind].
  destruct (assign_step $"transactions" txs j1) as (j & E4 & _); [by right; apply O1; left|]. rewrite E4. by do 2 eexists.
Qed.

Lemma main_tx_cached dis : snd (Transaction.calculate_hash (main_tx dis)) = main_tx dis.
Proof. unfold main_tx. generalize (Transaction_of (Address.random (dis 2%nat)) (Address.random (dis 3%nat)) (mkAmount 100000000000000000)) as tx.
  intros tx. unfold Transaction.calculate_hash. destruct (cached_hash_ tx) eqn:E; cbn; by rewrite ?E. Qed.

Lemma main_block_fields dis : transactions_ (main_block dis) = [main_tx dis] /\ timestamp (header_ (main_block dis)) = 1609459200.
Proof.
  unfold main_block, Block.to_string, Block.calculate_hash, calculate_hash_with, Block.add_transaction, update_merkle_root, calculate_merkle_root.
  change (transactions_ main_genesis ++ [main_tx dis]) with [main_tx dis]. cbn [transactions_ hash_transactions].
  pose proof (main_tx_cached dis) as E. destruct (Transaction.calculate_hash (main_tx dis)) as [h tx']. cbn [snd] in E. subst tx'.
  split; reflexivity.
Qed.

(** The core test program runs through: whatever random bytes it draws and
    whatever the clock says, as long as its nanosecond count is not negative and the
    JSON library reads back the text it printed for the transaction and prints the
    block's document, no operation throws and the exit code is 0. *)
Theorem core_main_succeeds (dis : nat -> nat -> Z) (now : Z) (text : list ascii) :
  0 <= now < S64_MOD -> tx_text_ok (main_tx dis) ->
  (forall j b', block_document (main_block dis) = Ret (j, b') -> exists s, json_dump2 j = Ret s) ->
  fst (core_main dis now text) = Ret 0.
Proof.
  intros Hn Htx Hdump. destruct (clock_timestamp now Hn) as (t & iso & Ht & Hiso).
  destruct (main_block_fields dis) as [Hbt Hbs].
  destruct (block_document_returns (main_block dis)) as (j & b' & Hdoc);
    [rewrite Hbs; unfold is_u64; cbn; lia|rewrite Hbt; by constructor|]. destruct (Hdump j b' Hdoc) as [bs Hbj].
  destruct (tx_document_spec (main_tx dis)) as (tj & Htj & _). destruct (Htx tj Htj) as (ts & Hts & _).
  enough (H : returns_with (core_main dis now) 0) by (by destruct (H text) as [s' ->]).
  unfold core_main. apply returns_cout, returns_try. unfold core_body. do 7 apply returns_cout.
  apply (returns_of _ _ (mkAmount 1500000000000000000)); [vm_compute; reflexivity|]. do 3 apply returns_cout.
  apply (returns_of _ _ t _ Ht), returns_cout, (returns_of _ _ iso _ Hiso). do 2 apply returns_cout.
  apply (returns_of _ _ (mkAmount 100000000000000000)); [vm_compute; reflexivity|]. apply returns_cout. rewrite hash_tail. do 2 apply returns_cout.
  apply (returns_of _ _ main_genesis); [vm_compute; reflexivity|]. fold (main_tx dis).
  destruct (Block.to_string (Block.add_transaction (main_tx dis) main_genesis)) as [btext b1] eqn:E1. apply returns_cout.
  destruct (Block.calculate_hash b1) as [bh b2] eqn:E2. do 2 apply returns_cout.
  assert (Eb : b2 = main_block dis) by (unfold main_block; rewrite E1; cbn [snd]; by rewrite E2). subst b2.
  unfold tx_to_json. destruct (tx_document (main_tx dis)) as [otj tx1]. cbn [fst] in Htj. subst otj. cbn [mbind outcome_bind].
  apply (returns_of _ _ ts _ Hts), returns_cout.
  apply (returns_of _ _ (bs, b')); [unfold block_to_json; rewrite Hdoc; cbn [mbind outcome_bind]; by rewrite Hbj|].
  do 2 apply returns_cout. apply returns_ret.
Qed.
End CoreRun.

Definition core_demo_tx : jval := match fst (tx_document (J := table_json []) (main_tx (fun _ _ => 17))) with Ret j => j | _ => JNull end.
Definition core_demo_docs : list (cstr * jval) := [(jtext core_demo_tx, core_demo_tx)].

Lemma core_main_succeeds_witness : fst (core_main (J := table_json core_demo_docs) (fun _ _ => 17) 1700000000000000000 []) = Ret 0.
Proof.
  apply (core_main_succeeds (J := table_json core_demo_docs) (fun _ _ => 17) 1700000000000000000 []); [lia| |].
  - intros j Hj. exists (jtext core_demo_tx). assert (Hd : j = core_demo_tx) by (injection Hj as <-; reflexivity).
    subst j. split; vm_compute; reflexivity.
  - intros j b' _. by eexists.
Defined.

(** What the programs print.  One and a half ether are shown as 1.000000003551657984:
    the fraction is cut to 32 bits. *)
Example core_main_amount :
  Amount.from_ether (dlit 3 2) ≫= (fun a => Ret (Amount.to_string a)) = Ret $"1.000000003551657984".
Proof. reflexivity. Qed.

(** The example retries twice, after 100 and 200 milliseconds, and succeeds at the
    third attempt; 4 of its 10 simulated operations fail. *)
Example simple_main_output :
  simple_main (fun rate => if SFeqb rate (d_of_Z 40) then $"40" else $"?") [] = (Ret (0, [100; 200]),
    concat (map (fun s => s ++ endl) [
      $"=== Simple Error Handling Example ==="; [];
      $"1. Basic Success and Error:"; $"Success: 42"; $"Error: Error 1001: Invalid input"; [];
      $"2. Error with Context:"; $"Context Error: Error 2001: File not found (Context: config.yaml)"; [];
      $"3. Error Chaining:"; $"Chained Error: Error 7000: Execution failed"; $"Caused by: Error 1001: Original error"; [];
      $"4. User-Friendly Messages:"; $"Error code: INVALID_ARGUMENT"; $"User message: Invalid argument provided"; [];
      $"5. Simple Retry Example:"; $"Attempt 1"; $"Attempt 2"; $"Attempt 3"; $"Retry succeeded: 100"; [];
      $"6. Error Monitoring:"; $"Error rate: 40%"; $"Invalid argument errors: 4"; [];
      $"=== Example Complete ==="])).
Proof. vm_compute. reflexivity. Qed.

(** ** DatabaseService *)

(** What the body of [get_user_data] tells the tracker. *)
Inductive tracker_event : Type := TrackError (c : ErrorCode) | TrackSuccess.
Definition track (t : ErrorTracker) (e : tracker_event) : outcome ErrorTracker :=
  match e with TrackError c => record_error c t | TrackSuccess => record_success t end.
Fixpoint track_all (t : ErrorTracker) (l : list tracker_event) : outcome ErrorTracker :=
  match l with [] => Ret t | e :: l' => t' ← track t e; track_all t' l' end.

Record DatabaseService : Type := mkDatabaseService { circuit_breaker_ : CircuitBreaker; error_tracker_ : ErrorTracker }.
Definition DatabaseService_new (now : Z) : DatabaseService := mkDatabaseService (CircuitBreaker_of 3 30000 now) ErrorTracker_default.

(** The lambda of [get_user_data]. *)
Definition user_query (user_id : cstr) : Result cstr * tracker_event :=
  if decide (user_id = []) then (error_result INVALID_ARGUMENT $"User ID cannot be empty" [], TrackError INVALID_ARGUMENT)
  else if decide (user_id = $"nonexistent") then (error_result KEY_NOT_FOUND $"User not found" [], TrackError KEY_NOT_FOUND)
  else if decide (user_id = $"db_error") then (error_result DATABASE_ERROR $"Database connection failed" [], TrackError DATABASE_ERROR)
  else (success ($"User data for " ++ user_id), TrackSuccess).

Section Service.
Context {env : Env}.

(** The breaker runs the body; the tracker, which has a mutex of its own, takes the
    events the body raised. *)
Definition get_user_data (user_id : cstr) : eff DatabaseService () (Result cstr) := fun w =>
  match execute (let '(r, e) := user_query user_id in emit e;; mret (inr r)) (mkWorld (circuit_breaker_ (obj w)) [] (ticks w) []) with
  | Ret (inl e, _) => Throw e
  | Ret (inr r, w1) =>
      t ← track_all (error_tracker_ (obj w)) (log w1);
      Ret (r, mkWorld (mkDatabaseService (obj w1) t) (held w) (ticks w1) (log w))
  | Throw e => Throw e
  | Undefined => Undefined
  end.
Definition service_error_rate (s : DatabaseService) : outcome double := get_error_rate (error_tracker_ s).

Fixpoint serve (ids : list cstr) (w : world DatabaseService ()) : outcome (list (Result cstr) * world DatabaseService ()) :=
  match ids with
  | [] => Ret ([], w)
  | u :: ids' => '(r, w1) ← get_user_data u w; '(rs, w2) ← serve ids' w1; Ret (r :: rs, w2)
  end.

Definition fails (user_id : cstr) : bool := negb (has_value (fst (user_query user_id))).

Definition open_breaker (last : Z) : CircuitBreaker := mkCircuitBreaker 3 30000000000 3 last OPEN.
Lemma refused_call last u w :
  circuit_breaker_ (obj w) = open_breaker last -> clock (ticks w) - last < 30000000000 ->
  get_user_data u w = Ret (Unexpected breaker_open, mkWorld (obj w) (held w) (S (ticks w)) (log w)).
Proof.
  intros Hb Ht. unfold get_user_data. rewrite Hb. unfold execute, with_lock, mbind, eff_bind, get, read_clock, modify, mret, eff_ret.
  cbn [held obj ticks log]. destruct w as [[b t] hs tk lg]. cbn [obj circuit_breaker_ error_tracker_ held ticks log] in *. subst b.
  destruct on_relock; cbn [open_breaker state_ timeout_ last_failure_time_]; (rewrite decide_True by done);
    cbn [obj held ticks log]; (destruct (Z.leb_spec 30000000000 (clock tk - last)); [lia|]); reflexivity.
Qed.

Lemma open_serves last ids w :
  circuit_breaker_ (obj w) = open_breaker last -> (forall n, (ticks w <= n < ticks w + length ids)%nat -> clock n - last < 30000000000) ->
  serve ids w = Ret (replicate (length ids) (Unexpected breaker_open), mkWorld (obj w) (held w) (ticks w + length ids) (log w)).
Proof.
  revert w. induction ids as [|u ids IH]; intros w Hb Ht; cbn [serve length replicate].
  { rewrite Nat.add_0_r. by destruct w. }
  rewrite (refused_call last) by (done || apply Ht; cbn; lia). cbn [mbind outcome_bind].
  rewrite IH by (done || (intros n Hn; cbn in Hn |- *; apply Ht; cbn; lia)). cbn [mbind outcome_bind obj held ticks log]. do 3 f_equal. lia.
Qed.

Lemma empty_tracker_count c : get_error_count c ErrorTracker_default = 0.
Proof. unfold get_error_count. cbn [ErrorTracker_default error_counts_]. by rewrite lookup_empty. Qed.

(** A call that fails while the breaker is closed. *)
Lemma failing_call n last u t w :
  fails u = true -> 0 <= n < 3 -> obj w = mkDatabaseService (mkCircuitBreaker 3 30000000000 n last CLOSED) t ->
  (forall c, 0 <= get_error_count c t < 100) -> 0 <= total_errors_ t < 100 ->
  exists t', get_user_data u w = Ret (fst (user_query u),
      mkWorld (mkDatabaseService (mkCircuitBreaker 3 30000000000 (n + 1) (clock (ticks w)) (if 3 <=? n + 1 then OPEN else CLOSED)) t')
        (held w) (S (ticks w)) (log w))
    /\ (forall c, get_error_count c t <= get_error_count c t' <= get_error_count c t + 1) /\ total_errors_ t' = total_errors_ t + 1 /\ total_successes_ t' = total_successes_ t.
Proof.
  intros Hf Hn Hw Hc Ht. destruct w as [s hs tk lg]. cbn [obj] in Hw. subst s.
  assert (Hq : exists e c, user_query u = (Unexpected e, TrackError c)).
  { unfold fails, user_query in *. repeat case_decide; cbn in *; try done; by do 2 eexists. }
  destruct Hq as (e & c & Hq).
  assert (Hrec : exists t', record_error c t = Ret t' /\ (forall d, get_error_count d t <= get_error_count d t' <= get_error_count d t + 1)
    /\ total_errors_ t' = total_errors_ t + 1 /\ total_successes_ t' = total_successes_ t).
  { unfold record_error, int_incr. fold (get_error_count c t). specialize (Hc c) as Hcc.
    rewrite (proj2 (Z.ltb_lt (get_error_count c t) 2147483647)), (proj2 (Z.ltb_lt (total_errors_ t) 2147483647)) by lia. cbn [mbind outcome_bind].
    eexists. split; [reflexivity|]. split_and!; [|done|done]. intros d. unfold get_error_count in *. cbn [error_counts_].
    destruct (decide (d = c)) as [->|]; rewrite ?lookup_insert_eq, ?lookup_insert_ne by congruence; cbn [default id]; lia. }
  destruct Hrec as (t' & Hrec & Hprops). exists t'. split; [|done]. unfold get_user_data. rewrite Hq.
  unfold execute, with_lock, mbind, eff_bind, get, read_clock, modify, emit, mret, eff_ret. cbn [held obj ticks log circuit_breaker_ error_tracker_].
  assert (Hs : s32 (n + 1) = n + 1) by (apply s32_small; lia).
  destruct on_relock; (rewrite decide_False by done);
    cbn [has_value on_failure failure_threshold_ timeout_ failure_count_ last_failure_time_ state_ app track_all track obj held ticks log mbind outcome_bind];
    rewrite Hrec; unfold on_failure; cbn; by rewrite Hs.
Qed.
(** The database service fails fast.  When its first calls fail, three of them run
    and are recorded with their own errors; every further call is refused by the
    breaker, even one that would succeed, for as long as less than 30 seconds have
    passed since the third failure, and neither the breaker nor the tracker changes:
    the error rate stays that of the three calls. *)
Theorem service_fails_fast (now : Z) (u1 u2 u3 : cstr) (ids : list cstr) :
  fails u1 = true -> fails u2 = true -> fails u3 = true ->
  (forall n, (3 <= n < 3 + length ids)%nat -> clock n - clock 2 < 30000000000) ->
  exists w, serve (u1 :: u2 :: u3 :: ids) (idle (DatabaseService_new now))
      = Ret (map (fun u => fst (user_query u)) [u1; u2; u3] ++ replicate (length ids) (Unexpected breaker_open), w)
    /\ circuit_breaker_ (obj w) = open_breaker (clock 2)
    /\ total_errors_ (error_tracker_ (obj w)) = 3 /\ service_error_rate (obj w) = Ret (d_of_Z 1).
Proof.
  intros F1 F2 F3 Hclk.
  set (st := fun n last s t tk => mkWorld (mkDatabaseService (mkCircuitBreaker 3 30000000000 n last s) t) [] tk (@nil ())).
  destruct (failing_call 0 now u1 ErrorTracker_default (idle (DatabaseService_new now)) F1) as (t1 & E1 & C1 & T1 & S1); [lia|done| |cbn; lia|].
  { intros c. rewrite empty_tracker_count. lia. }
  assert (B1 : forall c, 0 <= get_error_count c t1 <= 1).
  { intros c. specialize (C1 c). rewrite empty_tracker_count in C1. lia. }
  cbn in T1, S1. destruct (failing_call 1 (clock 0) u2 t1 (st 1 (clock 0) CLOSED t1 1%nat) F2 ltac:(lia) eq_refl) as (t2 & E2 & C2 & T2 & S2);
    [intros c; specialize (B1 c); lia|lia|].
  destruct (failing_call 2 (clock 1) u3 t2 (st 2 (clock 1) CLOSED t2 2%nat) F3 ltac:(lia) eq_refl) as (t3 & E3 & C3 & T3 & S3);
    [intros c; specialize (B1 c); specialize (C2 c); lia|lia|].
  eexists. split; [|split_and!].
  - change (get_user_data u1 (idle (DatabaseService_new now)) = Ret (fst (user_query u1), st 1 (clock 0) CLOSED t1 1%nat)) in E1.
    change (get_user_data u2 (st 1 (clock 0) CLOSED t1 1%nat) = Ret (fst (user_query u2), st 2 (clock 1) CLOSED t2 2%nat)) in E2.
    change (get_user_data u3 (st 2 (clock 1) CLOSED t2 2%nat) = Ret (fst (user_query u3), st 3 (clock 2) OPEN t3 3%nat)) in E3.
    cbn [serve]. rewrite E1. cbn [mbind outcome_bind]. rewrite E2. cbn [mbind outcome_bind]. rewrite E3. cbn [mbind outcome_bind]. rewrite (open_serves (clock 2)); [reflexivity|done|]. cbn. intros n Hn. apply Hclk. lia.
  - done.
  - cbn. lia.
  - unfold service_error_rate, get_error_rate. cbn [obj error_tracker_ st]. rewrite T3, S3, T2, S2, T1, S1. reflexivity.
Qed.
End Service.

Lemma service_fails_fast_witness :
  exists w, @serve (std_env (fun n => Z.of_nat n)) [$"db_error"; []; $"nonexistent"; $"alice"] (idle (DatabaseService_new 0))
    = Ret (map (fun u => fst (user_query u)) [$"db_error"; []; $"nonexistent"] ++ [Unexpected breaker_open], w)
    /\ service_error_rate (obj w) = Ret (d_of_Z 1).
Proof.
  destruct (@service_fails_fast (std_env (fun n => Z.of_nat n)) 0 $"db_error" [] $"nonexistent" [$"alice"]) as (w & H1 & _ & _ & H2);
    [reflexivity|reflexivity|reflexivity|intros n Hn; cbn in Hn |- *; lia|].
  exists w. split; [exact H1|exact H2].
Defined.
