(* ===== verification/ErrorExamples.v ===== *)
(** * ErrorExamples: the functions of core/examples/error_handling_example.cpp, and
    the migrated operations of core/examples/error_integration_guide.cpp

    Where the example writes [errors::error] without a type argument the result has
    the type its function declares.  The random numbers (between 1 and 10) are
    parameters, one sequence per function that draws; the n-th call of such a function
    makes the n-th draw. *)

From stdpp Require Import base list gmap numbers strings.
From Stdlib Require Import ZArith Lia Ascii.
From S2P Require Import Prelude CString Floats ErrorHandling ErrorRecovery Effects HttpServer Logger Programs.

(** ** error_handling_example.cpp *)

Section Example.
Context (dis dis' : nat -> Z).

Definition risky_operation (input : Z) (n : nat) : Result Z * nat :=
  (if dis n <=? 3 then error_result INVALID_ARGUMENT $"Random failure occurred" [] else success (input * 2), S n).

(** What the thread of [with_timeout] does: it ends after [took] milliseconds. *)
Definition slow_operation (took : Z) : option (Z * outcome (Result cstr)) :=
  Some (took, Ret (success $"Operation completed")).

Definition unreliable_service (n : nat) : Result bool :=
  if dis' n <=? 7 then error_result SERVICE_UNAVAILABLE $"Service is down" [] else success true.

Definition operation_a (n : nat) : Result Z * nat :=
  let '(result, n) := risky_operation 5 n in
  (if negb (has_value result) then chain_error result EXECUTION_ERROR $"Operation A failed" else result, n).

Definition operation_b (n : nat) : Result Z * nat :=
  let '(result, n) := operation_a n in
  (if negb (has_value result) then add_context result $"in operation_b" else result, n).

Definition retry_example (n : nat) : outcome (Result Z * nat * list Z) :=
  retry_with_backoff (risky_operation 10) 3 100 (dlit 2 1) n.

Section Breaker.
Context {env : Env}.

(** One call of the loop: the breaker runs the service, which makes the next draw. *)
Definition guarded_call (w : world CircuitBreaker ()) : outcome (Result bool * world CircuitBreaker ()) :=
  '(called, w) ← execute (emit tt;; mret (inr (unreliable_service (length (Effects.log w))))) w;
  match called with inl e => Throw e | inr result => Ret (result, w) end.

Definition call_text (i : Z) (result : Result bool) : cstr :=
  match result with
  | Value _ => $"Service call " ++ print_int i ++ $" succeeded" ++ endl
  | Unexpected e => $"Service call " ++ print_int i ++ $" failed: " ++ to_string e ++ endl
  end.

Fixpoint call_loop (idx : list Z) (text : cstr) (w : world CircuitBreaker ()) : outcome (cstr * list (Result bool) * world CircuitBreaker ()) :=
  match idx with
  | [] => Ret (text, [], w)
  | i :: idx' =>
      '(result, w) ← guarded_call w;
      '(text, rs, w) ← call_loop idx' (text ++ call_text i result) w;
      Ret (text, result :: rs, w)
  end.
Definition circuit_breaker_example (now : Z) (text : cstr) : outcome (cstr * list (Result bool) * world CircuitBreaker ()) :=
  call_loop [0; 1; 2; 3; 4; 5; 6; 7; 8; 9] text (idle (CircuitBreaker_of 3 5000 now)).
End Breaker.

(** [took1] and [took2] are how long the two threads run, at least the second they
    sleep. *)
Definition timeout_text (k : cstr) (r : Result cstr) : cstr :=
  match r with
  | Value v => $"Timeout test " ++ k ++ $" succeeded: " ++ v ++ endl
  | Unexpected e => $"Timeout test " ++ k ++ $" failed: " ++ to_string e ++ endl
  end.
Definition timeout_example (took1 took2 : Z) (text : cstr) : option (outcome cstr * Z) :=
  match with_timeout 2000 (slow_operation took1), with_timeout 500 (slow_operation took2) with
  | Some (r1, t1), Some (r2, t2) =>
      Some (r1 ← r1; r2 ← r2; Ret (text ++ timeout_text $"1" r1 ++ timeout_text $"2" r2), t1 + t2)
  | _, _ => None
  end.

Context (print_double : double -> list ascii).

Fixpoint observe_calls (idx : list Z) (n : nat) (t : ErrorTracker) : outcome (nat * ErrorTracker) :=
  match idx with
  | [] => Ret (n, t)
  | i :: idx' =>
      let '(result, n) := risky_operation i n in
      t ← match result with Value _ => record_success t | Unexpected e => record_error (code e) t end;
      observe_calls idx' n t
  end.
Definition monitoring_example (n : nat) (text : cstr) : outcome (cstr * nat) :=
  '(n, tracker) ← observe_calls (map Z.of_nat (seq 0 100)) n ErrorTracker_default;
  rate ← get_error_rate tracker;
  Ret (text ++ $"Error rate: " ++ print_double (dmul rate (dlit 100 1)) ++ $"%" ++ endl
         ++ $"Invalid argument errors: " ++ print_int (get_error_count INVALID_ARGUMENT tracker) ++ endl, n).
End Example.

Definition primary_service : Result cstr := error_result SERVICE_UNAVAILABLE $"Primary service down" [].
Definition secondary_service : Result cstr := error_result SERVICE_UNAVAILABLE $"Secondary service down" [].
Definition tertiary_service : Result cstr := success $"Tertiary service working".

(** ** error_integration_guide.cpp *)

Definition hash_data_new (data : list Z) : Result (list Z) :=
  match data with
  | [] => error_result INVALID_ARGUMENT $"Data cannot be empty" []
  | _ => success (replicate 32 66)
  end.

Definition verify_signature_new (data signature public_key : list Z) : Result bool :=
  if bool_decide (data = []) || bool_decide (signature = []) || bool_decide (public_key = [])
  then error_result INVALID_ARGUMENT $"Invalid input parameters" []
  else if Z.of_nat (length signature) <? 32 then error_result INVALID_SIGNATURE $"Signature too short" []
  else success true.

Definition send_message_new (peer_id : cstr) (message : list Z) : Result () :=
  if bool_decide (peer_id = []) then error_result INVALID_ARGUMENT $"Peer ID cannot be empty" []
  else if bool_decide (message = []) then error_result INVALID_ARGUMENT $"Message cannot be empty" []
  else if 1024 * 1024 <? Z.of_nat (length message) then error_result MESSAGE_TOO_LARGE $"Message exceeds size limit" []
  else if bool_decide (peer_id = $"unreachable") then error_result CONNECTION_REFUSED $"Cannot connect to peer" []
  else success tt.

(** ** Lemmas *)

Section BreakerRun.
Context (dis' : nat -> Z) {env : Env}.

(** The n-th draw makes the service fail. *)
Definition down (n : nat) : bool := negb (has_value (unreliable_service dis' n)).
Definition breaker_at (count last : Z) (s : BreakerState) : CircuitBreaker := mkCircuitBreaker 3 5000000000 count last s.

Lemma closed_call count last tk lg :
  0 <= count < 3 ->
  guarded_call dis' (mkWorld (breaker_at count last CLOSED) [] tk lg)
  = Ret (unreliable_service dis' (length lg),
      if down (length lg)
      then mkWorld (breaker_at (count + 1) (clock tk) (if 3 <=? count + 1 then OPEN else CLOSED)) [] (S tk) (lg ++ [tt])
      else mkWorld (breaker_at 0 last CLOSED) [] tk (lg ++ [tt])).
Proof.
  intros Hc. unfold guarded_call, execute, with_lock, mbind, outcome_bind, eff_bind, get, emit, modify, read_clock, mret, eff_ret, down.
  cbn [held obj ticks Effects.log]. assert (Hs : s32 (count + 1) = count + 1) by (apply s32_small; lia).
  destruct on_relock; rewrite decide_False by done; cbn [held obj ticks Effects.log];
    destruct (has_value (unreliable_service dis' (length lg))); cbn; unfold on_failure, breaker_at; cbn; by rewrite ?Hs.
Qed.

Lemma open_call count last tk lg :
  clock tk - last < 5000000000 ->
  guarded_call dis' (mkWorld (breaker_at count last OPEN) [] tk lg)
  = Ret (Unexpected breaker_open, mkWorld (breaker_at count last OPEN) [] (S tk) lg).
Proof.
  intros Ht. unfold guarded_call, execute, with_lock, mbind, outcome_bind, eff_bind, get, emit, modify, read_clock, mret, eff_ret.
  cbn [held obj ticks Effects.log]. destruct on_relock; rewrite decide_True by done; cbn [held obj ticks Effects.log breaker_at timeout_ last_failure_time_];
    (destruct (Z.leb_spec 5000000000 (clock tk - last)); [lia|]); reflexivity.
Qed.

Lemma open_loop idx count last tk lg text :
  (forall i, (tk <= i < tk + length idx)%nat -> clock i - last < 5000000000) ->
  exists text' w', call_loop dis' idx text (mkWorld (breaker_at count last OPEN) [] tk lg)
    = Ret (text', replicate (length idx) (Unexpected breaker_open), w') /\ Effects.log w' = lg.
Proof.
  revert tk text. induction idx as [|i idx IH]; intros tk text Hc; [by do 2 eexists|]. cbn [call_loop]. rewrite open_call by (apply Hc; cbn; lia).
  cbn [mbind outcome_bind]. destruct (IH (S tk) (text ++ call_text i (Unexpected breaker_open))) as (text' & w' & E & Hl); [intros j Hj; apply Hc; cbn; lia|].
  rewrite E. by do 2 eexists.
Qed.

(** What a run from a closed breaker does: [streak] failures have just happened,
    [length lg] draws have been made. *)
Definition run_shape (from streak : nat) (left : nat) (rs : list (Result bool)) (draws : nat) : Prop :=
  exists k, (k <= left)%nat /\ draws = (from + k)%nat
    /\ rs = map (unreliable_service dis') (seq from k) ++ replicate (left - k) (Unexpected breaker_open)
    /\ (forall i, (from - streak <= i)%nat -> (i + 3 < from + k)%nat -> down i && down (i + 1) && down (i + 2) = false)
    /\ ((k < left)%nat -> (3 <= streak + k)%nat /\ forall i, (from + k - 3 <= i < from + k)%nat -> down i = true).

Lemma run_shape_step from streak left rs draws :
  (streak < 3)%nat -> (streak <= from)%nat ->
  run_shape (S from) (if down from then S streak else 0) left rs draws ->
  run_shape from streak (S left) (unreliable_service dis' from :: rs) draws.
Proof.
  intros Hs Hf (k & Hk & -> & -> & Hno & Hlast). exists (S k). split_and!; [lia|lia|done| |].
  - intros i Hi Hi3. destruct (decide (S from <= i)%nat); [apply Hno; [destruct (down from)|]; lia|].
    destruct (down from) eqn:Ed; [apply Hno; lia|].
    assert (Hin : (i = from \/ i + 1 = from \/ i + 2 = from)%nat) by lia.
    destruct Hin as [<-|[<-|<-]]; rewrite Ed; by rewrite ?andb_false_r.
  - intros Hlt. destruct Hlast as [H1 H2]; [lia|]. split; [destruct (down from); lia|]. intros i Hi. apply H2. lia.
Qed.

Lemma closed_loop idx streak last tk lg text :
  (streak < 3)%nat -> (streak <= length lg)%nat -> (forall i, (length lg - streak <= i < length lg)%nat -> down i = true) ->
  (forall i j, (i <= j <= tk + length idx)%nat -> clock j - clock i < 5000000000) ->
  exists text' rs w', call_loop dis' idx text (mkWorld (breaker_at (Z.of_nat streak) last CLOSED) [] tk lg) = Ret (text', rs, w')
    /\ run_shape (length lg) streak (length idx) rs (length (Effects.log w')).
Proof.
  revert streak last tk lg text. induction idx as [|i idx IH]; intros streak last tk lg text Hs Hl Hd Hc.
  { do 3 eexists. split; [done|]. exists 0%nat. split_and!; [done|cbn; lia|done|lia|cbn; lia]. }
  cbn [call_loop]. rewrite closed_call by lia. cbn [mbind outcome_bind].
  set (r := unreliable_service dis' (length lg)). set (text1 := text ++ call_text i r).
  assert (Hlen : length (lg ++ [tt]) = S (length lg)) by (rewrite length_app; cbn; lia).
  destruct (down (length lg)) eqn:Ed.
  - destruct (decide (streak = 2%nat)) as [->|Hne].
    + destruct (open_loop idx 3 (clock tk) (S tk) (lg ++ [tt]) text1) as (text' & w' & E & Hlog); [intros j Hj; apply Hc; cbn; lia|].
      change (Z.of_nat 2 + 1) with 3. change (3 <=? 3) with true. cbn iota. rewrite E. cbn [mbind outcome_bind]. do 3 eexists. split; [done|].
      rewrite Hlog, Hlen. exists 1%nat. split_and!; [cbn; lia|lia| |lia|].
      * cbn. by rewrite Nat.sub_0_r.
      * intros _. split; [lia|]. intros j Hj. destruct (decide (j = length lg)) as [->|]; [done|]. apply Hd. lia.
    + rewrite (proj2 (Z.leb_gt 3 _)) by lia. replace (Z.of_nat streak + 1) with (Z.of_nat (S streak)) by lia.
      destruct (IH (S streak) (clock tk) (S tk) (lg ++ [tt]) text1) as (text' & rs & w' & E & Hsh); [lia|lia| |intros; apply Hc; cbn; lia|].
      { intros j Hj. destruct (decide (j = length lg)) as [->|]; [done|]. apply Hd. lia. }
      rewrite E. cbn [mbind outcome_bind]. do 3 eexists. split; [done|]. apply run_shape_step; [done|done|]. by rewrite Ed, <- Hlen.
  - destruct (IH 0%nat last tk (lg ++ [tt]) text1) as (text' & rs & w' & E & Hsh); [lia|lia|lia|intros; apply Hc; cbn; lia|].
    change (Z.of_nat 0) with 0 in E. rewrite E. cbn [mbind outcome_bind]. do 3 eexists. split; [done|]. apply run_shape_step; [done|done|]. by rewrite Ed, <- Hlen.
Qed.
End BreakerRun.

(** The loop of the circuit breaker example.  As long as its ten calls take less than
    five seconds, the service is called until it has failed three times in a row and
    never again: the answers are those of the service for the first [k] draws, and the
    breaker's refusal for the rest. *)
Theorem breaker_example_stops {env : Env} (dis' : nat -> Z) (now : Z) (text : cstr) :
  (forall i j, (i <= j <= 10)%nat -> clock j - clock i < 5000000000) ->
  exists text' rs w k, circuit_breaker_example dis' now text = Ret (text', rs, w) /\ (k <= 10)%nat /\ length (Effects.log w) = k
    /\ rs = map (unreliable_service dis') (seq 0 k) ++ replicate (10 - k) (Unexpected breaker_open)
    /\ (forall i, (i + 3 < k)%nat -> down dis' i && down dis' (i + 1) && down dis' (i + 2) = false)
    /\ ((k < 10)%nat -> (3 <= k)%nat /\ forall i, (k - 3 <= i < k)%nat -> down dis' i = true).
Proof.
  intros Hc. unfold circuit_breaker_example.
  destruct (closed_loop dis' [0; 1; 2; 3; 4; 5; 6; 7; 8; 9] 0 now 0 [] text) as (text' & rs & w & E & k & H1 & H2 & H3 & H4 & H5); [lia|done|cbn; lia|exact Hc|].
  exists text', rs, w, k. split_and!; [exact E|exact H1|exact H2|exact H3|intros i Hi; apply H4; cbn; lia|exact H5].
Qed.

Lemma breaker_example_stops_witness :
  exists text' rs w, @circuit_breaker_example (fun n => if decide (n = 1%nat) then 9 else 5) (std_env (fun n => 400000000 * Z.of_nat n)) 0 [] = Ret (text', rs, w)
    /\ length (Effects.log w) = 5%nat.
Proof.
  destruct (@breaker_example_stops (std_env (fun n => 400000000 * Z.of_nat n)) (fun n => if decide (n = 1%nat) then 9 else 5) 0 [])
    as (text' & rs & w & k & E & _); [intros i j Hij; cbn; lia|].
  exists text', rs, w. split; [exact E|]. vm_compute in E. injection E as _ _ <-. reflexivity.
Defined.

(** The other examples.  A failure of [risky_operation] reaches the caller of
    [operation_b] with the code and message of [operation_a] and without its cause;
    the second time-out test reports a time-out and yet lasts as long as its thread;
    three draws of at most 3 make the retries give up after 100 and 200 ms. *)
Lemma operation_b_error dis n :
  fst (operation_b dis n) = if dis n <=? 3 then Unexpected (mkErrorInfo EXECUTION_ERROR $"Operation A failed" $" -> in operation_b" [] 0 None) else success 10.
Proof. unfold operation_b, operation_a, risky_operation. by destruct (dis n <=? 3). Qed.

Lemma timeout_example_text took1 took2 :
  took1 <= 2000 -> 500 < took2 ->
  timeout_example took1 took2 [] = Some (Ret ($"Timeout test 1 succeeded: Operation completed" ++ endl
    ++ $"Timeout test 2 failed: Error 1004: Operation timed out" ++ endl), took1 + took2).
Proof.
  intros H1 H2. unfold timeout_example, with_timeout, slow_operation.
  rewrite (proj2 (Z.ltb_ge 2000 took1)), (proj2 (Z.ltb_lt 500 took2)) by lia. vm_compute. reflexivity.
Qed.

Lemma retry_example_run dis n :
  exists k, (k < 3)%nat /\ retry_example dis n =
    Ret (if forallb (fun i => dis (n + i)%nat <=? 3) [0; 1; 2]%nat then Unexpected retry_failure else success 20, (n + S k)%nat, firstn k [100; 200]).
Proof.
  unfold retry_example, retry_with_backoff. change (Z.to_nat 3) with 3%nat. cbn [retry_loop risky_operation forallb].
  rewrite Nat.add_0_r, Nat.add_1_r. replace (n + 2)%nat with (S (S n)) by lia.
  assert (E2 : forall k, backoff_pause (dlit 2 1) k 200 = Ret (200, 400)) by reflexivity.
  destruct (dis n <=? 3); cbn [has_value error_result success andb]; [|exists 0%nat; split; [lia|]; by rewrite Nat.add_1_r].
  change (backoff_pause (dlit 2 1) 0 100) with (Ret (100, 200)). cbn [mbind outcome_bind].
  destruct (dis (S n) <=? 3); cbn [has_value error_result success andb];
    [rewrite E2; cbn [mbind outcome_bind]|exists 1%nat; split; [lia|]; replace (n + 2)%nat with (S (S n)) by lia; reflexivity].
  destruct (dis (S (S n)) <=? 3); exists 2%nat; (split; [lia|]); replace (n + 3)%nat with (S (S (S n))) by lia; reflexivity.
Qed.

(** Monitoring counts the draws of at most 3 among the hundred. *)
Definition failures (dis : nat -> Z) (n len : nat) : nat := length (List.filter (fun i => dis i <=? 3) (seq n len)).

Lemma observe_calls_run dis idx n t :
  0 <= total_errors_ t -> 0 <= total_successes_ t -> total_errors_ t + total_successes_ t + Z.of_nat (length idx) < 2147483647 ->
  get_error_count INVALID_ARGUMENT t = total_errors_ t ->
  let f := Z.of_nat (failures dis n (length idx)) in
  exists t', observe_calls dis idx n t = Ret ((n + length idx)%nat, t') /\ total_errors_ t' = total_errors_ t + f
    /\ total_successes_ t' = total_successes_ t + Z.of_nat (length idx) - f /\ get_error_count INVALID_ARGUMENT t' = total_errors_ t'.
Proof.
  revert n t. induction idx as [|i idx IH]; intros n t He Hs Hb Hc; cbn [observe_calls length].
  { exists t. rewrite Nat.add_0_r. cbn. split_and!; [done|lia|lia|done]. }
  unfold failures. cbn [seq List.filter risky_operation]. unfold get_error_count in Hc. cbn [length] in Hb.
  destruct (dis n <=? 3); cbn [error_result success code].
  - unfold record_error, int_incr. rewrite Hc, (proj2 (Z.ltb_lt _ _)) by lia. cbn [mbind outcome_bind].
    destruct (IH (S n) (mkErrorTracker (<[INVALID_ARGUMENT := total_errors_ t + 1]> (error_counts_ t)) (total_errors_ t + 1) (total_successes_ t)))
      as (t' & E & H1 & H2 & H3); [cbn; lia..| |].
    { unfold get_error_count. cbn. by rewrite lookup_insert_eq. }
    exists t'. rewrite E. cbn in H1, H2. unfold failures in *. cbn [length]. split_and!; [do 2 f_equal; lia|lia|lia|done].
  - unfold record_success, int_incr. rewrite (proj2 (Z.ltb_lt _ _)) by lia. cbn [mbind outcome_bind].
    destruct (IH (S n) (mkErrorTracker (error_counts_ t) (total_errors_ t) (total_successes_ t + 1))) as (t' & E & H1 & H2 & H3); [cbn; lia..|done|].
    exists t'. rewrite E. cbn in H1, H2. unfold failures in *. split_and!; [do 2 f_equal; lia|lia|lia|done].
Qed.

Lemma monitoring_example_text dis print_double n :
  let f := Z.of_nat (failures dis n 100) in
  monitoring_example dis print_double n []
  = Ret ($"Error rate: " ++ print_double (dmul (ddiv (d_of_Z f) (d_of_Z 100)) (dlit 100 1)) ++ $"%" ++ endl
         ++ $"Invalid argument errors: " ++ print_int f ++ endl, (n + 100)%nat).
Proof.
  cbv zeta. unfold monitoring_example.
  destruct (observe_calls_run dis (map Z.of_nat (seq 0 100)) n ErrorTracker_default) as (t & E & H1 & H2 & H3); [done|done|cbn; lia|by rewrite empty_tracker_count|].
  rewrite E. cbn [mbind outcome_bind]. rewrite length_map, length_seq in H1, H2. cbn [total_errors_ total_successes_ ErrorTracker_default] in H1, H2.
  unfold get_error_rate. rewrite H3, H1, H2. replace (0 + _ + _) with 100 by lia. cbn [Z.leb Z.ltb Z.compare Pos.compare Pos.compare_cont mbind outcome_bind].
  rewrite length_map, length_seq, Z.add_0_l. generalize (Z.of_nat (failures dis n 100)) as f. generalize (n + 100)%nat as m. intros m f. cbn [app]. done.
Qed.
