(* ===== verification/LoggingExample.v ===== *)
(** * LoggingExample: the program logging/examples/logging_example.cpp

    Its five demonstrations and [main], on the log manager, the loggers and the
    performance metrics.  The state is the text written so far, the logging system and
    the number of readings of the steady clock ([steady n] is the n-th, in
    nanoseconds; sleeping only moves it).  What fmt makes of a format string and its
    arguments is the parameter [fmt].  The calls with a [LogContext] are read as the
    overload that takes one. *)

From stdpp Require Import base list gmap numbers strings.
From Stdlib Require Import ZArith Lia Ascii.
From S2P Require Import Prelude CString Floats Effects Json HttpServer HttpProps JsonTable LogConfig LogFormat Logger LogManager PerfLogger Serialization Programs.

Inductive fmt_arg : Type := FStr (s : cstr) | FInt (z : Z) | FDouble (d : double).

(** [{ body; }] with an object whose destructor is [finish]: it runs when the block is
    left, also by an exception; if it throws then, the process ends. *)
Definition scoped {S} (body finish : act S ()) : act S () := fun s =>
  match body s with
  | (Undefined, s1) => (Undefined, s1)
  | (r, s1) => match finish s1 with (Ret _, s2) => (r, s2) | (_, s2) => (Undefined, s2) end
  end.

Section LoggingExample.
Context {J : JsonLib} {L : SpdLog} {order : IterOrder}.
Context (fmt : cstr -> list fmt_arg -> outcome cstr) (fmt2 : double -> cstr) (steady : nat -> Z) (mkdir : cstr -> outcome ()).

Record demo : Type := mkDemo { text : list ascii; logs : log_world; readings : nat }.
Abbreviation dm := (act demo).

Definition on_text {A} (m : act (list ascii) A) : dm A := azoom text (fun t s => mkDemo t (logs s) (readings s)) m.
Definition on_logs {A} (m : act log_world A) : dm A := azoom logs (fun w s => mkDemo (text s) w (readings s)) m.
Definition say (s : cstr) : dm () := on_text (cout_line s).
(** A call on a logger. *)
Definition via (m : act spd ()) : dm () := on_logs (on_lib m).
Definition steady_now : dm Z := fun s => (Ret (steady (readings s)), mkDemo (text s) (logs s) (S (readings s))).

Definition demonstrate_basic_logging : dm () :=
  say (endl ++ $"=== Basic Logging Demo ===");;
  logger ← on_logs (get_logger $"demo");
  via (trace logger $"This is a trace message" LogContext_new);;
  via (debug logger $"This is a debug message" LogContext_new);;
  via (info logger $"This is an info message" LogContext_new);;
  via (warn logger $"This is a warning message" LogContext_new);;
  via (error logger $"This is an error message" LogContext_new);;
  via (critical logger $"This is a critical message" LogContext_new);;
  via (info_formatted logger (fmt $"User {} logged in from IP {}" [FStr $"john_doe"; FStr $"192.168.1.100"]));;
  via (debug_formatted logger (fmt $"Processing {} items in {:.2f}ms" [FInt 1000; FDouble (dlit 254 10)])).

Definition demonstrate_structured_logging : dm () :=
  say (endl ++ $"=== Structured Logging Demo ===");;
  logger ← on_logs (get_logger $"structured");
  context ← aof (context_of [($"user_id", json_number 12345); ($"action", json_string $"purchase");
                  ($"amount", json_double (dlit 9999 100)); ($"currency", json_string $"USD");
                  ($"transaction_id", json_string $"tx_123456789")] LogContext_new);
  via (info logger $"User completed purchase" context);;
  error_context ← aof (context_of [($"error_code", json_number 500); ($"endpoint", json_string $"/api/v1/users");
                        ($"method", json_string $"POST"); ($"user_agent", json_string $"Mozilla/5.0");
                        ($"response_time_ms", json_number 1500)] LogContext_new);
  via (error logger $"API request failed" error_context).

(** [ScopedTimer timer(logger, operation); body], with the default level. *)
Definition with_timer (logger : Logger) (operation : cstr) (body : ScopedTimer -> dm ()) : dm () :=
  start ← steady_now;
  timer ← on_logs (on_lib (ScopedTimer_new logger operation DEBUG start));
  scoped (body timer) (now ← steady_now; via (ScopedTimer_end fmt2 timer now)).
Definition at_checkpoint (timer : ScopedTimer) (name : cstr) : dm () := now ← steady_now; via (checkpoint fmt2 timer name now).

(** A call on the local [PerformanceMetrics]. *)
Definition on_perf (m : act perf_world ()) (p : PerformanceMetrics) : dm PerformanceMetrics := fun s =>
  let '(r, w) := m (mkPerfWorld (lib (logs s)) p) in
  let s' := mkDemo (text s) (mkLogWorld (plib w) (mgr (logs s))) (readings s) in
  match r with Ret _ => (Ret (pm w), s') | Throw e => (Throw e, s') | Undefined => (Undefined, s') end.

Definition demonstrate_performance_logging : dm () :=
  say (endl ++ $"=== Performance Logging Demo ===");;
  logger ← on_logs (get_logger $"performance");
  start ← steady_now;
  let metrics := PerformanceMetrics_new start in
  with_timer logger $"database_operation" (fun _ =>
    with_timer logger $"complex_calculation" (fun timer =>
      at_checkpoint timer $"validation_complete";;
      at_checkpoint timer $"processing_complete"));;
  metrics ← on_perf (record_duration fmt2 logger $"api_call" 2500) metrics;
  metrics ← on_perf (record_duration fmt2 logger $"api_call" 1800) metrics;
  metrics ← on_perf (record_count logger $"cache_hits" 15) metrics;
  metrics ← on_perf (record_count logger $"cache_misses" 3) metrics;
  metrics ← on_perf (record_memory_usage fmt2 logger $"heap" (1024 * 1024 * 50)) metrics;
  metrics ← on_perf (record_throughput fmt2 logger $"requests" (dlit 301 2)) metrics;
  now ← steady_now;
  on_perf (log_summary logger now) metrics;;
  mret tt.

(** The macros [CHAINFORGE_LOG_...]: each asks for the default logger. *)
Definition CHAINFORGE_LOG (m : Logger -> act spd ()) : dm () := logger ← on_logs get_default_logger; via (m logger).

Definition demonstrate_convenience_macros : dm () :=
  say (endl ++ $"=== Convenience Macros Demo ===");;
  CHAINFORGE_LOG (fun l => info l $"Application startup complete" LogContext_new);;
  CHAINFORGE_LOG (fun l => debug_formatted l (fmt $"Debug info: version={}, build={}" [FStr $"1.0.0"; FStr $"abc123"]));;
  CHAINFORGE_LOG (fun l => warn_formatted l (fmt $"Resource usage is high: {}%" [FInt 85]));;
  CHAINFORGE_LOG (fun l => error_formatted l (fmt $"Failed to connect to service: {}" [FStr $"database"])).

Definition demonstrate_different_loggers : dm () :=
  say (endl ++ $"=== Multiple Loggers Demo ===");;
  auth_logger ← on_logs (get_logger $"auth");
  db_logger ← on_logs (get_logger $"database");
  api_logger ← on_logs (get_logger $"api");
  via (info auth_logger $"User authentication successful" LogContext_new);;
  via (debug db_logger $"Executing query: SELECT * FROM users WHERE id = ?" LogContext_new);;
  via (warn api_logger $"Rate limit approaching for client IP" LogContext_new);;
  perf_logger ← on_logs get_performance_logger;
  via (info perf_logger $"System performance metrics recorded" LogContext_new).

Definition demonstrations : list (dm ()) :=
  [demonstrate_basic_logging; demonstrate_structured_logging; demonstrate_performance_logging;
   demonstrate_convenience_macros; demonstrate_different_loggers].

Definition main_body : dm Z :=
  say $"ChainForge Logging System Demo";;
  say $"===============================";;
  initialised ← on_logs (initialize_logging_with_defaults mkdir);
  if negb initialised then say $"Failed to initialize logging system";; mret 1
  else
    say $"Logging system initialized successfully";;
    aeach (fun d => d) demonstrations;;
    say (endl ++ $"=== Demo Complete ===");;
    say $"Check the 'logs/chainforge.log' file for JSON formatted output";;
    on_logs flush_all;;
    on_logs shutdown;;
    say $"Logging system shutdown complete";;
    mret 0.
Definition main : dm Z := atry main_body (fun e => say ($"Error: " ++ $(exn_what e));; mret 1).
End LoggingExample.

(** ** Theorems *)

Section Run.
Context {J : JsonLib} {JL : JsonLaws J} {L : SpdLog} {SL : SpdLaws L} {order : IterOrder}.
Context (fmt : cstr -> list fmt_arg -> outcome cstr) (fmt2 : double -> cstr) (steady : nat -> Z) (mkdir : cstr -> outcome ()).

Lemma say_run s (st : demo) : say s st = (Ret tt, mkDemo (text st ++ s ++ endl) (logs st) (readings st)).
Proof. done. Qed.

Lemma on_logs_throws {A} name (f : Logger -> act demo A) (st : demo) :
  no_loggers (logs st) -> exists e w', (on_logs (get_logger name) ≫= f) st = (Throw e, mkDemo (text st) w' (readings st)).
Proof.
  intros Hn. destruct (get_logger_throws name (logs st)) as (e & w' & E & _); [by rewrite Hn|].
  exists e, w'. unfold mbind, act_bind, on_logs, azoom. by rewrite E.
Qed.

(** Every demonstration prints its title and throws. *)
Definition title (d : nat) : cstr :=
  nth d [$"Basic Logging"; $"Structured Logging"; $"Performance Logging"; $"Convenience Macros"; $"Multiple Loggers"] [].

Lemma demonstration_throws n d (st : demo) :
  demonstrations fmt fmt2 steady !! n = Some d -> no_loggers (logs st) ->
  exists e w', d st = (Throw e, mkDemo (text st ++ endl ++ $"=== " ++ title n ++ $" Demo ===" ++ endl) w' (readings st)).
Proof.
  intros Hd Hn. destruct n as [|[|[|[|[|n]]]]]; [injection Hd as <-..|done];
    unfold demonstrate_basic_logging, demonstrate_structured_logging, demonstrate_performance_logging,
      demonstrate_convenience_macros, demonstrate_different_loggers; unfold mbind at 1, act_bind at 1; rewrite say_run; cbn iota beta.
  4: match goal with |- context [(CHAINFORGE_LOG ?m;; ?k) ?s] =>
       destruct (on_logs_throws $"chainforge" (fun l => via (m l)) s Hn) as (e & w' & E) end;
     exists e, w'; unfold mbind at 1, act_bind at 1; unfold CHAINFORGE_LOG at 1, get_default_logger; rewrite E; done.
  all: match goal with |- context [(on_logs (get_logger ?nm) ≫= ?f) ?s] =>
         destruct (on_logs_throws nm f s Hn) as (e & w' & E) end; exists e, w'; rewrite E; done.
Qed.
End Run.

Definition lines (l : list cstr) : cstr := concat (map (fun s => s ++ endl) l).

(** The logging example never gets past its first demonstration.  Whatever spdlog,
    fmt, the clock and the file system do, the program exits with code 1: either the
    log directory or file cannot be made, which it reports, or the first call of
    [get_logger] throws and the text ends with the error; none of the five
    demonstrations logs anything, and "Demo Complete" is never printed. *)
Theorem logging_example_fails {J : JsonLib} {JL : JsonLaws J} {L : SpdLog} {SL : SpdLaws L} {order : IterOrder}
    (fmt : cstr -> list fmt_arg -> outcome cstr) (fmt2 : double -> cstr) (steady : nat -> Z) (mkdir : cstr -> outcome ()) (w0 : spd) :
  (forall d, mkdir d <> Undefined) ->
  let w := mkLogWorld w0 LogManager_new in
  let '(r, st) := main fmt fmt2 steady mkdir (mkDemo [] w 0) in
  r = Ret 1
  /\ exists e, text st = lines ([$"ChainForge Logging System Demo"; $"==============================="]
       ++ if decide (fst (initialize_logging_with_defaults mkdir w) = Ret true)
          then [$"Logging system initialized successfully"; []; $"=== Basic Logging Demo ==="; $"Error: " ++ e]
          else [$"Failed to initialize logging system"]).
Proof.
  intros Hd w. unfold main, atry, main_body. do 2 (unfold mbind at 1, act_bind at 1; rewrite say_run; cbn iota beta).
  destruct (defaults_answer mkdir w Hd) as (b & w1 & E & Hn); [done|]. unfold mbind at 1, act_bind at 1. unfold on_logs at 1, azoom at 1.
  cbn [logs text readings app]. rewrite E. cbn [fst]. destruct b; cbn [negb].
  - unfold mbind at 1, act_bind at 1. rewrite say_run. cbn [logs text readings].
    unfold mbind at 1, act_bind at 1. unfold demonstrations, aeach. unfold mbind at 1, act_bind at 1.
    match goal with |- context [demonstrate_basic_logging _ ?s] =>
      destruct (demonstration_throws fmt fmt2 steady 0 _ s eq_refl Hn) as (e & w2 & E2) end. rewrite E2. cbn [text readings].
    unfold mbind at 1, act_bind at 1. rewrite say_run. cbn. split; [done|]. exists $(exn_what e). rewrite decide_True by done.
    unfold lines. cbn. by rewrite app_nil_r.
  - unfold mbind at 1, act_bind at 1. rewrite say_run. split; [done|]. exists []. rewrite decide_False by done. done.
Qed.

Lemma logging_example_fails_witness :
  fst (main (J := table_json []) (L := mini) (order := map_order) (fun f _ => Ret f) (fun _ => []) Z.of_nat (fun _ => Ret tt)
         (mkDemo (J := table_json []) (L := mini) [] (mkLogWorld (L := mini) mini_empty LogManager_new) 0)) = Ret 1.
Proof.
  pose proof (logging_example_fails (J := table_json []) (L := mini) (order := map_order) (fun f _ => Ret f) (fun _ => []) Z.of_nat
    (fun _ => Ret tt) mini_empty ltac:(discriminate)) as H. cbv zeta in H.
  destruct (main _ _ _ _ _) as [r st]. by destruct H as [-> _].
Defined.

(** What it prints when the log file can be made. *)
Example logging_example_output :
  text (snd (main (J := table_json []) (L := mini) (order := map_order) (fun f _ => Ret f) (fun _ => []) Z.of_nat (fun _ => Ret tt)
    (mkDemo (J := table_json []) (L := mini) [] (mkLogWorld (L := mini) mini_empty LogManager_new) 0)))
  = lines [$"ChainForge Logging System Demo"; $"==============================="; $"Logging system initialized successfully"; [];
           $"=== Basic Logging Demo ==="; $"Error: logger already exists"].
Proof. vm_compute. reflexivity. Qed.
