(* ===== verification/MetricsExample.v ===== *)
(** * MetricsExample: the program metrics/examples/metrics_example.cpp

    Its six demonstrations and [main], on the metrics registry, the wrappers, the
    catalogue, the metered logger, the metrics server and the log manager; the macros of
    counter.hpp, gauge.hpp and histogram.hpp.  prometheus-cpp is a parameter: the
    metrics it makes ([PromLib]), compared as the addresses they are, and the value a
    gauge of it shows ([PromGauge]); what the program did to each metric is kept by
    metric.  Random numbers ([draw]), the steady clock ([steady], in nanoseconds) and
    the text of a double ([print_double]) are parameters.  [std::cout] and [std::cerr]
    are two texts. *)

From stdpp Require Import base list gmap numbers strings.
From Stdlib Require Import ZArith Lia Ascii.
From S2P Require Import Prelude CString Floats Effects Json HttpServer HttpProps JsonTable LogConfig LogFormat Logger LogManager.
From S2P Require Import Metrics ChainForgeMetrics MetricsCatalogue MetricWrappers Serialization Programs LoggingExample.

Section MetricsExample.
Context {J : JsonLib} {L : SpdLog} {order : IterOrder} {env : Env} {P : PromLib} {Met_eq : EqDecision Met} {G : PromGauge}.
Context (print_double : double -> list ascii) (draw : nat -> double) (steady : nat -> Z) (mkdir : cstr -> outcome ()).

(** What was done to each metric: the latest entry counts. *)
Fixpoint entry_of {A} (m : Met) (l : list (Met * A)) : option A :=
  match l with [] => None | (m', a) :: l' => if decide (m = m') then Some a else entry_of m l' end.
Record store : Type := mkStore {
  counter_vals : list (Met * SimpleCounter);
  gauge_calls : list (Met * list gauge_call);
  histogram_calls : list (Met * list histogram_call)
}.

Record mdemo : Type := mkMDemo {
  mtext : list ascii;
  merr : list ascii;
  registry : world (MetricsRegistry P) prom_call;
  vals : store;
  chain : ChainForgeMetrics P;
  logging : LoggingMetrics (P := P);
  mlogs : log_world;
  server : GlobalMetricsServer;
  draws : nat;
  mreadings : nat
}.
Abbreviation mm := (act mdemo).

Definition on_text {A} (m : act (list ascii) A) : mm A :=
  azoom mtext (fun t s => mkMDemo t (merr s) (registry s) (vals s) (chain s) (logging s) (mlogs s) (server s) (draws s) (mreadings s)) m.
Definition on_errors {A} (m : act (list ascii) A) : mm A :=
  azoom merr (fun t s => mkMDemo (mtext s) t (registry s) (vals s) (chain s) (logging s) (mlogs s) (server s) (draws s) (mreadings s)) m.
Definition on_logs {A} (m : act log_world A) : mm A :=
  azoom mlogs (fun w s => mkMDemo (mtext s) (merr s) (registry s) (vals s) (chain s) (logging s) w (server s) (draws s) (mreadings s)) m.
Definition on_vals (f : store -> store) : mm () :=
  aput (fun s => mkMDemo (mtext s) (merr s) (registry s) (f (vals s)) (chain s) (logging s) (mlogs s) (server s) (draws s) (mreadings s)).
Definition on_server (f : GlobalMetricsServer -> GlobalMetricsServer) : mm () :=
  aput (fun s => mkMDemo (mtext s) (merr s) (registry s) (vals s) (chain s) (logging s) (mlogs s) (f (server s)) (draws s) (mreadings s)).
Definition set_chain (c : ChainForgeMetrics P) : mm () :=
  aput (fun s => mkMDemo (mtext s) (merr s) (registry s) (vals s) c (logging s) (mlogs s) (server s) (draws s) (mreadings s)).
Definition on_metrics {A} (m : eff (MetricsRegistry P) prom_call A) : mm A := fun s =>
  match m (registry s) with
  | Ret (a, w) => (Ret a, mkMDemo (mtext s) (merr s) w (vals s) (chain s) (logging s) (mlogs s) (server s) (draws s) (mreadings s))
  | Throw e => (Throw e, s)
  | Undefined => (Undefined, s)
  end.
Definition on_metered {A} (m : act (metered P) A) : mm A := azoom
  (fun s => mkMetered (logging s) (registry s) (lib (mlogs s)))
  (fun t s => mkMDemo (mtext s) (merr s) (reg t) (vals s) (chain s) (lm t) (mkLogWorld (slog t) (mgr (mlogs s))) (server s) (draws s) (mreadings s)) m.
Definition steady_now : mm Z := fun s => (Ret (steady (mreadings s)),
  mkMDemo (mtext s) (merr s) (registry s) (vals s) (chain s) (logging s) (mlogs s) (server s) (draws s) (S (mreadings s))).
Definition random_draw : mm double := fun s => (Ret (draw (draws s)),
  mkMDemo (mtext s) (merr s) (registry s) (vals s) (chain s) (logging s) (mlogs s) (server s) (S (draws s)) (mreadings s)).
(** A line to [std::cout] and one to [std::cerr]. *)
Definition say (s : cstr) : mm () := on_text (cout_line s).
Definition complain (s : cstr) : mm () := on_errors (cout_line s).

(** ** Updates through a handle *)

Definition counter_at (k : Met) (v : store) : SimpleCounter := default SimpleCounter_default (entry_of k (counter_vals v)).
Definition set_counter (k : Met) (c : SimpleCounter) : mm () :=
  on_vals (fun v => mkStore ((k, c) :: counter_vals v) (gauge_calls v) (histogram_calls v)).
Definition increment (k : Met) : mm () := c ← aget (fun s => counter_at k (vals s)); set_counter k (Counter_increment c).
Definition increment_by (k : Met) (value : double) : mm () :=
  c ← aget (fun s => counter_at k (vals s)); c ← aof (Counter_increment_by value c); set_counter k c.
Definition counter_now (k : Met) : mm double := aget (fun s => Counter_value (counter_at k (vals s))).

Definition gauge_at (k : Met) (v : store) : list gauge_call := default [] (entry_of k (gauge_calls v)).
Definition on_gauge (k : Met) (calls : list gauge_call) : mm () :=
  on_vals (fun v => mkStore (counter_vals v) ((k, gauge_at k v ++ calls) :: gauge_calls v) (histogram_calls v)).
Definition gauge_now (k : Met) : mm double := aget (fun s => Gauge_value (gauge_at k (vals s))).

Definition on_histogram (k : Met) (calls : list histogram_call) : mm () :=
  on_vals (fun v => mkStore (counter_vals v) (gauge_calls v)
                      ((k, default [] (entry_of k (histogram_calls v)) ++ calls) :: histogram_calls v)).

(** [HistogramTimer timer(h); body]; the pointer may be null. *)
Definition with_histogram_timer (h : option Met) (body : HistogramTimer -> mm ()) : mm () :=
  start ← steady_now;
  let timer := HistogramTimer_new (bool_decide (is_Some h)) start in
  scoped (body timer)
    (match h with
     | Some k => now ← steady_now; on_histogram k (HistogramTimer_end timer now)
     | None => mret tt
     end).

(** ** The macros *)

Definition AUTO (kind : cstr) : cstr := $"Auto-generated " ++ kind ++ $" from macro".
Definition CHAINFORGE_COUNTER_INC (name : cstr) : mm () :=
  counter ← on_metrics (create_counter name (AUTO $"counter") []); increment counter.
Definition CHAINFORGE_COUNTER_ADD (name : cstr) (value : double) : mm () :=
  counter ← on_metrics (create_counter name (AUTO $"counter") []); increment_by counter value.
Definition CHAINFORGE_GAUGE_SET (name : cstr) (value : double) : mm () :=
  gauge ← on_metrics (create_gauge name (AUTO $"gauge") []); on_gauge gauge (Gauge_set value).
Definition CHAINFORGE_GAUGE_INC (name : cstr) : mm () :=
  gauge ← on_metrics (create_gauge name (AUTO $"gauge") []); on_gauge gauge (Gauge_increment done_).
Definition CHAINFORGE_GAUGE_DEC (name : cstr) : mm () :=
  gauge ← on_metrics (create_gauge name (AUTO $"gauge") []); on_gauge gauge (Gauge_decrement done_).
Definition CHAINFORGE_GAUGE_TRACK (name : cstr) (value : double) (body : mm ()) : mm () :=
  gauge ← on_metrics (create_gauge name (AUTO $"gauge") []);
  let '(tracker, calls) := GaugeTracker_new true value in
  on_gauge gauge calls;;
  scoped body (on_gauge gauge (GaugeTracker_end tracker)).
Definition CHAINFORGE_HISTOGRAM_OBSERVE (name : cstr) (value : double) : mm () :=
  histogram ← on_metrics (create_histogram name (AUTO $"histogram") [] []); on_histogram histogram (Histogram_observe value).
Definition CHAINFORGE_HISTOGRAM_TIMER (name : cstr) (body : mm ()) : mm () :=
  histogram ← on_metrics (create_histogram name (AUTO $"histogram") [] []); with_histogram_timer (Some histogram) (fun _ => body).

(** ** create_metrics_logger *)

Definition create_metrics_logger (name : cstr) : mm MetricsLogger :=
  logger ← on_logs (get_logger name); on_metered (MetricsLogger_new logger).

(** ** The demonstrations *)

Definition demonstrate_basic_metrics : mm () :=
  say (endl ++ $"=== Basic Metrics Demo ===");;
  requests_counter ← on_metrics (create_counter $"http_requests_total" $"Total HTTP requests" [($"method", $"GET"); ($"status", $"200")]);
  active_connections ← on_metrics (create_gauge $"active_connections" $"Number of active connections" []);
  request_duration ← on_metrics (create_histogram $"http_request_duration_seconds" $"HTTP request duration" HTTP_REQUEST_DURATION []);
  aeach (fun i =>
    increment requests_counter;;
    on_gauge active_connections (Gauge_set (d_of_Z (i + 1)));;
    d ← random_draw;
    on_histogram request_duration (Histogram_observe d)) [0; 1; 2; 3; 4; 5; 6; 7; 8; 9];;
  v ← counter_now requests_counter;
  say ($"Counter value: " ++ print_double v);;
  v ← gauge_now active_connections;
  say ($"Gauge value: " ++ print_double v).

Definition demonstrate_histogram_timer : mm () :=
  say (endl ++ $"=== Histogram Timer Demo ===");;
  processing_time ← on_metrics (create_histogram $"data_processing_duration_seconds" $"Time spent processing data" [] []);
  with_histogram_timer (Some processing_time) (fun timer =>
    say $"Processing data...";;
    now ← steady_now;
    say ($"Checkpoint - elapsed: " ++ print_int (htimer_elapsed timer now) ++ $" microseconds"));;
  CHAINFORGE_HISTOGRAM_TIMER $"macro_processing_time" (say $"Processing with macro timer...").

(** The block of the tracker does not throw. *)
Definition demonstrate_gauge_tracker : mm () :=
  say (endl ++ $"=== Gauge Tracker Demo ===");;
  memory_usage ← on_metrics (create_gauge $"memory_usage_mb" $"Memory usage in MB" []);
  v ← gauge_now memory_usage;
  say ($"Initial memory usage: " ++ print_double v ++ $" MB");;
  let '(tracker, calls) := GaugeTracker_new true (d_of_Z 50) in
  on_gauge memory_usage calls;;
  v ← gauge_now memory_usage;
  say ($"Allocated 50MB, current usage: " ++ print_double v ++ $" MB");;
  let '(tracker, calls) := tracker_update (d_of_Z 75) tracker in
  on_gauge memory_usage calls;;
  v ← gauge_now memory_usage;
  say ($"Reallocated to 75MB, current usage: " ++ print_double v ++ $" MB");;
  on_gauge memory_usage (GaugeTracker_end tracker);;
  v ← gauge_now memory_usage;
  say ($"Memory freed, current usage: " ++ print_double v ++ $" MB").

(** [metrics.m()] and a use of it: a null pointer must not be dereferenced. *)
Definition member_ptr (m : member) : mm (option Met) := aget (fun s => getter m (chain s)).
Definition member_of (m : member) : mm Met :=
  p ← member_ptr m; aof (match p with Some k => Ret k | None => Undefined end).

Definition initialize_chainforge_metrics : mm () :=
  c ← aget chain; c ← on_metrics (initialize_metrics c); set_chain c.

Definition process_transaction : mm () :=
  k ← member_of transactions_processed_total; increment k;;
  d ← random_draw;
  k ← member_of transaction_processing_duration; on_histogram k (Histogram_observe d).

Definition process_block (block : Z) : mm () :=
  say ($"Processing block " ++ print_int block ++ $"...");;
  timed ← member_ptr block_processing_duration;
  with_histogram_timer timed (fun _ =>
    k ← member_of current_block_height; on_gauge k (Gauge_set (d_of_Z block));;
    k ← member_of block_size_bytes; on_histogram k (Histogram_observe (d_of_Z (1024 * (100 + block * 50))));;
    let tx_count := 5 + block * 2 in
    aeach (fun _ => process_transaction) (replicate (Z.to_nat tx_count) tt));;
  k ← member_of blocks_processed_total; increment k.

Definition demonstrate_chainforge_metrics : mm () :=
  say (endl ++ $"=== ChainForge Metrics Demo ===");;
  initialize_chainforge_metrics;;
  aeach process_block [1; 2; 3; 4; 5];;
  k ← member_of connected_peers; on_gauge k (Gauge_set (d_of_Z 15));;
  k ← member_of network_messages_sent_total; increment_by k (d_of_Z 100);;
  k ← member_of network_messages_received_total; increment_by k (d_of_Z 120);;
  k ← member_of active_validators; on_gauge k (Gauge_set (d_of_Z 21));;
  k ← member_of consensus_rounds_total; increment k;;
  k ← member_of blocks_processed_total; v ← counter_now k;
  say ($"Blocks processed: " ++ print_double v);;
  k ← member_of current_block_height; v ← gauge_now k;
  say ($"Current block height: " ++ print_double v);;
  k ← member_of transactions_processed_total; v ← counter_now k;
  say ($"Transactions processed: " ++ print_double v).

Definition demonstrate_metrics_logging_integration : mm () :=
  say (endl ++ $"=== Metrics + Logging Integration Demo ===");;
  initialised ← on_logs (initialize_logging_with_defaults mkdir);
  if negb initialised then complain $"Failed to initialize logging"
  else
    metrics_logger ← create_metrics_logger $"integration_demo";
    on_metered (MetricsLogger_info metrics_logger $"Application started" LogContext_new);;
    on_metered (MetricsLogger_debug metrics_logger $"Debug information" LogContext_new);;
    on_metered (MetricsLogger_warn metrics_logger $"Warning message" LogContext_new);;
    on_metered (MetricsLogger_error metrics_logger $"Error occurred" LogContext_new);;
    say $"Logged 4 messages with automatic metrics collection";;
    CHAINFORGE_COUNTER_INC $"custom_events";;
    CHAINFORGE_GAUGE_SET $"system_load" (dlit 3 4);;
    on_logs shutdown.

Definition demonstrate_convenience_macros : mm () :=
  say (endl ++ $"=== Convenience Macros Demo ===");;
  CHAINFORGE_COUNTER_INC $"api_calls";;
  CHAINFORGE_COUNTER_ADD $"bytes_processed" (d_of_Z 1024);;
  CHAINFORGE_GAUGE_SET $"cpu_usage" (dlit 131 2);;
  CHAINFORGE_GAUGE_INC $"active_sessions";;
  CHAINFORGE_GAUGE_DEC $"active_sessions";;
  CHAINFORGE_HISTOGRAM_TIMER $"operation_duration" (say $"Performing timed operation...");;
  say $"Macros demonstration complete".

(** [config] with the defaults of the header. *)
Definition example_config : MetricsServerConfig := mkMetricsServerConfig $"127.0.0.1" 18080 $"/metrics" 1 true.

Definition start_server : mm () :=
  g ← aget server;
  let '(started, g', text) := start_metrics_server example_config g in
  on_text (cout text);;
  on_server (fun _ => g');;
  if started then say ($"Metrics server started at: " ++ get_metrics_url g')
  else say $"Failed to start metrics server, continuing with demo...".

(** After the demonstrations; [std::cin.get()] only waits. *)
Definition finish : mm Z :=
  say (endl ++ $"=== Demo Complete ===");;
  n ← on_metrics metrics_count;
  say ($"Total metrics created: " ++ print_dec n);;
  g ← aget server;
  (if is_metrics_server_running g then
     say ($"Visit " ++ get_metrics_url g ++ $" to see Prometheus metrics");;
     on_text (cout $"Press Enter to stop metrics server and exit...")
   else mret tt);;
  g ← aget server;
  let '(g', text) := stop_metrics_server g in
  on_text (cout text);;
  on_server (fun _ => g');;
  say $"Metrics server stopped";;
  mret 0.

(** [main] up to the demonstration that uses the logging system. *)
Definition before_logging : mm () :=
  say $"ChainForge Metrics System Demo";;
  say $"===============================";;
  start_server;;
  demonstrate_basic_metrics;;
  demonstrate_histogram_timer;;
  demonstrate_gauge_tracker;;
  demonstrate_chainforge_metrics.

Definition main : mm Z := atry
  (before_logging;; demonstrate_metrics_logging_integration;; demonstrate_convenience_macros;; finish)
  (fun e => complain ($"Error: " ++ $(exn_what e));; mret 1).

Definition start (w : log_world) : mdemo :=
  mkMDemo [] [] (idle MetricsRegistry_default) (mkStore [] [] []) ChainForgeMetrics_default LoggingMetrics_default w (mkGlobal [] None) 0 0.
End MetricsExample.

(** ** Theorems *)

Section Run.
Context {J : JsonLib} {L : SpdLog} {order : IterOrder} {env : Env} {P : PromLib} {Met_eq : EqDecision Met} {G : PromGauge}.
Context (print_double : double -> list ascii) (draw : nat -> double) (steady : nat -> Z).

Definition URL : cstr := $"http://127.0.0.1:18080/metrics".
Definition integration_title : cstr := endl ++ $"=== Metrics + Logging Integration Demo ===".
(** What the program prints after the demonstration that uses the logging system. *)
Definition after_lines : list cstr :=
  [endl ++ $"=== Convenience Macros Demo ==="; $"Performing timed operation...";
   $"Macros demonstration complete"; endl ++ $"=== Demo Complete ==="; $"Total metrics created: 36";
   $"Visit " ++ URL ++ $" to see Prometheus metrics"].
Definition PRESS : cstr := $"Press Enter to stop metrics server and exit...".

(** The state with more text and another logging system. *)
Definition said (out err : list cstr) (w : log_world) (s : mdemo) : mdemo :=
  mkMDemo (mtext s ++ lines out) (merr s ++ lines err) (registry s) (vals s) (chain s) (logging s) w (server s) (draws s) (mreadings s).

Lemma said_more o e w o' e' w' s : said o' e' w' (said o e w s) = said (o ++ o') (e ++ e') w' s.
Proof. unfold said, lines. cbn. by rewrite !map_app, !concat_app, !app_assoc. Qed.
Lemma say_said t (s : mdemo) : say t s = (Ret tt, said [t] [] (mlogs s) s).
Proof. destruct s. unfold said, say, on_text, azoom, cout_line, lines. cbn. by rewrite !app_nil_r. Qed.
Lemma complain_said t (s : mdemo) : complain t s = (Ret tt, said [] [t] (mlogs s) s).
Proof. destruct s. unfold said, complain, on_errors, azoom, cout_line, lines. cbn. by rewrite !app_nil_r. Qed.

Definition running_server : GlobalMetricsServer := mkGlobal [mkMetricsServer example_config true] (Some 0%nat).
Definition stopped_server : GlobalMetricsServer := mkGlobal [mkMetricsServer example_config false] None.

(** Timers compute with the clock, which the runs below leave uninterpreted. *)
Ltac run_program :=
  unfold before_logging, demonstrate_histogram_timer, demonstrate_chainforge_metrics, demonstrate_convenience_macros,
    process_block, CHAINFORGE_HISTOGRAM_TIMER, with_histogram_timer;
  generalize print_int; generalize htimer_elapsed; generalize HistogramTimer_end; intros ? ? ?;
  destruct env as [[|] ?]; vm_compute; reflexivity.

Lemma before_run (w : log_world) :
  let s := snd (before_logging print_double draw steady (start w)) in
  fst (before_logging print_double draw steady (start w)) = Ret tt
  /\ mlogs s = w /\ server s = running_server /\ merr s = [].
Proof. split_and!; run_program. Qed.

(** The texts printed one after the other. *)
Definition ending : list (list ascii) :=
  map (fun l => l ++ endl) after_lines ++ [PRESS; $"Metrics server stopped" ++ endl; $"Metrics server stopped" ++ endl].
Lemma fold_app_concat (l : list (list ascii)) t : fold_left app l t = t ++ concat l.
Proof. revert t. induction l as [|x l IH]; intros t; cbn; [by rewrite app_nil_r|]. by rewrite IH, app_assoc. Qed.

Lemma after_run (w : log_world) (t e : list ascii) v c l wl n k :
  let s := mkMDemo t e (registry (snd (before_logging print_double draw steady (start w)))) v c l wl running_server n k in
  let run := (demonstrate_convenience_macros steady;; finish) s in
  fst run = Ret 0 /\ mtext (snd run) = fold_left app ending t /\ merr (snd run) = e /\ server (snd run) = stopped_server.
Proof. split_and!; run_program. Qed.
End Run.

Lemma integration_run {J : JsonLib} {JL : JsonLaws J} {L : SpdLog} {SL : SpdLaws L} {order : IterOrder} {env : Env}
    {P : PromLib} {Met_eq : EqDecision Met} (mkdir : cstr -> outcome ()) (s : mdemo) :
  (forall d, mkdir d <> Undefined) -> no_loggers (mlogs s) ->
  exists w', if decide (fst (initialize_logging_with_defaults mkdir (mlogs s)) = Ret true)
    then exists e, demonstrate_metrics_logging_integration mkdir s = (Throw e, said [integration_title] [] w' s)
    else demonstrate_metrics_logging_integration mkdir s = (Ret tt, said [integration_title] [$"Failed to initialize logging"] w' s).
Proof.
  intros Hd Hn. destruct (defaults_answer mkdir (mlogs s) Hd Hn) as (b & w1 & E & Hn1). rewrite E. cbn [fst].
  unfold demonstrate_metrics_logging_integration. rewrite (act_bind_ret _ _ _ _ _ (say_said integration_title s)).
  rewrite (act_bind_ret (on_logs _) _ _ _ _ (azoom_run mlogs _ _ (said [integration_title] [] (mlogs s) s) _ _ E)). destruct b; cbn [negb].
  - destruct (get_logger_throws $"integration_demo" w1) as (e & w2 & E2 & _); [by rewrite Hn1|]. exists w2. rewrite decide_True by done.
    exists e. apply act_bind_throw. unfold create_metrics_logger. apply act_bind_throw. exact (azoom_run mlogs _ _ (said [integration_title] [] w1 s) _ _ E2).
  - exists w1. rewrite decide_False by done. rewrite complain_said. f_equal. exact (said_more [integration_title] [] w1 [] [$"Failed to initialize logging"] w1 s).
Qed.

(** The metrics example fails exactly when the logging system works.  Whatever numbers
    it draws and whatever the clock, prometheus-cpp, spdlog and the file system do, the
    program comes to the demonstration that uses the logging system with its server
    running.  If the logging system can then be initialised, creating the metered logger
    throws: [std::cerr] has the error, the exit code is 1 and the server is still
    running.  If it cannot, [std::cerr] says so, the program goes on, reports 36
    metrics, stops the server, which is printed twice (once by the server), and exits
    with 0.  The texts are those when [main] returns. *)
Theorem metrics_example_run {J : JsonLib} {JL : JsonLaws J} {L : SpdLog} {SL : SpdLaws L} {order : IterOrder} {env : Env}
    {P : PromLib} {Met_eq : EqDecision Met} {G : PromGauge}
    (print_double : double -> list ascii) (draw : nat -> double) (steady : nat -> Z) (mkdir : cstr -> outcome ()) (w0 : spd) :
  (forall d, mkdir d <> Undefined) ->
  let w := mkLogWorld w0 LogManager_new in
  let before := mtext (snd (before_logging print_double draw steady (start w))) in
  let '(r, st) := main print_double draw steady mkdir (start w) in
  if decide (fst (initialize_logging_with_defaults mkdir w) = Ret true)
  then r = Ret 1 /\ is_metrics_server_running (server st) = true /\ mtext st = before ++ lines [integration_title]
       /\ exists e, merr st = lines [$"Error: " ++ e]
  else r = Ret 0 /\ is_metrics_server_running (server st) = false /\ merr st = lines [$"Failed to initialize logging"]
       /\ mtext st = before ++ lines [integration_title] ++ concat ending.
Proof.
  intros Hd w before. destruct (before_run print_double draw steady w) as (Hr & Hl & Hs & He). subst before.
  unfold main, atry. destruct (before_logging print_double draw steady (start w)) as [r0 s1] eqn:Eb.
  cbn [fst snd] in *. subst r0. rewrite (act_bind_ret _ _ _ _ _ Eb).
  destruct (integration_run mkdir s1 Hd) as (w' & Hi); [by rewrite Hl|]. rewrite Hl in Hi.
  case_decide; [destruct Hi as [e Hi]; rewrite (act_bind_throw _ _ _ _ _ Hi)|rewrite (act_bind_ret _ _ _ _ _ Hi)].
  - rewrite (act_bind_ret _ _ _ _ _ (complain_said _ _)), said_more. unfold mret, act_ret. cbn [said server mtext merr app].
    rewrite Hs, He. split_and!; [done..|]. by exists $(exn_what e).
  - destruct s1 as [t er rg v c l wl sv n k]. cbn [server mlogs merr mtext] in *. subst sv er wl.
    pose proof (after_run print_double draw steady w (t ++ lines [integration_title]) (lines [$"Failed to initialize logging"]) v c l w' n k) as Ha.
    rewrite Eb in Ha. cbn [snd registry] in Ha. unfold said. cbn [mtext merr registry vals chain logging server draws mreadings app]. cbv zeta in Ha.
    destruct ((demonstrate_convenience_macros steady;; finish) _) as [r2 s2]. cbn [fst snd] in Ha. destruct Ha as (-> & Hta & Hea & Hsa).
    split_and!; [done|by rewrite Hsa|done|]. by rewrite Hta, fold_app_concat, <- app_assoc.
Qed.

(** With a log directory the program fails, without one it succeeds. *)
#[local] Existing Instance unit_prom.
Definition demo_run (mkdir : cstr -> outcome ()) : outcome Z :=
  fst (main (J := table_json []) (L := mini) (order := map_order) (env := std_env (fun _ => 0)) (G := double_gauge) (fun _ => $"?") (fun _ => dlit 1 2)
         Z.of_nat mkdir (start (J := table_json []) (L := mini) (mkLogWorld (L := mini) mini_empty LogManager_new))).

Lemma metrics_example_run_witness : demo_run (fun _ => Ret tt) = Ret 1 /\ demo_run (fun _ => Throw (runtime_error "denied")) = Ret 0.
Proof.
  unfold demo_run. split.
  - pose proof (metrics_example_run (J := table_json []) (L := mini) (order := map_order) (env := std_env (fun _ => 0)) (G := double_gauge) (fun _ => $"?")
      (fun _ => dlit 1 2) Z.of_nat (fun _ => Ret tt) mini_empty ltac:(discriminate)) as H. cbv zeta in H.
    destruct (main _ _ _ _ _) as [r st]. rewrite decide_True in H by (vm_compute; reflexivity). by destruct H as [-> _].
  - pose proof (metrics_example_run (J := table_json []) (L := mini) (order := map_order) (env := std_env (fun _ => 0)) (G := double_gauge) (fun _ => $"?")
      (fun _ => dlit 1 2) Z.of_nat (fun _ => Throw (runtime_error "denied")) mini_empty ltac:(discriminate)) as H. cbv zeta in H.
    destruct (main _ _ _ _ _) as [r st]. rewrite decide_False in H by (vm_compute; discriminate). by destruct H as [-> _].
Defined.
